(* ===== verification/_CoqProject ===== *)
-Q . S2P
Prelude.v
EventQ.v
Sched.v
Packet.v
Port.v
Probe.v
DramCommon.v
BankState.v
Config.v
Timing.v
ChannelState.v
Stats.v
Power.v
Report.v
ThermalSolver.v
Thermal.v
ThermalReplay.v
CommandQueue.v
Refresh.v
Controller.v
Schedule.v
DramSystem.v
ThermalSystem.v
Xbar.v
Hmc.v
MemorySystem.v
Cpu.v
Memory.v
Names.v
DramArb.v
UpBuffer.v
DramBuffer.v
System.v
