(* ===== verification/Prelude.v ===== *)
(** * A network-on-chip memory simulator, verified

    The program simulates the memory path of an accelerator: request generators
    ask an arbiter for reads, the arbiter hands them to eight memory objects, and
    these use a vendored copy of DRAMsim3 to find out when each read completes.
    Everything runs on one event queue. This library models the program's own
    code (src/src) and the DRAM library (src/DRAMsim3-master/src) and proves what
    makes them correct.

    ** How the parts interact

    - [EventQ], [Sched]: src/event. One queue of events with a time and a
      priority; a module schedules its own events and is called back by them.
    - [Packet], [Port], [Probe], [Names]: src/common, src/probe. Packets, the
      ports that bind two modules, named probe points, the numbers in port names.
    - [DramArb]: src/dram/dram_arb. Per bank, buffers for each upstream, round
      robin towards the memory, and the way back of each response.
    - [Memory]: src/dram/dramsim3, dramsim3_wrapper. One object per channel with
      the packets it waits for, and the wrapper that drives the library's clock
      and gets its completion callbacks.
    - [DramSystem] (dram_system), [Controller] (controller),
      [CommandQueue] (command_queue), [Refresh] (refresh), [ChannelState]
      (channel_state), [BankState] (bankstate), [Timing] (timing), [Stats]
      (simple_stats), [Config] (configuration), [DramCommon] (common): the DRAM
      library, from a system of channels down to the state of one bank.
    - [Power] (the power figures of configuration), [Report] (the reports of
      simple_stats and dram_system): energies, averages and output files, on top of
      the counters of [Stats]; no decision of the simulation reads them.
    - [ThermalSolver] (thermal_solver, thermal_config), [Thermal] (thermal and the
      thermal section of configuration), [ThermalReplay] (thermal_replay): where the
      energy of each command goes on the floor plan, the temperatures that follow, and
      the replay of a command trace; compiled in by an option. [ThermalSystem]
      (controller, dram_system): the JEDEC system built with that option.
    - [MemorySystem] (memory_system), [Cpu] (cpu, main): the library's face, which
      chooses the kind of system, and the stand-alone program with its three clients.
    - [Xbar], [Hmc] (hmc): the third kind of system, with links, a crossbar in each
      direction and a controller per vault, under two clocks.
    - [UpBuffer]: src/buffer/UpBuffer. The request generators: one read per port at
      the start, then a new one on every port when a response has arrived.
    - [DramBuffer]: src/dram/dram, src/buffer/buffer. A memory with one packet and its
      buffer, which [main] does not create.
    - [System]: src/main.cpp. The objects, the bindings of their ports, the events
      and the loop; its world holds all components, and each handler reaches its
      peers through the ports that [main] bound.

    ** How the code is modelled

    State is explicit: a C++ class is a [Record], a method a function from the
    state to a result. [exc A] is a value or an exception ([Prelude]): a failed
    [assert], [AbruptExit], a C++ exception or undefined behaviour is [err] with
    its kind, so that a theorem "= ok ..." says that none of these happens.
    Code that reaches several objects runs in a state monad [M W] over a world
    [W]; a component finds its own part of the world by the class [Has], and
    [Apart] says that two parts do not overlap. So a handler is written and
    proved once, for every world that contains its component, and components are
    put together by instances. Three interfaces separate the components:
    [Sched.SchedulerOk] (what a module may rely on when it schedules; the event
    queue implements it), [DramSystem.DRAMSystemOk] (accepted requests complete
    exactly once; the JEDEC, ideal and HMC systems and the thermal build implement it) and
    [DramArb.peers_ok] (what the arbiter relies on of memory and upstreams).

    A [double] is an executable IEEE number ([Power.double]). Integers are [Z]. Where the code uses unsigned types the wrap-around is
    written out ([u32], [u64]); signed overflow is undefined behaviour in C++, and
    the theorems bound the clocks ([< 2^63]) where it could occur. Arrays and
    vectors are lists read by [vec_get], which is [UndefinedBehaviour] out of
    range. Objects that the code reaches through pointers (events, ports, probe
    points, packets) live in a store and are named by identifiers. Hash maps are
    [gmap]s; multimaps whose entries keep their insertion order are lists.
    Functions of vendored code are parameters (the INI reader of [Config]), and
    so are the functions of the module at the other end of a port.

    ** What the theorems show

    - Event queue: scheduling and servicing the pointer-linked list refine a
      priority queue; events are processed in order of time, priority and
      recency; the clock never goes back; descheduling undoes scheduling.
    - Banks and channel: every trace of commands the controller may issue
      respects the delays of the timing tables (but the recovery from a per-bank
      refresh, which the code does not wait for) and the activation windows; a
      bank asks for the command its request needs; an issued command never aborts
      the bank state machine; a bank makes progress.
    - Queues, refresh, controller: without self refresh (with it a tick can abort)
      and under the other conditions of [ctrl_cfg] a clock tick never fails;
      requests are neither lost nor invented nor answered twice; the refresh
      schedule is the intended one, and each round of it refreshes every bank once.
    - Configuration: the address mapping is a bijection; which mapping strings are
      accepted, with which positions and masks, and how the others fail.
    - Reports: the final report counts every event of the run once, every line has
      its description, the epoch file is a JSON list (from output level 1, after an
      epoch).
    - Thermal model, for a stacked memory that fits its grid and floor plan: commands
      add exactly their energy to the cells of their bank, banks share no cells, no
      array is left in any run; the matrix holds the conductances the code gives the
      materials and sides and the diagonal that balances them, the transient loop is an
      explicit Euler step; a replay accounts for every command and cycle of its trace;
      the thermal build simulates exactly what the plain one does.
    - [Schedule]: what the scheduler of a controller does in a cycle, and the one
      dependency between queued requests in which it never serves anything again.
    - Clients: each requests exactly what its generator, its arrays or its file say,
      in order; the stand-alone program never fails, without self refresh, for 2^21
      cycles and with a trace file that has a record if it asks for one.
    - Memory side and arbiter: every completion and every response finds the
      packet it belongs to; no assertion fails; buffers stay within their limits;
      the arbiter serves its upstreams round robin.
    - HMC: each of the first 2^21 ticks succeeds and loses no request, the two clocks keep their
      ratio, the crossbar passes over no waiting source.
    - Upstream buffers: they send well-formed reads on the right ports whatever the
      answers, keep a response below the limit of its port and refuse it above.
    - The whole program, on any DRAM library that keeps [DRAMSystemOk]: the ports
      are wired as intended; from the start no handler fails, the loop reaches the
      tick limit, and the reads the memory owes are those the arbiter waits for.
      On the HBM2 configuration its end is computed: all buffers full at tick 1000.
    - A last group records what the code does and does not mean to do: lost
      wake-ups, retries to the wrong port, a memory that answers late, a refresh
      that does not delay its bank.

    ** Fuel and bounds

    Only loops whose end is not structural take fuel: [EventQ.scan] (the length
    of the list), [serviceEvents] and [drain] (one step per event),
    [GetCommandToIssue] (one turn of the queues), [drain_done] (the return
    queue), [insert_loop] (the number of links), [logic_loop] (800, the picoseconds
    of a DRAM tick), [main_loop] (28 events for each of the 1000 ticks: every event
    object and one more). Each has a theorem that the stated fuel is enough.
    In [Thermal], [tile_loop] takes 15 (the product in its test overflows behind),
    [stray_loop] and [stray_channels] are the loop of thermal.cc that does not end (it
    is proved that no fuel suffices), and [time_iter_loop], which searches the steps of
    an epoch, is evaluated on the configuration of the witnesses.

    ** Not modelled

    SuperLU, which solves the steady heat equation (a parameter of [ThermalSolver]),
    logging and the text of trace files, the arguments of the replay program, the INI parser and the other vendored headers, the commented-out
    Simulator class, the unused pmu and listener headers. Counters of
    waiting cycles are [int]: those of the crossbars are checked, so the HMC keeps its
    promise for [ds_limit] = 2^21 ticks; the row hit counters of [BankState] are
    kept unbounded.

    ** Plan

    Left: a bound on how long a request waits in the arbiter and, away from the
    dependency of [Schedule] under which none exists, in a controller; the thermal model
    of memories without stacked dies behind its endless loop. *)

From stdpp Require Import base option list gmap strings numbers sorting.
From Stdlib Require Import ZArith Lia.

#[global] Open Scope Z_scope.

#[global] Set Default Proof Using "Type".

(** * Errors and the two monads of the development *)

(** The ways a run of the simulator stops: a failed [assert], a C++
    exception, [AbruptExit] or [exit(1)] of the DRAM library, and the
    accesses the language leaves undefined (an index outside an array, a
    null or dangling pointer). [OutOfFuel] is not a behaviour of the code; it
    marks a loop whose fuel did not suffice. *)
Inductive error :=
| AssertionFailed
| RuntimeError
| InvalidArgument
| StdOutOfRange
| LengthError
| AbruptExit
| UnboundPort
| UndefinedBehaviour
| OutOfFuel.

#[global] Instance error_eq_dec : EqDecision error.
Proof. solve_decision. Defined.

(** The result of code that may fail. *)
Inductive exc (A : Type) :=
| ok (a : A)
| err (e : error).
Arguments ok {A} a.
Arguments err {A} e.

#[global] Instance exc_ret : MRet exc := fun A a => ok a.
#[global] Instance exc_bind : MBind exc := fun A B f m =>
  match m with ok a => f a | err e => err e end.

(** Code that reads and writes a state of type [W] and may fail. None of the
    exceptions that leave a modified state behind is caught in the sources, so
    a failure carries no state. *)
Definition M (W A : Type) : Type := W -> exc (A * W).

#[global] Instance M_ret W : MRet (M W) := fun A a w => ok (a, w).
#[global] Instance M_bind W : MBind (M W) := fun A B f m w =>
  match m w with ok (a, w') => f a w' | err e => err e end.

Definition raise {W A} (e : error) : M W A := fun _ => err e.
Definition gets {W A} (f : W -> A) : M W A := fun w => ok (f w, w).
Definition modify {W} (f : W -> W) : M W unit := fun w => ok (tt, f w).
Definition lift {W A} (x : exc A) : M W A := fun w =>
  match x with ok a => ok (a, w) | err e => err e end.

(** [assert(b)]. *)
Definition assert_ {W} (b : bool) : M W unit :=
  if b then mret tt else raise AssertionFailed.

(** [opt_exc o e] is the value of [o], or the failure [e]. *)
Definition opt_exc {A} (o : option A) (e : error) : exc A :=
  match o with Some a => ok a | None => err e end.

Definition exc_ok {A} (x : exc A) : bool := match x with ok _ => true | err _ => false end.

(** A [for] loop over the elements of [l], in order. *)
Fixpoint for_each {W A} (l : list A) (body : A -> M W unit) : M W unit :=
  match l with
  | [] => mret tt
  | a :: l' => body a ;; for_each l' body
  end.

(** A [for] loop with local variables [s] that the body updates. *)
Fixpoint for_acc {W A S} (l : list A) (s : S) (body : A -> S -> M W S) : M W S :=
  match l with
  | [] => mret s
  | a :: l' => s' ← body a s; for_acc l' s' body
  end.

(** A [for] loop that returns [true] from the first iteration that says so, and
    [false] behind the loop. *)
Fixpoint for_any {W A} (l : list A) (body : A -> M W bool) : M W bool :=
  match l with
  | [] => mret false
  | a :: l' => b ← body a; if (b : bool) then mret true else for_any l' body
  end.

(** A [for] loop whose body updates an accumulator and may fail. *)
Fixpoint foldE {A S} (f : A -> S -> exc S) (l : list A) (s : S) : exc S :=
  match l with
  | [] => ok s
  | a :: l' => s' ← f a s; foldE f l' s'
  end.

(** * Machine integers *)

Definition two8 : Z := 2 ^ 8.
Definition two32 : Z := 2 ^ 32.
Definition two64 : Z := 2 ^ 64.

(** Conversion to [uint64_t] and [uint32_t], and arithmetic that wraps. *)
Definition u64 (z : Z) : Z := z mod two64.
Definition u32 (z : Z) : Z := z mod two32.
(** Conversion to [int], modulo [2^32]. *)
Definition i32 (z : Z) : Z := (z + 2 ^ 31) mod two32 - 2 ^ 31.
Definition u64_add (a b : Z) : Z := u64 (a + b).
Definition u64_sub (a b : Z) : Z := u64 (a - b).
Definition u32_add (a b : Z) : Z := u32 (a + b).
Definition u32_sub (a b : Z) : Z := u32 (a - b).

(** * Vectors indexed by a C++ [int] *)

(** [v[i]] with [i : int]; [None] outside the vector. *)
Definition zget {A} (l : list A) (i : Z) : option A :=
  if i <? 0 then None else l !! Z.to_nat i.

(** [v[i] = x]; nothing is written outside the vector. *)
Definition zset {A} (l : list A) (i : Z) (x : A) : list A :=
  if i <? 0 then l else <[Z.to_nat i := x]> l.

(** [v[i]], an access outside the vector being undefined behaviour. *)
Definition vec_get {A} (l : list A) (i : Z) : exc A :=
  opt_exc (zget l i) UndefinedBehaviour.

(** The indices [0 .. n-1] of a [for (int i = 0; i < n; i++)] loop. *)
Definition zseq (n : Z) : list Z := Z.of_nat <$> seq 0 (Z.to_nat n).

(** [std::vector] with the capacity the code reads: [reserve(n)] on an empty
    vector sets it to [n], and [push_back] on a full one doubles it. *)
Record cvec (A : Type) := CVec { elts : list A; cap : nat }.
Arguments CVec {A} elts cap.
Arguments elts {A} c.
Arguments cap {A} c.

Definition cv_reserve {A} (n : nat) (v : cvec A) : cvec A :=
  CVec (elts v) (Nat.max n (cap v)).
Definition cv_push {A} (x : A) (v : cvec A) : cvec A :=
  CVec (elts v ++ [x])
       (if decide (length (elts v) = cap v) then Nat.max 1 (2 * cap v) else cap v).

(** * The view a component has of the simulated world *)

(** A world [W] holds the state of a component of type [C]. *)
Class Has (W C : Type) := {
  get : W -> C;
  put : C -> W -> W;
  get_put c w : get (put c w) = c;
  put_get w : put (get w) w = w;
  put_put c c' w : put c (put c' w) = put c w
}.
Arguments get {W} C {_} w.
Arguments put {W} C {_} c w.

(** Writing the component [A] leaves the component [B] alone. *)
Class Apart (W A B : Type) `{Has W A} `{Has W B} := {
  get_put_ne (a : A) (w : W) : get B (put A a w) = get B w
}.

(** [upd f] applies [f] to the component's own state. *)
Definition upd {W} C `{Has W C} (f : C -> C) : M W unit :=
  modify (fun w => put C (f (get C w)) w).

(** * Lemmas and automation shared by the components *)

Create Rewrite HintDb world.
Create HintDb sim discriminated.

#[export] Hint Rewrite @get_put @put_get @put_put : world.

Section Exc.
Context {A B : Type}.

Lemma exc_bind_ok (m : exc A) (f : A -> exc B) b :
  m ≫= f = ok b ↔ ∃ a, m = ok a ∧ f a = ok b.
Proof. destruct m; simpl; naive_solver. Qed.

Lemma exc_bind_err (m : exc A) (f : A -> exc B) e :
  m ≫= f = err e ↔ m = err e ∨ ∃ a, m = ok a ∧ f a = err e.
Proof. destruct m; simpl; naive_solver. Qed.

Lemma opt_exc_ok (o : option A) e a : opt_exc o e = ok a ↔ o = Some a.
Proof. destruct o; simpl; naive_solver. Qed.
End Exc.

Lemma M_bind_ok {W A B} (m : M W A) (f : A -> M W B) w r :
  (m ≫= f) w = ok r ↔ ∃ a w', m w = ok (a, w') ∧ f a w' = ok r.
Proof. unfold mbind, M_bind. destruct (m w) as [[a w']|e]; naive_solver. Qed.

Lemma M_bind_ok_intro {W A B} (m : M W A) (f : A -> M W B) w a w' :
  m w = ok (a, w') → (m ≫= f) w = f a w'.
Proof. unfold mbind, M_bind. by intros ->. Qed.

Lemma M_bind_err_intro {W A B} (m : M W A) (f : A -> M W B) w e :
  m w = err e → (m ≫= f) w = err e.
Proof. unfold mbind, M_bind. by intros ->. Qed.

Lemma for_each_inv {W A} (I : W -> Prop) (body : A -> M W unit) l w w' :
  (∀ a w1 w2, a ∈ l → I w1 → body a w1 = ok (tt, w2) → I w2) →
  I w → for_each l body w = ok (tt, w') → I w'.
Proof.
  revert w. induction l as [|a l IH]; intros w Hb HI Hrun; simpl in Hrun.
  - unfold mret, M_ret in Hrun. naive_solver.
  - apply M_bind_ok in Hrun as ([] & w1 & H1 & H2).
    eapply IH; [|eapply Hb; [left|done|done]|done].
    intros a' w3 w4 ?. apply Hb. by right.
Qed.

(** Loops whose body always succeeds in states that satisfy [I] succeed. *)
Lemma for_each_total {W A} (I : W -> Prop) (body : A -> M W unit) l w :
  (∀ a w1, a ∈ l → I w1 → ∃ w2, body a w1 = ok (tt, w2) ∧ I w2) →
  I w → ∃ w', for_each l body w = ok (tt, w') ∧ I w'.
Proof.
  revert w. induction l as [|a l IH]; intros w Hb HI; simpl; [by exists w|].
  destruct (Hb a w) as (w1 & Ha & HI1); [left|done|]. rewrite (M_bind_ok_intro _ _ _ _ _ Ha).
  apply IH; [|done]. intros a' w2 ?. apply Hb. by right.
Qed.

(** The same for a loop over [0 .. n-1] whose invariant depends on the index. *)
Lemma for_each_index {W} (I : Z -> W -> Prop) (body : Z -> M W unit) n w :
  0 ≤ n → (∀ i w1, 0 ≤ i < n → I i w1 → ∃ w2, body i w1 = ok (tt, w2) ∧ I (i + 1) w2) →
  I 0 w → ∃ w', for_each (zseq n) body w = ok (tt, w') ∧ I n w'.
Proof.
  intros Hn Hb. unfold zseq. remember (Z.to_nat n) as k eqn:Hk. assert (n = Z.of_nat k) as -> by lia. clear Hk Hn.
  revert Hb.
  assert (∀ m j w, (m + j = k)%nat →
    (∀ i w1, 0 ≤ i < Z.of_nat k → I i w1 → ∃ w2, body i w1 = ok (tt, w2) ∧ I (i + 1) w2) →
    I (Z.of_nat j) w → ∃ w', for_each (Z.of_nat <$> seq j m) body w = ok (tt, w') ∧ I (Z.of_nat k) w') as Hgo.
  { induction m as [|m IH]; intros j w0 Hj Hb HI; simpl; [exists w0; by replace k with j by lia|].
    destruct (Hb (Z.of_nat j) w0) as (w1 & Hr & HI1); [lia|done|]. rewrite (M_bind_ok_intro _ _ _ _ _ Hr).
    apply IH; [lia|done|]. by replace (Z.of_nat (S j)) with (Z.of_nat j + 1) by lia. }
  intros Hb HI. apply (Hgo k 0%nat); [lia|done|done].
Qed.

Lemma for_acc_total {W A S} (I : S -> W -> Prop) (body : A -> S -> M W S) l s w :
  (∀ a s1 w1, a ∈ l → I s1 w1 → ∃ s2 w2, body a s1 w1 = ok (s2, w2) ∧ I s2 w2) →
  I s w → ∃ s' w', for_acc l s body w = ok (s', w') ∧ I s' w'.
Proof.
  revert s w. induction l as [|a l IH]; intros s w Hb HI; simpl; [by exists s, w|].
  destruct (Hb a s w) as (s1 & w1 & Ha & HI1); [left|done|]. rewrite (M_bind_ok_intro _ _ _ _ _ Ha).
  apply IH; [|done]. intros a' s2 w2 ?. apply Hb. by right.
Qed.

(** The loop with an early return: [I] as long as no iteration answered, [Q] for
    the iteration that did. *)
Lemma for_any_total {W A} (I Q : W -> Prop) (body : A -> M W bool) l w :
  (∀ a w1, a ∈ l → I w1 → ∃ r w2, body a w1 = ok (r, w2) ∧ if (r : bool) then Q w2 else I w2) →
  I w → ∃ r w', for_any l body w = ok (r, w') ∧ if (r : bool) then Q w' else I w'.
Proof.
  revert w. induction l as [|a l IH]; intros w Hb HI; simpl; [by exists false, w|].
  destruct (Hb a w) as (r & w1 & Ha & HI1); [left|done|]. rewrite (M_bind_ok_intro _ _ _ _ _ Ha).
  destruct r; [by exists true, w1|]. apply IH; [|done]. intros a' w2 ?. apply Hb. by right.
Qed.

Lemma for_any_first {W A} (body : A -> M W bool) l1 a l2 w w' :
  (∀ x, x ∈ l1 → body x w = ok (false, w)) → body a w = ok (true, w') →
  for_any (l1 ++ a :: l2) body w = ok (true, w').
Proof.
  intros Hl Ha. induction l1 as [|x l1 IH]; simpl.
  - by rewrite (M_bind_ok_intro _ _ _ _ _ Ha).
  - rewrite (M_bind_ok_intro _ _ _ _ _ (Hl x ltac:(left))). apply IH. intros; apply Hl; by right.
Qed.

Lemma for_any_none {W A} (body : A -> M W bool) l w :
  (∀ x, x ∈ l → body x w = ok (false, w)) → for_any l body w = ok (false, w).
Proof.
  induction l as [|x l IH]; intros Hl; simpl; [done|].
  rewrite (M_bind_ok_intro _ _ _ _ _ (Hl x ltac:(left))). apply IH. intros; apply Hl; by right.
Qed.

(** The first index at which a test succeeds. *)
Lemma first_index (P : Z -> bool) d :
  0 ≤ d → P d = true → ∃ k, 0 ≤ k ≤ d ∧ P k = true ∧ ∀ j, 0 ≤ j < k → P j = false.
Proof.
  intros Hd HP.
  assert (∀ n : nat, (∃ k, 0 ≤ k < Z.of_nat n ∧ P k = true ∧ ∀ j, 0 ≤ j < k → P j = false) ∨
            ∀ j, 0 ≤ j < Z.of_nat n → P j = false) as Hn.
  { induction n as [|n [(k & ? & ? & ?)|IH]]; [right; lia|left; exists k; split; [lia|done]|].
    destruct (P (Z.of_nat n)) eqn:E; [left; exists (Z.of_nat n); split; [lia|done]|right].
    intros j Hj. destruct (decide (j = Z.of_nat n)) as [->|]; [done|apply IH; lia]. }
  destruct (Hn (S (Z.to_nat d))) as [(k & ? & ? & ?)|Hall]; [exists k; split; [lia|done]|].
  rewrite Hall in HP by lia. done.
Qed.

Lemma foldE_inv {A S} (I : S -> Prop) (f : A -> S -> exc S) l s s' :
  (∀ a s1 s2, a ∈ l → I s1 → f a s1 = ok s2 → I s2) →
  I s → foldE f l s = ok s' → I s'.
Proof.
  revert s. induction l as [|a l IH]; intros s Hf HI Hrun; simpl in Hrun.
  - naive_solver.
  - apply exc_bind_ok in Hrun as (s1 & H1 & H2).
    eapply IH; [|eapply Hf; [left|done|done]|done].
    intros a' s3 s4 ?. apply Hf. by right.
Qed.

(** A loop whose body always succeeds on states that satisfy [I] succeeds. *)
Lemma foldE_total {A S} (I : S -> Prop) (f : A -> S -> exc S) l s :
  (∀ a s1, a ∈ l → I s1 → ∃ s2, f a s1 = ok s2 ∧ I s2) →
  I s → ∃ s', foldE f l s = ok s' ∧ I s'.
Proof.
  revert s. induction l as [|a l IH]; intros s Hf HI; simpl; [eauto|].
  destruct (Hf a s) as (s1 & -> & HI1); [left|done|]. simpl.
  apply IH; [|done]. intros a' ???. apply Hf; [by right|done].
Qed.

Lemma foldE_app {A S} (f : A -> S -> exc S) l1 l2 s :
  foldE f (l1 ++ l2) s = foldE f l1 s ≫= foldE f l2.
Proof.
  revert s. induction l1 as [|a l IH]; intros s; simpl; [done|].
  destruct (f a s); simpl; [apply IH|done].
Qed.

Lemma foldE_fmap {A B S} (g : A -> B) (h : B -> S -> exc S) l s :
  foldE (fun a => h (g a)) l s = foldE h (g <$> l) s.
Proof. revert s. induction l as [|a l IH]; intros s; simpl; [done|]. by destruct (h (g a) s); simpl. Qed.

Lemma foldE_skip {A S} (P : A -> bool) (h : A -> S -> exc S) l s :
  foldE (fun a s => if P a then ok s else h a s) l s = foldE h (filter (fun a => P a = false) l) s.
Proof.
  revert s. induction l as [|a l IH]; intros s; [done|]. rewrite filter_cons. simpl.
  destruct (P a); simpl; [by apply IH|]. by destruct (h a s); simpl.
Qed.

Lemma foldE_concat {A B S} (g : A -> list B) (h : B -> S -> exc S) l s :
  foldE (fun a => foldE h (g a)) l s = foldE h (concat (g <$> l)) s.
Proof.
  revert s. induction l as [|a l IH]; intros s; simpl; [done|]. rewrite foldE_app.
  destruct (foldE h (g a) s); simpl; [apply IH|done].
Qed.

Lemma foldE_ext {A S} (h h' : A -> S -> exc S) l s :
  (∀ a s, a ∈ l → h a s = h' a s) → foldE h l s = foldE h' l s.
Proof.
  revert s. induction l as [|a l IH]; intros s He; simpl; [done|].
  rewrite He by left. destruct (h' a s); simpl; [|done]. apply IH. intros; apply He; by right.
Qed.

Lemma StronglySorted_snoc {A} (R : A -> A -> Prop) l x :
  StronglySorted R l → Forall (fun y => R y x) l → StronglySorted R (l ++ [x]).
Proof.
  induction 1 as [|a l Hl IH Ha]; intros Hf; simpl; [repeat constructor|].
  apply Forall_cons in Hf as [? Hf]. constructor; [by apply IH|].
  apply Forall_app. split; [done|]. by constructor.
Qed.

(** ** Integers *)

Lemma two64_pos : 0 < two64.
Proof. reflexivity. Qed.
Lemma two32_pos : 0 < two32.
Proof. reflexivity. Qed.

Lemma u64_range z : 0 ≤ u64 z < two64.
Proof. apply Z.mod_pos_bound, two64_pos. Qed.
Lemma u32_range z : 0 ≤ u32 z < two32.
Proof. apply Z.mod_pos_bound, two32_pos. Qed.
Lemma u64_small z : 0 ≤ z < two64 → u64 z = z.
Proof. apply Z.mod_small. Qed.
Lemma u32_small z : 0 ≤ z < two32 → u32 z = z.
Proof. apply Z.mod_small. Qed.
#[export] Hint Resolve u64_range u32_range : sim.

(** Numbers in mixed radix: the digits are determined, and bounded. *)
Lemma radix_inj a a' b b' n : 0 ≤ b < n → 0 ≤ b' < n → a * n + b = a' * n + b' → a = a' ∧ b = b'.
Proof. intros ? ? ?. apply (Z.div_mod_unique n); lia. Qed.
Lemma radix_range a b n m : 0 ≤ a < m → 0 ≤ b < n → 0 ≤ a * n + b < m * n.
Proof.
  intros ? ?. assert (a * n ≤ (m - 1) * n) by (apply Z.mul_le_mono_nonneg_r; lia).
  rewrite Z.mul_sub_distr_r in *. assert (0 ≤ a * n) by (apply Z.mul_nonneg_nonneg; lia). lia.
Qed.

Lemma radix_div a b n : 0 ≤ b < n → (a * n + b) / n = a.
Proof. intros. symmetry. apply (Z.div_unique _ _ _ b); lia. Qed.
Lemma radix_mod a b n : 0 ≤ b < n → (a * n + b) mod n = b.
Proof. intros. symmetry. apply (Z.mod_unique _ _ a); lia. Qed.

(** ** Vectors *)

Section Vectors.
Context {A : Type}.
Implicit Types (l : list A) (i j : Z) (x : A).

Lemma zget_Some l i x :
  zget l i = Some x ↔ 0 ≤ i ∧ l !! Z.to_nat i = Some x.
Proof. unfold zget. destruct (Z.ltb_spec i 0); naive_solver lia. Qed.

Lemma zget_lt l i x : zget l i = Some x → 0 ≤ i < Z.of_nat (length l).
Proof. intros [? ?%lookup_lt_Some]%zget_Some. lia. Qed.

Lemma zget_is_Some l i : 0 ≤ i < Z.of_nat (length l) → is_Some (zget l i).
Proof.
  intros ?. destruct (lookup_lt_is_Some_2 l (Z.to_nat i)) as [x Hx]; [lia|].
  exists x. apply zget_Some. split; [lia|done].
Qed.

Lemma zget_elem l i x : zget l i = Some x → x ∈ l.
Proof. intros [_ ?]%zget_Some. by eapply list_elem_of_lookup_2. Qed.

Lemma length_zset l i x : length (zset l i x) = length l.
Proof. unfold zset. destruct (i <? 0); [done|apply length_insert]. Qed.

Lemma zget_zset_eq l i x : 0 ≤ i < Z.of_nat (length l) → zget (zset l i x) i = Some x.
Proof.
  intros ?. apply zget_Some. split; [lia|]. unfold zset.
  destruct (Z.ltb_spec i 0); [lia|]. apply list_lookup_insert_eq. lia.
Qed.

Lemma zget_zset_ne l i j x : i ≠ j → zget (zset l i x) j = zget l j.
Proof.
  intros ?. unfold zget, zset.
  destruct (Z.ltb_spec j 0), (Z.ltb_spec i 0); try done.
  apply list_lookup_insert_ne. lia.
Qed.

Lemma zset_Forall (P : A -> Prop) l i x : Forall P l → P x → Forall P (zset l i x).
Proof.
  intros. unfold zset. destruct (i <? 0); [done|]. by apply Forall_insert.
Qed.

Lemma vec_get_ok l i x : vec_get l i = ok x ↔ zget l i = Some x.
Proof. apply opt_exc_ok. Qed.

Lemma cv_reserve_nil (n : nat) : cv_reserve n (CVec (@nil A) 0) = CVec [] n.
Proof. unfold cv_reserve; simpl. f_equal. lia. Qed.

Lemma cv_push_room (v : cvec A) x :
  (length (elts v) < cap v)%nat →
  elts (cv_push x v) = elts v ++ [x] ∧ cap (cv_push x v) = cap v.
Proof. intros. unfold cv_push; simpl. case_decide; [lia|done]. Qed.
End Vectors.

Lemma zget_fmap {A B} (f : A -> B) (l : list A) i : zget (f <$> l) i = f <$> zget l i.
Proof. unfold zget. destruct (i <? 0); [done|]. apply list_lookup_fmap. Qed.

Lemma length_zseq n : length (zseq n) = Z.to_nat n.
Proof. unfold zseq. by rewrite length_fmap, length_seq. Qed.

Lemma elem_of_zseq n i : i ∈ zseq n ↔ 0 ≤ i < n.
Proof.
  unfold zseq. rewrite list_elem_of_fmap. split.
  - intros (k & -> & Hk%elem_of_seq). lia.
  - intros ?. exists (Z.to_nat i). split; [lia|]. apply elem_of_seq. lia.
Qed.

Lemma zseq_0 : zseq 0 = [].
Proof. done. Qed.

Lemma zseq_succ n : 0 ≤ n → zseq (n + 1) = zseq n ++ [n].
Proof.
  intros ?. unfold zseq. replace (Z.to_nat (n + 1)) with (S (Z.to_nat n)) by lia.
  rewrite seq_S, fmap_app. simpl. do 2 f_equal. lia.
Qed.

Lemma zseq_split n k : 0 ≤ k < n → ∃ l, zseq n = zseq k ++ k :: l.
Proof.
  intros Hk. exists (Z.of_nat <$> seq (S (Z.to_nat k)) (Z.to_nat n - S (Z.to_nat k))). unfold zseq.
  replace (Z.to_nat n) with (Z.to_nat k + S (Z.to_nat n - S (Z.to_nat k)))%nat at 1 by lia.
  rewrite seq_app, fmap_app. simpl. do 2 f_equal. lia.
Qed.

(** A loop over [0 .. n - 1] with an invariant that knows the index. *)
Lemma foldE_index {S} (I : Z -> S -> Prop) (f : Z -> S -> exc S) n s :
  0 ≤ n → (∀ i s1, 0 ≤ i < n → I i s1 → ∃ s2, f i s1 = ok s2 ∧ I (i + 1) s2) →
  I 0 s → ∃ s', foldE f (zseq n) s = ok s' ∧ I n s'.
Proof.
  intros Hn. revert n Hn. refine (natlike_ind _ _ _).
  - intros _ H0. exists s. by rewrite zseq_0.
  - intros n Hn IH Hf H0. destruct IH as (s1 & Hr & Hi); [intros; apply Hf; [lia|done]|done|].
    destruct (Hf n s1) as (s2 & Hr2 & Hi2); [lia|done|]. exists s2. split; [|done].
    rewrite <- Z.add_1_r, zseq_succ, foldE_app, Hr by done. cbn [mbind exc_bind foldE]. by rewrite Hr2.
Qed.

Lemma fmap_zset {A B} (f : A -> B) l i x : f <$> zset l i x = zset (f <$> l) i (f x).
Proof. unfold zset. destruct (i <? 0); [done|]. apply list_fmap_insert. Qed.

Lemma zset_zset {A} (l : list A) i x y : zset (zset l i x) i y = zset l i y.
Proof. unfold zset. destruct (i <? 0); [done|]. apply list_insert_insert_eq. Qed.

Lemma zset_id {A} (l : list A) i x : zget l i = Some x → zset l i x = l.
Proof. intros [? ?]%zget_Some. unfold zset. destruct (i <? 0); [done|]. by apply list_insert_id. Qed.

(** A list whose first [i] elements a loop has replaced by their images. *)
Section Upto.
Context {A : Type} (f : A -> A).
Implicit Types (l : list A) (i : Z).

Definition upto i l : list A := (f <$> take (Z.to_nat i) l) ++ drop (Z.to_nat i) l.

Lemma upto_0 l : upto 0 l = l.
Proof. done. Qed.
Lemma upto_all l i : Z.of_nat (length l) ≤ i → upto i l = f <$> l.
Proof. intros Hi. unfold upto. rewrite take_ge, drop_ge by lia. apply app_nil_r. Qed.
Lemma length_upto i l : length (upto i l) = length l.
Proof. unfold upto. rewrite length_app, length_fmap, length_take, length_drop. lia. Qed.

Lemma upto_get i l a : zget l i = Some a → zget (upto i l) i = Some a.
Proof.
  intros Ha. pose proof (zget_lt _ _ _ Ha) as Hl. apply zget_Some in Ha as [Hi Ha]. apply zget_Some. split; [done|].
  unfold upto. rewrite lookup_app_r by (rewrite length_fmap, length_take; lia).
  rewrite length_fmap, length_take, Nat.min_l, Nat.sub_diag by lia. by rewrite lookup_drop, Nat.add_0_r.
Qed.
Lemma upto_step i l a : zget l i = Some a → zset (upto i l) i (f a) = upto (i + 1) l.
Proof.
  intros Ha. pose proof (zget_lt _ _ _ Ha) as Hl. apply zget_Some in Ha as [Hi Ha]. unfold zset, upto.
  destruct (Z.ltb_spec i 0); [lia|]. replace (Z.to_nat (i + 1)) with (S (Z.to_nat i)) by lia.
  rewrite (take_S_r _ _ _ Ha), (drop_S _ _ _ Ha), fmap_app, <- app_assoc. simpl.
  rewrite insert_app_r_alt by (rewrite length_fmap, length_take; lia).
  by rewrite length_fmap, length_take, Nat.min_l, Nat.sub_diag by lia.
Qed.
End Upto.

(** Taking an element out of one of several lists, or putting one in. *)
Lemma concat_zset_perm {A} (ll : list (list A)) i l l' x :
  zget ll i = Some l → l ≡ₚ x :: l' → concat ll ≡ₚ x :: concat (zset ll i l').
Proof.
  intros [Hi Hl]%zget_Some Hp. unfold zset. destruct (Z.ltb_spec i 0); [lia|]. clear H Hi.
  revert Hl. generalize (Z.to_nat i) as n. induction ll as [|l0 ll IH]; intros [|n] Hl; simplify_eq/=.
  - by rewrite Hp.
  - rewrite (IH n Hl). symmetry. apply Permutation_middle.
Qed.

Lemma concat_zset_cons {A} (ll : list (list A)) i l l' x :
  zget ll i = Some l → l' ≡ₚ x :: l → concat (zset ll i l') ≡ₚ x :: concat ll.
Proof.
  intros Hl Hp. rewrite (concat_zset_perm (zset ll i l') i l' l x).
  - by rewrite zset_zset, zset_id.
  - apply zget_zset_eq. by eapply zget_lt.
  - done.
Qed.

(** A loop that maps a vector with a body that may fail. *)
Fixpoint mapE {A B} (f : A -> exc B) (l : list A) : exc (list B) :=
  match l with
  | [] => ok []
  | a :: l' => b ← f a; bs ← mapE f l'; ok (b :: bs)
  end.

Lemma mapE_total {A B} (P : A -> B -> Prop) (f : A -> exc B) l :
  (∀ a, a ∈ l → ∃ b, f a = ok b ∧ P a b) → ∃ l', mapE f l = ok l' ∧ Forall2 P l l'.
Proof.
  induction l as [|a l IH]; intros Hf; simpl; [eexists; split; [done|constructor]|].
  destruct (Hf a) as (b & -> & Hb); [left|]. destruct IH as (l' & -> & Hl); [intros; apply Hf; by right|].
  simpl. eexists. split; [done|by constructor].
Qed.

(** ** Tactics *)

(** [inv_ok] opens every equation [m = ok r] of the context on a bind. *)
Ltac inv_ok :=
  repeat match goal with
  | H : mret _ = ok _ |- _ => unfold mret, exc_ret in H
  | H : mret _ _ = ok _ |- _ => unfold mret, M_ret in H
  | H : ok _ = ok _ |- _ => injection H as H
  | H : err _ = ok _ |- _ => discriminate H
  | H : raise _ _ = ok _ |- _ => discriminate H
  | H : gets _ _ = ok _ |- _ => unfold gets in H
  | H : modify _ _ = ok _ |- _ => unfold modify in H
  | H : (_ ≫= _) _ = ok _ |- _ => apply M_bind_ok in H as (? & ? & ? & H)
  | H : _ ≫= _ = ok _ |- _ => apply exc_bind_ok in H as (? & ? & H)
  | H : opt_exc _ _ = ok _ |- _ => apply opt_exc_ok in H
  | H : vec_get _ _ = ok _ |- _ => apply vec_get_ok in H
  | H : (_, _) = (_, _) |- _ => injection H as H
  | x : unit |- _ => destruct x
  end; subst.

(** [run H] executes the first step of a computation with the equation [H]. *)
Ltac run H := first [rewrite (M_bind_ok_intro _ _ _ _ _ H) | rewrite H; simpl].

(** A list whose elements fall into [n] classes of at most [B] each. *)
Lemma length_by_class {A} (f : A -> Z) (n B : Z) (l : list A) :
  Forall (fun x => 0 ≤ f x < n) l → 0 ≤ n →
  (∀ i, 0 ≤ i < n → Z.of_nat (length (filter (fun x => f x = i) l)) ≤ B) → Z.of_nat (length l) ≤ n * B.
Proof.
  intros Hl Hn. remember (Z.to_nat n) as k eqn:Hk. assert (n = Z.of_nat k) as -> by lia. clear Hk Hn. revert l Hl.
  induction k as [|k IH]; intros l Hl HB.
  { destruct l as [|x l]; [simpl; lia|]. apply Forall_cons in Hl as [Hx _]. lia. }
  assert (∀ (l : list A) i, (length (filter (fun x => f x = i) (filter (fun x => f x ≠ Z.of_nat k) l)) ≤
    length (filter (fun x => f x = i) l))%nat) as Hsub.
  { clear. intros l i. induction l as [|x l IH]; [done|]. rewrite !filter_cons.
    destruct (decide (f x ≠ Z.of_nat k)), (decide (f x = i)); rewrite ?filter_cons, ?decide_True, ?decide_False by done; simpl; lia. }
  assert (length l = length (filter (fun x => f x = Z.of_nat k) l) + length (filter (fun x => f x ≠ Z.of_nat k) l))%nat as Hs.
  { clear. induction l as [|x l IH]; [done|]. rewrite !filter_cons.
    destruct (decide (f x = Z.of_nat k)); [rewrite decide_False by naive_solver|rewrite decide_True by done]; simpl; lia. }
  pose proof (HB (Z.of_nat k) ltac:(lia)) as Hk.
  specialize (IH (filter (fun x => f x ≠ Z.of_nat k) l)).
  rewrite Hs. assert (Z.of_nat (length (filter (fun x => f x ≠ Z.of_nat k) l)) ≤ Z.of_nat k * B); [|lia].
  apply IH.
  - rewrite Forall_forall in *. intros x [Hx Hin]%list_elem_of_filter. specialize (Hl x Hin). lia.
  - intros i Hi. etransitivity; [|apply (HB i); lia]. pose proof (Hsub l i). lia.
Qed.
