(* ===== verification/EventQ.v ===== *)
(** * The event queue (src/event/eventq.h, src/event/eventq.cpp)

    Events are the objects of a heap indexed by an identifier of type [Ev],
    which stands for the address of the [Event] object; [nextBin] and
    [nextInBin] are the two intrusive pointers of gem5's queue: a list of bins,
    one per (when, priority) pair, each bin a stack of the events with that
    pair. The queue operations are translated pointer by pointer. The
    abstraction [QRep] reads the heap as the list of the bins, and the theorems
    state that the operations are those of a priority queue on that list. *)

From stdpp Require Import base option list gmap sorting.
From Stdlib Require Import ZArith Lia.
From S2P Require Import Prelude.

(** ** Priorities ([EventBase]) *)

Definition Minimum_Pri : Z := -102.
Definition Default_Pri : Z := 0.
Definition CPU_Tick_Pri : Z := 50.
Definition Sim_Exit_Pri : Z := 100.
Definition Maximum_Pri : Z := 102.

Section EventQueue.
Context {Ev : Type} `{Countable Ev}.

(** [class Event]: the two queue pointers, the time, the priority and the flag
    that says whether the event is queued. *)
Record event := Event {
  nextBin : option Ev;
  nextInBin : option Ev;
  _when : Z;
  _priority : Z;
  _scheduled : bool
}.

(** [Event(Priority p)]. *)
Definition new_event (p : Z) : event := Event None None 0 p false.

Definition with_nextBin (n : option Ev) (x : event) : event :=
  Event n (nextInBin x) (_when x) (_priority x) (_scheduled x).
Definition with_nextInBin (n : option Ev) (x : event) : event :=
  Event (nextBin x) n (_when x) (_priority x) (_scheduled x).
Definition with_scheduled (b : bool) (x : event) : event :=
  Event (nextBin x) (nextInBin x) (_when x) (_priority x) b.
(** [setWhen(Tick when)]. *)
Definition setWhen (t : Z) (x : event) : event :=
  Event (nextBin x) (nextInBin x) t (_priority x) (_scheduled x).

(** The comparison operators of [Event]: by time, then by priority. *)
Definition ev_lt (l r : event) : bool :=
  (_when l <? _when r) || ((_when l =? _when r) && (_priority l <? _priority r)).
Definition ev_le (l r : event) : bool :=
  (_when l <? _when r) || ((_when l =? _when r) && (_priority l <=? _priority r)).
Definition ev_eq (l r : event) : bool :=
  (_when l =? _when r) && (_priority l =? _priority r).
Definition ev_neq (l r : event) : bool :=
  negb (_when l =? _when r) || negb (_priority l =? _priority r).

(** [class EventQueue]. *)
Record EventQueue := MkQueue {
  heap : gmap Ev event;
  head : option Ev;
  _curTick : Z
}.

(** [EventQueue::EventQueue(n)] over the event objects of the program. *)
Definition new_queue (objs : gmap Ev event) : EventQueue := MkQueue objs None 0.

Definition set_heap (h : gmap Ev event) (q : EventQueue) : EventQueue :=
  MkQueue h (head q) (_curTick q).
Definition setCurTick (t : Z) (q : EventQueue) : EventQueue :=
  MkQueue (heap q) (head q) t.
Definition empty (q : EventQueue) : bool :=
  match head q with None => true | Some _ => false end.

(** [*e]. *)
Definition deref (h : gmap Ev event) (e : Ev) : exc event :=
  opt_exc (h !! e) UndefinedBehaviour.

(** [Event::insertBefore(event, curr)]; the returned pointer is [event]. *)
Definition insertBefore (h : gmap Ev event) (e : Ev) (curr : option Ev)
    : exc (gmap Ev event) :=
  x ← deref h e;
  x' ← match curr with
       | None => ok (with_nextInBin None (with_nextBin None x))
       | Some c =>
           y ← deref h c;
           if ev_lt x y then ok (with_nextInBin None (with_nextBin (Some c) x))
           else ok (with_nextInBin (Some c) (with_nextBin (nextBin y) x))
       end;
  if bool_decide (nextBin x' = Some e) then err AssertionFailed
  else ok (<[e := x']> h).

(** The loop [while (curr && *curr < *event)] of [insert] and [remove]; it
    returns the last [prev] and [curr]. *)
Fixpoint scan (fuel : nat) (h : gmap Ev event) (x : event) (prev : Ev)
    (curr : option Ev) : exc (Ev * option Ev) :=
  match curr with
  | None => ok (prev, None)
  | Some c =>
      y ← deref h c;
      if ev_lt y x then
        match fuel with
        | O => err OutOfFuel
        | S fuel' => scan fuel' h x c (nextBin y)
        end
      else ok (prev, Some c)
  end.

(** [EventQueue::insert(event)]. [insertBefore] is called twice past the head:
    once inside [assert], once for its effect. *)
Definition insert (e : Ev) (q : EventQueue) : exc EventQueue :=
  x ← deref (heap q) e;
  let h := <[e := with_scheduled true x]> (heap q) in
  let at_head := h' ← insertBefore h e (head q);
                 ok (MkQueue h' (Some e) (_curTick q)) in
  match head q with
  | None => at_head
  | Some hd =>
      y ← deref h hd;
      if ev_le x y then at_head
      else
        '(prev, curr) ← scan (size h) h x hd (nextBin y);
        h1 ← insertBefore h e curr;
        h2 ← insertBefore h1 e curr;
        p ← deref h2 prev;
        ok (set_heap (<[prev := with_nextBin (Some e) p]> h2) q)
  end.

(** The loop [while (event != next)] of [Event::removeItem]; it returns the
    last [curr]. *)
Fixpoint find_in_bin (fuel : nat) (h : gmap Ev event) (e curr : Ev)
    (next : option Ev) : exc Ev :=
  if bool_decide (next = Some e) then ok curr
  else match next with
       | None => err RuntimeError
       | Some n =>
           y ← deref h n;
           match fuel with
           | O => err OutOfFuel
           | S fuel' => find_in_bin fuel' h e n (nextInBin y)
           end
       end.

(** [Event::removeItem(event, top)]: the new heap and the new top. *)
Definition removeItem (h : gmap Ev event) (e top : Ev)
    : exc (gmap Ev event * option Ev) :=
  t ← deref h top;
  if decide (e = top) then
    match nextInBin t with
    | None => ok (h, nextBin t)
    | Some n =>
        y ← deref h n;
        ok (<[n := with_nextBin (nextBin t) y]> h, Some n)
    end
  else
    curr ← find_in_bin (size h) h e top (nextInBin t);
    y ← deref h e;
    c ← deref h curr;
    ok (<[curr := with_nextInBin (nextInBin y) c]> h, Some top).

(** [EventQueue::remove(event)]. *)
Definition remove (e : Ev) (q : EventQueue) : exc EventQueue :=
  x ← deref (heap q) e;
  let h := <[e := with_scheduled false x]> (heap q) in
  match head q with
  | None => err RuntimeError
  | Some hd =>
      y ← deref h hd;
      if ev_eq y x then
        '(h', top) ← removeItem h e hd;
        ok (MkQueue h' top (_curTick q))
      else
        '(prev, curr) ← scan (size h) h x hd (nextBin y);
        match curr with
        | None => err RuntimeError
        | Some c =>
            z ← deref h c;
            if ev_neq z x then err RuntimeError
            else
              '(h', top) ← removeItem h e c;
              p ← deref h' prev;
              ok (set_heap (<[prev := with_nextBin top p]> h') q)
        end
  end.

(** [EventQueue::schedule(event, when)]. *)
Definition schedule (e : Ev) (t : Z) (q : EventQueue) : exc EventQueue :=
  x ← deref (heap q) e;
  if _scheduled x then err AssertionFailed
  else if t <? _curTick q then err AssertionFailed
  else insert e (set_heap (<[e := setWhen t x]> (heap q)) q).

(** [EventQueue::deschedule(event)]. *)
Definition deschedule (e : Ev) (q : EventQueue) : exc EventQueue := remove e q.

(** [EventQueue::reschedule(event, when)]. *)
Definition reschedule (e : Ev) (t : Z) (q : EventQueue) : exc EventQueue :=
  x ← deref (heap q) e;
  if t <? _curTick q then err AssertionFailed
  else insert e (set_heap (<[e := setWhen t x]> (heap q)) q).

(** [EventQueue::nextTick()]. *)
Definition nextTick (q : EventQueue) : exc Z :=
  hd ← opt_exc (head q) UndefinedBehaviour;
  x ← deref (heap q) hd;
  ok (_when x).

(** [EventQueue::replaceHead(s)]: the old head and the queue with the new one. *)
Definition replaceHead (s : option Ev) (q : EventQueue) : option Ev * EventQueue :=
  (head q, MkQueue (heap q) s (_curTick q)).

(** The part of [EventQueue::serviceOne] that takes the event off the queue and
    moves the clock; the event is then processed. *)
Definition service_pop (q : EventQueue) : exc (Ev * EventQueue) :=
  e ← opt_exc (head q) UndefinedBehaviour;
  x ← deref (heap q) e;
  let h := <[e := with_scheduled false x]> (heap q) in
  match nextInBin x with
  | Some n =>
      y ← deref h n;
      ok (e, MkQueue (<[n := with_nextBin (nextBin x) y]> h) (Some n) (_when x))
  | None => ok (e, MkQueue h (nextBin x) (_when x))
  end.

(** The loop of [EventQueue::~EventQueue]. *)
Fixpoint drain (fuel : nat) (q : EventQueue) : exc EventQueue :=
  match head q with
  | None => ok q
  | Some e =>
      match fuel with
      | O => err OutOfFuel
      | S fuel' => q' ← deschedule e q; drain fuel' q'
      end
  end.

(** ** The queue in a world: [EventManager], [curTick()], the service loop *)

Section World.
Context {W : Type} `{Has W EventQueue}.

(** [curTick()]. *)
Definition curTick (w : W) : Z := _curTick (get EventQueue w).

(** [event.scheduled()]. *)
Definition scheduled (e : Ev) (w : W) : bool :=
  match heap (get EventQueue w) !! e with Some x => _scheduled x | None => false end.

Definition on_queue (f : EventQueue -> exc EventQueue) : M W unit := fun w =>
  q ← f (get EventQueue w); ok (tt, put EventQueue q w).

(** [EventManager::schedule], [deschedule] and [reschedule]. *)
Definition em_schedule (e : Ev) (t : Z) : M W unit := on_queue (schedule e t).
Definition em_deschedule (e : Ev) : M W unit := on_queue (deschedule e).
Definition em_reschedule (e : Ev) (t : Z) : M W unit := on_queue (reschedule e t).

(** [EventQueue::serviceOne()], [process e] being the call [event->process()]. *)
Definition serviceOne (process : Ev -> M W unit) : M W unit := fun w =>
  '(e, q) ← service_pop (get EventQueue w);
  process e (put EventQueue q w).

(** [EventQueue::serviceEvents(when)]. *)
Fixpoint serviceEvents (fuel : nat) (process : Ev -> M W unit) (t : Z) : M W unit :=
  fun w =>
  if empty (get EventQueue w) then
    ok (tt, put EventQueue (setCurTick t (get EventQueue w)) w)
  else
    n ← nextTick (get EventQueue w);
    if t <? n then ok (tt, put EventQueue (setCurTick t (get EventQueue w)) w)
    else match fuel with
         | O => err OutOfFuel
         | S fuel' => '(_, w') ← serviceOne process w; serviceEvents fuel' process t w'
         end.
End World.
End EventQueue.

Arguments event Ev : clear implicits.
Arguments EventQueue Ev {_ _} : assert.

(** ** The abstraction: a heap read as a list of bins *)

Section Abstraction.
Context {Ev : Type} `{Countable Ev}.
Implicit Types (h : gmap Ev (event Ev)) (e : Ev) (x : event Ev) (k : Z * Z)
  (b : list Ev) (bs : list (Z * Z * list Ev)) (p r : option Ev) (q : EventQueue Ev).

Definition ekey x : Z * Z := (_when x, _priority x).

Definition klt (k k' : Z * Z) : Prop := k.1 < k'.1 ∨ (k.1 = k'.1 ∧ k.2 < k'.2).
#[global] Instance klt_dec k k' : Decision (klt k k').
Proof. unfold klt. solve_decision. Defined.

(** The events in the order they are serviced. *)
Definition flat bs : list Ev := concat (snd <$> bs).

(** [inbin h k p b]: from [p] the [nextInBin] pointers run through [b], all of
    key [k]. *)
Fixpoint inbin h k p b : Prop :=
  match b with
  | [] => p = None
  | e :: b' => p = Some e ∧ ∃ x, h !! e = Some x ∧ ekey x = k ∧ inbin h k (nextInBin x) b'
  end.

(** [seg h p bs r]: from [p] the [nextBin] pointers of the bin tops run through
    the bins [bs] and end at [r]. *)
Fixpoint seg h p bs r : Prop :=
  match bs with
  | [] => p = r
  | (k, b) :: bs' =>
      ∃ e x, p = Some e ∧ h !! e = Some x ∧ inbin h k (Some e) b ∧ seg h (nextBin x) bs' r
  end.

(** What a bin reads of its elements: [nextInBin] and the key. *)
Definition same_link h h' e : Prop :=
  (fun x => (nextInBin x, ekey x)) <$> h !! e = (fun x => (nextInBin x, ekey x)) <$> h' !! e.

(** The queue [q] holds the bins [bs]. *)
Record QRep q bs : Prop := {
  rep_seg : seg (heap q) (head q) bs None;
  rep_nodup : NoDup (flat bs);
  rep_sorted : StronglySorted klt (fst <$> bs);
  rep_flag e x : heap q !! e = Some x → (_scheduled x = true ↔ e ∈ flat bs);
  rep_time : Forall (fun kb => _curTick q ≤ kb.1.1) bs
}.

(** The priority queue: the new event becomes the top of its bin. *)
Fixpoint spec_insert k e bs : list (Z * Z * list Ev) :=
  match bs with
  | [] => [(k, [e])]
  | (kb, b) :: bs' =>
      if decide (klt k kb) then (k, [e]) :: (kb, b) :: bs'
      else if decide (k = kb) then (kb, e :: b) :: bs'
      else (kb, b) :: spec_insert k e bs'
  end.

(** Removal from the bin of key [k]; a bin left empty goes away. *)
Fixpoint spec_remove k e bs : list (Z * Z * list Ev) :=
  match bs with
  | [] => []
  | (kb, b) :: bs' =>
      if decide (k = kb) then
        match filter (fun e' => e' ≠ e) b with
        | [] => bs'
        | b' => (kb, b') :: bs'
        end
      else (kb, b) :: spec_remove k e bs'
  end.

(** The first bin of [bs] does not come before [k]. *)
Definition head_ge k bs : Prop :=
  match bs with [] => True | (kb, _) :: _ => ¬ klt kb k end.

(** What the queue operations keep of an event: its key and its flag. *)
Definition info (x : event Ev) : Z * Z * bool := (ekey x, _scheduled x).

(** Taking the first event off. *)
Definition spec_pop bs : list (Z * Z * list Ev) :=
  match bs with
  | (k, _ :: b) :: bs' => match b with [] => bs' | _ => (k, b) :: bs' end
  | _ => []
  end.

(** The bins in the order their events are serviced, cut after time [t]. *)
Definition due t bs : list (Z * Z * list Ev) := filter (fun kb => kb.1.1 ≤ t) bs.
Definition not_due t bs : list (Z * Z * list Ev) := filter (fun kb => ¬ kb.1.1 ≤ t) bs.
End Abstraction.

Section Lemmas.
Context {Ev : Type} `{Countable Ev}.
Implicit Types (h : gmap Ev (event Ev)) (e : Ev) (x : event Ev) (k : Z * Z)
  (b : list Ev) (bs : list (Z * Z * list Ev)) (p r : option Ev) (q : EventQueue Ev).

Lemma ev_lt_klt x y : ev_lt x y = bool_decide (klt (ekey x) (ekey y)).
Proof.
  unfold ev_lt, klt, ekey; simpl. apply eq_bool_prop_intro.
  rewrite bool_decide_spec, orb_True, andb_True, !Is_true_true.
  rewrite !Z.ltb_lt, Z.eqb_eq. done.
Qed.

Lemma ev_eq_ekey x y : ev_eq x y = bool_decide (ekey x = ekey y).
Proof.
  unfold ev_eq, ekey; simpl. apply eq_bool_prop_intro.
  rewrite bool_decide_spec, andb_True, !Is_true_true, !Z.eqb_eq.
  split; [by intros [-> ->]|by intros [= -> ->]].
Qed.

Lemma ev_neq_eq x y : ev_neq x y = negb (ev_eq x y).
Proof. unfold ev_neq, ev_eq. by rewrite negb_andb. Qed.

Lemma ev_le_klt x y : ev_le x y = bool_decide (¬ klt (ekey y) (ekey x)).
Proof.
  unfold ev_le, klt, ekey; simpl. apply eq_bool_prop_intro.
  rewrite bool_decide_spec, orb_True, andb_True, !Is_true_true.
  rewrite Z.ltb_lt, Z.eqb_eq, Z.leb_le. lia.
Qed.

Lemma klt_irrefl k : ¬ klt k k.
Proof. unfold klt. lia. Qed.
Lemma klt_trans k1 k2 k3 : klt k1 k2 → klt k2 k3 → klt k1 k3.
Proof. unfold klt. lia. Qed.
Lemma klt_trichotomy k1 k2 : klt k1 k2 ∨ k1 = k2 ∨ klt k2 k1.
Proof.
  destruct k1 as [a b], k2 as [c d]. unfold klt; simpl.
  destruct (decide (a = c ∧ b = d)) as [[-> ->]|?]; [by auto|].
  assert ((a < c ∨ a = c ∧ b < d) ∨ (c < a ∨ c = a ∧ d < b)) by lia. tauto.
Qed.

Lemma flat_cons k b bs : flat ((k, b) :: bs) = b ++ flat bs.
Proof. done. Qed.
Lemma flat_app bs1 bs2 : flat (bs1 ++ bs2) = flat bs1 ++ flat bs2.
Proof. unfold flat. by rewrite fmap_app, concat_app. Qed.

(** *** Framing *)

Lemma inbin_frame h h' k p b :
  (∀ e, e ∈ b → same_link h h' e) → inbin h k p b → inbin h' k p b.
Proof.
  revert p. induction b as [|e b IH]; intros p Hag; simpl; [done|].
  intros (-> & x & Hx & Hk & Hb). split; [done|].
  assert (same_link h h' e) as Hs by (apply Hag; left).
  unfold same_link in Hs. rewrite Hx in Hs.
  destruct (h' !! e) as [x'|]; [|done]. simpl in Hs. exists x'.
  assert (nextInBin x = nextInBin x' ∧ ekey x = ekey x') as [Hn He] by (split; congruence).
  split_and!; [done|congruence|]. rewrite <- Hn.
  apply IH; [|done]. intros e' ?. apply Hag. by right.
Qed.

Lemma seg_frame h h' p bs r :
  (∀ e, e ∈ flat bs → h !! e = h' !! e) → seg h p bs r → seg h' p bs r.
Proof.
  revert p. induction bs as [|[k b] bs IH]; intros p Hag; simpl; [done|].
  intros (e & x & -> & Hx & Hb & Hs). exists e, x.
  assert (∀ e, e ∈ b → h !! e = h' !! e) as Hag1.
  { intros e' ?. apply Hag. rewrite flat_cons. apply elem_of_app. by left. }
  assert (e ∈ b) as Heb by (destruct b; simpl in *; naive_solver set_solver).
  split_and!; [done|by rewrite <- Hag1|..].
  - eapply inbin_frame; [|done]. intros e' ?. unfold same_link. by rewrite Hag1.
  - apply IH; [|done]. intros e' ?. apply Hag. rewrite flat_cons. apply elem_of_app. by right.
Qed.

(** Only the links and the keys matter. *)
Lemma seg_set_flag h e x f p bs r :
  h !! e = Some x → seg h p bs r → seg (<[e := with_scheduled f x]> h) p bs r.
Proof.
  intros He. assert (∀ k p b, inbin h k p b → inbin (<[e := with_scheduled f x]> h) k p b) as Hin.
  { intros k p0 b. apply inbin_frame. intros e' _. unfold same_link.
    destruct (decide (e = e')) as [<-|]; [by rewrite lookup_insert_eq, He|].
    by rewrite lookup_insert_ne. }
  revert p. induction bs as [|[k b] bs IH]; intros p; [done|]. simpl.
  intros (e' & x' & -> & Hx' & Hb & Hs). exists e'.
  destruct (decide (e = e')) as [<-|]; [rewrite lookup_insert_eq|rewrite lookup_insert_ne by done].
  - eexists. split_and!; [done..|by apply Hin|]. assert (x' = x) as -> by congruence. by apply IH.
  - exists x'. split_and!; [done..|by apply Hin|]. by apply IH.
Qed.

Lemma seg_app h p bs1 bs2 r :
  seg h p (bs1 ++ bs2) r ↔ ∃ m, seg h p bs1 m ∧ seg h m bs2 r.
Proof.
  revert p. induction bs1 as [|[k b] bs1 IH]; intros p; simpl; [naive_solver|].
  setoid_rewrite IH. naive_solver.
Qed.

Lemma inbin_lookup h k p b e : inbin h k p b → e ∈ b → ∃ x, h !! e = Some x ∧ ekey x = k.
Proof.
  revert p. induction b as [|e' b IH]; intros p; simpl; [set_solver|].
  intros (-> & x & ? & ? & ?) [->|?]%elem_of_cons; eauto.
Qed.

Lemma seg_lookup h p bs r e :
  seg h p bs r → e ∈ flat bs → ∃ x k b, h !! e = Some x ∧ (k, b) ∈ bs ∧ e ∈ b ∧ ekey x = k.
Proof.
  revert p. induction bs as [|[k b] bs IH]; intros p; simpl; [set_solver|].
  intros (e' & x & -> & ? & Hb & Hs). rewrite flat_cons. intros [?|?]%elem_of_app.
  - destruct (inbin_lookup _ _ _ _ e Hb) as (y & ? & ?); [done|].
    exists y, k, b. split_and!; [done|left|done|done].
  - destruct (IH _ Hs) as (y & k' & b' & ? & ? & ? & ?); [done|].
    exists y, k', b'. split_and!; [done|by right|done|done].
Qed.

Lemma seg_cons_intro h e x k b bs r :
  h !! e = Some x → ekey x = k → inbin h k (nextInBin x) b → seg h (nextBin x) bs r →
  seg h (Some e) ((k, e :: b) :: bs) r.
Proof. intros. simpl. exists e, x. naive_solver. Qed.

Lemma seg_cons_inv h p k b bs r :
  seg h p ((k, b) :: bs) r →
  ∃ e x b', p = Some e ∧ b = e :: b' ∧ h !! e = Some x ∧ ekey x = k ∧
    inbin h k (nextInBin x) b' ∧ seg h (nextBin x) bs r.
Proof.
  simpl. intros (e & x & -> & Hx & Hb & Hs). destruct b as [|e' b']; [done|].
  destruct Hb as ([= <-] & x' & Hx' & Hk & Hb). assert (x' = x) as -> by congruence.
  exists e, x, b'. done.
Qed.

(** A heap that differs on one event the bins do not use. *)
Lemma inbin_insert_ne h e x k p b :
  e ∉ b → inbin h k p b → inbin (<[e := x]> h) k p b.
Proof.
  intros Hne. apply inbin_frame. intros e' ?. unfold same_link.
  rewrite lookup_insert_ne; [done|]. by intros ->.
Qed.

Lemma seg_insert_ne h e x p bs r :
  e ∉ flat bs → seg h p bs r → seg (<[e := x]> h) p bs r.
Proof.
  intros Hne. apply seg_frame. intros e' ?. rewrite lookup_insert_ne; [done|].
  by intros ->.
Qed.

Lemma seg_nonempty h p bs r k b : seg h p bs r → (k, b) ∈ bs → b ≠ [].
Proof.
  revert p. induction bs as [|[k' b'] bs IH]; intros p; simpl; [set_solver|].
  intros (e & x & -> & ? & Hb & Hs) [[= -> ->]|?]%elem_of_cons; [|eauto].
  intros ->. by simpl in Hb.
Qed.

Lemma seg_length h p bs r : seg h p bs r → (length bs ≤ length (flat bs))%nat.
Proof.
  revert p. induction bs as [|[k b] bs IH]; intros p Hs; simpl; [lia|].
  assert (b ≠ []) by (eapply seg_nonempty; [done|left]).
  destruct Hs as (e & x & -> & ? & Hb & Hs). apply IH in Hs.
  rewrite flat_cons, length_app. destruct b; [done|simpl; lia].
Qed.

Lemma seg_size h p bs r : seg h p bs r → NoDup (flat bs) → (length (flat bs) ≤ size h)%nat.
Proof.
  intros Hs Hnd. rewrite <- size_dom.
  rewrite <- (size_list_to_set (C := gset Ev) (flat bs)) by done.
  apply subseteq_size. intros e He%elem_of_list_to_set.
  destruct (seg_lookup _ _ _ _ _ Hs He) as (x & _ & _ & Hx & _). by apply elem_of_dom_2 in Hx.
Qed.

Lemma seg_fuel h p bs r : seg h p bs r → NoDup (flat bs) → (length bs ≤ size h)%nat.
Proof. intros Hs Hnd. pose proof (seg_length _ _ _ _ Hs). pose proof (seg_size _ _ _ _ Hs Hnd). lia. Qed.

#[local] Arguments seg : simpl never.

(** *** Insertion *)

Lemma insertBefore_nil h e x :
  h !! e = Some x →
  insertBefore h e None = ok (<[e := with_nextInBin None (with_nextBin None x)]> h).
Proof. intros Hx. unfold insertBefore, deref. by rewrite Hx. Qed.

Lemma insertBefore_cons h e x c y :
  h !! e = Some x → h !! c = Some y → e ≠ c → nextBin y ≠ Some e →
  insertBefore h e (Some c) =
    ok (<[e := if decide (klt (ekey x) (ekey y))
               then with_nextInBin None (with_nextBin (Some c) x)
               else with_nextInBin (Some c) (with_nextBin (nextBin y) x)]> h).
Proof.
  intros Hx Hy Hec Hne. unfold insertBefore, deref. rewrite Hx, Hy. simpl.
  rewrite ev_lt_klt. case_decide; [rewrite bool_decide_true|rewrite bool_decide_false];
    try done; simpl; rewrite bool_decide_false; congruence.
Qed.

Lemma seg_head_not h p bs r e : seg h p bs r → e ∉ flat bs → r ≠ Some e → p ≠ Some e.
Proof.
  destruct bs as [|[k b] bs]; [by intros <-|]. intros Hs He _.
  apply seg_cons_inv in Hs as (e' & x & b' & -> & -> & _). rewrite flat_cons in He. set_solver.
Qed.

(** [insertBefore] puts [e] in front of bins that do not come before it; a
    second call changes nothing. *)
Lemma insertBefore_spec h e x curr bs :
  h !! e = Some x → e ∉ flat bs → seg h curr bs None → head_ge (ekey x) bs →
  ∃ x', insertBefore h e curr = ok (<[e := x']> h) ∧
    insertBefore (<[e := x']> h) e curr = ok (<[e := x']> h) ∧
    info x' = info x ∧ seg (<[e := x']> h) (Some e) (spec_insert (ekey x) e bs) None.
Proof.
  intros Hx He Hs Hge. destruct bs as [|[k b] bs]; simpl in Hge.
  - unfold seg in Hs. subst curr. exists (with_nextInBin None (with_nextBin None x)).
    rewrite (insertBefore_nil _ _ x) by done.
    rewrite (insertBefore_nil _ _ (with_nextInBin None (with_nextBin None x)))
      by apply lookup_insert_eq.
    rewrite insert_insert_eq. split_and!; [done..|].
    by eapply seg_cons_intro; [apply lookup_insert_eq|..].
  - apply seg_cons_inv in Hs as (c & y & b' & -> & -> & Hy & Hk & Hb & Hs).
    rewrite flat_cons in He.
    assert (e ≠ c ∧ e ∉ b' ∧ e ∉ flat bs) as (Hec & Heb & Hebs) by set_solver.
    assert (nextBin y ≠ Some e) as Hne by by eapply seg_head_not.
    eexists. rewrite (insertBefore_cons _ _ x _ y) by done. split; [done|].
    erewrite (insertBefore_cons _ _ _ _ y);
      [|apply lookup_insert_eq|by rewrite lookup_insert_ne|done|done].
    rewrite insert_insert_eq, Hk. simpl. destruct (decide (klt (ekey x) k)).
    + simpl. rewrite decide_True by done. split_and!; [done..|].
      eapply seg_cons_intro; [apply lookup_insert_eq|done|done|].
      eapply seg_cons_intro; [by rewrite lookup_insert_ne|done|..];
        [by apply inbin_insert_ne|by apply seg_insert_ne].
    + destruct (klt_trichotomy (ekey x) k) as [?|[Hxk|?]]; [done| |done].
      simpl. rewrite decide_False, decide_True by done. split_and!; [done..|].
      eapply seg_cons_intro; [apply lookup_insert_eq|done|..|by apply seg_insert_ne].
      simpl. split; [done|]. exists y. rewrite lookup_insert_ne by done.
      split_and!; [done..|]. by apply inbin_insert_ne.
Qed.

Lemma scan_spec h x fuel prev k0 b0 bs y :
  seg h (Some prev) ((k0, b0) :: bs) None → h !! prev = Some y →
  klt k0 (ekey x) → (length bs ≤ fuel)%nat →
  ∃ bs1 kp bp bs2 prev' y',
    (k0, b0) :: bs = bs1 ++ (kp, bp) :: bs2 ∧
    scan fuel h x prev (nextBin y) = ok (prev', nextBin y') ∧
    h !! prev' = Some y' ∧
    seg h (Some prev) bs1 (Some prev') ∧
    seg h (Some prev') ((kp, bp) :: bs2) None ∧
    Forall (fun kb => klt kb.1 (ekey x)) (bs1 ++ [(kp, bp)]) ∧
    head_ge (ekey x) bs2.
Proof.
  revert fuel prev k0 b0 y. induction bs as [|[k1 b1] bs IH]; intros fuel prev k0 b0 y Hs Hy Hlt Hf.
  - pose proof Hs as (e & y0 & ? & [= <-] & -> & Hy0 & _ & _ & Hn)%seg_cons_inv.
    assert (y0 = y) as -> by congruence. unfold seg in Hn.
    exists [], k0, (prev :: x0), [], prev, y. rewrite Hn. split_and!; try done.
    + by destruct fuel.
    + by apply Forall_singleton.
  - pose proof Hs as (e & y0 & b0' & [= <-] & -> & Hy0 & _ & _ & Hn)%seg_cons_inv.
    assert (y0 = y) as -> by congruence.
    pose proof Hn as (c & z & b1' & Hc & -> & Hz & Hkz & _ & _)%seg_cons_inv.
    rewrite Hc. destruct (decide (klt k1 (ekey x))) as [Hlt1|Hge1].
    + destruct fuel as [|fuel]; [simpl in Hf; lia|].
      rewrite Hc in Hn. destruct (IH fuel c k1 (c :: b1') z Hn Hz Hlt1) as
        (bs1 & kp & bp & bs2 & prev' & y' & Heq & Hscan & Hy' & Hs1 & Hs2 & Hall & Hge);
        [simpl in Hf; lia|].
      exists ((k0, prev :: b0') :: bs1), kp, bp, bs2, prev', y'. split_and!; try done.
      * simpl. by rewrite Heq.
      * simpl. unfold deref. rewrite Hz. simpl. rewrite ev_lt_klt, Hkz.
        by rewrite bool_decide_true.
      * apply seg_cons_inv in Hs as (e' & y0 & ? & [= <-] & [= <-] & ? & ? & ? & _).
        assert (y0 = y) as -> by congruence.
        eapply seg_cons_intro; [done|done|done|]. by rewrite Hc.
      * by constructor.
    + exists [], k0, (prev :: b0'), ((k1, c :: b1') :: bs), prev, y. rewrite Hc.
      split_and!; try done.
      * destruct fuel; simpl; unfold deref; rewrite Hz; simpl;
          rewrite ev_lt_klt, Hkz, bool_decide_false by done; done.
      * by apply Forall_singleton.
Qed.

Lemma spec_insert_app k e bs1 bs2 :
  Forall (fun kb => klt kb.1 k) bs1 → spec_insert k e (bs1 ++ bs2) = bs1 ++ spec_insert k e bs2.
Proof.
  induction 1 as [|[kb b] bs1 Hlt _ IH]; simpl; [done|]. simpl in Hlt.
  rewrite decide_False by (intros ?; eapply klt_irrefl, klt_trans; done).
  rewrite decide_False; [by rewrite IH|]. intros ->. by eapply klt_irrefl.
Qed.

Lemma spec_remove_app k e bs1 bs2 :
  Forall (fun kb => klt kb.1 k) bs1 → spec_remove k e (bs1 ++ bs2) = bs1 ++ spec_remove k e bs2.
Proof.
  induction 1 as [|[kb b] bs1 Hlt _ IH]; simpl; [done|]. simpl in Hlt.
  rewrite decide_False; [by rewrite IH|]. intros ->. by eapply klt_irrefl.
Qed.

(** Writing [prev->nextBin] replaces the bins that follow [prev]. *)
Lemma seg_relink h p bs1 prev y kp bp bs2 bs2' n r0 r :
  seg h p bs1 (Some prev) → seg h (Some prev) ((kp, bp) :: bs2) r0 → h !! prev = Some y →
  NoDup (flat bs1 ++ bp) → prev ∉ flat bs2' → seg h n bs2' r →
  seg (<[prev := with_nextBin n y]> h) p (bs1 ++ (kp, bp) :: bs2') r.
Proof.
  intros Hs1 Hs2 Hy Hnd Hni Hn. apply seg_app. exists (Some prev).
  apply seg_cons_inv in Hs2 as (e' & y0 & b' & [= <-] & -> & Hy0 & Hk & Hb & _).
  assert (y0 = y) as -> by congruence.
  apply NoDup_app in Hnd as (_ & Hd & [Hnb _]%NoDup_cons).
  assert (prev ∉ flat bs1) by (intros ?; eapply Hd; [done|left]).
  split; [by apply seg_insert_ne|].
  eapply seg_cons_intro; [apply lookup_insert_eq|done|by apply inbin_insert_ne|].
  by apply seg_insert_ne.
Qed.

(** What an operation leaves alone: the key and the flag of every event. *)
Lemma info_relink h prev y n :
  h !! prev = Some y → info <$> <[prev := with_nextBin n y]> h = info <$> h.
Proof.
  intros Hy. rewrite fmap_insert. rewrite insert_id; [done|]. by rewrite lookup_fmap, Hy.
Qed.

Lemma flat_spec_insert k e bs : flat (spec_insert k e bs) ≡ₚ e :: flat bs.
Proof.
  induction bs as [|[kb b] bs IH]; simpl; [done|].
  destruct (decide (klt k kb)); [done|]. destruct (decide (k = kb)); [done|].
  rewrite !flat_cons, IH. solve_Permutation.
Qed.

Lemma insert_front h e x p bs :
  h !! e = Some x → e ∉ flat bs → seg h p bs None → head_ge (ekey x) bs →
  ∃ h', insertBefore h e p = ok h' ∧ seg h' (Some e) (spec_insert (ekey x) e bs) None ∧
    info <$> h' = info <$> h.
Proof.
  intros Hx He Hs Hge.
  destruct (insertBefore_spec _ _ _ _ _ Hx He Hs Hge) as (x' & Hib & _ & Hi & Hs').
  eexists. split_and!; [done..|]. rewrite fmap_insert, Hi, insert_id; [done|].
  by rewrite lookup_fmap, Hx.
Qed.

Lemma insert_middle h e x x0 hd y k0 b0 bs :
  h !! e = Some x → ekey x0 = ekey x → e ∉ flat ((k0, b0) :: bs) →
  seg h (Some hd) ((k0, b0) :: bs) None → NoDup (flat ((k0, b0) :: bs)) →
  h !! hd = Some y → klt k0 (ekey x) →
  ∃ prev curr h1 z,
    scan (size h) h x0 hd (nextBin y) = ok (prev, curr) ∧
    insertBefore h e curr = ok h1 ∧ insertBefore h1 e curr = ok h1 ∧ h1 !! prev = Some z ∧
    seg (<[prev := with_nextBin (Some e) z]> h1) (Some hd)
        (spec_insert (ekey x) e ((k0, b0) :: bs)) None ∧
    info <$> <[prev := with_nextBin (Some e) z]> h1 = info <$> h.
Proof.
  intros Hx Hk He Hs Hnd Hy Hlt. rewrite <- Hk in Hlt.
  destruct (scan_spec h x0 (size h) hd k0 b0 bs y Hs Hy Hlt) as
    (bs1 & kp & bp & bs2 & prev & y' & Heq & Hscan & Hy' & Hs1 & Hs2 & Hall & Hge).
  { pose proof (seg_fuel _ _ _ _ Hs Hnd). simpl in *. lia. }
  rewrite Heq in *. rewrite flat_app, flat_cons in He, Hnd. rewrite Hk in Hall, Hge.
  pose proof Hs2 as (? & y0 & bp' & [= <-] & -> & Hy0 & _ & _ & Hn)%seg_cons_inv.
  assert (y0 = y') as -> by congruence.
  assert (e ≠ prev ∧ e ∉ flat bs1 ∧ e ∉ bp' ∧ e ∉ flat bs2) as (Hep & He1 & Hebp & He2) by set_solver.
  destruct (insertBefore_spec h e x _ bs2 Hx He2 Hn Hge) as (x' & Hib1 & Hib2 & Hi & Hs').
  exists prev, (nextBin y'), (<[e := x']> h), y'.
  rewrite lookup_insert_ne by done. split_and!; try done.
  - change (bs1 ++ (kp, prev :: bp') :: bs2) with (bs1 ++ [(kp, prev :: bp')] ++ bs2).
    rewrite (app_assoc bs1), spec_insert_app, <- (app_assoc bs1) by done. simpl.
    rewrite (app_assoc (flat bs1)) in Hnd. apply NoDup_app in Hnd as (Hnd1 & Hd & _).
    eapply seg_relink; [by apply seg_insert_ne| |by rewrite lookup_insert_ne|done| |done].
    + apply seg_insert_ne; [|done]. rewrite flat_cons. set_solver.
    + rewrite flat_spec_insert. intros [->|?]%elem_of_cons; [done|].
      eapply Hd; [|done]. set_solver.
  - rewrite info_relink by by rewrite lookup_insert_ne. rewrite fmap_insert, Hi, insert_id; [done|].
    by rewrite lookup_fmap, Hx.
Qed.

(** [insert] is insertion in the list of bins. *)
Lemma insert_seg q bs e x :
  heap q !! e = Some x → e ∉ flat bs → seg (heap q) (head q) bs None → NoDup (flat bs) →
  ∃ q', insert e q = ok q' ∧ _curTick q' = _curTick q ∧
    seg (heap q') (head q') (spec_insert (ekey x) e bs) None ∧
    info <$> heap q' = <[e := (ekey x, true)]> (info <$> heap q).
Proof.
  intros Hx He Hs Hnd. unfold insert, deref. rewrite Hx. simpl.
  set (x1 := with_scheduled true x). set (h := <[e := x1]> (heap q)).
  assert (h !! e = Some x1) as Hhe by apply lookup_insert_eq.
  assert (seg h (head q) bs None) as Hsh by by apply seg_insert_ne.
  assert (info <$> h = <[e := (ekey x, true)]> (info <$> heap q)) as Hinfo
    by (unfold h; by rewrite fmap_insert).
  destruct bs as [|[k0 b0] bs].
  { unfold seg in Hs. rewrite Hs in *. destruct (insert_front h e x1 None []) as (h' & -> & ? & ?);
      [done..|]. simpl. eexists. split_and!; [done..|]. simpl. congruence. }
  pose proof Hsh as (hd & y & b0' & Hhd & -> & Hy & Hk & _)%seg_cons_inv.
  rewrite Hhd in *. rewrite Hy. simpl. rewrite ev_le_klt, Hk. case_bool_decide as Hc; simpl.
  - destruct (insert_front h e x1 (Some hd) ((k0, hd :: b0') :: bs)) as (h' & -> & ? & ?); [done..|].
    simpl. eexists. split_and!; [done..|]. simpl. congruence.
  - destruct (insert_middle h e x1 x hd y k0 (hd :: b0') bs) as
      (prev & curr & h1 & z & -> & Hib1 & Hib2 & Hz & Hsz & Hiz); [done..|].
    simpl. rewrite Hib1. simpl. rewrite Hib2. simpl. rewrite Hz. simpl.
    eexists. split_and!; [done|done|simpl; by rewrite Hhd|simpl; congruence].
Qed.

(** *** Removal *)

Lemma find_in_bin_spec h k e fuel curr next b :
  inbin h k next b → e ∈ b → (length b ≤ fuel)%nat →
  ∃ l1 c l2, curr :: b = l1 ++ c :: e :: l2 ∧ find_in_bin fuel h e curr next = ok c.
Proof.
  revert fuel curr next. induction b as [|n b IH]; intros fuel curr next Hb He Hf; [set_solver|].
  destruct Hb as (-> & y & Hy & Hk & Hb).
  destruct (decide (n = e)) as [->|Hne].
  - exists [], curr, b. split; [done|]. destruct fuel; simpl; by rewrite bool_decide_true.
  - apply elem_of_cons in He as [?|He]; [congruence|].
    destruct fuel as [|fuel]; simpl in Hf; [lia|].
    destruct (IH fuel n (nextInBin y)) as (l1 & c & l2 & Heq & Hfind); [done|done|lia|].
    exists (curr :: l1), c, l2. split; [simpl; by rewrite Heq|].
    simpl. rewrite bool_decide_false by congruence. unfold deref. by rewrite Hy.
Qed.

Lemma find_in_bin_absent h k e fuel curr next b :
  inbin h k next b → e ∉ b → (length b ≤ fuel)%nat →
  find_in_bin fuel h e curr next = err RuntimeError.
Proof.
  revert fuel curr next. induction b as [|n b IH]; intros fuel curr next Hb He Hf.
  - simpl in Hb. subst. by destruct fuel.
  - destruct Hb as (-> & y & Hy & Hk & Hb). destruct fuel as [|fuel]; simpl in Hf; [lia|].
    simpl. rewrite bool_decide_false by set_solver. unfold deref. rewrite Hy. simpl.
    apply IH; [done|set_solver|lia].
Qed.

Lemma filter_out e b : e ∉ b → filter (fun e' => e' ≠ e) b = b.
Proof.
  induction b as [|a b IH]; intros He; [done|].
  rewrite filter_cons, decide_True, IH; set_solver.
Qed.

Lemma filter_mid l1 c e l2 :
  NoDup (l1 ++ c :: e :: l2) → filter (fun e' => e' ≠ e) (l1 ++ c :: e :: l2) = l1 ++ c :: l2.
Proof.
  intros Hnd. assert (e ∉ l1 ∧ e ≠ c ∧ e ∉ l2) as (? & ? & ?).
  { apply NoDup_app in Hnd as (_ & Hd & [? [? _]%NoDup_cons]%NoDup_cons).
    split_and!; [intros ?; eapply Hd; [done|set_solver]|set_solver|done]. }
  rewrite filter_app, !filter_cons.
  rewrite (decide_True (P := c ≠ e)) by done.
  rewrite (decide_False (P := e ≠ e)) by naive_solver. by rewrite !filter_out.
Qed.

Lemma inbin_unlink h k p l1 c e l2 xc xe :
  inbin h k p (l1 ++ c :: e :: l2) → h !! c = Some xc → h !! e = Some xe →
  NoDup (l1 ++ c :: e :: l2) →
  inbin (<[c := with_nextInBin (nextInBin xe) xc]> h) k p (l1 ++ c :: l2).
Proof.
  revert p. induction l1 as [|a l1 IH]; intros p; cbn [app]; intros Hb Hc He Hnd.
  - destruct Hb as (-> & x & Hx & Hk & _ & x' & Hx' & Hk' & Hb). split; [done|].
    assert (x = xc ∧ x' = xe) as [-> ->] by (split; congruence).
    eexists. rewrite lookup_insert_eq. split_and!; [done..|].
    apply inbin_insert_ne; [|done]. apply NoDup_cons in Hnd as [? _]. set_solver.
  - destruct Hb as (-> & x & Hx & Hk & Hb). split; [done|].
    apply NoDup_cons in Hnd as [Hni Hnd].
    exists x. rewrite lookup_insert_ne by set_solver. split_and!; [done..|]. by apply IH.
Qed.

Lemma removeItem_top h top k b bs r :
  seg h (Some top) ((k, top :: b) :: bs) r → NoDup (top :: b ++ flat bs) →
  ∃ h' top', removeItem h top top = ok (h', top') ∧
    seg h' top' (spec_remove k top ((k, top :: b) :: bs)) r ∧
    info <$> h' = info <$> h ∧ (∀ e', e' ∉ top :: b → h' !! e' = h !! e').
Proof.
  intros Hs [Htop Hnd]%NoDup_cons.
  pose proof Hs as (? & t & b0 & [= <-] & [= <-] & Ht & Hk & Hb & Hn)%seg_cons_inv.
  unfold removeItem, deref. rewrite Ht. cbn [opt_exc mbind exc_bind spec_remove].
  rewrite decide_True, (decide_True (P := k = k)), filter_cons by done.
  rewrite (decide_False (P := top ≠ top)), filter_out by set_solver.
  destruct b as [|n b].
  - simpl in Hb. rewrite Hb. eexists _, _. split_and!; done.
  - destruct Hb as (Hni & y & Hy & Hky & Hb). rewrite Hni, Hy. simpl.
    rewrite <- app_comm_cons in Hnd. apply NoDup_cons in Hnd as [Hnn _].
    eexists _, _. split_and!; [done|..|by apply info_relink|].
    + eapply seg_cons_intro; [apply lookup_insert_eq|done|simpl; apply inbin_insert_ne; set_solver|].
      simpl. apply seg_insert_ne; set_solver.
    + intros e' ?. rewrite lookup_insert_ne; [done|set_solver].
Qed.

(** Unlinking [e] below the top [top] of a bin. *)
Lemma seg_unlink h top k b bs r l1 c e l2 xc xe :
  seg h (Some top) ((k, top :: b) :: bs) r → top :: b = l1 ++ c :: e :: l2 →
  h !! c = Some xc → h !! e = Some xe → NoDup (top :: b ++ flat bs) →
  seg (<[c := with_nextInBin (nextInBin xe) xc]> h) (Some top) ((k, l1 ++ c :: l2) :: bs) r.
Proof.
  intros Hs Heq Hc He Hnd.
  pose proof Hs as (? & t & b0 & [= <-] & [= <-] & Ht & Hk & Hb & Hn)%seg_cons_inv.
  rewrite app_comm_cons, Heq in Hnd. apply NoDup_app in Hnd as (Hndb & Hd & _).
  assert (inbin h k (Some top) (l1 ++ c :: e :: l2)) as Hb'.
  { rewrite <- Heq. split; [done|]. eauto. }
  pose proof (inbin_unlink _ _ _ _ _ _ _ _ _ Hb' Hc He Hndb) as Hin.
  assert (∃ l, l1 ++ c :: l2 = top :: l) as [l Hl].
  { destruct l1; simplify_eq/=; eauto. }
  rewrite Hl in *. destruct Hin as (_ & t' & Ht' & Hk' & Hin).
  eapply seg_cons_intro; [done..|].
  replace (nextBin t') with (nextBin t); [apply seg_insert_ne; [|done]|].
  - apply Hd. set_solver.
  - destruct (decide (c = top)) as [->|].
    + rewrite lookup_insert_eq in Ht'. by simplify_eq/=.
    + rewrite lookup_insert_ne in Ht' by done. congruence.
Qed.

Lemma removeItem_below h e top k b bs r :
  seg h (Some top) ((k, top :: b) :: bs) r → e ∈ b → NoDup (top :: b ++ flat bs) →
  ∃ h', removeItem h e top = ok (h', Some top) ∧
    seg h' (Some top) (spec_remove k e ((k, top :: b) :: bs)) r ∧
    info <$> h' = info <$> h ∧ (∀ e', e' ∉ top :: b → h' !! e' = h !! e').
Proof.
  intros Hs He Hnd.
  assert (length (flat ((k, top :: b) :: bs)) ≤ size h)%nat as Hsz by (by eapply seg_size).
  rewrite flat_cons in Hsz. simpl in Hsz. rewrite length_app in Hsz.
  pose proof Hs as (? & t & b0 & [= <-] & [= <-] & Ht & Hk & Hb & Hn)%seg_cons_inv.
  assert (NoDup (top :: b)) as Hndb by (by rewrite app_comm_cons in Hnd; apply NoDup_app in Hnd as (?&_)).
  assert (e ≠ top) as Hne by (apply NoDup_cons in Hndb as [? _]; set_solver).
  destruct (find_in_bin_spec h k e (size h) top (nextInBin t) b) as (l1 & c & l2 & Heq & Hf); [done|done|lia|].
  destruct (inbin_lookup h k (Some top) (top :: b) c) as (xc & Hxc & Hkc).
  { split; [done|]. eauto. } { rewrite Heq. set_solver. }
  destruct (inbin_lookup h k _ b e Hb He) as (xe & Hxe & Hke).
  exists (<[c := with_nextInBin (nextInBin xe) xc]> h). split_and!.
  - unfold removeItem, deref. rewrite Ht. simpl. rewrite decide_False, Hf by done.
    simpl. rewrite Hxe. simpl. by rewrite Hxc.
  - cbn [spec_remove]. rewrite decide_True, Heq, filter_mid by (done || by rewrite <- Heq).
    destruct (l1 ++ c :: l2) eqn:Hl; [by destruct l1|]. rewrite <- Hl.
    by eapply seg_unlink.
  - rewrite fmap_insert. rewrite insert_id; [done|]. by rewrite lookup_fmap, Hxc.
  - intros e' ?. rewrite lookup_insert_ne; [done|]. rewrite Heq in *. set_solver.
Qed.

Lemma removeItem_spec h e top k b bs r :
  seg h (Some top) ((k, top :: b) :: bs) r → e ∈ top :: b → NoDup (top :: b ++ flat bs) →
  ∃ h' top', removeItem h e top = ok (h', top') ∧
    seg h' top' (spec_remove k e ((k, top :: b) :: bs)) r ∧
    info <$> h' = info <$> h ∧ (∀ e', e' ∉ top :: b → h' !! e' = h !! e').
Proof.
  intros Hs [->|He]%elem_of_cons Hnd; [by apply removeItem_top|].
  destruct (removeItem_below h e top k b bs r) as (h' & ? & ? & ? & ?); [done..|]. eauto 10.
Qed.

Lemma sorted_split k b bs1 bs2 :
  StronglySorted klt (fst <$> bs1 ++ (k, b) :: bs2) → Forall (fun kb => klt kb.1 k) bs1.
Proof.
  rewrite fmap_app. intros Hs. apply Forall_forall. intros [k' b'] Hin. simpl.
  eapply StronglySorted_app_1_elem_of; [done| |left].
  apply list_elem_of_fmap. by exists (k', b').
Qed.

Lemma split_unique k b l1 l2 l1' l2' :
  Forall (fun kb => klt kb.1 k) l1 → Forall (fun kb => klt kb.1 k) l1' →
  l1 ++ (k, b) :: l2 = l1' ++ l2' → head_ge k l2' → l1 = l1' ∧ l2' = (k, b) :: l2.
Proof.
  intros H1. revert l1'. induction H1 as [|[kb bb] l1 Hlt Hl1 IH]; intros l1' H1' Heq Hge.
  - destruct H1' as [|[k' b'] l1' Hlt' _]; [done|]. simplify_eq/=. by apply klt_irrefl in Hlt'.
  - destruct H1' as [|[k' b'] l1' Hlt' Hl1']; simplify_eq/=.
    + done.
    + destruct (IH l1') as [-> ?]; done.
Qed.

Lemma seg_find h p bs r e x :
  seg h p bs r → e ∈ flat bs → h !! e = Some x →
  ∃ bs1 b bs2, bs = bs1 ++ (ekey x, b) :: bs2 ∧ e ∈ b.
Proof.
  intros Hs He Hx. destruct (seg_lookup _ _ _ _ _ Hs He) as (x' & k & b & Hx' & Hin & Hb & Hk).
  assert (x' = x) as -> by congruence. subst k.
  apply list_elem_of_split in Hin as (bs1 & bs2 & ->). eauto.
Qed.

Lemma seg_first h e x k b bs r :
  seg h (Some e) ((k, b) :: bs) r → h !! e = Some x → seg h (Some e) [(k, b)] (nextBin x).
Proof.
  intros (? & y & b' & [= <-] & -> & Hy & Hk & Hb & _)%seg_cons_inv Hx.
  assert (y = x) as -> by congruence. by eapply seg_cons_intro.
Qed.

Lemma flat_spec_remove_sub k e bs e' : e' ∈ flat (spec_remove k e bs) → e' ∈ flat bs.
Proof.
  induction bs as [|[kb b] bs IH]; simpl; [done|]. destruct (decide (k = kb)).
  - assert (∀ e0, e0 ∈ filter (fun e1 => e1 ≠ e) b → e0 ∈ b) as Hsub
      by (intros ? [_ ?]%list_elem_of_filter; done).
    destruct (filter _ b); rewrite !flat_cons; set_solver.
  - rewrite !flat_cons. set_solver.
Qed.

(** Removal past the head of the queue. *)
Lemma remove_middle h e x hd y k0 b0 bs bs1 b bs2 :
  seg h (Some hd) ((k0, b0) :: bs) None → NoDup (flat ((k0, b0) :: bs)) →
  (k0, b0) :: bs = bs1 ++ (ekey x, b) :: bs2 → Forall (fun kb => klt kb.1 (ekey x)) bs1 →
  klt k0 (ekey x) → e ∈ b → h !! hd = Some y →
  ∃ prev c z h' top y',
    scan (size h) h x hd (nextBin y) = ok (prev, Some c) ∧ h !! c = Some z ∧ ekey z = ekey x ∧
    removeItem h e c = ok (h', top) ∧ h' !! prev = Some y' ∧
    seg (<[prev := with_nextBin top y']> h') (Some hd) (spec_remove (ekey x) e ((k0, b0) :: bs)) None ∧
    info <$> <[prev := with_nextBin top y']> h' = info <$> h.
Proof.
  intros Hs Hnd Heq Hall Hlt Heb Hy.
  destruct (scan_spec h x (size h) hd k0 b0 bs y Hs Hy Hlt) as
    (cs1 & kp & bp & cs2 & prev & y' & Hceq & Hscan & Hy' & Hs1 & Hs2 & Hcall & Hge).
  { pose proof (seg_fuel _ _ _ _ Hs Hnd). simpl in *. lia. }
  destruct (split_unique (ekey x) b bs1 bs2 (cs1 ++ [(kp, bp)]) cs2) as [-> ->]; [done..|by rewrite <- app_assoc, <- Heq|done|].
  pose proof Hs2 as (? & y0 & bp' & [= <-] & -> & Hy0 & _ & _ & Hn)%seg_cons_inv.
  assert (y0 = y') as -> by congruence.
  pose proof Hn as (c & z & b' & Hc & -> & Hz & Hkz & _ & _)%seg_cons_inv.
  rewrite Hceq in *. rewrite flat_app, !flat_cons in Hnd.
  rewrite (app_assoc (flat cs1)) in Hnd. apply NoDup_app in Hnd as (Hnd1 & Hd & Hnd2).
  rewrite Hc in Hn, Hscan.
  destruct (removeItem_spec h e c (ekey x) b' bs2 None) as (h' & top & Hri & Hsr & Hir & Hfr); [done..|].
  assert (∀ e', e' ∈ flat cs1 ++ prev :: bp' → h !! e' = h' !! e') as Hag.
  { intros e' He'. symmetry. apply Hfr. intros ?. eapply Hd; [done|]. set_solver. }
  exists prev, c, z, h', top, y'. split_and!; try done.
  - rewrite <- Hag; [done|set_solver].
  - change (cs1 ++ (kp, prev :: bp') :: (ekey x, c :: b') :: bs2)
      with (cs1 ++ [(kp, prev :: bp')] ++ (ekey x, c :: b') :: bs2).
    rewrite (app_assoc cs1), spec_remove_app, <- (app_assoc cs1) by done.
    eapply (seg_relink h' _ cs1 prev y' kp (prev :: bp') []); [..|done| |done].
    + eapply seg_frame; [|done]. intros; apply Hag; set_solver.
    + eapply seg_frame; [|eapply seg_first; [exact Hs2|exact Hy']]. intros; apply Hag.
      set_solver.
    + rewrite <- Hag; [done|set_solver].
    + intros Hin%flat_spec_remove_sub. eapply (Hd prev); [set_solver|done].
  - rewrite info_relink; [done|]. rewrite <- Hag; [done|set_solver].
Qed.

(** [remove] of a queued event. *)
Lemma remove_seg q bs e x :
  heap q !! e = Some x → e ∈ flat bs → seg (heap q) (head q) bs None → NoDup (flat bs) →
  StronglySorted klt (fst <$> bs) →
  ∃ q', remove e q = ok q' ∧ _curTick q' = _curTick q ∧
    seg (heap q') (head q') (spec_remove (ekey x) e bs) None ∧
    info <$> heap q' = <[e := (ekey x, false)]> (info <$> heap q).
Proof.
  intros Hx He Hs Hnd Hsort. unfold remove, deref. rewrite Hx. simpl.
  set (h := <[e := with_scheduled false x]> (heap q)).
  assert (seg h (head q) bs None) as Hsh by by apply seg_set_flag.
  assert (info <$> h = <[e := (ekey x, false)]> (info <$> heap q)) as Hinfo
    by (unfold h; by rewrite fmap_insert).
  destruct (seg_find h (head q) bs None e (with_scheduled false x)) as (bs1 & b & bs2 & Heq & Hb);
    [done|done|apply lookup_insert_eq|].
  change (ekey (with_scheduled false x)) with (ekey x) in *.
  pose proof (sorted_split (ekey x) b bs1 bs2) as Hall. rewrite <- Heq in Hall. specialize (Hall Hsort).
  destruct bs as [|[k0 b0] bs]; [by destruct bs1|].
  pose proof Hsh as (hd & y & b0' & Hhd & -> & Hy & Hk & _)%seg_cons_inv.
  rewrite Hhd in *. rewrite Hy. simpl. rewrite ev_eq_ekey, Hk. case_bool_decide as Hc; simpl.
  - rewrite Hc in *. destruct bs1 as [|[k' b'] bs1].
    2:{ exfalso. apply Forall_cons in Hall as [Hlt _]. assert (k' = ekey x) as -> by (simpl in Heq; congruence).
        by apply klt_irrefl in Hlt. }
    assert (b = hd :: b0') as -> by (simpl in Heq; congruence).
    destruct (removeItem_spec h e hd (ekey x) b0' bs None) as (h' & top & -> & Hsr & Hir & _); [done..|].
    simpl. eexists. split_and!; [done|done|done|simpl; congruence].
  - assert (klt k0 (ekey x)) as Hlt.
    { destruct bs1 as [|[k' b'] bs1]; simplify_eq/=. by apply Forall_cons in Hall as [? _]. }
    destruct (remove_middle h e x hd y k0 (hd :: b0') bs bs1 b bs2) as
      (prev & c & z & h' & top & pz & -> & Hz & Hkz & Hri & Hp & Hsr & Hir); [done..|].
    simpl. rewrite Hz. simpl. rewrite ev_neq_eq, ev_eq_ekey, Hkz, bool_decide_true by done. simpl.
    rewrite Hri. simpl. rewrite Hp. simpl.
    eexists. split_and!; [done|done|simpl; by rewrite Hhd|simpl; congruence].
Qed.

(** *** The priority queue on bins *)

Lemma spec_insert_keys k e bs : Forall (klt k) (fst <$> bs) → spec_insert k e bs = (k, [e]) :: bs.
Proof.
  destruct bs as [|[kb b] bs]; simpl; [done|]. intros [? _]%Forall_cons. by rewrite decide_True.
Qed.

Lemma spec_insert_sub k e bs k' :
  k' ∈ fst <$> spec_insert k e bs → k' = k ∨ k' ∈ fst <$> bs.
Proof.
  induction bs as [|[kb b] bs IH]; simpl; [set_solver|].
  repeat case_decide; simpl; set_solver.
Qed.

Lemma spec_insert_sorted k e bs :
  StronglySorted klt (fst <$> bs) → StronglySorted klt (fst <$> spec_insert k e bs).
Proof.
  induction bs as [|[kb b] bs IH]; simpl; intros Hs.
  { repeat constructor. }
  apply StronglySorted_inv in Hs as [Hs Hf].
  case_decide as Hlt; [|case_decide as Heq]; simpl; constructor; try done.
  - by constructor.
  - constructor; [done|]. eapply Forall_impl; [done|]. intros. by eapply klt_trans.
  - by apply IH.
  - apply Forall_forall. intros k' [->|Hin]%spec_insert_sub.
    + destruct (klt_trichotomy k kb) as [?|[?|?]]; done.
    + by eapply Forall_forall in Hf.
Qed.

Lemma spec_remove_sub k e bs k' : k' ∈ fst <$> spec_remove k e bs → k' ∈ fst <$> bs.
Proof.
  induction bs as [|[kb b] bs IH]; simpl; [done|].
  case_decide; [destruct (filter _ b)|]; simpl; set_solver.
Qed.

Lemma spec_remove_sorted k e bs :
  StronglySorted klt (fst <$> bs) → StronglySorted klt (fst <$> spec_remove k e bs).
Proof.
  induction bs as [|[kb b] bs IH]; simpl; intros Hs; [done|].
  pose proof Hs as [Hs' Hf]%StronglySorted_inv.
  case_decide; [destruct (filter _ b)|]; try done. simpl. constructor; [by apply IH|].
  apply Forall_forall. intros k' Hin%spec_remove_sub. by eapply Forall_forall in Hf.
Qed.

(** Removal from a queue that holds [e] in the bin of key [k] deletes [e] and
    nothing else. *)
Lemma flat_spec_remove k e bs1 b bs2 :
  Forall (fun kb => klt kb.1 k) bs1 → e ∈ b → NoDup (flat (bs1 ++ (k, b) :: bs2)) →
  flat (spec_remove k e (bs1 ++ (k, b) :: bs2)) =
    filter (fun e' => e' ≠ e) (flat (bs1 ++ (k, b) :: bs2)).
Proof.
  intros Hall He Hnd. rewrite spec_remove_app by done. simpl. rewrite decide_True by done.
  rewrite !flat_app, flat_cons, !filter_app in *.
  apply NoDup_app in Hnd as (_ & Hd & (_ & Hd2 & _)%NoDup_app).
  rewrite (filter_out e (flat bs1)) by (intros ?; eapply Hd; set_solver).
  rewrite (filter_out e (flat bs2)) by (by apply Hd2).
  f_equal. by destruct (filter _ b).
Qed.

Lemma spec_remove_insert k e bs :
  StronglySorted klt (fst <$> bs) → Forall (fun kb => kb.2 ≠ []) bs → e ∉ flat bs →
  spec_remove k e (spec_insert k e bs) = bs.
Proof.
  induction bs as [|[kb b] bs IH]; simpl; intros Hs Hne He.
  { rewrite decide_True, filter_cons, decide_False by naive_solver. done. }
  apply StronglySorted_inv in Hs as [Hs Hf]. apply Forall_cons in Hne as [Hb Hne].
  rewrite flat_cons in He. simpl in Hb.
  case_decide as Hlt; [|case_decide as Heq]; simpl.
  - rewrite decide_True, filter_cons, decide_False by naive_solver. done.
  - rewrite decide_True, filter_cons, decide_False, filter_out by set_solver. by destruct b.
  - rewrite decide_False, IH by set_solver. done.
Qed.

(** *** Invariants of [QRep] *)

Lemma QRep_info q bs e i :
  QRep q bs → (info <$> heap q) !! e = Some i → (i.2 = true ↔ e ∈ flat bs).
Proof.
  intros HR. rewrite lookup_fmap. intros (x & Hx & ->)%fmap_Some.
  by apply (rep_flag _ _ HR).
Qed.

Lemma QRep_lookup q bs e : QRep q bs → e ∈ flat bs → ∃ x, heap q !! e = Some x.
Proof. intros HR He. destruct (seg_lookup _ _ _ _ _ (rep_seg _ _ HR) He) as (x & ?); naive_solver. Qed.

Lemma QRep_bins q bs : QRep q bs → Forall (fun kb => kb.2 ≠ []) bs.
Proof.
  intros HR. apply Forall_forall. intros [k b] Hin.
  exact (seg_nonempty _ _ _ _ k b (rep_seg _ _ HR) Hin).
Qed.

Lemma QRep_empty q : QRep q [] → head q = None.
Proof. intros HR. exact (rep_seg _ _ HR). Qed.

Lemma Forall_keys (P : Z * Z -> Prop) bs :
  Forall (fun kb => P kb.1) bs ↔ (∀ k, k ∈ fst <$> bs → P k).
Proof.
  rewrite <- Forall_forall, Forall_fmap. done.
Qed.

(** A new queue is empty. *)
Lemma QRep_new (objs : gmap Ev (event Ev)) :
  map_Forall (fun _ x => _scheduled x = false) objs → QRep (new_queue objs) [].
Proof.
  intros Hf. constructor; simpl; try done; try constructor.
  - intros Ht. specialize (Hf e x H0). simpl in Hf. congruence.
  - set_solver.
Qed.

Lemma insert_QRep q bs e x :
  QRep q bs → e ∉ flat bs → _curTick q ≤ _when x →
  ∃ q', insert e (set_heap (<[e := x]> (heap q)) q) = ok q' ∧ _curTick q' = _curTick q ∧
    QRep q' (spec_insert (ekey x) e bs) ∧
    info <$> heap q' = <[e := (ekey x, true)]> (info <$> heap q).
Proof.
  intros HR He Ht.
  set (q0 := set_heap (<[e := x]> (heap q)) q).
  assert (seg (heap q0) (head q0) bs None) as Hs by (simpl; by apply seg_insert_ne, HR).
  destruct (insert_seg q0 bs e x) as (q' & Hq' & Hc & Hs' & Hi);
    [apply lookup_insert_eq|done|done|apply HR|].
  simpl in Hi. rewrite fmap_insert, insert_insert_eq in Hi.
  exists q'. split_and!; [done|done| |done]. constructor.
  - done.
  - rewrite flat_spec_insert. constructor; [done|apply HR].
  - apply spec_insert_sorted, HR.
  - intros e' x' Hx'. rewrite flat_spec_insert.
    assert ((info <$> heap q') !! e' = Some (info x')) as Hl by (by rewrite lookup_fmap, Hx').
    rewrite Hi in Hl. destruct (decide (e' = e)) as [->|Hne].
    + rewrite lookup_insert_eq in Hl. injection Hl as Hl. set_solver.
    + rewrite lookup_insert_ne in Hl by done.
      pose proof (QRep_info q bs e' (info x') HR Hl) as Hf. simpl in Hf. set_solver.
  - rewrite Hc. simpl. apply (Forall_keys (fun k => _curTick q ≤ k.1)). intros k' [->|Hin]%spec_insert_sub; [done|].
    revert k' Hin. apply (Forall_keys (fun k => _curTick q ≤ k.1)), HR.
Qed.

Lemma remove_QRep q bs e x :
  QRep q bs → heap q !! e = Some x → e ∈ flat bs →
  ∃ q', remove e q = ok q' ∧ _curTick q' = _curTick q ∧
    QRep q' (spec_remove (ekey x) e bs) ∧
    flat (spec_remove (ekey x) e bs) = filter (fun e' => e' ≠ e) (flat bs) ∧
    info <$> heap q' = <[e := (ekey x, false)]> (info <$> heap q).
Proof.
  intros HR Hx He.
  destruct (remove_seg q bs e x) as (q' & Hq' & Hc & Hs' & Hi); [done|done|apply HR..|].
  destruct (seg_find _ _ bs None e x (rep_seg _ _ HR) He Hx) as (bs1 & b & bs2 & -> & Hb).
  pose proof (sorted_split _ _ _ _ (rep_sorted _ _ HR)) as Hall.
  pose proof (flat_spec_remove _ _ _ _ _ Hall Hb (rep_nodup _ _ HR)) as Hflat.
  exists q'. split_and!; [done|done| |done|done]. constructor.
  - done.
  - rewrite Hflat. apply NoDup_filter, HR.
  - apply spec_remove_sorted, HR.
  - intros e' x' Hx'. rewrite Hflat, list_elem_of_filter.
    assert ((info <$> heap q') !! e' = Some (info x')) as Hl by (by rewrite lookup_fmap, Hx').
    rewrite Hi in Hl. destruct (decide (e' = e)) as [->|Hne].
    + rewrite lookup_insert_eq in Hl. injection Hl as Hl. split; [congruence|naive_solver].
    + rewrite lookup_insert_ne in Hl by done.
      pose proof (QRep_info q _ e' (info x') HR Hl) as Hf. simpl in Hf. naive_solver.
  - rewrite Hc. apply (Forall_keys (fun k => _curTick q ≤ k.1)). intros k' Hin%spec_remove_sub.
    revert k' Hin. apply (Forall_keys (fun k => _curTick q ≤ k.1)), HR.
Qed.

Lemma service_pop_remove q e x :
  head q = Some e → heap q !! e = Some x →
  service_pop q = q' ← remove e q; ok (e, setCurTick (_when x) q').
Proof.
  intros Hhd Hx. unfold service_pop, remove, removeItem, deref. rewrite Hhd. simpl. rewrite Hx.
  simpl. rewrite lookup_insert_eq. simpl. rewrite ev_eq_ekey, bool_decide_true by done.
  rewrite decide_True by done. destruct (nextInBin x) as [n|]; simpl; [|done].
  by destruct (<[e:=with_scheduled false x]> (heap q) !! n).
Qed.

Lemma spec_remove_pop k e b bs :
  NoDup (e :: b) → spec_remove k e ((k, e :: b) :: bs) = spec_pop ((k, e :: b) :: bs).
Proof.
  intros [He _]%NoDup_cons. simpl.
  rewrite decide_True, filter_cons, decide_False, filter_out by naive_solver. by destruct b.
Qed.

Lemma QRep_cons q k b bs :
  QRep q ((k, b) :: bs) →
  ∃ e x b', b = e :: b' ∧ head q = Some e ∧ heap q !! e = Some x ∧ ekey x = k ∧ e ∉ b'.
Proof.
  intros HR. pose proof (rep_seg _ _ HR) as (e & x & b' & ? & -> & ? & ? & _)%seg_cons_inv.
  exists e, x, b'. split_and!; try done.
  pose proof (rep_nodup _ _ HR) as Hnd. rewrite flat_cons in Hnd.
  apply NoDup_app in Hnd as ([? _]%NoDup_cons & _). done.
Qed.

(** The bins behind the first come later or have a larger priority number. *)
Lemma QRep_later q k b bs : QRep q ((k, b) :: bs) → Forall (fun kb => klt k kb.1) bs.
Proof.
  intros HR. pose proof (rep_sorted _ _ HR) as [_ Hf]%StronglySorted_inv.
  exact (proj1 (Forall_fmap _ _ _) Hf).
Qed.

Lemma QRep_advance q bs t :
  QRep q bs → Forall (fun kb => t ≤ kb.1.1) bs → QRep (setCurTick t q) bs.
Proof. intros [] Hf. by constructor. Qed.

Lemma service_pop_QRep q k b bs :
  QRep q ((k, b) :: bs) →
  ∃ e b' q', b = e :: b' ∧ service_pop q = ok (e, q') ∧
    QRep q' (spec_pop ((k, b) :: bs)) ∧ _curTick q' = k.1 ∧
    (∃ x, heap q !! e = Some x ∧ ekey x = k ∧ _scheduled x = true) ∧
    info <$> heap q' = <[e := (k, false)]> (info <$> heap q).
Proof.
  intros HR. destruct (QRep_cons _ _ _ _ HR) as (e & x & b' & -> & Hhd & Hx & Hk & He).
  destruct (remove_QRep q ((k, e :: b') :: bs) e x) as (q' & Hq' & Hc & HR' & _ & Hinfo);
    [done|done|rewrite flat_cons; set_solver|].
  rewrite Hk, spec_remove_pop in HR' by (constructor; [done|];
    pose proof (rep_nodup _ _ HR) as [_ Hnd]%NoDup_cons; by apply NoDup_app in Hnd as (? & _)).
  exists e, b', (setCurTick (_when x) q'). split_and!; [done| | |simpl; by rewrite <- Hk| |by rewrite <- Hk].
  - by rewrite (service_pop_remove q e x), Hq'.
  - apply QRep_advance; [done|].
    assert (Forall (fun kb => _when x ≤ kb.1.1) bs) as Hf.
    { eapply Forall_impl; [by apply (QRep_later _ _ _ _ HR)|]. rewrite <- Hk. unfold klt. simpl. lia. }
    simpl. destruct b'; [done|]. constructor; [|done]. simpl. rewrite <- Hk. done.
  - exists x. split_and!; [done|done|]. apply (rep_flag _ _ HR e x Hx). rewrite flat_cons. set_solver.
Qed.


Lemma remove_absent_bin h e x c z k b bs r :
  seg h (Some c) ((k, b) :: bs) r → e ∉ b → h !! e = Some x → NoDup (b ++ flat bs) →
  h !! c = Some z → removeItem h e c = err RuntimeError.
Proof.
  intros Hs He Hx Hnd Hz.
  pose proof (seg_size _ _ _ _ Hs Hnd) as Hsz. rewrite flat_cons, length_app in Hsz.
  apply seg_cons_inv in Hs as (? & z' & b' & [= <-] & -> & Hz' & Hk & Hb & _).
  assert (z' = z) as -> by congruence. simpl in Hsz.
  unfold removeItem, deref. rewrite Hz. simpl. rewrite decide_False by set_solver.
  rewrite (find_in_bin_absent _ k _ _ _ _ b'); [done|done|set_solver|lia].
Qed.

Lemma remove_absent q bs e x :
  QRep q bs → heap q !! e = Some x → e ∉ flat bs → remove e q = err RuntimeError.
Proof.
  intros HR Hx He. unfold remove, deref. rewrite Hx. simpl.
  set (h := <[e := with_scheduled false x]> (heap q)).
  assert (seg h (head q) bs None) as Hsh by (apply seg_set_flag; [done|apply HR]).
  assert (h !! e = Some (with_scheduled false x)) as Hhe by apply lookup_insert_eq.
  pose proof (rep_nodup _ _ HR) as Hnd.
  destruct bs as [|[k0 b0] bs]; [by rewrite (QRep_empty q HR)|].
  pose proof Hsh as (hd & y & b0' & Hhd & -> & Hy & Hk & _)%seg_cons_inv.
  rewrite Hhd in *. rewrite Hy. simpl. rewrite ev_eq_ekey, Hk. case_bool_decide as Hc.
  { erewrite remove_absent_bin; [done|done| |done|done|done]. rewrite flat_cons in He. set_solver. }
  destruct (klt_trichotomy k0 (ekey x)) as [Hlt|[?|Hgt]]; [|done|].
  - destruct (scan_spec h x (size h) hd k0 (hd :: b0') bs y Hsh Hy Hlt) as
      (cs1 & kp & bp & cs2 & prev & y' & Hceq & -> & Hy' & _ & Hs2 & _ & Hge).
    { pose proof (seg_fuel _ _ _ _ Hsh Hnd). simpl in *. lia. }
    apply seg_cons_inv in Hs2 as (? & y0 & bp' & [= <-] & -> & Hy0 & _ & _ & Hn).
    assert (y0 = y') as -> by congruence. simpl.
    destruct cs2 as [|[kc bc] cs2]; [simpl in Hn; by rewrite Hn|].
    pose proof Hn as (c & z & b' & Hc' & -> & Hz & Hkz & _)%seg_cons_inv.
    rewrite Hc' in *. rewrite Hz. simpl. rewrite ev_neq_eq.
    destruct (ev_eq z x); [|done]. simpl.
    rewrite Hceq in Hnd, He. rewrite flat_app, !flat_cons in Hnd, He.
    erewrite remove_absent_bin; [done|done|set_solver|done| |done].
    by apply NoDup_app in Hnd as (_ & _ & (_ & _ & ?)%NoDup_app).
  - apply seg_cons_inv in Hsh as (? & y0 & ? & [= <-] & _ & Hy0 & _ & _ & Hn).
    assert (y0 = y) as -> by congruence.
    destruct bs as [|[kc bc] bs]; [simpl in Hn; rewrite Hn; by destruct (size h)|].
    apply seg_cons_inv in Hn as (c & z & b' & Hc' & _ & Hz & Hkz & _). rewrite Hc'.
    pose proof (QRep_later _ _ _ _ HR) as [Hl _]%Forall_cons. simpl in Hl.
    pose proof (klt_trans _ _ _ Hgt Hl) as Hxc.
    assert (scan (size h) h x hd (Some c) = ok (hd, Some c)) as ->.
    { destruct (size h); simpl; unfold deref; rewrite Hz; simpl; rewrite ev_lt_klt, Hkz;
        rewrite bool_decide_false; auto; intros ?; eapply klt_irrefl, klt_trans; done. }
    simpl. rewrite Hz. simpl. rewrite ev_neq_eq, ev_eq_ekey, Hkz, bool_decide_false; [done|].
    intros ->. by eapply klt_irrefl.
Qed.
End Lemmas.

(** ** Theorems *)

Section Theorems.
Context {Ev : Type} `{Countable Ev}.
Implicit Types (e : Ev) (x : event Ev) (k : Z * Z)
  (b : list Ev) (bs : list (Z * Z * list Ev)) (q : EventQueue Ev).

(** (C8) Scheduling an idle event at a time that has not passed succeeds, puts
    it on top of the bin of its time and priority, and changes the clock and
    every other event's key and flag not at all: [schedule] refines insertion
    in a priority queue. *)
Theorem schedule_refines q bs e x t :
  QRep q bs → heap q !! e = Some x → _scheduled x = false → _curTick q ≤ t →
  ∃ q', schedule e t q = ok q' ∧ _curTick q' = _curTick q ∧
    QRep q' (spec_insert (t, _priority x) e bs) ∧
    info <$> heap q' = <[e := ((t, _priority x), true)]> (info <$> heap q).
Proof.
  intros HR Hx Hsch Ht. unfold schedule, deref. rewrite Hx. simpl. rewrite Hsch.
  destruct (Z.ltb_spec t (_curTick q)); [lia|].
  apply (insert_QRep q bs e (setWhen t x)); [done| |done].
  rewrite <- (rep_flag _ _ HR e x Hx), Hsch. done.
Qed.


(** [deschedule] succeeds exactly on queued events, which it removes
    without reordering the others; on an idle event it throws. *)
Theorem deschedule_spec q bs e x :
  QRep q bs → heap q !! e = Some x →
  (_scheduled x = true → ∃ q', deschedule e q = ok q' ∧ _curTick q' = _curTick q ∧
     QRep q' (spec_remove (ekey x) e bs) ∧
     flat (spec_remove (ekey x) e bs) = filter (fun e' => e' ≠ e) (flat bs)) ∧
  (_scheduled x = false → deschedule e q = err RuntimeError).
Proof.
  intros HR Hx. pose proof (rep_flag _ _ HR e x Hx) as Hf. split; intros Hs.
  - destruct (remove_QRep q bs e x) as (q' & ? & ? & ? & ? & _); naive_solver.
  - apply (remove_absent q bs e x); [done|done|]. rewrite <- Hf. congruence.
Qed.

(** Descheduling an event just scheduled restores the queue. *)
Theorem schedule_deschedule_roundtrip q bs e x t :
  QRep q bs → heap q !! e = Some x → _scheduled x = false → _curTick q ≤ t →
  ∃ q1 q2, schedule e t q = ok q1 ∧ deschedule e q1 = ok q2 ∧
    _curTick q2 = _curTick q ∧ QRep q2 bs.
Proof.
  intros HR Hx Hs Ht. assert (e ∉ flat bs) as He.
  { rewrite <- (rep_flag _ _ HR e x Hx), Hs. done. }
  unfold schedule, deref. rewrite Hx. simpl. rewrite Hs.
  destruct (Z.ltb_spec t (_curTick q)); [lia|].
  destruct (insert_QRep q bs e (setWhen t x) HR He) as (q1 & -> & Hc1 & HR1 & Hi1); [done|].
  assert (∃ x1, heap q1 !! e = Some x1 ∧ ekey x1 = ekey (setWhen t x)) as (x1 & Hx1 & Hk1).
  { assert ((info <$> heap q1) !! e = Some (ekey (setWhen t x), true)) as Hl
      by (by rewrite Hi1, lookup_insert_eq).
    rewrite lookup_fmap in Hl. apply fmap_Some in Hl as (x1 & Hx1 & Hk). eexists. split; [done|].
    injection Hk as Hk. unfold ekey in *. simpl. congruence. }
  destruct (remove_QRep q1 _ e x1 HR1 Hx1) as (q2 & Hq2 & Hc2 & HR2 & _).
  { rewrite flat_spec_insert. set_solver. }
  exists q1, q2. split_and!; [done|done|congruence|].
  rewrite Hk1, spec_remove_insert in HR2; [done|apply HR|by eapply QRep_bins|done].
Qed.

Lemma drain_ok q bs fuel :
  QRep q bs → (length (flat bs) ≤ fuel)%nat →
  ∃ q', drain fuel q = ok q' ∧ head q' = None ∧
    map_Forall (fun _ x => _scheduled x = false) (heap q').
Proof.
  revert q bs. induction fuel as [|fuel IH]; intros q bs HR Hf;
    (destruct bs as [|[k b] bs];
      [exists q; pose proof (QRep_empty q HR) as Hh; unfold drain; rewrite Hh; split_and!; try done;
       intros e x Hx; destruct (_scheduled x) eqn:Hs; [|done];
       apply (rep_flag _ _ HR e x Hx) in Hs; set_solver|]);
    destruct (QRep_cons _ _ _ _ HR) as (e & x & b' & -> & Hhd & Hx & Hk & He).
  { rewrite flat_cons in Hf. simpl in Hf. lia. }
  destruct (remove_QRep q _ e x HR Hx) as (q' & Hq' & _ & HR' & Hfl & _);
    [rewrite flat_cons; set_solver|].
  simpl. rewrite Hhd. unfold deschedule. rewrite Hq'. apply (IH q' _ HR').
  rewrite Hfl, flat_cons. rewrite <- app_comm_cons, filter_cons, decide_False by naive_solver.
  rewrite flat_cons in Hf. simpl in Hf. pose proof (length_filter (fun e' => e' ≠ e) (b' ++ flat bs)).
  lia.
Qed.

(** The destructor's loop ends, with the queue empty and every event idle:
    one iteration per queued event. *)
Theorem drain_total q bs fuel :
  QRep q bs → (length (flat bs) ≤ fuel)%nat →
  ∃ q', drain fuel q = ok q' ∧ head q' = None ∧
    map_Forall (fun _ x => _scheduled x = false) (heap q').
Proof. apply drain_ok. Qed.
End Theorems.

Section Service.
Context {Ev : Type} `{Countable Ev}.
Implicit Types (e : Ev) (x : event Ev) (k : Z * Z)
  (b : list Ev) (bs : list (Z * Z * list Ev)) (q : EventQueue Ev).

(** A world that holds the queue and the list of the events processed. *)
#[global] Instance log_world : Has (EventQueue Ev * list Ev) (EventQueue Ev).
Proof.
  refine {| get w := w.1; put q w := (q, w.2) |}; [done|by intros []|done].
Defined.

Definition log_process (e : Ev) : M (EventQueue Ev * list Ev) unit :=
  modify (fun w => (w.1, w.2 ++ [e])).

(** A world whose queue is well formed. *)
Definition wf_queue {W} `{Has W (EventQueue Ev)} (w : W) : Prop :=
  ∃ bs, QRep (get (EventQueue Ev) w) bs.

Lemma nextTick_QRep q k b bs : QRep q ((k, b) :: bs) → nextTick q = ok k.1 ∧ empty q = false.
Proof.
  intros HR. destruct (QRep_cons _ _ _ _ HR) as (e & x & b' & -> & Hhd & Hx & <- & _).
  unfold nextTick, deref, empty. rewrite Hhd. simpl. by rewrite Hx.
Qed.

Lemma due_cut t k b bs :
  Forall (fun kb => klt k kb.1) bs → ¬ k.1 ≤ t → due t ((k, b) :: bs) = [].
Proof.
  intros Hf Ht. unfold due. rewrite filter_cons. simpl. rewrite decide_False by done.
  induction Hf as [|kb bs Hlt _ IH]; [done|]. rewrite filter_cons, decide_False; [done|].
  unfold klt in Hlt. lia.
Qed.


Lemma due_pop t k e b bs :
  k.1 ≤ t → flat (due t ((k, e :: b) :: bs)) = e :: flat (due t (spec_pop ((k, e :: b) :: bs))) ∧
  not_due t (spec_pop ((k, e :: b) :: bs)) = not_due t ((k, e :: b) :: bs).
Proof.
  intros Ht. unfold due, not_due. rewrite !filter_cons. simpl.
  rewrite decide_True, decide_False by naive_solver.
  destruct b; simpl; [by rewrite flat_cons|].
  rewrite !filter_cons. simpl. rewrite decide_True, decide_False by naive_solver.
  by rewrite !flat_cons.
Qed.

(** The loop stops when no event is due. *)
Lemma serviceEvents_stop {W} `{Has W (EventQueue Ev)} process t (w : W) bs :
  QRep (get (EventQueue Ev) w) bs → curTick w ≤ t → due t bs = [] →
  (∀ fuel, serviceEvents fuel process t w =
     ok (tt, put _ (setCurTick t (get (EventQueue Ev) w)) w)) ∧
  QRep (setCurTick t (get (EventQueue Ev) w)) bs.
Proof.
  intros HR Ht Hd. destruct bs as [|[k b] bs].
  { split; [|by apply QRep_advance]. intros [|fuel]; simpl; unfold empty; by rewrite (QRep_empty _ HR). }
  pose proof (nextTick_QRep _ _ _ _ HR) as [Hn He].
  assert (¬ k.1 ≤ t) as Hk.
  { intros Hk. unfold due in Hd. rewrite filter_cons in Hd. simpl in Hd. by rewrite decide_True in Hd. }
  split.
  - intros [|fuel]; simpl; rewrite He, Hn; simpl; (destruct (Z.ltb_spec t k.1); [done|lia]).
  - apply QRep_advance; [done|]. constructor; simpl; [lia|].
    eapply Forall_impl; [by eapply QRep_later|]. intros kb. unfold klt; simpl; lia.
Qed.

(** Otherwise it services the first event. *)
Lemma serviceEvents_pop {W} `{Has W (EventQueue Ev)} process t (w : W) bs :
  QRep (get (EventQueue Ev) w) bs → due t bs ≠ [] →
  ∃ e q, flat (due t bs) = e :: flat (due t (spec_pop bs)) ∧
    not_due t (spec_pop bs) = not_due t bs ∧
    QRep q (spec_pop bs) ∧ curTick w ≤ _curTick q ≤ t ∧
    (∀ fuel, serviceEvents (S fuel) process t w =
       ('(_, w') ← process e (put (EventQueue Ev) q w); serviceEvents fuel process t w')) ∧
    serviceEvents 0 process t w = err OutOfFuel.
Proof.
  intros HR Hd. destruct bs as [|[k b] bs]; [done|].
  pose proof (nextTick_QRep _ _ _ _ HR) as [Hn He].
  destruct (decide (k.1 ≤ t)) as [Hk|Hk];
    [|by apply (due_cut t k b bs (QRep_later _ _ _ _ HR)) in Hk].
  destruct (service_pop_QRep _ k b bs HR) as (e & b' & q & -> & Hq & HR' & Hc & _).
  destruct (due_pop t k e b' bs Hk) as [Hdp Hnd].
  exists e, q. split_and!; try done.
  - rewrite Hc. by pose proof (rep_time _ _ HR) as [? _]%Forall_cons.
  - by rewrite Hc.
  - intros fuel. simpl. rewrite He, Hn. simpl. destruct (Z.ltb_spec t k.1); [lia|].
    unfold serviceOne. by rewrite Hq.
  - simpl. rewrite He, Hn. simpl. by destruct (Z.ltb_spec t k.1); [lia|].
Qed.


(** Whatever the handlers do, as long as they leave the queue well formed
    and the clock alone, a completed [serviceEvents(t)] leaves a well-formed
    queue whose clock is [t]: simulated time is consistent across handlers that
    schedule further events. *)
Theorem serviceEvents_clock {W} `{Has W (EventQueue Ev)} fuel process t (w w' : W) :
  (∀ e w1 w2, wf_queue w1 → process e w1 = ok (tt, w2) → wf_queue w2 ∧ curTick w2 = curTick w1) →
  wf_queue w → curTick w ≤ t → serviceEvents fuel process t w = ok (tt, w') →
  wf_queue w' ∧ curTick w' = t.
Proof.
  intros Hp. revert w. induction fuel as [|fuel IH]; intros w [bs HR] Ht Hrun;
    (destruct (decide (due t bs = [])) as [Hd|Hd];
      [destruct (serviceEvents_stop process t w bs HR Ht Hd) as [Hs HR'];
       rewrite Hs in Hrun; inv_ok; unfold wf_queue, curTick; rewrite get_put; eauto|]);
    destruct (serviceEvents_pop process t w bs HR Hd) as (e & q & _ & _ & HR1 & Ht1 & Hstep & H0f).
  { by rewrite H0f in Hrun. }
  rewrite Hstep in Hrun. apply exc_bind_ok in Hrun as ([[] w1] & He & Hrun).
  destruct (Hp e (put (EventQueue Ev) q w) w1) as [Hwf1 Hc1]; [|done|].
  { exists (spec_pop bs). by rewrite get_put. }
  apply (IH w1); [done| |done]. rewrite Hc1. unfold curTick. rewrite get_put. lia.
Qed.

(** [n] pops in a row, handlers that do nothing. *)
Fixpoint pops (n : nat) q : exc (EventQueue Ev) :=
  match n with
  | O => ok q
  | S n' => '(_, q') ← service_pop q; pops n' q'
  end.

Lemma self_loop_pops n q e x :
  head q = Some e → heap q !! e = Some x → nextInBin x = Some e →
  ∃ q', pops n q = ok q' ∧ empty q' = false.
Proof.
  revert q x. induction n as [|n IH]; intros q x Hh Hx Hn.
  { exists q. split; [done|]. unfold empty. by rewrite Hh. }
  simpl. unfold service_pop, deref. rewrite Hh. simpl. rewrite Hx. simpl. rewrite Hn.
  rewrite lookup_insert_eq. simpl. eapply IH; [done|simpl; apply lookup_insert_eq|done].
Qed.

(** [reschedule] does not take a queued event off first: when the event is
    the head of the queue its bin becomes a cycle and the queue never empties,
    however many events are serviced. *)
Theorem reschedule_queued_loops q bs e t :
  QRep q bs → head q = Some e → _curTick q ≤ t →
  ∃ q', reschedule e t q = ok q' ∧ ∀ n, ∃ q'', pops n q' = ok q'' ∧ empty q'' = false.
Proof.
  intros HR Hh Ht. destruct bs as [|[k b] bs]; [by rewrite (QRep_empty q HR) in Hh|].
  destruct (QRep_cons _ _ _ _ HR) as (e' & x & b' & -> & Hh' & Hx & Hk & He').
  assert (e' = e) as -> by congruence. clear Hh'.
  assert (nextBin x ≠ Some e) as Hnb.
  { pose proof (rep_seg _ _ HR) as (? & y & ? & Hp & _ & Hy & _ & _ & Hs)%seg_cons_inv.
    rewrite Hh in Hp. injection Hp as <-. assert (y = x) as -> by congruence.
    eapply seg_head_not; [done| |done].
    pose proof (rep_nodup _ _ HR) as [Hni _]%NoDup_cons. set_solver. }
  unfold reschedule, insert, insertBefore, deref. rewrite Hx. simpl.
  destruct (Z.ltb_spec t (_curTick q)); [lia|]. simpl. rewrite lookup_insert_eq. simpl.
  rewrite Hh, lookup_insert_eq. simpl. rewrite ev_le_klt, bool_decide_true by apply klt_irrefl.
  simpl. rewrite ev_lt_klt, bool_decide_false by apply klt_irrefl. simpl.
  rewrite bool_decide_false by done. eexists. split; [done|]. intros n.
  eapply self_loop_pops; [reflexivity|apply lookup_insert_eq|done].
Qed.
End Service.

(** ** A concrete queue *)

Section Demo.

Definition demo_objs : gmap nat (event nat) :=
  list_to_map [(1%nat, new_event Default_Pri); (2%nat, new_event Default_Pri);
               (3%nat, new_event CPU_Tick_Pri); (4%nat, new_event Default_Pri)].

(** Events 1 and 2 at tick 5, event 3 at tick 5 with a larger priority number,
    event 4 idle. *)
Definition demo_queue : exc (EventQueue nat) :=
  q1 ← schedule 1%nat 5 (new_queue demo_objs);
  q2 ← schedule 3%nat 5 q1;
  schedule 2%nat 5 q2.
Definition demo_bins : list (Z * Z * list nat) :=
  [((5, Default_Pri), [2; 1]%nat); ((5, CPU_Tick_Pri), [3%nat])].
Definition demo_q : EventQueue nat :=
  match demo_queue with ok q => q | err _ => new_queue ∅ end.

Lemma demo_rep : QRep demo_q demo_bins.
Proof.
  constructor.
  - repeat (split || eexists); vm_compute; reflexivity.
  - apply (bool_decide_unpack _). vm_compute. exact I.
  - repeat constructor; right; simpl; split; reflexivity.
  - intros e x Hx. revert e x Hx.
    assert (map_Forall (fun e x => _scheduled x = true ↔ e ∈ flat demo_bins) (heap demo_q)) as Hm
      by (apply (bool_decide_unpack _); vm_compute; exact I).
    exact Hm.
  - repeat constructor; vm_compute; discriminate.
Qed.

Lemma schedule_refines_witness :
  ∃ q', schedule 4%nat 7 demo_q = ok q' ∧ QRep q' (spec_insert (7, 0) 4%nat demo_bins).
Proof.
  destruct (schedule_refines demo_q demo_bins 4%nat (new_event 0) 7 demo_rep) as (q' & ? & _ & ? & _);
    [reflexivity|reflexivity|discriminate|]. exists q'. split; assumption.
Defined.


Lemma deschedule_spec_witness :
  (∃ q', deschedule 1%nat demo_q = ok q') ∧ deschedule 4%nat demo_q = err RuntimeError.
Proof.
  split.
  - destruct (heap demo_q !! 1%nat) as [x|] eqn:Hx; [|vm_compute in Hx; discriminate Hx].
    destruct (proj1 (deschedule_spec demo_q demo_bins 1%nat x demo_rep Hx)) as (q' & ? & _);
      [vm_compute in Hx; injection Hx as <-; reflexivity|]. exists q'. assumption.
  - apply (proj2 (deschedule_spec demo_q demo_bins 4%nat (new_event 0) demo_rep eq_refl)). reflexivity.
Defined.

Lemma schedule_deschedule_roundtrip_witness :
  ∃ q1 q2, schedule 4%nat 5 demo_q = ok q1 ∧ deschedule 4%nat q1 = ok q2 ∧
    _curTick q2 = _curTick demo_q ∧ QRep q2 demo_bins.
Proof.
  apply (schedule_deschedule_roundtrip demo_q demo_bins 4%nat (new_event 0) 5 demo_rep);
    [reflexivity|reflexivity|discriminate].
Defined.

Lemma drain_total_witness :
  ∃ q', drain 3 demo_q = ok q' ∧ head q' = None ∧
    map_Forall (fun _ x => _scheduled x = false) (heap q').
Proof. apply (drain_total demo_q demo_bins 3 demo_rep). vm_compute. repeat constructor. Defined.


Lemma log_process_clock e (w1 w2 : EventQueue nat * list nat) :
  wf_queue w1 → log_process e w1 = ok (tt, w2) → wf_queue w2 ∧ curTick w2 = curTick w1.
Proof. intros Hw Hr. unfold log_process in Hr. inv_ok. split; [exact Hw|reflexivity]. Qed.

Lemma serviceEvents_clock_witness :
  ∃ w' : EventQueue nat * list nat,
    serviceEvents 3 log_process 6 (demo_q, []) = ok (tt, w') ∧ wf_queue w' ∧ curTick w' = 6.
Proof.
  destruct (serviceEvents 3 log_process 6 (demo_q, [])) as [[[] w']|] eqn:Hr;
    [|vm_compute in Hr; discriminate Hr].
  exists w'. split; [reflexivity|].
  refine (serviceEvents_clock 3 log_process 6 (demo_q, []) w' log_process_clock _ _ Hr);
    [exists demo_bins; exact demo_rep|discriminate].
Defined.

Lemma reschedule_queued_loops_witness :
  ∃ q', reschedule 2%nat 9 demo_q = ok q' ∧
    ∀ n, ∃ q'', pops n q' = ok q'' ∧ empty q'' = false.
Proof.
  apply (reschedule_queued_loops demo_q demo_bins 2%nat 9 demo_rep); [reflexivity|discriminate].
Defined.
End Demo.
