(* ===== verification/Sched.v ===== *)
(** * Scheduling as the modules see it (src/event/eventq.h: EventManager, EventFunctionWrapper, curTick)

    A module reads the clock, asks whether one of its events is queued and
    queues it. [Scheduler] is that interface and [SchedulerOk] what a module may
    rely on; the event queue implements both. The handlers of the modules, and
    their theorems, are stated against the interface. *)

From stdpp Require Import base option finite gmap sets list.
From Stdlib Require Import ZArith Lia.
From S2P Require Import Prelude EventQ.

(** [curTick()], [event.scheduled()] and [schedule(event, when)] in a world [W]
    with the event objects [Ev]. *)
Class Scheduler (W Ev : Type) := {
  now : W -> Z;
  is_scheduled : Ev -> W -> bool;
  schedule_at : Ev -> Z -> M W unit
}.

(** No module schedules an event further ahead than this. *)
Definition horizon : Z := 10.

(** Scheduling an idle event, not in the past, succeeds, marks it and changes
    nothing else a module can ask for; scheduling a queued event fails its
    assertion. [sch_frame] says which parts of the world it leaves alone, and
    [sch_due] counts the events queued for the current time. *)
Class SchedulerOk (W Ev : Type) `{EqDecision Ev} `{Scheduler W Ev} := {
  sch_inv : W -> Prop;
  sch_frame : W -> W -> Prop;
  sch_due : W -> nat;
  sch_refl w : sch_frame w w;
  schedule_idle e t w :
    sch_inv w → is_scheduled e w = false → now w ≤ t ≤ now w + horizon →
    ∃ w', schedule_at e t w = ok (tt, w') ∧ sch_inv w' ∧ sch_frame w w' ∧ now w' = now w ∧
      sch_due w' = (if decide (t = now w) then S (sch_due w) else sch_due w) ∧
      ∀ e', is_scheduled e' w' = if decide (e' = e) then true else is_scheduled e' w;
  schedule_queued e t w : is_scheduled e w = true → schedule_at e t w = err AssertionFailed
}.

(** A component of the world apart from the scheduler. *)
Class Independent (W Ev C : Type) `{SchedulerOk W Ev} `{Has W C} := {
  ind_frame (w w' : W) : sch_frame w w' → get C w' = get C w;
  ind_now (c : C) (w : W) : now (put C c w) = now w;
  ind_due (c : C) (w : W) : sch_due (put C c w) = sch_due w;
  ind_scheduled (c : C) (e : Ev) (w : W) : is_scheduled e (put C c w) = is_scheduled e w;
  ind_inv (c : C) (w : W) : sch_inv w → sch_inv (put C c w)
}.

(** [if (!event.scheduled()) schedule(event, curTick() + delay)]. *)
Definition schedule_once {W Ev} `{Scheduler W Ev} (e : Ev) (delay : Z) : M W unit := fun w =>
  if is_scheduled e w then ok (tt, w) else schedule_at e (u64 (now w + delay)) w.

(** ** The event queue is a scheduler *)

Section Queue.
Context {Ev W : Type} `{Countable Ev} `{Has W (EventQueue Ev)}.

#[global] Instance queue_scheduler : Scheduler W Ev := {
  now := curTick;
  is_scheduled := scheduled;
  schedule_at := em_schedule
}.

(** The queue is well formed, no event is further ahead than the horizon, and
    every event object exists. *)
Definition queue_inv (w : W) : Prop :=
  (∃ bs, QRep (get (EventQueue Ev) w) bs ∧
    Forall (fun kb => kb.1.1 ≤ _curTick (get (EventQueue Ev) w) + horizon) bs) ∧
  ∀ e : Ev, is_Some (heap (get (EventQueue Ev) w) !! e).

(** The events queued for a time. *)
Definition at_time (t : Z) (i : Z * Z * bool) : Prop := i.2 = true ∧ i.1.1 = t.
#[global] Instance at_time_dec t i : Decision (at_time t i).
Proof. unfold at_time. apply _. Defined.
Definition due_at (t : Z) (q : EventQueue Ev) : nat :=
  size (filter (fun p : Ev * (Z * Z * bool) => at_time t p.2) (info <$> heap q)).
Definition due_now (w : W) : nat := due_at (_curTick (get (EventQueue Ev) w)) (get (EventQueue Ev) w).

Lemma due_insert t q q' e i :
  info <$> heap q' = <[e := i]> (info <$> heap q) → (∀ j, (info <$> heap q) !! e = Some j → ¬ at_time t j) →
  due_at t q' = if decide (at_time t i) then S (due_at t q) else due_at t q.
Proof.
  intros E Hno. unfold due_at. rewrite E.
  assert (filter (fun p => at_time t p.2) (info <$> heap q) !! e = None) as Hnone.
  { apply map_lookup_filter_None. destruct ((info <$> heap q) !! e) as [j|] eqn:Ej; [right|by left].
    intros j' [= <-]. by apply Hno. }
  case_decide as Hd.
  - rewrite map_filter_insert_True by done. by rewrite map_size_insert_None.
  - rewrite map_filter_insert_False by done. by rewrite map_filter_delete, delete_id.
Qed.

Lemma info_scheduled (q : EventQueue Ev) e :
  match heap q !! e with Some x => _scheduled x | None => false end =
  match (info <$> heap q) !! e with Some i => i.2 | None => false end.
Proof. rewrite lookup_fmap. by destruct (heap q !! e). Qed.

Lemma em_schedule_ok e t w :
  queue_inv w → scheduled e w = false → curTick w ≤ t ≤ curTick w + horizon →
  ∃ w', em_schedule e t w = ok (tt, w') ∧ queue_inv w' ∧ (∃ q, w' = put (EventQueue Ev) q w) ∧ curTick w' = curTick w ∧
    due_now w' = (if decide (t = curTick w) then S (due_now w) else due_now w) ∧
    ∀ e', scheduled e' w' = if decide (e' = e) then true else scheduled e' w.
Proof.
  intros [(bs & HR & Hhz) Hall] Hidle Ht. destruct (Hall e) as [x Hx].
  unfold em_schedule, on_queue, scheduled, curTick, due_now in *. rewrite Hx in Hidle.
  unfold schedule, deref. rewrite Hx. simpl. rewrite Hidle.
  destruct (Z.ltb_spec t (_curTick (get (EventQueue Ev) w))); [lia|].
  destruct (insert_QRep _ bs e (setWhen t x) HR) as (q' & -> & Hc & HR' & Hi).
  { rewrite <- (rep_flag _ _ HR e x Hx), Hidle. done. }
  { done. }
  cbn [mbind exc_bind]. eexists. split; [reflexivity|]. rewrite !get_put. split_and!.
  - unfold queue_inv. rewrite get_put. split.
    + exists (spec_insert (ekey (setWhen t x)) e bs). split; [done|]. rewrite Hc.
      apply (Forall_keys (fun k => k.1 ≤ _curTick (get (EventQueue Ev) w) + horizon)).
      intros k [->|Hk]%spec_insert_sub; [simpl; lia|].
      pose proof (proj1 (Forall_keys (fun k => k.1 ≤ _curTick (get (EventQueue Ev) w) + horizon) bs) Hhz) as Hf. by apply Hf.
    + intros e'. assert (is_Some ((info <$> heap q') !! e')) as Hs.
      { rewrite Hi. destruct (decide (e' = e)) as [->|]; [rewrite lookup_insert_eq; by eexists|].
        rewrite lookup_insert_ne, lookup_fmap by done. destruct (Hall e') as [y ->]. by eexists. }
      rewrite lookup_fmap in Hs. by apply fmap_is_Some in Hs.
  - by eexists.
  - done.
  - rewrite Hc. rewrite (due_insert _ _ _ _ _ Hi).
    + unfold at_time. simpl. repeat case_decide; naive_solver.
    + rewrite lookup_fmap, Hx. intros j [= <-] [Hs _]. simpl in Hs. congruence.
  - intros e'. rewrite !info_scheduled, Hi. case_decide as He.
    + subst. by rewrite lookup_insert_eq.
    + by rewrite lookup_insert_ne.
Qed.

#[global] Instance queue_scheduler_ok : SchedulerOk W Ev.
Proof.
  refine {| sch_inv := queue_inv;
            sch_frame w w' := ∃ q, w' = put (EventQueue Ev) q w;
            sch_due := due_now |}.
  - intros w. exists (get (EventQueue Ev) w). by rewrite put_get.
  - exact em_schedule_ok.
  - intros e t w. unfold is_scheduled, schedule_at. simpl. unfold em_schedule, on_queue, scheduled, schedule, deref.
    destruct (heap (get (EventQueue Ev) w) !! e) as [x|]; [|done]. simpl. by intros ->.
Defined.

#[global] Instance queue_independent C `{Has W C} `{!Apart W (EventQueue Ev) C} `{!Apart W C (EventQueue Ev)} :
  Independent W Ev C.
Proof.
  split.
  - intros w w' [q ->]. apply get_put_ne.
  - intros c w. unfold now. simpl. unfold curTick. by rewrite get_put_ne.
  - intros c w. unfold sch_due. simpl. unfold due_now. by rewrite get_put_ne.
  - intros c e w. unfold is_scheduled. simpl. unfold scheduled. by rewrite get_put_ne.
  - intros c w. unfold sch_inv. simpl. unfold queue_inv. by rewrite get_put_ne.
Qed.

(** Taking the next event off: time moves on by the horizon at most, and either
    the current time has one event less or time has moved. *)
Lemma service_pop_ok w :
  queue_inv w → empty (get (EventQueue Ev) w) = false →
  ∃ e q, service_pop (get (EventQueue Ev) w) = ok (e, q) ∧ let w' := put (EventQueue Ev) q w in
    queue_inv w' ∧ scheduled e w = true ∧ (∀ e', scheduled e' w' = if decide (e' = e) then false else scheduled e' w) ∧
    curTick w ≤ curTick w' ≤ curTick w + horizon ∧
    (curTick w' = curTick w → S (due_now w') = due_now w) ∧
    dom (heap q) = dom (heap (get (EventQueue Ev) w)).
Proof.
  intros [(bs & HR & Hhz) Hall] Hne. destruct bs as [|[k b] bs].
  { unfold empty in Hne. by rewrite (QRep_empty _ HR) in Hne. }
  destruct (service_pop_QRep _ k b bs HR) as (e & b' & q & -> & Hq & HR' & Hc & (x & Hx & Hk & Hsx) & Hi).
  exists e, q. split; [done|]. cbn zeta. unfold queue_inv, scheduled, curTick, due_now. rewrite !get_put, Hc.
  pose proof (rep_time _ _ HR) as [Ht _]%Forall_cons. apply Forall_cons in Hhz as [Hkh Hhz]. simpl in Ht, Hkh.
  assert (dom (heap q) = dom (heap (get (EventQueue Ev) w))) as Hdom.
  { rewrite <- (dom_fmap_L info (heap q)), Hi, dom_insert_L, dom_fmap_L.
    assert (e ∈ dom (heap (get (EventQueue Ev) w))) by (by apply elem_of_dom). set_solver. }
  split_and!; [| | | |lia|lia| |done].
  - exists (spec_pop ((k, e :: b') :: bs)). split; [done|]. simpl.
    assert (Forall (fun kb : Z * Z * list Ev => kb.1.1 ≤ k.1 + horizon) bs) as Hf
      by (eapply Forall_impl; [exact Hhz|]; intros kb; simpl; lia).
    destruct b'; [done|]. constructor; [simpl; unfold horizon; lia|done].
  - intros e'. apply elem_of_dom. rewrite Hdom. by apply elem_of_dom.
  - by rewrite Hx.
  - intros e'. rewrite !info_scheduled, Hi. case_decide as He.
    + subst. by rewrite lookup_insert_eq.
    + by rewrite lookup_insert_ne.
  - intros Heq. rewrite <- Heq. unfold due_at. rewrite Hi, map_filter_insert_False by (unfold at_time; naive_solver).
    rewrite map_filter_delete.
    assert (filter (fun p : Ev * (Z * Z * bool) => at_time k.1 p.2) (info <$> heap (get (EventQueue Ev) w)) !! e = Some (k, true)) as He.
    { apply map_lookup_filter_Some. rewrite lookup_fmap, Hx. simpl. unfold info. by rewrite Hk, Hsx. }
    rewrite map_size_delete, He. simpl.
    assert (size (filter (fun p : Ev * (Z * Z * bool) => at_time k.1 p.2) (info <$> heap (get (EventQueue Ev) w))) ≠ 0%nat); [|lia].
    intros Hz. apply map_size_empty_inv in Hz. by rewrite Hz in He.
Qed.

(** No more events are due than there are. *)
Lemma due_bound w : (due_now w ≤ size (heap (get (EventQueue Ev) w)))%nat.
Proof.
  unfold due_now, due_at. rewrite <- (map_size_fmap info). apply map_size_filter.
Qed.

(** A queued event keeps the queue from being empty. *)
Lemma scheduled_not_empty e w : queue_inv w → scheduled e w = true → empty (get (EventQueue Ev) w) = false.
Proof.
  intros [(bs & HR & _) _] Hs. unfold scheduled in Hs. destruct (heap (get (EventQueue Ev) w) !! e) as [x|] eqn:Hx; [|done].
  apply (rep_flag _ _ HR e x Hx) in Hs. destruct bs as [|[k b] bs]; [by apply elem_of_nil in Hs|].
  destruct (QRep_cons _ _ _ _ HR) as (e' & x' & b' & _ & Hh & _). unfold empty. by rewrite Hh.
Qed.

Lemma heap_card `{!Finite Ev} (h : gmap Ev (event Ev)) : (size h ≤ card Ev)%nat.
Proof.
  rewrite <- size_dom. unfold card. rewrite <- (size_list_to_set (C := gset Ev) (enum Ev)) by apply NoDup_enum.
  apply subseteq_size. intros e _. apply elem_of_list_to_set, elem_of_enum.
Qed.

(** The queue can be emptied, with one step per event object. *)
Lemma queue_drain `{!Finite Ev} w :
  queue_inv w → ∃ q, drain (card Ev) (get (EventQueue Ev) w) = ok q ∧ head q = None.
Proof.
  intros [(bs & HR & _) _]. destruct (drain_ok (get (EventQueue Ev) w) bs (card Ev) HR) as (q & Hq & Hh & _); [|by exists q].
  etransitivity; [eapply seg_size; [apply HR|apply HR]|apply heap_card].
Qed.
End Queue.

(** ** Steps of the modules *)

Section Steps.
Context {W Ev : Type} `{SchedulerOk W Ev}.

(** What a handler does to the scheduler: time stands still, nothing joins the
    events of the current time, and what is queued stays queued. *)
Record sched_step (w w' : W) : Prop := {
  ss_inv : sch_inv w';
  ss_now : now w' = now w;
  ss_due : sch_due w' = sch_due w;
  ss_kept e : is_scheduled e w = true → is_scheduled e w' = true
}.

Lemma sched_step_refl w : sch_inv w → sched_step w w.
Proof. by split. Qed.
Lemma sched_step_trans w1 w2 w3 : sched_step w1 w2 → sched_step w2 w3 → sched_step w1 w3.
Proof. intros [] []. split; [done|congruence|congruence|auto]. Qed.

Lemma sched_step_put C `{Has W C} `{!Independent W Ev C} (c : C) w : sch_inv w → sched_step w (put C c w).
Proof. intros Hi. split; [by apply ind_inv|by rewrite ind_now|by rewrite ind_due|intros e; by rewrite ind_scheduled]. Qed.

(** Scheduling an idle event for the next tick, and the guarded form, which never
    fails and leaves the event queued. *)
Lemma schedule_next_ok e w :
  sch_inv w → 0 ≤ now w < 2 ^ 63 → is_scheduled e w = false →
  ∃ w', schedule_at e (u64 (now w + 1)) w = ok (tt, w') ∧ sched_step w w' ∧ sch_frame w w' ∧
    ∀ e', is_scheduled e' w' = if decide (e' = e) then true else is_scheduled e' w.
Proof.
  intros Hi Hn He. rewrite u64_small by (unfold two64; lia).
  destruct (schedule_idle e (now w + 1) w Hi He) as (w' & ? & ? & ? & ? & Hd & Hs); [unfold horizon; lia|].
  rewrite decide_False in Hd by lia. exists w'. split_and!; try done. split; try done.
  intros e0 He0. rewrite Hs. by case_decide.
Qed.

Lemma schedule_once_ok e w :
  sch_inv w → 0 ≤ now w < 2 ^ 63 →
  ∃ w', schedule_once e 1 w = ok (tt, w') ∧ sched_step w w' ∧ sch_frame w w' ∧
    ∀ e', is_scheduled e' w' = if decide (e' = e) then true else is_scheduled e' w.
Proof.
  intros Hi Hn. unfold schedule_once. destruct (is_scheduled e w) eqn:He; [|by apply schedule_next_ok].
  exists w. split_and!; [done|by apply sched_step_refl|apply sch_refl|]. intros e'. case_decide; by subst.
Qed.

(** Every component apart from [A] is what it was. *)
Definition only_touches A `{Has W A} (w w' : W) : Prop :=
  ∀ C (HC : Has W C), Independent W Ev C → Apart W A C → get C w' = get C w.

(** A step of the component [A]: it writes its own state and queues at most
    events that satisfy [P]. *)
Record part_step A `{Has W A} (P : Ev -> Prop) (w w' : W) : Prop := {
  ps_sched : sched_step w w';
  ps_only : only_touches A w w';
  ps_new e : is_scheduled e w' = true → is_scheduled e w = true ∨ P e
}.

Section Part.
Context {A : Type} `{Has W A} `{!Independent W Ev A}.
Implicit Types (P Q : Ev -> Prop).

Lemma part_step_refl P w : sch_inv w → part_step A P w w.
Proof. split; [by apply sched_step_refl|done|by left]. Qed.

Lemma part_step_trans P w1 w2 w3 : part_step A P w1 w2 → part_step A P w2 w3 → part_step A P w1 w3.
Proof.
  intros [H12 Ho12 Hn12] [H23 Ho23 Hn23]. split; [by eapply sched_step_trans| |].
  - intros C HC Hi Ha. by rewrite (Ho23 C HC Hi Ha), (Ho12 C HC Hi Ha).
  - intros e He. destruct (Hn23 e He); [auto|by right].
Qed.

Lemma part_step_weaken P Q w w' : (∀ e, P e → Q e) → part_step A P w w' → part_step A Q w w'.
Proof. intros HPQ [? ? Hn]. split; [done|done|]. intros e He. destruct (Hn e He); auto. Qed.

Lemma part_step_put P (c : A) w : sch_inv w → part_step A P w (put A c w).
Proof using All.
  intros Hi. split; [by apply (sched_step_put A)| |].
  - intros C HC HI Ha. apply get_put_ne.
  - intros e. rewrite ind_scheduled. by left.
Qed.

(** The common end of a handler: write the state, queue the event once. *)
Lemma own_once e (c : A) w :
  sch_inv (put A c w) → 0 ≤ now w < 2 ^ 63 →
  ∃ w', schedule_once e 1 (put A c w) = ok (tt, w') ∧ part_step A (fun e' => e' = e) w w' ∧ get A w' = c ∧
    is_scheduled e w' = true.
Proof using All.
  intros Hi Hn. destruct (schedule_once_ok e (put A c w)) as (w' & Hs & Hst & Hf & Hfl); [done|by rewrite ind_now|].
  exists w'. split_and!; [done| |rewrite (ind_frame (C := A) _ _ Hf); apply get_put|by rewrite Hfl, decide_True].
  split.
  - destruct Hst as [? Hn' Hd Hk]. rewrite ind_now in Hn'. rewrite ind_due in Hd.
    split; [done|done|done|]. intros e' He'. apply Hk. by rewrite ind_scheduled.
  - intros C HC HI Ha. rewrite (ind_frame (C := C) _ _ Hf). apply get_put_ne.
  - intros e'. rewrite Hfl, ind_scheduled. case_decide; auto.
Qed.

(** Queueing an event of the component, its state unchanged. *)
Lemma part_once P e w :
  P e → sch_inv w → 0 ≤ now w < 2 ^ 63 →
  ∃ w', schedule_once e 1 w = ok (tt, w') ∧ part_step A P w w' ∧ get A w' = get A w ∧
    ∀ e', is_scheduled e' w' = if decide (e' = e) then true else is_scheduled e' w.
Proof using All.
  intros HP Hi Hn. destruct (schedule_once_ok e w Hi Hn) as (w' & Hs & Hst & Hf & Hfl).
  exists w'. split_and!; [done| |by apply (ind_frame (C := A))|done].
  split; [done|intros C HC HI _; by apply (ind_frame (C := C))|].
  intros e'. rewrite Hfl. case_decide; [subst; by right|by left].
Qed.
End Part.
End Steps.

(** ** Small worlds *)

(** A world of two components; the components are apart. Used for the concrete
    instances of the theorems. *)
Section Pair.
Context {A B : Type}.

Definition pair_left : Has (A * B) A.
Proof. refine {| get w := w.1; put a w := (a, w.2) |}; [done|by intros []|done]. Defined.
Definition pair_right : Has (A * B) B.
Proof. refine {| get w := w.2; put b w := (w.1, b) |}; [done|by intros []|done]. Defined.
Lemma pair_apart_left : @Apart (A * B) A B pair_left pair_right.
Proof. by split. Qed.
Lemma pair_apart_right : @Apart (A * B) B A pair_right pair_left.
Proof. by split. Qed.
End Pair.

(** The event objects of a program with finitely many. *)
Definition all_events (Ev : Type) `{Countable Ev} `{!Finite Ev} : gmap Ev (event Ev) :=
  list_to_map ((fun e => (e, new_event Default_Pri)) <$> enum Ev).

Lemma all_events_lookup (Ev : Type) `{Countable Ev} `{!Finite Ev} e : all_events Ev !! e = Some (new_event Default_Pri).
Proof.
  unfold all_events. apply elem_of_list_to_map.
  - rewrite <- list_fmap_compose. rewrite (list_fmap_ext _ id), list_fmap_id by done. apply NoDup_enum.
  - apply list_elem_of_fmap. exists e. split; [done|apply elem_of_enum].
Qed.

(** A queue with nothing scheduled: it is in the scheduler's invariant, every event
    is idle and none is due. *)
Section Fresh.
Context {Ev W : Type} `{Countable Ev} `{!Finite Ev} `{Has W (EventQueue Ev)}.

Lemma fresh_queue_inv (w : W) : get (EventQueue Ev) w = new_queue (all_events Ev) → queue_inv w.
Proof.
  intros E. unfold queue_inv. rewrite E. split.
  - exists []. split; [|constructor]. apply QRep_new. intros e x Hx. rewrite all_events_lookup in Hx. by injection Hx as <-.
  - intros e. simpl. rewrite all_events_lookup. by eexists.
Qed.

Lemma fresh_queue_idle (w : W) e : get (EventQueue Ev) w = new_queue (all_events Ev) → scheduled e w = false.
Proof. intros E. unfold scheduled. rewrite E. cbn [heap new_queue]. by rewrite all_events_lookup. Qed.

Lemma fresh_queue_due (w : W) : get (EventQueue Ev) w = new_queue (all_events Ev) → due_now w = 0%nat.
Proof.
  intros E. unfold due_now, due_at. rewrite E. cbn [heap new_queue].
  apply map_size_empty_iff, map_eq. intros e. rewrite lookup_empty. apply map_lookup_filter_None_2. right. intros x Hx [Hq _].
  rewrite lookup_fmap, all_events_lookup in Hx. by injection Hx as <-.
Qed.
End Fresh.
