(* ===== verification/Packet.v ===== *)
(** * Packets and packet queues (src/common/packet.h)

    Data packets, the queue of packet pointers and the two packet factories. A
    pointer is the identity of a packet, the packets themselves are values. The
    theorems: the queue is first in first out; the factories of [PacketManager]
    make what their names say, those of [PacketQueue] the opposite. *)

From stdpp Require Import base option list.
From Stdlib Require Import ZArith Lia.
From S2P Require Import Prelude.

(** [class DataPacket]. *)
Record DataPacket := MkPacket {
  pk_addr : Z;
  pk_size : Z;
  pk_data : list Z;
  pk_is_write : bool
}.

#[global] Instance DataPacket_eq_dec : EqDecision DataPacket.
Proof. solve_decision. Defined.

(** [DataPacket(a, s, read)]: the third parameter, named [read], is stored in
    [is_write]. *)
Definition new_DataPacket (a s : Z) (read : bool) : DataPacket := MkPacket a s [] read.

Definition getAddr (p : DataPacket) : Z := pk_addr p.
Definition getSize (p : DataPacket) : Z := pk_size p.
Definition get_data (p : DataPacket) : list Z := pk_data p.
Definition isRead (p : DataPacket) : bool := negb (pk_is_write p).
Definition isWrite (p : DataPacket) : bool := pk_is_write p.
Definition setData (d : list Z) (p : DataPacket) : DataPacket := MkPacket (pk_addr p) (pk_size p) d (pk_is_write p).
Definition setAddr (a : Z) (p : DataPacket) : DataPacket := MkPacket a (pk_size p) (pk_data p) (pk_is_write p).
(** [setWrite(addr_t)]: any non-zero value is a write. *)
Definition setWrite (v : Z) (p : DataPacket) : DataPacket :=
  MkPacket (pk_addr p) (pk_size p) (pk_data p) (negb (v =? 0)).
Definition setSize (s : Z) (p : DataPacket) : DataPacket := MkPacket (pk_addr p) s (pk_data p) (pk_is_write p).

(** [PacketPtr]: the address of a packet, with the packet there; no module
    changes a packet after it was made. *)
Record PacketPtr := MkPtr { ptr : nat; packet : DataPacket }.

#[global] Instance PacketPtr_eq_dec : EqDecision PacketPtr.
Proof. solve_decision. Defined.

Definition p_addr (p : PacketPtr) : Z := getAddr (packet p).
Definition p_write (p : PacketPtr) : bool := isWrite (packet p).

(** The allocator: [new DataPacket(...)] gives an address no other packet has.
    Nothing in the program frees a packet. *)
Record PacketHeap := MkHeap { next_ptr : nat }.
Definition new_packet {W} `{Has W PacketHeap} (d : DataPacket) : M W PacketPtr := fun w =>
  let n := next_ptr (get PacketHeap w) in ok (MkPtr n d, put PacketHeap (MkHeap (S n)) w).

(** ** [class PacketQueue] *)

Section Queue.
Context {P : Type}.

Definition PacketQueue : Type := list P.
Definition pq_push (p : P) (q : PacketQueue) : PacketQueue := q ++ [p].
(** [pop()]; [None] is [nullptr]. *)
Definition pq_pop (q : PacketQueue) : option P * PacketQueue :=
  match q with [] => (None, []) | p :: q' => (Some p, q') end.
Definition pq_empty (q : PacketQueue) : bool := match q with [] => true | _ => false end.
Definition pq_size (q : PacketQueue) : Z := Z.of_nat (length q).
Definition pq_clear (q : PacketQueue) : PacketQueue := [].
Definition pq_peek (q : PacketQueue) : option P := head q.

(** A run of pushes and pops: the queue, the packets pushed and those popped. *)
Inductive pq_op := Push (p : P) | Pop.
Definition pq_step (x : PacketQueue * list P * list P) (o : pq_op) : PacketQueue * list P * list P :=
  let '(q, pushed, popped) := x in
  match o with
  | Push p => (pq_push p q, pushed ++ [p], popped)
  | Pop => let '(r, q') := pq_pop q in (q', pushed, popped ++ option_list r)
  end.

(** The queue is first in first out: in every run of pushes and pops the
    packets popped and then those still queued, in order, are the packets
    pushed, in order; [pop] answers a null pointer only on an empty queue, and
    [peek] is the packet the next [pop] returns. *)
Theorem packet_queue_fifo ops :
  let '(q, pushed, popped) := foldl pq_step ([], [], []) ops in
  pushed = popped ++ q ∧ ((pq_pop q).1 = None ↔ pq_empty q = true) ∧ pq_peek q = (pq_pop q).1.
Proof.
  assert (∀ x, x.1.2 = x.2 ++ x.1.1 → let y := foldl pq_step x ops in y.1.2 = y.2 ++ y.1.1) as Hrun.
  { induction ops as [|o ops IH]; intros [[q pushed] popped] Hx; [done|]. simpl in Hx. subst.
    destruct o as [p|]; simpl; apply IH; simpl; unfold pq_push.
    - by rewrite app_assoc.
    - destruct q as [|p q]; simpl; [by rewrite !app_nil_r|by rewrite <- app_assoc]. }
  specialize (Hrun ([], [], []) eq_refl). destruct (foldl pq_step ([], [], []) ops) as [[q pushed] popped].
  simpl in Hrun. split; [done|]. destruct q; simpl; split; try done.
Qed.
End Queue.

(** ** The factories *)

(** [PacketQueue::create_read_packet] and [create_write_packet]. *)
Definition pq_create_read_packet (a s : Z) : DataPacket := new_DataPacket a s true.
Definition pq_create_write_packet (a : Z) (d : list Z) : DataPacket :=
  setData d (new_DataPacket a (Z.of_nat (length d)) false).
Definition pq_create_batch_read_packets (rs : list (Z * Z)) : list DataPacket :=
  (fun r => pq_create_read_packet r.1 r.2) <$> rs.

(** [PacketManager::create_read_packet] and [create_write_packet]. *)
Definition create_read_packet (a s : Z) : DataPacket := new_DataPacket a s false.
Definition create_write_packet (a : Z) (d : list Z) : DataPacket :=
  setData d (new_DataPacket a (Z.of_nat (length d)) true).
Definition create_batch_read_packets (rs : list (Z * Z)) : list DataPacket :=
  (fun r => create_read_packet r.1 r.2) <$> rs.

(** The two factories disagree: the read packets of [PacketManager] are
    reads and its write packets writes that carry their data, while the read
    packets of [PacketQueue] are writes and its write packets reads. *)
Theorem packet_factories a s d rs :
  isRead (create_read_packet a s) = true ∧ isWrite (create_write_packet a d) = true ∧
  get_data (create_write_packet a d) = d ∧ Forall (fun p => isRead p = true) (create_batch_read_packets rs) ∧
  isWrite (pq_create_read_packet a s) = true ∧ isRead (pq_create_write_packet a d) = true ∧
  Forall (fun p => isWrite p = true) (pq_create_batch_read_packets rs).
Proof.
  split_and!; try done; unfold create_batch_read_packets, pq_create_batch_read_packets; apply Forall_fmap;
    by apply Forall_true.
Qed.
