(* ===== verification/Port.v ===== *)
(** * Ports (src/common/port.h, port.cpp, timing.h, timing.cpp)

    Request and response ports and the pointers between them. The ports of the
    program are the entries of two stores, indexed by identifiers that stand for
    their addresses; [None] in [_responsePort] or [_requestPort] is the address
    of the default port, whose receive functions throw. The theorems: [bind]
    makes two ports each other's peers and touches no third, [unbind] undoes it,
    and a send goes to the handler of the peer it was bound to. *)

From Stdlib Require Import ZArith Lia String.
From stdpp Require Import strings gmap option list.
From S2P Require Import Prelude.

Section Ports.
Context {Q R : Type} `{Countable Q} `{Countable R}.

(** The address of a port of either kind. *)
Inductive port_ref := ReqRef (q : Q) | RespRef (r : R).
#[global] Instance port_ref_eq_dec : EqDecision port_ref.
Proof using EqDecision0 EqDecision1. solve_decision. Defined.

(** [class RequestPort] and [class ResponsePort], with the members of [Port]. *)
Record RequestPort := MkReq {
  rq_name : string;
  rq_peer : option port_ref;
  rq_connected : bool;
  _responsePort : option R
}.
Record ResponsePort := MkResp {
  rs_name : string;
  rs_peer : option port_ref;
  rs_connected : bool;
  _requestPort : option Q
}.

(** [RequestPort(name)], [ResponsePort(name)]: bound to the default ports. *)
Definition new_RequestPort (n : string) : RequestPort := MkReq n None false None.
Definition new_ResponsePort (n : string) : ResponsePort := MkResp n None false None.

Record Ports := MkPorts {
  reqs : gmap Q RequestPort;
  resps : gmap R ResponsePort
}.

(** [isConnected()]. *)
Definition isConnected (x : port_ref) (s : Ports) : bool :=
  match x with
  | ReqRef q => match reqs s !! q with Some p => rq_connected p | None => false end
  | RespRef r => match resps s !! r with Some p => rs_connected p | None => false end
  end.

(** [ResponsePort::responderBind(request_port)] and [responderUnbind()]. *)
Definition responderBind (r : R) (q : Q) (s : Ports) : exc Ports :=
  p ← opt_exc (resps s !! r) UndefinedBehaviour;
  ok (MkPorts (reqs s) (<[r := MkResp (rs_name p) (Some (ReqRef q)) true (Some q)]> (resps s))).
Definition responderUnbind (r : R) (s : Ports) : exc Ports :=
  p ← opt_exc (resps s !! r) UndefinedBehaviour;
  ok (MkPorts (reqs s) (<[r := MkResp (rs_name p) None false None]> (resps s))).

(** [RequestPort::bind(peer)]: the cast of a request port gives a null pointer,
    which the last call dereferences. *)
Definition req_bind (q : Q) (peer : port_ref) (s : Ports) : exc Ports :=
  p ← opt_exc (reqs s !! q) UndefinedBehaviour;
  match peer with
  | RespRef r =>
      responderBind r q (MkPorts (<[q := MkReq (rq_name p) (Some peer) true (Some r)]> (reqs s)) (resps s))
  | ReqRef _ => err UndefinedBehaviour
  end.

(** [RequestPort::unbind()]. *)
Definition req_unbind (q : Q) (s : Ports) : exc Ports :=
  p ← opt_exc (reqs s !! q) UndefinedBehaviour;
  s ← match _responsePort p with Some r => responderUnbind r s | None => ok s end;
  ok (MkPorts (<[q := MkReq (rq_name p) None false None]> (reqs s)) (resps s)).

(** [port.bind(peer)] of either kind; a response port leaves the work to the
    request port. *)
Definition port_bind (x peer : port_ref) (s : Ports) : exc Ports :=
  match x with ReqRef q => req_bind q peer s | RespRef _ => ok s end.

(** The [bindPorts] helper of [main]. *)
Definition bindPorts (x y : port_ref) (s : Ports) : exc Ports :=
  s ← port_bind x y s; port_bind y x s.

(** ** Sending *)

(** The receive functions of the bound ports are those of their owners:
    parameters here, instantiated where the modules are put together. An
    exception that a handler lets out is not caught by the senders below: the
    handlers of the program throw none. *)
Section Send.
Context {W P : Type} `{Has W Ports}.
Context (recvTimingReq : R -> P -> M W bool) (recvTimingResp : Q -> P -> M W bool)
        (recvReqRetry : Q -> M W unit) (recvRespRetry : R -> M W unit).

Definition peer_of_req (q : Q) (w : W) : option R := p ← reqs (get Ports w) !! q; _responsePort p.
Definition peer_of_resp (r : R) (w : W) : option Q := p ← resps (get Ports w) !! r; _requestPort p.

(** [RequestPort::sendTimingReq(pkt)]: an unbound port reports and answers
    false. *)
Definition sendTimingReq (q : Q) (pkt : P) : M W bool := fun w =>
  match peer_of_req q w with Some r => recvTimingReq r pkt w | None => ok (false, w) end.
(** [ResponsePort::sendTimingResp(pkt)]: the exception of an unbound port is not
    caught. *)
Definition sendTimingResp (r : R) (pkt : P) : M W bool := fun w =>
  match peer_of_resp r w with Some q => recvTimingResp q pkt w | None => err UnboundPort end.
(** [ResponsePort::sendRetryReq()] and [RequestPort::sendRetryResp()]. *)
Definition sendRetryReq (r : R) : M W unit := fun w =>
  match peer_of_resp r w with Some q => recvReqRetry q w | None => ok (tt, w) end.
Definition sendRetryResp (q : Q) : M W unit := fun w =>
  match peer_of_req q w with Some r => recvRespRetry r w | None => ok (tt, w) end.
End Send.

(** ** Theorems *)

Implicit Types (s : Ports) (q : Q) (r : R).

(** [q] and [r] are bound to each other. *)
Definition linked s q r : Prop :=
  (∃ p, reqs s !! q = Some p ∧ rq_connected p = true ∧ _responsePort p = Some r ∧ rq_peer p = Some (RespRef r)) ∧
  (∃ p, resps s !! r = Some p ∧ rs_connected p = true ∧ _requestPort p = Some q ∧ rs_peer p = Some (ReqRef q)).

Lemma req_bind_ok q r s p p' :
  reqs s !! q = Some p → resps s !! r = Some p' →
  req_bind q (RespRef r) s =
    ok (MkPorts (<[q := MkReq (rq_name p) (Some (RespRef r)) true (Some r)]> (reqs s))
                (<[r := MkResp (rs_name p') (Some (ReqRef q)) true (Some q)]> (resps s))).
Proof. intros Hp Hp'. unfold req_bind, responderBind. rewrite Hp. simpl. by rewrite Hp'. Qed.

(** Binding a request port to a response port, in either order of the two
    calls, makes them each other's peers, and touches no other port: links
    between other ports stay. *)
Theorem bindPorts_links q r s :
  is_Some (reqs s !! q) → is_Some (resps s !! r) →
  ∃ s', bindPorts (ReqRef q) (RespRef r) s = ok s' ∧ bindPorts (RespRef r) (ReqRef q) s = ok s' ∧
    linked s' q r ∧
    (∀ q', q' ≠ q → reqs s' !! q' = reqs s !! q') ∧ (∀ r', r' ≠ r → resps s' !! r' = resps s !! r') ∧
    (∀ q' r', q' ≠ q → r' ≠ r → linked s q' r' → linked s' q' r').
Proof.
  intros [p Hp] [p' Hp']. eexists. split_and!.
  - unfold bindPorts, port_bind. by rewrite (req_bind_ok q r s p p' Hp Hp').
  - unfold bindPorts, port_bind. cbn [mbind exc_bind]. by rewrite (req_bind_ok q r s p p' Hp Hp').
  - split; eexists; simpl; rewrite lookup_insert_eq; done.
  - intros q' Hq. simpl. by rewrite lookup_insert_ne.
  - intros r' Hr. simpl. by rewrite lookup_insert_ne.
  - intros q' r' Hq Hr. unfold linked. simpl. by rewrite !lookup_insert_ne.
Qed.

(** [unbind] undoes [bind]: two fresh ports that are bound and unbound
    are as they were. *)
Theorem bind_unbind_roundtrip q r s n n' :
  reqs s !! q = Some (new_RequestPort n) → resps s !! r = Some (new_ResponsePort n') →
  ∃ s', req_bind q (RespRef r) s = ok s' ∧ req_unbind q s' = ok s.
Proof.
  intros Hp Hp'. eexists. split; [by apply req_bind_ok|]. unfold req_unbind, responderUnbind. cbn [reqs resps].
  rewrite lookup_insert_eq. cbn [opt_exc mbind exc_bind _responsePort]. rewrite lookup_insert_eq.
  cbn [opt_exc mbind exc_bind]. rewrite !insert_insert_eq. simpl. destruct s as [a b]. simpl in *.
  unfold new_RequestPort, new_ResponsePort in *. rewrite insert_insert_eq. by rewrite (insert_id a q), (insert_id b r).
Qed.
End Ports.

Arguments Ports Q R {_ _ _ _} : assert.

(** ** Instances *)

Section Demo.
Definition demo_ports : Ports nat nat :=
  MkPorts {[0%nat := new_RequestPort "up.buf_side0"; 1%nat := new_RequestPort "arb.request0"]}
          {[0%nat := new_ResponsePort "arb.response0_0"; 1%nat := new_ResponsePort "dram.port"]}.

Lemma bindPorts_links_witness :
  ∃ s', bindPorts (ReqRef 0%nat) (RespRef 1%nat) demo_ports = ok s' ∧ linked s' 0%nat 1%nat.
Proof.
  destruct (bindPorts_links 0%nat 1%nat demo_ports) as (s' & Hb & _ & Hl & _); [by eexists|by eexists|].
  exists s'. split; [exact Hb|exact Hl].
Defined.

Lemma bind_unbind_roundtrip_witness :
  ∃ s', req_bind 0%nat (RespRef 0%nat) demo_ports = ok s' ∧ req_unbind 0%nat s' = ok demo_ports.
Proof. exact (bind_unbind_roundtrip 0%nat 0%nat demo_ports _ _ eq_refl eq_refl). Defined.
End Demo.
