(* ===== verification/Probe.v ===== *)
(** * Probes and simulation objects (src/probe/probe.h, probe.cpp, named.h, src/common/object.h, object.cpp)

    A probe manager matches listeners with probe points by name. Points and
    listeners are identified by numbers that stand for their addresses; the
    template argument [Arg] of a point or listener is a type tag, and the
    [dynamic_cast] to a listener of another type gives a null pointer ([None]
    in the list). The list of simulation objects and the lookup by name are
    here too. The theorems: point names stay unique, listeners are notified
    once each in the order they were added, and the clean-up of a connection
    undoes it. *)

From Stdlib Require Import ZArith Lia String.
From stdpp Require Import strings sets gmap option list.
From S2P Require Import Prelude.

(** [class ProbeListener]: its name and the type it listens to. *)
Record ProbeListener := MkListener {
  pl_id : nat;
  pl_name : string;
  pl_type : nat
}.

(** [class ProbePointArg<Arg>]. *)
Record ProbePoint := MkPoint {
  pp_name : string;
  pp_type : nat;
  listeners : list (option nat)
}.

(** [ProbePointArg(manager, name)] without the registration. *)
Definition new_point (n : string) (ty : nat) : ProbePoint := MkPoint n ty [].
Definition with_listeners (l : list (option nat)) (p : ProbePoint) : ProbePoint :=
  MkPoint (pp_name p) (pp_type p) l.

(** [hasListeners()]. *)
Definition hasListeners (p : ProbePoint) : bool := (0 <? length (listeners p))%nat.

(** [dynamic_cast<ProbeListenerArgBase<Arg> *>(l)]. *)
Definition cast_to (p : ProbePoint) (l : ProbeListener) : option nat :=
  if decide (pl_type l = pp_type p) then Some (pl_id l) else None.

(** [ProbePointArg::addListener] and [removeListener]. *)
Definition pt_addListener (l : ProbeListener) (p : ProbePoint) : ProbePoint :=
  if decide (cast_to p l ∈ listeners p) then p
  else with_listeners (listeners p ++ [cast_to p l]) p.
Definition pt_removeListener (l : ProbeListener) (p : ProbePoint) : ProbePoint :=
  with_listeners (filter (fun x => x ≠ cast_to p l) (listeners p)) p.

(** [ProbePointArg::notify(arg)]: the listeners called, in order; a null pointer
    in the list is dereferenced. *)
Definition notify (p : ProbePoint) : exc (list nat) :=
  mapE (fun o => opt_exc o UndefinedBehaviour) (listeners p).

(** [class ProbeManager]: the points it manages, by address. *)
Record ProbeManager := MkManager {
  pm_points : list nat;
  pm_store : gmap nat ProbePoint
}.

Definition point_name (m : ProbeManager) (i : nat) : option string := pp_name <$> pm_store m !! i.

(** [getFirstProbePoint(name)]. *)
Definition getFirstProbePoint (n : string) (m : ProbeManager) : option nat :=
  head (filter (fun i => point_name m i = Some n) (pm_points m)).

(** [addPoint(point)], and [ProbePoint::ProbePoint(manager, name)], which calls
    it. *)
Definition addPoint (i : nat) (m : ProbeManager) : ProbeManager :=
  match point_name m i with
  | None => m
  | Some n => match getFirstProbePoint n m with
              | Some _ => m
              | None => MkManager (pm_points m ++ [i]) (pm_store m)
              end
  end.
Definition new_ProbePoint (i : nat) (n : string) (ty : nat) (m : ProbeManager) : ProbeManager :=
  addPoint i (MkManager (pm_points m) (<[i := new_point n ty]> (pm_store m))).

(** The loops of [addListener] and [removeListener] over the points of a name. *)
Definition at_points (f : ProbePoint -> ProbePoint) (n : string) (m : ProbeManager) : bool * ProbeManager :=
  let hits := filter (fun i => point_name m i = Some n) (pm_points m) in
  (negb (bool_decide (hits = [])), MkManager (pm_points m) (foldl (fun s i => alter f i s) (pm_store m) hits)).
Definition addListener (n : string) (l : ProbeListener) : ProbeManager -> bool * ProbeManager :=
  at_points (pt_addListener l) n.
Definition removeListener (n : string) (l : ProbeListener) : ProbeManager -> bool * ProbeManager :=
  at_points (pt_removeListener l) n.

(** [connect<Listener>(...)] and the clean-up of its pointer. *)
Definition connect (l : ProbeListener) (m : ProbeManager) : ProbeManager := (addListener (pl_name l) l m).2.
Definition cleanup (l : ProbeListener) (m : ProbeManager) : ProbeManager := (removeListener (pl_name l) l m).2.

(** ** Simulation objects *)

(** [SimObject::SimObject(_name)]: the object is called [_name.Event] and joins
    the list of all objects. *)
Record SimObject := MkObj { so_id : nat; so_name : string }.
Definition new_SimObject (i : nat) (n : string) (l : list SimObject) : list SimObject :=
  l ++ [MkObj i (n ++ ".Event")%string].
(** [SimObject::find(name)]. *)
Definition find_object (n : string) (l : list SimObject) : option SimObject :=
  head (filter (fun o => so_name o = n) l).

(** ** Theorems *)

Section Lemmas.
Implicit Types (m : ProbeManager) (p : ProbePoint) (l : ProbeListener) (n : string).

Lemma filter_all {A} (P : A -> Prop) `{∀ x, Decision (P x)} (l : list A) : (∀ x, x ∈ l → P x) → filter P l = l.
Proof.
  induction l as [|x l IH]; intros Hl; [done|]. rewrite filter_cons, decide_True by (apply Hl; left).
  f_equal. apply IH. intros; apply Hl; by right.
Qed.

(** The points of a manager exist, and no two have the same name. *)
Record manager_wf m : Prop := {
  mw_some i : i ∈ pm_points m → is_Some (pm_store m !! i);
  mw_names i j : i ∈ pm_points m → j ∈ pm_points m → point_name m i = point_name m j → i = j;
  mw_nodup : NoDup (pm_points m)
}.

Lemma addPoint_wf i m : manager_wf m → manager_wf (addPoint i m).
Proof.
  intros Hw. unfold addPoint. destruct (point_name m i) as [n|] eqn:Hn; [|done].
  destruct (getFirstProbePoint n m) eqn:Hf; [done|].
  assert (∀ j, j ∈ pm_points m → point_name m j ≠ Some n) as Hnew.
  { intros j Hj E. unfold getFirstProbePoint in Hf.
    assert (j ∈ filter (fun i => point_name m i = Some n) (pm_points m)) as Hin by (by apply list_elem_of_filter).
    destruct (filter _ _); [by apply elem_of_nil in Hin|done]. }
  destruct Hw as [Hs Hnm Hd]. split; simpl.
  - intros j [Hj| ->%list_elem_of_singleton]%elem_of_app; [by apply Hs|].
    unfold point_name in Hn. by apply fmap_Some in Hn as (? & -> & _).
  - intros j k Hj Hk E. change (point_name m j = point_name m k) in E.
    apply elem_of_app in Hj as [Hj| ->%list_elem_of_singleton], Hk as [Hk| ->%list_elem_of_singleton].
    + by apply Hnm.
    + exfalso. apply (Hnew j Hj). congruence.
    + exfalso. apply (Hnew k Hk). congruence.
    + done.
  - apply NoDup_app. split_and!; [done| |apply NoDup_singleton].
    intros j Hj ->%list_elem_of_singleton. by apply (Hnew i Hj).
Qed.

(** With unique names, the loops reach at most one point. *)
Lemma hits_unique n m i :
  manager_wf m → i ∈ pm_points m → point_name m i = Some n → filter (fun j => point_name m j = Some n) (pm_points m) = [i].
Proof.
  intros Hw Hi Hn. assert (∀ j, j ∈ filter (fun j => point_name m j = Some n) (pm_points m) → j = i) as Hall.
  { intros j [Hj Hin]%list_elem_of_filter. apply (mw_names _ Hw); [done|done|congruence]. }
  assert (i ∈ filter (fun j => point_name m j = Some n) (pm_points m)) as Hin by (by apply list_elem_of_filter).
  pose proof (NoDup_filter (fun j => point_name m j = Some n) _ (mw_nodup _ Hw)) as Hd.
  destruct (filter _ (pm_points m)) as [|a [|b l]]; [by apply elem_of_nil in Hin| |].
  - f_equal. apply Hall. left.
  - exfalso. apply NoDup_cons in Hd as [Hni _]. apply Hni.
    rewrite (Hall a), <- (Hall b); [left|right; left|left].
Qed.

(** A manager as the constructors of the points build it, with their listeners. *)
Lemma new_ProbePoint_wf i n ty m : manager_wf m → i ∉ pm_points m → manager_wf (new_ProbePoint i n ty m).
Proof.
  intros [Hs Hnm Hd] Hi. apply addPoint_wf.
  assert (∀ j, j ∈ pm_points m → (<[i := new_point n ty]> (pm_store m)) !! j = pm_store m !! j) as Hl.
  { intros j Hj. apply lookup_insert_ne. by intros ->. }
  split; simpl; [intros j Hj; rewrite Hl by done; by apply Hs| |done].
  intros j k Hj Hk. unfold point_name. simpl. rewrite !Hl by done. by apply Hnm.
Qed.

(** Connecting and cleaning up: when a listener whose type is that of the
    point of its name is connected, the point notifies its listeners as before
    and then the new one; the clean-up of the connection restores the manager
    exactly. *)
Theorem connect_cleanup l i p m ls :
  manager_wf m → i ∈ pm_points m → pm_store m !! i = Some p → pp_name p = pl_name l →
  pp_type p = pl_type l → notify p = ok ls → pl_id l ∉ ls →
  ∃ p', pm_store (connect l m) !! i = Some p' ∧ notify p' = ok (ls ++ [pl_id l]) ∧
    (∀ j, j ≠ i → pm_store (connect l m) !! j = pm_store m !! j) ∧
    cleanup l (connect l m) = m.
Proof.
  intros Hw Hi Hp Hn Ht Hls Hni.
  assert (point_name m i = Some (pl_name l)) as Hpn by (unfold point_name; rewrite Hp; simpl; by f_equal).
  assert (cast_to p l = Some (pl_id l)) as Hc by (unfold cast_to; by rewrite decide_True).
  assert (listeners p = Some <$> ls) as Els.
  { unfold notify in Hls. clear -Hls. revert ls Hls. induction (listeners p) as [|o os IH]; intros ls Hls; simpl in Hls.
    - by injection Hls as <-.
    - inv_ok. rewrite fmap_cons. f_equal. by apply IH. }
  assert (cast_to p l ∉ listeners p) as Hfresh.
  { rewrite Hc, Els. intros Hin. apply list_elem_of_fmap in Hin as (x & [= <-] & Hx). done. }
  set (p' := with_listeners (listeners p ++ [cast_to p l]) p).
  assert (pt_addListener l p = p') as Ea by (unfold pt_addListener; by rewrite decide_False).
  assert (connect l m = MkManager (pm_points m) (<[i := p']> (pm_store m))) as Ec.
  { unfold connect, addListener, at_points. simpl. rewrite (hits_unique _ _ i Hw Hi Hpn). simpl. f_equal.
    apply map_eq. intros j. destruct (decide (j = i)) as [->|Hne].
    - by rewrite lookup_alter_eq, lookup_insert_eq, Hp, <- Ea.
    - by rewrite lookup_alter_ne, lookup_insert_ne. }
  exists p'. rewrite Ec. simpl. split_and!.
  - by rewrite lookup_insert_eq.
  - unfold notify, p'. cbn [listeners with_listeners]. rewrite Hc, Els. clear.
    induction ls as [|x ls IH]; [done|]. rewrite fmap_cons. cbn [app mapE opt_exc mbind exc_bind]. by rewrite IH.
  - intros j Hj. by rewrite lookup_insert_ne.
  - unfold cleanup, removeListener, at_points. simpl.
    assert (filter (fun j => point_name (MkManager (pm_points m) (<[i := p']> (pm_store m))) j = Some (pl_name l)) (pm_points m) = [i]) as ->.
    { rewrite <- (hits_unique _ _ i Hw Hi Hpn). apply list_filter_iff. intros j. unfold point_name. simpl.
      destruct (decide (j = i)) as [->|Hne]; [rewrite lookup_insert_eq, Hp; done|by rewrite lookup_insert_ne]. }
    simpl. destruct m as [pts st]. simpl in *. f_equal. apply map_eq. intros j. destruct (decide (j = i)) as [->|Hne].
    + rewrite lookup_alter_eq, lookup_insert_eq, Hp. simpl. f_equal. unfold pt_removeListener, p'. simpl.
      change (cast_to (with_listeners (listeners p ++ [cast_to p l]) p) l) with (cast_to p l).
      rewrite filter_app, filter_cons_False by naive_solver. simpl. rewrite app_nil_r.
      rewrite filter_all; [by destruct p|]. intros x Hx ->. done.
    + by rewrite lookup_alter_ne, lookup_insert_ne.
Qed.

(** A listener of another type breaks the point it is added to: the failed
    cast is stored as a null pointer, and every later notification of the
    point dereferences it. *)
Theorem wrong_type_breaks_point l p :
  pl_type l ≠ pp_type p → notify (pt_addListener l p) = err UndefinedBehaviour.
Proof.
  intros Ht. assert (cast_to p l = None) as Hc by (unfold cast_to; by rewrite decide_False).
  assert (∀ ls : list (option nat), None ∈ ls → mapE (fun o => opt_exc o UndefinedBehaviour) ls = err UndefinedBehaviour) as Hnone.
  { induction ls as [|o os IH]; [by intros ?%elem_of_nil|]. intros Hin%elem_of_cons. simpl.
    destruct o; [|done]. destruct Hin as [?|Hin]; [done|]. simpl. by rewrite IH. }
  unfold notify, pt_addListener. rewrite Hc. case_decide; apply Hnone; [done|]. simpl. set_solver.
Qed.
End Lemmas.

(** ** Instances *)

Section Demo.
Definition demo_manager : ProbeManager :=
  new_ProbePoint 1 "ready" 0 (new_ProbePoint 0 "done" 0 (MkManager [] ∅)).

Lemma demo_manager_wf : manager_wf demo_manager.
Proof.
  apply new_ProbePoint_wf; [apply new_ProbePoint_wf|].
  - split; simpl; [intros ? []%elem_of_nil|intros ? ? []%elem_of_nil|constructor].
  - apply not_elem_of_nil.
  - vm_compute. intros H. inversion H as [|? ? ? H2]; subst. inversion H2.
Qed.

Lemma connect_cleanup_witness :
  ∃ p', pm_store (connect (MkListener 7 "ready" 0) demo_manager) !! 1%nat = Some p' ∧ notify p' = ok [7%nat] ∧
    cleanup (MkListener 7 "ready" 0) (connect (MkListener 7 "ready" 0) demo_manager) = demo_manager.
Proof.
  destruct (connect_cleanup (MkListener 7 "ready" 0) 1 (new_point "ready" 0) demo_manager [] demo_manager_wf)
    as (p' & H1 & H2 & _ & H3); try reflexivity.
  - vm_compute. right. left.
  - apply not_elem_of_nil.
  - exists p'. split; [exact H1|]. split; [exact H2|exact H3].
Defined.

Lemma wrong_type_breaks_point_witness :
  notify (pt_addListener (MkListener 7 "ready" 1) (new_point "ready" 0)) = err UndefinedBehaviour.
Proof. apply wrong_type_breaks_point. discriminate. Defined.
End Demo.
