(* ===== verification/DramCommon.v ===== *)
(** * Shared data of the DRAM library (DRAMsim3-master/src/common.h, common.cc)

    Addresses, commands and transactions, and the bit and string helpers. The
    theorems give the closed forms of [ModuloWidth] and [LogBase2]. *)

From Stdlib Require Import ZArith Lia Ascii String.
From stdpp Require Import strings numbers option list.
From S2P Require Import Prelude.

(** ** Data *)

(** [struct Address]; the fields are [int]s, [-1] when unset. *)
Record Address := MkAddress {
  channel : Z;
  rank : Z;
  bankgroup : Z;
  bank : Z;
  row : Z;
  column : Z
}.

#[global] Instance Address_eq_dec : EqDecision Address.
Proof. solve_decision. Defined.

Definition Address_default : Address := MkAddress (-1) (-1) (-1) (-1) (-1) (-1).

(** [enum class CommandType]. *)
Inductive CommandType :=
| READ | READ_PRECHARGE | WRITE | WRITE_PRECHARGE | ACTIVATE | PRECHARGE
| REFRESH_BANK | REFRESH | SREF_ENTER | SREF_EXIT | CT_SIZE.

#[global] Instance CommandType_eq_dec : EqDecision CommandType.
Proof. solve_decision. Defined.

(** [static_cast<int>(cmd_type)]. *)
Definition ct_index (t : CommandType) : Z :=
  match t with
  | READ => 0 | READ_PRECHARGE => 1 | WRITE => 2 | WRITE_PRECHARGE => 3
  | ACTIVATE => 4 | PRECHARGE => 5 | REFRESH_BANK => 6 | REFRESH => 7
  | SREF_ENTER => 8 | SREF_EXIT => 9 | CT_SIZE => 10
  end.

(** [struct Command]. *)
Record Command := MkCommand {
  cmd_type : CommandType;
  addr : Address;
  hex_addr : Z
}.

#[global] Instance Command_eq_dec : EqDecision Command.
Proof. solve_decision. Defined.

(** [Command()]. *)
Definition Command_default : Command := MkCommand CT_SIZE Address_default 0.

Definition ct_is (t : CommandType) (c : Command) : bool := bool_decide (cmd_type c = t).

Definition IsValid (c : Command) : bool := negb (ct_is CT_SIZE c).
Definition IsRefresh (c : Command) : bool := ct_is REFRESH c || ct_is REFRESH_BANK c.
Definition IsRead (c : Command) : bool := ct_is READ c || ct_is READ_PRECHARGE c.
Definition IsWrite (c : Command) : bool := ct_is WRITE c || ct_is WRITE_PRECHARGE c.
Definition IsReadWrite (c : Command) : bool := IsRead c || IsWrite c.
Definition IsRankCMD (c : Command) : bool :=
  ct_is REFRESH c || ct_is SREF_ENTER c || ct_is SREF_EXIT c.

Definition Channel (c : Command) : Z := channel (addr c).
Definition Rank (c : Command) : Z := rank (addr c).
Definition Bankgroup (c : Command) : Z := bankgroup (addr c).
Definition Bank (c : Command) : Z := bank (addr c).
Definition Row (c : Command) : Z := row (addr c).
Definition Column (c : Command) : Z := column (addr c).

(** [struct Transaction]. *)
Record Transaction := MkTransaction {
  t_addr : Z;
  added_cycle : Z;
  complete_cycle : Z;
  is_write : bool
}.

#[global] Instance Transaction_eq_dec : EqDecision Transaction.
Proof. solve_decision. Defined.

(** [Transaction(addr, is_write)]. *)
Definition new_transaction (a : Z) (w : bool) : Transaction := MkTransaction a 0 0 w.
Definition with_added (c : Z) (t : Transaction) : Transaction :=
  MkTransaction (t_addr t) c (complete_cycle t) (is_write t).
Definition with_complete (c : Z) (t : Transaction) : Transaction :=
  MkTransaction (t_addr t) (added_cycle t) c (is_write t).

(** ** Operations *)

(** [ModuloWidth(addr, bit_width, pos)]. *)
Definition ModuloWidth (a w pos : Z) : Z :=
  let a := Z.shiftr a pos in
  let store := a in
  let a := Z.shiftr a w in
  let a := u64 (Z.shiftl a w) in
  u32 (Z.lxor store a).

(** [GetBitInPos(bits, pos)]. *)
Definition GetBitInPos (bits pos : Z) : Z := Z.land (Z.shiftr bits pos) 1.

(** The loop of [LogBase2]. *)
Fixpoint LogBase2_loop (fuel : nat) (p i : Z) : exc Z :=
  if 1 <? p then
    match fuel with
    | O => err OutOfFuel
    | S fuel' => LogBase2_loop fuel' (Z.quot p 2) (i + 1)
    end
  else ok i.

(** [LogBase2(power_of_two)]: an [int] is halved at most 31 times. *)
Definition LogBase2 (p : Z) : exc Z := LogBase2_loop 31 p 0.

(** The pieces [std::getline] cuts at [delim]; [acc] is the current piece, in
    reverse. A piece is produced for every delimiter and for a non-empty rest. *)
Fixpoint getlines (delim : ascii) (s : list ascii) (acc : list ascii) : list (list ascii) :=
  match s with
  | [] => match acc with [] => [] | _ => [rev acc] end
  | c :: s' =>
      if decide (c = delim) then rev acc :: getlines delim s' []
      else getlines delim s' (c :: acc)
  end.

(** [StringSplit(s, delim)]: the non-empty pieces. *)
Definition StringSplit (s : list ascii) (delim : ascii) : list (list ascii) :=
  filter (fun item => item ≠ []) (getlines delim s []).

(** [DirExist(dir)], on the result of [stat]: [None] when it fails, otherwise
    [st_mode]. *)
Definition S_IFDIR : Z := 16384.
Definition DirExist (stat : option Z) : bool :=
  match stat with
  | None => false
  | Some st_mode => negb (Z.land st_mode S_IFDIR =? 0)
  end.

(** The verb of a trace line that [operator>>] reads as a write. *)
Definition is_write_op (mem_op : string) : bool :=
  bool_decide (mem_op ∈ ["WRITE"; "write"; "P_MEM_WR"; "BOFF"]%string).

(** ** Lemmas *)

Lemma ct_index_range t : t ≠ CT_SIZE → 0 ≤ ct_index t < 10.
Proof. destruct t; simpl; intros; try done; lia. Qed.

#[global] Instance ct_index_inj : Inj (=) (=) ct_index.
Proof. intros [] []; simpl; intros; done. Qed.

Lemma ct_is_true t c : ct_is t c = true ↔ cmd_type c = t.
Proof. apply bool_decide_eq_true. Qed.
Lemma ct_is_false t c : ct_is t c = false ↔ cmd_type c ≠ t.
Proof. apply bool_decide_eq_false. Qed.
#[export] Hint Rewrite ct_is_true ct_is_false : sim.

Lemma IsValid_true c : IsValid c = true ↔ cmd_type c ≠ CT_SIZE.
Proof. unfold IsValid. by rewrite negb_true_iff, ct_is_false. Qed.

Lemma IsValid_default : IsValid Command_default = false.
Proof. reflexivity. Qed.

Lemma clear_low a w :
  0 ≤ a → 0 ≤ w → Z.lxor a (Z.shiftl (Z.shiftr a w) w) = a mod 2 ^ w.
Proof.
  intros Ha Hw. apply Z.bits_inj'. intros n Hn.
  rewrite Z.lxor_spec, Z.shiftl_spec by lia.
  destruct (decide (n < w)).
  - rewrite Z.mod_pow2_bits_low by lia. rewrite (Z.testbit_neg_r _ (n - w)) by lia.
    apply xorb_false_r.
  - rewrite Z.mod_pow2_bits_high by lia. rewrite Z.shiftr_spec by lia.
    replace (n - w + w) with n by lia. apply xorb_nilpotent.
Qed.

Lemma shiftl_shiftr_le a w : 0 ≤ a → 0 ≤ w → 0 ≤ Z.shiftl (Z.shiftr a w) w ≤ a.
Proof.
  intros Ha Hw. rewrite Z.shiftl_mul_pow2, Z.shiftr_div_pow2 by lia.
  assert (0 < 2 ^ w) by lia. split.
  - apply Z.mul_nonneg_nonneg; [apply Z.div_pos|]; lia.
  - rewrite Z.mul_comm. apply Z.mul_div_le. lia.
Qed.

Lemma shiftr_range a n b : 0 ≤ a < b → 0 ≤ n → 0 ≤ Z.shiftr a n < b.
Proof.
  intros ? ?. rewrite Z.shiftr_div_pow2 by lia. assert (0 < 2 ^ n) by lia.
  split; [apply Z.div_pos; lia|].
  eapply Z.le_lt_trans; [|apply H]. apply Z.div_le_upper_bound; nia.
Qed.

(** [ModuloWidth] is the field of [w] bits at [pos]. *)
Lemma ModuloWidth_spec a w pos :
  0 ≤ a < two64 → 0 ≤ pos → 0 ≤ w ≤ 32 →
  ModuloWidth a w pos = (a / 2 ^ pos) mod 2 ^ w.
Proof.
  intros Ha Hpos Hw. unfold ModuloWidth.
  pose proof (shiftr_range a pos two64 Ha Hpos) as Hr.
  pose proof (shiftl_shiftr_le (Z.shiftr a pos) w) as Hle.
  rewrite u64_small by lia. rewrite clear_low by lia.
  rewrite Z.shiftr_div_pow2 by lia. apply u32_small.
  pose proof (Z.mod_pos_bound (a / 2 ^ pos) (2 ^ w)).
  assert (2 ^ w ≤ two32) by (apply Z.pow_le_mono_r; lia). lia.
Qed.

Lemma GetBitInPos_spec bits pos : 0 ≤ pos → GetBitInPos bits pos = Z.b2z (Z.testbit bits pos).
Proof.
  intros. unfold GetBitInPos. change 1 with (Z.ones 1). rewrite Z.land_ones by lia.
  rewrite Z.shiftr_div_pow2 by lia. change (2 ^ 1) with 2. symmetry. by apply Z.testbit_spec'.
Qed.

Lemma LogBase2_loop_spec fuel p i :
  1 ≤ p < 2 ^ Z.of_nat (S fuel) → LogBase2_loop fuel p i = ok (i + Z.log2 p).
Proof.
  revert p i. induction fuel as [|fuel IH]; intros p i Hp.
  - assert (p = 1) as -> by lia. simpl. f_equal. change (Z.log2 1) with 0. lia.
  - simpl. destruct (Z.ltb_spec 1 p).
    + rewrite Z.quot_div_nonneg by lia. rewrite IH.
      * f_equal. replace (Z.log2 p) with (Z.succ (Z.log2 (p / 2))); [lia|].
        rewrite <- Z.log2_double by (apply Z.div_str_pos; lia).
        pose proof (Z.div_mod p 2). pose proof (Z.mod_pos_bound p 2).
        destruct (decide (p mod 2 = 0)); [f_equal; lia|].
        assert (p = 2 * (p / 2) + 1) as Hp2 by lia. rewrite Hp2 at 2.
        rewrite Z.log2_double by (apply Z.div_str_pos; lia). symmetry.
        apply Z.log2_succ_double. apply Z.div_str_pos; lia.
      * rewrite Nat2Z.inj_succ, Z.pow_succ_r in Hp by lia.
        pose proof (Z.div_str_pos p 2). split; [lia|].
        apply Z.div_lt_upper_bound; lia.
    + assert (p = 1) as -> by lia. f_equal. change (Z.log2 1) with 0. lia.
Qed.

(** On a positive [int], [LogBase2] is the floor of the logarithm. *)
Lemma LogBase2_pos p : 1 ≤ p < 2 ^ 31 → LogBase2 p = ok (Z.log2 p).
Proof.
  intros Hp. unfold LogBase2. rewrite LogBase2_loop_spec; [by rewrite Z.add_0_l|].
  split; [lia|]. eapply Z.lt_trans; [apply Hp|]. reflexivity.
Qed.

Lemma LogBase2_loop_stop fuel p i : p ≤ 1 → LogBase2_loop fuel p i = ok i.
Proof. intros. destruct fuel; simpl; by destruct (Z.ltb_spec 1 p); [lia|]. Qed.

Lemma LogBase2_nonpos p : p ≤ 1 → LogBase2 p = ok 0.
Proof. apply LogBase2_loop_stop. Qed.

Lemma LogBase2_total p : p < 2 ^ 31 → ∃ i, LogBase2 p = ok i ∧ 0 ≤ i < 31.
Proof.
  intros Hp. destruct (decide (p ≤ 1)); [exists 0; split; [by apply LogBase2_nonpos|lia]|].
  exists (Z.log2 p). split; [apply LogBase2_pos; lia|].
  split; [apply Z.log2_nonneg|]. apply Z.log2_lt_pow2; lia.
Qed.
