(* ===== verification/BankState.v ===== *)
(** * One DRAM bank (DRAMsim3-master/src/bankstate.h, bankstate.cc)

    The bank's state machine with the earliest time of every command type. The
    theorems: a command the bank reports as ready never aborts the state update
    and keeps the bank well formed; from any state but power-down a read or
    write is served after at most two preparatory commands. *)

From stdpp Require Import base option list sets numbers.
From Stdlib Require Import ZArith Lia.
From S2P Require Import Prelude DramCommon.

(** [BankState::State]. *)
Inductive BState := B_OPEN | B_CLOSED | B_SREF | B_PD | B_SIZE.

#[global] Instance BState_eq_dec : EqDecision BState.
Proof. solve_decision. Defined.

(** [class BankState]. [row_hit_count_] is an [int] that a run of [2^31] hits on
    one row would overflow; it is kept unbounded. *)
Record BankState := MkBank {
  state_ : BState;
  cmd_timing_ : list Z;
  open_row_ : Z;
  row_hit_count_ : Z
}.

(** [BankState::BankState()]. *)
Definition new_bank : BankState := MkBank B_CLOSED (replicate 10 0) (-1) 0.

Definition b_IsRowOpen (b : BankState) : bool := bool_decide (state_ b = B_OPEN).

(** The command the bank needs before [c] can take effect, by the state switch
    of [GetReadyCommand]. *)
Definition required_type (b : BankState) (c : Command) : exc CommandType :=
  match state_ b with
  | B_CLOSED =>
      match cmd_type c with
      | READ | READ_PRECHARGE | WRITE | WRITE_PRECHARGE => ok ACTIVATE
      | REFRESH | REFRESH_BANK | SREF_ENTER => ok (cmd_type c)
      | _ => err AbruptExit
      end
  | B_OPEN =>
      match cmd_type c with
      | READ | READ_PRECHARGE | WRITE | WRITE_PRECHARGE =>
          if Row c =? open_row_ b then ok (cmd_type c) else ok PRECHARGE
      | REFRESH | REFRESH_BANK | SREF_ENTER => ok PRECHARGE
      | _ => err AbruptExit
      end
  | B_SREF =>
      match cmd_type c with
      | READ | READ_PRECHARGE | WRITE | WRITE_PRECHARGE => ok SREF_EXIT
      | _ => err AbruptExit
      end
  | B_PD | B_SIZE => err AbruptExit
  end.

(** [BankState::GetReadyCommand(cmd, clk)]. *)
Definition b_GetReadyCommand (b : BankState) (c : Command) (clk : Z) : exc Command :=
  rt ← required_type b c;
  if decide (rt ≠ CT_SIZE) then
    t ← vec_get (cmd_timing_ b) (ct_index rt);
    if t <=? clk then ok (MkCommand rt (addr c) (hex_addr c)) else ok Command_default
  else ok Command_default.

(** [BankState::UpdateState(cmd)]. *)
Definition b_UpdateState (b : BankState) (c : Command) : exc BankState :=
  match state_ b with
  | B_OPEN =>
      match cmd_type c with
      | READ | WRITE => ok (MkBank B_OPEN (cmd_timing_ b) (open_row_ b) (row_hit_count_ b + 1))
      | READ_PRECHARGE | WRITE_PRECHARGE | PRECHARGE => ok (MkBank B_CLOSED (cmd_timing_ b) (-1) 0)
      | _ => err AbruptExit
      end
  | B_CLOSED =>
      match cmd_type c with
      | REFRESH | REFRESH_BANK => ok b
      | ACTIVATE => ok (MkBank B_OPEN (cmd_timing_ b) (Row c) (row_hit_count_ b))
      | SREF_ENTER => ok (MkBank B_SREF (cmd_timing_ b) (open_row_ b) (row_hit_count_ b))
      | _ => err AbruptExit
      end
  | B_SREF =>
      match cmd_type c with
      | SREF_EXIT => ok (MkBank B_CLOSED (cmd_timing_ b) (open_row_ b) (row_hit_count_ b))
      | _ => err AbruptExit
      end
  | _ => err AbruptExit
  end.

(** [BankState::UpdateTiming(cmd_type, time)]. *)
Definition b_UpdateTiming (b : BankState) (ct : CommandType) (time : Z) : exc BankState :=
  t ← vec_get (cmd_timing_ b) (ct_index ct);
  ok (MkBank (state_ b) (zset (cmd_timing_ b) (ct_index ct) (Z.max t time))
             (open_row_ b) (row_hit_count_ b)).

(** ** Invariant *)

(** A bank has one deadline per command type; it remembers a row exactly when it
    is open, and counts hits only then. *)
Record bank_wf (b : BankState) : Prop := {
  bw_len : length (cmd_timing_ b) = 10%nat;
  bw_state : state_ b = B_OPEN ∨ state_ b = B_CLOSED ∨ state_ b = B_SREF;
  bw_open : state_ b = B_OPEN → 0 ≤ open_row_ b;
  bw_closed : state_ b ≠ B_OPEN → open_row_ b = -1 ∧ row_hit_count_ b = 0;
  bw_hits : 0 ≤ row_hit_count_ b
}.

Lemma new_bank_wf : bank_wf new_bank.
Proof. split; simpl; try done; auto. Qed.

(** The deadline of a command type. *)
Definition deadline (b : BankState) (ct : CommandType) : Z :=
  default 0 (zget (cmd_timing_ b) (ct_index ct)).

Lemma deadline_get b ct :
  bank_wf b → ct ≠ CT_SIZE → zget (cmd_timing_ b) (ct_index ct) = Some (deadline b ct).
Proof.
  intros Hw Hc. unfold deadline. destruct (zget_is_Some (cmd_timing_ b) (ct_index ct)) as [x ->].
  - rewrite (bw_len _ Hw). apply ct_index_range in Hc. lia.
  - done.
Qed.

Lemma required_not_size b c rt : required_type b c = ok rt → rt ≠ CT_SIZE.
Proof.
  unfold required_type. destruct (state_ b), (cmd_type c); simpl; try done;
    try (intros [= <-]; done); destruct (_ =? _); intros [= <-]; done.
Qed.

Lemma b_GetReadyCommand_ok b c clk rt :
  bank_wf b → required_type b c = ok rt →
  b_GetReadyCommand b c clk =
    ok (if deadline b rt <=? clk then MkCommand rt (addr c) (hex_addr c) else Command_default).
Proof.
  intros Hw Hr. unfold b_GetReadyCommand. rewrite Hr. simpl.
  pose proof (required_not_size _ _ _ Hr) as Hs. rewrite decide_True by done.
  unfold vec_get. rewrite (deadline_get b rt Hw Hs). simpl. by destruct (_ <=? _).
Qed.

Lemma b_GetReadyCommand_valid b c clk rc :
  bank_wf b → b_GetReadyCommand b c clk = ok rc → IsValid rc = true →
  required_type b c = ok (cmd_type rc) ∧ addr rc = addr c ∧ hex_addr rc = hex_addr c ∧
  deadline b (cmd_type rc) ≤ clk.
Proof.
  intros Hw Hr Hv. destruct (required_type b c) as [rt|] eqn:Hrt.
  - rewrite (b_GetReadyCommand_ok b c clk rt Hw Hrt) in Hr. injection Hr as <-.
    destruct (Z.leb_spec (deadline b rt) clk); [done|by rewrite IsValid_default in Hv].
  - unfold b_GetReadyCommand in Hr. by rewrite Hrt in Hr.
Qed.

Lemma b_UpdateTiming_wf b ct t :
  bank_wf b → ct ≠ CT_SIZE → ∃ b', b_UpdateTiming b ct t = ok b' ∧ bank_wf b' ∧
    deadline b' ct = Z.max (deadline b ct) t ∧
    (∀ ct', ct' ≠ ct → deadline b' ct' = deadline b ct') ∧
    state_ b' = state_ b ∧ open_row_ b' = open_row_ b ∧ row_hit_count_ b' = row_hit_count_ b.
Proof.
  intros Hw Hc. unfold b_UpdateTiming, vec_get. rewrite (deadline_get b ct Hw Hc). simpl.
  eexists. split; [done|].
  assert (0 ≤ ct_index ct < Z.of_nat (length (cmd_timing_ b))).
  { rewrite (bw_len _ Hw). apply ct_index_range in Hc. lia. }
  split_and!; try done.
  - destruct Hw. split; simpl; auto. by rewrite length_zset.
  - unfold deadline at 1. simpl. by rewrite zget_zset_eq.
  - intros ct' Hne. unfold deadline. simpl. rewrite zget_zset_ne; [done|].
    intros Heq. by apply Hne, (inj ct_index).
Qed.

(** An update of the state machine that succeeds keeps the bank well formed. *)
Lemma b_UpdateState_wf b c b' :
  bank_wf b → (cmd_type c = ACTIVATE → 0 ≤ Row c) → b_UpdateState b c = ok b' →
  bank_wf b' ∧ cmd_timing_ b' = cmd_timing_ b.
Proof.
  intros [Hl Hs Ho Hcl Hh] Hrow Hu. unfold b_UpdateState in Hu.
  destruct (state_ b) eqn:Est; simpl in Hu; try (by destruct (cmd_type c));
    destruct (cmd_type c) eqn:Ect; try discriminate Hu; injection Hu as <-; simpl;
    (split; [|done]); split; simpl; auto; try (intros; congruence); try lia;
    try (rewrite Est; auto); intros; try lia; try done; destruct Hcl; try done; lia.
Qed.

(** ** Theorems *)

(** What a request needs in the state the bank is in, by the rules of DRAM banks: a row
    has to be open for a read or write of it, and no row for a refresh or the entry
    into self refresh, which a read or write ends. *)
Inductive needs (b : BankState) (c : Command) : CommandType -> Prop :=
| need_hit : state_ b = B_OPEN → IsReadWrite c = true → open_row_ b = Row c → needs b c (cmd_type c)
| need_conflict : state_ b = B_OPEN → IsReadWrite c = true → open_row_ b ≠ Row c → needs b c PRECHARGE
| need_row : state_ b = B_CLOSED → IsReadWrite c = true → needs b c ACTIVATE
| need_wake : state_ b = B_SREF → IsReadWrite c = true → needs b c SREF_EXIT
| need_close : state_ b = B_OPEN → cmd_type c ∈ [REFRESH; REFRESH_BANK; SREF_ENTER] → needs b c PRECHARGE
| need_rest : state_ b = B_CLOSED → cmd_type c ∈ [REFRESH; REFRESH_BANK; SREF_ENTER] → needs b c (cmd_type c).

Lemma needs_required b c ct : needs b c ct ↔ required_type b c = ok ct.
Proof.
  unfold required_type. split.
  - intros Hn. destruct Hn as [-> Hc Hr| -> Hc Hr| -> Hc| -> Hc| -> Hc| -> Hc];
      try (destruct (cmd_type c); set_solver);
      [rewrite Hr, Z.eqb_refl|rewrite (proj2 (Z.eqb_neq _ _)) by done| |];
      unfold IsReadWrite, IsRead, IsWrite, ct_is in Hc; by destruct (cmd_type c).
  - destruct (state_ b) eqn:Es; try done; destruct (cmd_type c) eqn:Ec; try done;
      try (destruct (Z.eqb_spec (Row c) (open_row_ b))); intros [= <-]; try rewrite <- Ec;
      first [apply need_hit; [done|unfold IsReadWrite, IsRead, IsWrite, ct_is; by rewrite Ec|done]
            |apply need_conflict; [done|unfold IsReadWrite, IsRead, IsWrite, ct_is; by rewrite Ec|done]
            |apply need_row; [done|unfold IsReadWrite, IsRead, IsWrite, ct_is; by rewrite Ec]
            |apply need_wake; [done|unfold IsReadWrite, IsRead, IsWrite, ct_is; by rewrite Ec]
            |apply need_close; [done|rewrite Ec; set_solver]
            |apply need_rest; [done|rewrite Ec; set_solver]].
Qed.

(** (C27) [GetReadyCommand] returns the command the request needs in the state the bank
    is in, for the same address, once its deadline has passed, and until then none; and
    whenever it returns a command, the request needs that one, its deadline has passed,
    and [UpdateState] does not abort on it but leaves a well-formed bank with the same
    deadlines. *)
Theorem bank_ready_safe b c clk :
  bank_wf b → 0 ≤ Row c →
  (∀ ct, needs b c ct →
     b_GetReadyCommand b c clk =
       ok (if decide (deadline b ct ≤ clk) then MkCommand ct (addr c) (hex_addr c) else Command_default)) ∧
  (∀ rc, b_GetReadyCommand b c clk = ok rc → IsValid rc = true →
     needs b c (cmd_type rc) ∧ addr rc = addr c ∧ hex_addr rc = hex_addr c ∧ deadline b (cmd_type rc) ≤ clk ∧
     ∃ b', b_UpdateState b rc = ok b' ∧ bank_wf b' ∧ cmd_timing_ b' = cmd_timing_ b).
Proof.
  intros Hw Hrow. split.
  - intros ct Hn%needs_required. rewrite (b_GetReadyCommand_ok b c clk ct Hw Hn).
    case_decide as Hd; [by rewrite (proj2 (Z.leb_le _ _) Hd)|]. by rewrite (proj2 (Z.leb_gt _ _)) by lia.
  - intros rc Hr Hv. destruct (b_GetReadyCommand_valid _ _ _ _ Hw Hr Hv) as (Hrt & Ha & Hh & Hd).
    split_and!; [by apply needs_required|done..|].
    assert (∃ b', b_UpdateState b rc = ok b') as [b' Hb'].
    { unfold required_type in Hrt. unfold b_UpdateState.
      destruct (state_ b), (cmd_type c); try discriminate Hrt;
        try (destruct (_ =? _)); injection Hrt as <-; eauto. }
    exists b'. split; [done|]. apply (b_UpdateState_wf b rc); [done| |done].
    intros _. unfold Row. by rewrite Ha.
Qed.

(** The commands issued to serve [c], at a time past every deadline: each step
    issues what the bank requires, until [c] itself has been issued. *)
Fixpoint serve (fuel : nat) (b : BankState) (c : Command) (clk : Z) : exc (list CommandType * BankState) :=
  match fuel with
  | O => err OutOfFuel
  | S fuel' =>
      rc ← b_GetReadyCommand b c clk;
      b' ← b_UpdateState b rc;
      if decide (cmd_type rc = cmd_type c) then ok ([cmd_type rc], b')
      else '(l, b'') ← serve fuel' b' c clk; ok (cmd_type rc :: l, b'')
  end.

(** The preparation a bank needs for a read or write of row [r]. *)
Definition preparation (b : BankState) (r : Z) : list CommandType :=
  match state_ b with
  | B_OPEN => if decide (open_row_ b = r) then [] else [PRECHARGE; ACTIVATE]
  | B_SREF => [SREF_EXIT; ACTIVATE]
  | _ => [ACTIVATE]
  end.

Lemma serve_step fuel b c clk rt b' :
  bank_wf b → (∀ ct, ct ≠ CT_SIZE → deadline b ct ≤ clk) → required_type b c = ok rt →
  b_UpdateState b (MkCommand rt (addr c) (hex_addr c)) = ok b' →
  serve (S fuel) b c clk =
    if decide (rt = cmd_type c) then ok ([rt], b')
    else '(l, b'') ← serve fuel b' c clk; ok (rt :: l, b'').
Proof.
  intros Hw Hd Hrt Hu. cbn [serve]. rewrite (b_GetReadyCommand_ok b c clk rt Hw Hrt).
  pose proof (Hd rt (required_not_size _ _ _ Hrt)). destruct (Z.leb_spec (deadline b rt) clk); [|lia].
  simpl. by rewrite Hu.
Qed.

Lemma deadline_timing b b' : cmd_timing_ b' = cmd_timing_ b → deadline b' = deadline b.
Proof. unfold deadline. by intros ->. Qed.

(** An open bank serves a request to its row at once. *)
Lemma serve_open fuel b c clk :
  bank_wf b → state_ b = B_OPEN → open_row_ b = Row c → IsReadWrite c = true →
  (∀ ct, ct ≠ CT_SIZE → deadline b ct ≤ clk) → ∃ b', serve (S fuel) b c clk = ok ([cmd_type c], b').
Proof.
  intros Hw Ho Hr Hc Hd.
  assert (∃ b', b_UpdateState b (MkCommand (cmd_type c) (addr c) (hex_addr c)) = ok b') as [b' Hb'].
  { unfold b_UpdateState. rewrite Ho. unfold IsReadWrite, IsRead, IsWrite, ct_is in Hc. simpl.
    destruct (cmd_type c); try done; eauto. }
  exists b'. rewrite (serve_step fuel b c clk (cmd_type c) b'); [by rewrite decide_True|done|done| |done].
  unfold required_type. rewrite Ho, Hr, Z.eqb_refl. unfold IsReadWrite, IsRead, IsWrite, ct_is in Hc.
  by destruct (cmd_type c).
Qed.

Lemma rw_not_prep c rt :
  IsReadWrite c = true → rt = ACTIVATE ∨ rt = PRECHARGE ∨ rt = SREF_EXIT → rt ≠ cmd_type c.
Proof.
  unfold IsReadWrite, IsRead, IsWrite, ct_is. destruct (cmd_type c); simpl; intros ? [->|[->| ->]]; done.
Qed.

Lemma serve_closed fuel b c clk :
  bank_wf b → state_ b = B_CLOSED → 0 ≤ Row c → IsReadWrite c = true →
  (∀ ct, ct ≠ CT_SIZE → deadline b ct ≤ clk) →
  ∃ b', serve (S (S fuel)) b c clk = ok ([ACTIVATE; cmd_type c], b').
Proof.
  intros Hw Ho Hr Hc Hd.
  set (b1 := MkBank B_OPEN (cmd_timing_ b) (Row c) (row_hit_count_ b)).
  assert (b_UpdateState b (MkCommand ACTIVATE (addr c) (hex_addr c)) = ok b1) as Hu.
  { unfold b_UpdateState. by rewrite Ho. }
  destruct (b_UpdateState_wf b (MkCommand ACTIVATE (addr c) (hex_addr c)) b1 Hw (fun _ => Hr) Hu)
    as [Hw1 Ht1].
  destruct (serve_open fuel b1 c clk) as [b' Hb']; [done..| |].
  { by rewrite (deadline_timing _ _ Ht1). }
  exists b'. rewrite (serve_step _ b c clk ACTIVATE b1); [|done|done| |done].
  - rewrite decide_False by (apply rw_not_prep; auto). by rewrite Hb'.
  - unfold required_type. rewrite Ho. unfold IsReadWrite, IsRead, IsWrite, ct_is in Hc.
    by destruct (cmd_type c).
Qed.

(** (C28) Progress of a bank: once every deadline has passed, a read or write is
    served after exactly the preparation its state calls for (none on a row
    hit, ACTIVATE on a closed bank, PRECHARGE and ACTIVATE on a row conflict,
    SREF_EXIT and ACTIVATE in self refresh); three steps always suffice. *)
Theorem bank_rw_progress b c clk :
  bank_wf b → 0 ≤ Row c → IsReadWrite c = true →
  (∀ ct, ct ≠ CT_SIZE → deadline b ct ≤ clk) →
  ∃ b', serve 3 b c clk = ok (preparation b (Row c) ++ [cmd_type c], b').
Proof.
  intros Hw Hr Hc Hd. unfold preparation.
  assert (∀ rt b1, required_type b c = ok rt → rt = PRECHARGE ∨ rt = SREF_EXIT →
    b_UpdateState b (MkCommand rt (addr c) (hex_addr c)) = ok b1 → state_ b1 = B_CLOSED →
    ∃ b', serve 3 b c clk = ok ([rt; ACTIVATE; cmd_type c], b')) as Hprep.
  { intros rt b1 Hrt Hor Hu Hcl.
    destruct (b_UpdateState_wf b (MkCommand rt (addr c) (hex_addr c)) b1 Hw (fun _ => Hr) Hu) as [Hw1 Ht1].
    destruct (serve_closed 0 b1 c clk) as [b' Hb']; [done..| |].
    { by rewrite (deadline_timing _ _ Ht1). }
    exists b'. rewrite (serve_step 2 b c clk rt b1) by done.
    rewrite decide_False by (apply rw_not_prep; tauto). by rewrite Hb'. }
  destruct (bw_state _ Hw) as [Ho|[Ho|Ho]]; rewrite Ho; cbn [app].
  - case_decide as Hrow; cbn [app]; [by apply (serve_open 2)|].
    eapply Hprep; [|by left|unfold b_UpdateState; by rewrite Ho|done].
    unfold required_type. rewrite Ho. destruct (Z.eqb_spec (Row c) (open_row_ b)); [lia|].
    unfold IsReadWrite, IsRead, IsWrite, ct_is in Hc. by destruct (cmd_type c).
  - by apply (serve_closed 1).
  - eapply Hprep; [|by right|unfold b_UpdateState; by rewrite Ho|done].
    unfold required_type. rewrite Ho. unfold IsReadWrite, IsRead, IsWrite, ct_is in Hc.
    by destruct (cmd_type c).
Qed.

(** ** Instances *)

Definition demo_read (r : Z) : Command := MkCommand READ (MkAddress 0 0 0 0 r 0) 0.
Definition demo_open : BankState := MkBank B_OPEN (replicate 10 20) 7 2.

Lemma demo_open_wf : bank_wf demo_open.
Proof. split; simpl; try done; auto; lia. Qed.

Lemma bank_ready_safe_witness :
  b_GetReadyCommand demo_open (demo_read 9) 25 = ok (MkCommand PRECHARGE (MkAddress 0 0 0 0 9 0) 0) ∧
  ∃ b', b_UpdateState demo_open (MkCommand PRECHARGE (MkAddress 0 0 0 0 9 0) 0) = ok b' ∧ bank_wf b'.
Proof.
  destruct (bank_ready_safe demo_open (demo_read 9) 25 demo_open_wf ltac:(discriminate)) as [Hget Hsafe].
  assert (b_GetReadyCommand demo_open (demo_read 9) 25 = ok (MkCommand PRECHARGE (MkAddress 0 0 0 0 9 0) 0)) as Hr.
  { rewrite (Hget PRECHARGE); [reflexivity|]. apply need_conflict; [reflexivity|reflexivity|discriminate]. }
  split; [exact Hr|]. destruct (Hsafe _ Hr eq_refl) as (_ & _ & _ & _ & b' & Hb & Hw & _).
  exists b'. split; [exact Hb|exact Hw].
Defined.

Lemma bank_rw_progress_witness :
  ∃ b', serve 3 demo_open (demo_read 9) 25 = ok ([PRECHARGE; ACTIVATE; READ], b').
Proof.
  apply (bank_rw_progress demo_open (demo_read 9) 25 demo_open_wf); [discriminate|reflexivity|].
  intros [] Hc; vm_compute; discriminate.
Defined.
