(* ===== verification/Config.v ===== *)
(** * The DRAM configuration (DRAMsim3-master/src/configuration.h, configuration.cc)

    The fields of [class Config], grouped by the [Init*] function that computes
    them; the INI reader, a vendored library, is a parameter: a record of its
    lookup functions. [int]s are kept unbounded where the code adds and
    multiplies them (overflow is undefined there), division truncates, and a
    division by zero or a shift by a negative amount is [UndefinedBehaviour].
    The theorems: the address mapping string is accepted exactly when it is a
    permutation of the six fields, and the mapping it gives is a bijection
    between request addresses and in-range (channel, ..., column) tuples. *)

From Stdlib Require Import ZArith Lia Ascii String.
From stdpp Require Import strings gmap numbers option list.
From S2P Require Import Prelude DramCommon.

(** ** Data *)

(** [enum class DRAMProtocol], [enum class RefreshPolicy]. *)
Inductive DRAMProtocol :=
| DDR3 | DDR4 | GDDR5 | GDDR5X | GDDR6 | LPDDR | LPDDR3 | LPDDR4 | HBM | HBM2 | HMC.
#[global] Instance DRAMProtocol_eq_dec : EqDecision DRAMProtocol.
Proof. solve_decision. Defined.

Inductive RefreshPolicy := RANK_LEVEL_SIMULTANEOUS | RANK_LEVEL_STAGGERED | BANK_LEVEL_STAGGERED.
#[global] Instance RefreshPolicy_eq_dec : EqDecision RefreshPolicy.
Proof. solve_decision. Defined.

(** The lookups of [INIReader]: section, option, default. *)
Record INIReader := MkReader {
  ParseError : Z;
  Get : string -> string -> string -> string;
  rd_GetInteger : string -> string -> Z -> Z;
  GetBoolean : string -> string -> bool -> bool
}.

(** What [InitSystemParams] sets. *)
Record SystemParams := MkSystem {
  sys_channel_size : Z;
  channels : Z;
  bus_width : Z;
  address_mapping : string;
  queue_structure : string;
  row_buf_policy : string;
  cmd_queue_size : Z;
  trans_queue_size : Z;
  unified_queue : bool;
  write_buf_size : Z;
  refresh_policy : RefreshPolicy;
  enable_self_refresh : bool;
  sref_threshold : Z;
  aggressive_precharging_enabled : bool
}.

(** What [InitDRAMParams] sets. *)
Record DRAMParams := MkDRAM {
  protocol : DRAMProtocol;
  bankgroups : Z;
  banks_per_group : Z;
  banks : Z;
  rows : Z;
  columns : Z;
  device_width : Z;
  BL : Z;
  num_dies : Z;
  enable_hbm_dual_cmd : bool;
  num_links : Z;
  link_width : Z;
  link_speed : Z;
  block_size : Z;
  xbar_queue_depth : Z;
  burst_cycle : Z
}.

(** What [CalculateSize] sets. *)
Record SizeParams := MkSize {
  devices_per_rank : Z;
  ranks : Z;
  channel_size : Z
}.

(** What [SetAddressMapping] sets. *)
Record Mapping := MkMapping {
  request_size_bytes : Z;
  shift_bits : Z;
  ch_pos : Z; ra_pos : Z; bg_pos : Z; ba_pos : Z; ro_pos : Z; co_pos : Z;
  ch_mask : Z; ra_mask : Z; bg_mask : Z; ba_mask : Z; ro_mask : Z; co_mask : Z
}.

(** What [InitTimingParams] sets ([tCK], a double that only the reports use, is
    in [Power]). *)
Record TimingParams := MkTiming {
  AL : Z; CL : Z; CWL : Z; RL : Z; WL : Z;
  tCCD_L : Z; tCCD_S : Z; tRTRS : Z; tRTP : Z; tWTR_L : Z; tWTR_S : Z; tWR : Z; tRP : Z;
  tRRD_L : Z; tRRD_S : Z; tRAS : Z; tRCD : Z; tRFC : Z; tRC : Z; tCKE : Z; tCKESR : Z;
  tXS : Z; tXP : Z; tRFCb : Z; tREFI : Z; tREFIb : Z; tFAW : Z; tRPRE : Z; tWPRE : Z;
  tPPD : Z; t32AW : Z; tRCDRD : Z; tRCDWR : Z;
  ideal_memory_latency : Z; read_delay : Z; write_delay : Z
}.

(** What [InitOtherParams] sets. *)
Record OtherParams := MkOther {
  epoch_period : Z;
  output_level : Z;
  output_dir : string;
  output_prefix : string;
  json_stats_name : string;
  json_epoch_name : string;
  txt_stats_name : string
}.

Record Config := MkConfig {
  p_sys :> SystemParams;
  p_dram :> DRAMParams;
  p_size :> SizeParams;
  p_map :> Mapping;
  p_time :> TimingParams;
  p_other :> OtherParams
}.

(** ** Operations *)

Definition prot_IsGDDR (p : DRAMProtocol) : bool :=
  match p with GDDR5 | GDDR5X | GDDR6 => true | _ => false end.
Definition prot_IsHBM (p : DRAMProtocol) : bool := match p with HBM | HBM2 => true | _ => false end.
Definition prot_IsHMC (p : DRAMProtocol) : bool := match p with HMC => true | _ => false end.
Definition IsGDDR (c : DRAMParams) : bool := prot_IsGDDR (protocol c).
Definition IsHBM (c : DRAMParams) : bool := prot_IsHBM (protocol c).
Definition IsHMC (c : DRAMParams) : bool := prot_IsHMC (protocol c).
Definition IsDDR4 (c : DRAMParams) : bool := bool_decide (protocol c = DDR4).

(** [a / b] on [int]s. *)
Definition zquot (a b : Z) : exc Z :=
  if b =? 0 then err UndefinedBehaviour else ok (Z.quot a b).

(** [Config::GetInteger]. *)
Definition GetInteger (r : INIReader) (sec opt : string) (d : Z) : Z :=
  i32 (rd_GetInteger r sec opt d).

(** [Config::GetDRAMProtocol]. *)
Definition GetDRAMProtocol (s : string) : exc DRAMProtocol :=
  let protocol_pairs : list (string * DRAMProtocol) :=
    [("DDR3", DDR3); ("DDR4", DDR4); ("GDDR5", GDDR5); ("GDDR5X", GDDR5X); ("GDDR6", GDDR6);
     ("LPDDR", LPDDR); ("LPDDR3", LPDDR3); ("LPDDR4", LPDDR4); ("HBM", HBM); ("HBM2", HBM2);
     ("HMC", HMC)]%string in
  opt_exc ((list_to_map protocol_pairs : gmap string DRAMProtocol) !! s) AbruptExit.

(** [Config::InitSystemParams]. *)
Definition InitSystemParams (r : INIReader) : exc SystemParams :=
  let gi := GetInteger r "system" in
  let ref_policy := Get r "system" "refresh_policy" "RANK_LEVEL_STAGGERED" in
  pol ← (if decide (ref_policy = "RANK_LEVEL_SIMULTANEOUS"%string) then ok RANK_LEVEL_SIMULTANEOUS
         else if decide (ref_policy = "RANK_LEVEL_STAGGERED"%string) then ok RANK_LEVEL_STAGGERED
         else if decide (ref_policy = "BANK_LEVEL_STAGGERED"%string) then ok BANK_LEVEL_STAGGERED
         else err AbruptExit);
  ok {| sys_channel_size := gi "channel_size" 1024;
        channels := gi "channels" 1;
        bus_width := gi "bus_width" 64;
        address_mapping := Get r "system" "address_mapping" "chrobabgraco";
        queue_structure := Get r "system" "queue_structure" "PER_BANK";
        row_buf_policy := Get r "system" "row_buf_policy" "OPEN_PAGE";
        cmd_queue_size := gi "cmd_queue_size" 16;
        trans_queue_size := gi "trans_queue_size" 32;
        unified_queue := GetBoolean r "system" "unified_queue" false;
        write_buf_size := gi "write_buf_size" 16;
        refresh_policy := pol;
        enable_self_refresh := GetBoolean r "system" "enable_self_refresh" false;
        sref_threshold := gi "sref_threshold" 1000;
        aggressive_precharging_enabled :=
          GetBoolean r "system" "aggressive_precharging_enabled" false |}.

(** [burst_cycle] and [BL] by protocol; [BL = 0] simulates a perfect bandwidth. *)
Definition burst (p : DRAMProtocol) (bl : Z) : Z * Z :=
  let d := match p with GDDR5 => 4 | GDDR5X => 8 | GDDR6 => 16 | _ => 2 end in
  (if bl =? 0 then 0 else Z.quot bl d,
   if bl =? 0 then (if prot_IsHBM p then 4 else 8) else bl).

(** [Config::InitDRAMParams]. *)
Definition InitDRAMParams (r : INIReader) : exc DRAMParams :=
  let gi := GetInteger r "dram_structure" in
  prot ← GetDRAMProtocol (Get r "dram_structure" "protocol" "DDR3");
  let bg := gi "bankgroups" 2 in
  let bpg := gi "banks_per_group" 2 in
  let '(bg, bpg) :=
    if GetBoolean r "dram_structure" "bankgroup_enable" true then (bg, bpg) else (1, bpg * bg) in
  let cols := gi "columns" (Z.shiftl 1 10) in
  let dw := gi "device_width" 8 in
  let bsize := GetInteger r "hmc" "block_size" 64 in
  bl ← (if prot_IsHMC prot then zquot (bsize * 8) dw else ok (gi "BL" 8));
  let '(bc, bl) := burst prot bl in
  ok {| protocol := prot;
        bankgroups := bg;
        banks_per_group := bpg;
        banks := bg * bpg;
        rows := gi "rows" (Z.shiftl 1 16);
        columns := if prot_IsGDDR prot then cols * bl else if prot_IsHBM prot then cols * 2 else cols;
        device_width := dw;
        BL := bl;
        num_dies := gi "num_dies" 1;
        enable_hbm_dual_cmd := GetBoolean r "dram_structure" "hbm_dual_cmd" true && prot_IsHBM prot;
        num_links := GetInteger r "hmc" "num_links" 4;
        link_width := GetInteger r "hmc" "link_width" 16;
        link_speed := GetInteger r "hmc" "link_speed" 15000;
        block_size := bsize;
        xbar_queue_depth := GetInteger r "hmc" "xbar_queue_depth" 16;
        burst_cycle := bc |}.

(** [Config::CalculateSize]. *)
Definition CalculateSize (s : SystemParams) (d : DRAMParams) : exc SizeParams :=
  dpr ← zquot (bus_width s) (device_width d);
  let page_size := Z.quot (columns d * device_width d) 8 in
  let megs_per_bank := Z.quot (page_size * Z.quot (rows d) 1024) 1024 in
  let megs_per_rank := megs_per_bank * banks d * dpr in
  if sys_channel_size s <? megs_per_rank then ok (MkSize dpr 1 megs_per_rank)
  else
    rk ← zquot (sys_channel_size s) megs_per_rank;
    ok (MkSize dpr rk (rk * megs_per_rank)).

(** [Config::InitTimingParams]. *)
Definition InitTimingParams (r : INIReader) (d : DRAMParams) : TimingParams :=
  let gi := GetInteger r "timing" in
  let al := gi "AL" 0 in
  let cl := gi "CL" 12 in
  let cwl := gi "CWL" 12 in
  let trp := gi "tRP" 10 in
  let tras := gi "tRAS" 24 in
  let rl := al + cl in
  let wl := al + cwl in
  {| AL := al; CL := cl; CWL := cwl; RL := rl; WL := wl;
     tCCD_L := gi "tCCD_L" 6; tCCD_S := gi "tCCD_S" 4; tRTRS := gi "tRTRS" 2;
     tRTP := gi "tRTP" 5; tWTR_L := gi "tWTR_L" 5; tWTR_S := gi "tWTR_S" 5;
     tWR := gi "tWR" 10; tRP := trp; tRRD_L := gi "tRRD_L" 4; tRRD_S := gi "tRRD_S" 4;
     tRAS := tras; tRCD := gi "tRCD" 10; tRFC := gi "tRFC" 74; tRC := tras + trp;
     tCKE := gi "tCKE" 6; tCKESR := gi "tCKESR" 12; tXS := gi "tXS" 432; tXP := gi "tXP" 8;
     tRFCb := gi "tRFCb" 20; tREFI := gi "tREFI" 7800; tREFIb := gi "tREFIb" 1950;
     tFAW := gi "tFAW" 50; tRPRE := gi "tRPRE" 1; tWPRE := gi "tWPRE" 1; tPPD := gi "tPPD" 0;
     t32AW := gi "t32AW" 330; tRCDRD := gi "tRCDRD" 24; tRCDWR := gi "tRCDWR" 20;
     ideal_memory_latency := gi "ideal_memory_latency" 10;
     read_delay := rl + burst_cycle d; write_delay := wl + burst_cycle d |}.

(** [Config::InitOtherParams]; [dir_exists] is the answer of [DirExist]. *)
Definition InitOtherParams (r : INIReader) (out_dir : string) (dir_exists : bool) : OtherParams :=
  let dir := if dir_exists then (out_dir +:+ "/")%string else "./"%string in
  let prefix := (dir +:+ Get r "other" "output_prefix" "dramsim3")%string in
  {| epoch_period := GetInteger r "other" "epoch_period" 100000;
     output_level := i32 (rd_GetInteger r "other" "output_level" 1);
     output_dir := dir;
     output_prefix := prefix;
     json_stats_name := (prefix +:+ ".json")%string;
     json_epoch_name := (prefix +:+ "epoch.json")%string;
     txt_stats_name := (prefix +:+ ".txt")%string |}.

(** The two-character tokens of the mapping string. *)
Fixpoint fields_of (s : string) : list string :=
  match s with
  | String a (String b s') => String a (String b EmptyString) :: fields_of s'
  | String a EmptyString => [String a EmptyString]
  | EmptyString => []
  end.

(** The loop that pops the tokens off the back and places them from bit 0. *)
Fixpoint place (ws : gmap string Z) (fields : list string) (pos : Z) (fp : gmap string Z)
    : exc (gmap string Z) :=
  match fields with
  | [] => ok fp
  | token :: rest =>
      w ← opt_exc (ws !! token) AbruptExit;
      place ws rest (pos + w) (<[token := pos]> fp)
  end.

(** [map.at(key)]. *)
Definition map_at (m : gmap string Z) (k : string) : exc Z := opt_exc (m !! k) StdOutOfRange.

(** [(1 << w) - 1] on [int]s. *)
Definition mask_of (w : Z) : exc Z :=
  if (0 <=? w) && (w <? 31) then ok (Z.shiftl 1 w - 1) else err UndefinedBehaviour.

(** The widths [SetAddressMapping] derives from the sizes. *)
Definition field_widths (s : SystemParams) (d : DRAMParams) (z : SizeParams) : exc (gmap string Z) :=
  col_low_bits ← LogBase2 (BL d);
  cols ← LogBase2 (columns d);
  ch ← LogBase2 (channels s);
  ra ← LogBase2 (ranks z);
  bg ← LogBase2 (bankgroups d);
  ba ← LogBase2 (banks_per_group d);
  ro ← LogBase2 (rows d);
  ok (list_to_map [("ch", ch); ("ra", ra); ("bg", bg); ("ba", ba); ("ro", ro);
                   ("co", cols - col_low_bits)]%string).

(** [Config::SetAddressMapping]. *)
Definition SetAddressMapping (s : SystemParams) (d : DRAMParams) (z : SizeParams) : exc Mapping :=
  let req := Z.quot (bus_width s) 8 * BL d in
  shift ← LogBase2 req;
  ws ← field_widths s d z;
  if decide (String.length (address_mapping s) ≠ 12%nat) then err AbruptExit
  else
    fp ← place ws (rev (fields_of (address_mapping s))) 0 ∅;
    chp ← map_at fp "ch"; rap ← map_at fp "ra"; bgp ← map_at fp "bg";
    bap ← map_at fp "ba"; rop ← map_at fp "ro"; cop ← map_at fp "co";
    chm ← map_at ws "ch" ≫= mask_of; ram ← map_at ws "ra" ≫= mask_of;
    bgm ← map_at ws "bg" ≫= mask_of; bam ← map_at ws "ba" ≫= mask_of;
    rom ← map_at ws "ro" ≫= mask_of; com ← map_at ws "co" ≫= mask_of;
    ok (MkMapping req shift chp rap bgp bap rop cop chm ram bgm bam rom com).

(** [Config::AddressMapping]. *)
Definition AddressMapping (m : Mapping) (hex : Z) : Address :=
  let hex := Z.shiftr hex (shift_bits m) in
  let field pos mask := Z.land (Z.shiftr hex pos) mask in
  MkAddress (field (ch_pos m) (ch_mask m)) (field (ra_pos m) (ra_mask m))
            (field (bg_pos m) (bg_mask m)) (field (ba_pos m) (ba_mask m))
            (field (ro_pos m) (ro_mask m)) (field (co_pos m) (co_mask m)).

(** [Config::Config(config_file, out_dir)] on the reader of the file. *)
Definition new_Config (r : INIReader) (out_dir : string) (dir_exists : bool) : exc Config :=
  if ParseError r <? 0 then err AbruptExit
  else
    s ← InitSystemParams r;
    d ← InitDRAMParams r;
    z ← CalculateSize s d;
    m ← SetAddressMapping s d z;
    ok (MkConfig s d z m (InitTimingParams r d) (InitOtherParams r out_dir dir_exists)).

(** ** The six fields *)

Definition six : list string := ["ch"; "ra"; "bg"; "ba"; "ro"; "co"]%string.

Definition by_field {A} (t : string) (a b c d e f : A) : A :=
  if decide (t = "ch"%string) then a else if decide (t = "ra"%string) then b
  else if decide (t = "bg"%string) then c else if decide (t = "ba"%string) then d
  else if decide (t = "ro"%string) then e else f.

Definition pos_of (m : Mapping) (t : string) : Z :=
  by_field t (ch_pos m) (ra_pos m) (bg_pos m) (ba_pos m) (ro_pos m) (co_pos m).
Definition mask_at (m : Mapping) (t : string) : Z :=
  by_field t (ch_mask m) (ra_mask m) (bg_mask m) (ba_mask m) (ro_mask m) (co_mask m).
Definition field_of (A : Address) (t : string) : Z :=
  by_field t (channel A) (rank A) (bankgroup A) (bank A) (row A) (column A).

(** The number of values of a field. *)
Definition field_size (m : Mapping) (t : string) : Z := mask_at m t + 1.

(** An address whose fields are all in range. *)
Definition addr_ok (m : Mapping) (A : Address) : Prop :=
  ∀ t, t ∈ six → 0 ≤ field_of A t < field_size m t.

(** The request address of a tuple: the specification [AddressMapping] inverts. *)
Definition sum_fields (l : list string) (pos d : string -> Z) : Z :=
  foldr (fun t acc => d t * 2 ^ pos t + acc) 0 l.
Definition compose_addr (m : Mapping) (A : Address) : Z :=
  sum_fields six (pos_of m) (field_of A) * 2 ^ shift_bits m.

(** The number of address bits above the offset in a request. *)
Definition total_bits (m : Mapping) : Z := foldr (fun t acc => Z.log2 (field_size m t) + acc) 0 six.

(** ** Lemmas *)

Definition sumw (w : string -> Z) (l : list string) : Z := foldr (fun t acc => w t + acc) 0 l.

(** The fields of [l] lie side by side from bit [base]. *)
Fixpoint follows (pos w : string -> Z) (base : Z) (l : list string) : Prop :=
  match l with
  | [] => True
  | t :: l' => pos t = base ∧ follows pos w (base + w t) l'
  end.

Lemma sumw_nonneg w l : (∀ t, t ∈ l → 0 ≤ w t) → 0 ≤ sumw w l.
Proof.
  induction l as [|t l IH]; simpl; intros Hw; [done|].
  assert (0 ≤ w t) by (apply Hw; left).
  assert (0 ≤ sumw w l) by (apply IH; intros; apply Hw; by right). unfold sumw in *. lia.
Qed.

Lemma sum_fields_cons t l pos d : sum_fields (t :: l) pos d = d t * 2 ^ pos t + sum_fields l pos d.
Proof. done. Qed.

Lemma sum_fields_perm l l' pos d : l ≡ₚ l' → sum_fields l pos d = sum_fields l' pos d.
Proof. unfold sum_fields. induction 1; simpl; lia. Qed.

Lemma sumw_perm w l l' : l ≡ₚ l' → sumw w l = sumw w l'.
Proof. unfold sumw. induction 1; simpl; lia. Qed.

(** Digits that lie side by side make up the number they are cut from. *)
Lemma sum_digits v w pos base l :
  0 ≤ base → (∀ t, t ∈ l → 0 ≤ w t) → follows pos w base l →
  sum_fields l pos (fun t => (v / 2 ^ pos t) mod 2 ^ w t) =
    (v / 2 ^ base) mod 2 ^ sumw w l * 2 ^ base.
Proof.
  revert base. induction l as [|t l IH]; intros base Hb Hw Hf; simpl.
  { by rewrite Z.mod_1_r. }
  destruct Hf as [-> Hf]. assert (0 ≤ w t) as Hwt by (apply Hw; left).
  assert (0 ≤ sumw w l) as Hs by (apply sumw_nonneg; intros; apply Hw; by right).
  change (foldr _ _ l) with (sum_fields l pos (fun t => (v / 2 ^ pos t) mod 2 ^ w t)).
  rewrite (IH (base + w t)); [|lia|intros; apply Hw; by right|done].
  rewrite !Z.pow_add_r, <- Z.div_div by lia.
  rewrite (Z.rem_mul_r (v / 2 ^ base) (2 ^ w t) (2 ^ sumw w l)) by lia. ring.
Qed.

(** A sum of in-range digits is a multiple of its first weight and in range. *)
Lemma sum_fields_shift w pos d base l :
  0 ≤ base → (∀ t, t ∈ l → 0 ≤ w t ∧ 0 ≤ d t < 2 ^ w t) → follows pos w base l →
  ∃ s, sum_fields l pos d = s * 2 ^ base ∧ 0 ≤ s < 2 ^ sumw w l.
Proof.
  revert base. induction l as [|t l IH]; intros base Hb Hw Hf.
  { exists 0. simpl. lia. }
  destruct Hf as [Hpos Hf]. destruct (Hw t) as [Hwt Hdt]; [left|].
  destruct (IH (base + w t)) as (s & Hs & Hr); [lia|intros; apply Hw; by right|done|].
  assert (0 ≤ sumw w l) by (apply sumw_nonneg; intros t' ?; apply Hw; by right).
  exists (d t + 2 ^ w t * s). rewrite sum_fields_cons, Hs, Hpos.
  change (sumw w (t :: l)) with (w t + sumw w l).
  rewrite !Z.pow_add_r by lia. split; [ring|nia].
Qed.

(** Each digit of such a sum can be read back. *)
Lemma digit_of_sum w pos d base l t :
  0 ≤ base → (∀ t, t ∈ l → 0 ≤ w t ∧ 0 ≤ d t < 2 ^ w t) → follows pos w base l → t ∈ l →
  ∀ lo, 0 ≤ lo < 2 ^ base → ((lo + sum_fields l pos d) / 2 ^ pos t) mod 2 ^ w t = d t.
Proof.
  revert base. induction l as [|t' l IH]; intros base Hb Hw Hf Ht lo Hlo; [set_solver|].
  destruct Hf as [Hpos Hf]. destruct (Hw t') as [Hwt Hdt]; [left|].
  destruct (decide (t = t')) as [->|Hne].
  - destruct (sum_fields_shift w pos d (base + w t') l) as (s & Hs & _);
      [lia|intros; apply Hw; by right|done|].
    rewrite sum_fields_cons, Hs, Hpos, Z.pow_add_r by lia.
    replace (lo + (d t' * 2 ^ base + s * (2 ^ base * 2 ^ w t'))) with
      (lo + (d t' + s * 2 ^ w t') * 2 ^ base) by ring.
    rewrite Z.div_add, (Z.div_small lo) by lia. rewrite Z.add_0_l, Z.mod_add by lia.
    by apply Z.mod_small.
  - rewrite sum_fields_cons, Z.add_assoc. apply (IH (base + w t')); [lia| |done|set_solver|].
    + intros; apply Hw; by right.
    + rewrite Hpos, Z.pow_add_r by lia. nia.
Qed.

(** *** The placement loop *)

Lemma place_ok ws l pos fp fp' :
  place ws l pos fp = ok fp' →
  (∀ t, t ∈ l → is_Some (ws !! t)) ∧ (∀ t, t ∉ l → fp' !! t = fp !! t).
Proof.
  revert pos fp. induction l as [|t l IH]; intros pos fp Hp; simpl in Hp.
  { inv_ok. split; [set_solver|done]. }
  inv_ok. destruct (IH _ _ Hp) as [IH1 IH2]. split.
  - intros t' [->|?]%elem_of_cons; [by eexists|by apply IH1].
  - intros t' Hn. rewrite IH2 by set_solver. apply lookup_insert_ne. set_solver.
Qed.

Lemma place_follows ws l pos fp :
  NoDup l → (∀ t, t ∈ l → is_Some (ws !! t)) →
  ∃ fp', place ws l pos fp = ok fp' ∧ (∀ t, t ∈ l → is_Some (fp' !! t)) ∧
    follows (fun t => default 0 (fp' !! t)) (fun t => default 0 (ws !! t)) pos l.
Proof.
  revert pos fp. induction l as [|t l IH]; intros pos fp Hnd Hws.
  { exists fp. split_and!; [done|set_solver|done]. }
  apply NoDup_cons in Hnd as [Hni Hnd].
  destruct (Hws t) as [w Hw]; [left|].
  destruct (IH (pos + w) (<[t := pos]> fp)) as (fp' & Hp & His & Hf); [done|set_solver|].
  assert (fp' !! t = Some pos) as Hfp.
  { destruct (place_ok _ _ _ _ _ Hp) as [_ Hk]. rewrite Hk by done. apply lookup_insert_eq. }
  exists fp'. simpl. rewrite Hw. simpl. split_and!; [done| |by rewrite Hfp|done].
  intros t' [->|?]%elem_of_cons; [by eexists|by apply His].
Qed.

(** The width of a field, read off its mask. *)
Definition bits (m : Mapping) (t : string) : Z := Z.log2 (field_size m t).

(** What [SetAddressMapping] establishes: the fields, in some order, fill the
    bits above the offset without gap or overlap. *)
Record map_wf (m : Mapping) : Prop := {
  mw_order : ∃ l, l ≡ₚ six ∧ follows (pos_of m) (bits m) 0 l;
  mw_size t : t ∈ six → field_size m t = 2 ^ bits m t;
  mw_shift : 0 ≤ shift_bits m
}.

Lemma follows_ext pos pos' w w' base l :
  (∀ t, t ∈ l → pos t = pos' t ∧ w t = w' t) → follows pos w base l → follows pos' w' base l.
Proof.
  revert base. induction l as [|t l IH]; intros base He; simpl; [done|].
  destruct (He t) as [<- <-]; [left|]. intros [? ?]. split; [done|].
  apply IH; [|done]. intros; apply He; by right.
Qed.

Lemma fields_of_length s : String.length s = 12%nat → length (fields_of s) = 6%nat.
Proof.
  intros Hs. do 12 (destruct s as [|? s]; [done|]). by destruct s.
Qed.

Lemma fields_of_chars s :
  String.length s = foldr (fun t n => (String.length t + n)%nat) 0%nat (fields_of s).
Proof.
  assert (∀ n s, (String.length s < n)%nat →
    String.length s = foldr (fun t n => (String.length t + n)%nat) 0%nat (fields_of s)) as Hg.
  { clear s. induction n as [|n IH]; intros s Hs; [lia|].
    destruct s as [|a [|b s]]; [done|done|]. simpl in *. rewrite <- IH; lia. }
  apply (Hg (S (String.length s))). lia.
Qed.

Lemma six_NoDup : NoDup six.
Proof. apply (bool_decide_unpack _). vm_compute. exact I. Qed.

Lemma six_cover (l : list string) :
  length l = 6%nat → (∀ t, t ∈ six → t ∈ l) → l ≡ₚ six.
Proof.
  intros Hl Hc. symmetry. apply submseteq_length_Permutation; [|by rewrite Hl].
  apply NoDup_submseteq; [apply six_NoDup|done].
Qed.

Lemma field_widths_six s d z ws t : field_widths s d z = ok ws → is_Some (ws !! t) ↔ t ∈ six.
Proof.
  intros Hw. unfold field_widths in Hw. inv_ok.
  rewrite <- (elem_of_dom (D := gset string)), !dom_insert_L. unfold six. set_solver.
Qed.

Lemma elem_of_six t :
  t ∈ six ↔ t = "ch"%string ∨ t = "ra"%string ∨ t = "bg"%string ∨ t = "ba"%string ∨
            t = "ro"%string ∨ t = "co"%string.
Proof. unfold six. set_solver. Qed.

Lemma mask_of_ok w k : mask_of w = ok k → 0 ≤ w ∧ k = 2 ^ w - 1.
Proof.
  unfold mask_of. destruct (Z.leb_spec 0 w), (Z.ltb_spec w 31); simpl; try done.
  intros [= <-]. rewrite Z.shiftl_1_l. done.
Qed.

Lemma LogBase2_nonneg p i : LogBase2 p = ok i → 0 ≤ i.
Proof.
  unfold LogBase2. generalize 31%nat at 1. intros n.
  assert (∀ p j i, 0 ≤ j → LogBase2_loop n p j = ok i → 0 ≤ i) as Hg.
  { clear. induction n as [|n IH]; intros p j i Hj; simpl; destruct (1 <? p); try done;
      try (intros [= <-]; done). apply IH. lia. }
  by apply Hg.
Qed.

(** A placement that gives every field a position placed each once. *)
Lemma place_six ws s fp :
  String.length s = 12%nat → place ws (rev (fields_of s)) 0 ∅ = ok fp →
  (∀ t, t ∈ six → is_Some (fp !! t)) → rev (fields_of s) ≡ₚ six.
Proof.
  intros Hlen Hpl Hall.
  apply six_cover; [rewrite length_rev; by apply fields_of_length|].
  intros t Ht. destruct (decide (t ∈ rev (fields_of s))) as [|Hn]; [done|].
  apply (place_ok _ _ _ _ _ Hpl) in Hn. rewrite lookup_empty in Hn.
  destruct (Hall t Ht) as [p Hp]. congruence.
Qed.

Lemma six_chars (l : list string) :
  l ≡ₚ six → foldr (fun t n => (String.length t + n)%nat) 0%nat l = 12%nat.
Proof.
  intros Hl. transitivity (foldr (fun t n => (String.length t + n)%nat) 0%nat six); [|done].
  clear -Hl. induction Hl; simpl in *; lia.
Qed.

Lemma SetAddressMapping_order s d z m :
  SetAddressMapping s d z = ok m → fields_of (address_mapping s) ≡ₚ six.
Proof.
  unfold SetAddressMapping, map_at. intros Hm. inv_ok.
  destruct (decide _) as [|Hlen]; [done|]. apply dec_stable in Hlen. inv_ok.
  rewrite (Permutation_rev (fields_of _)).
  eapply place_six; [done|done|]. intros t Ht.
  apply elem_of_six in Ht as [->|[->|[->|[->|[->| ->]]]]]; eauto.
Qed.

Lemma SetAddressMapping_wf s d z m : SetAddressMapping s d z = ok m → map_wf m.
Proof.
  unfold SetAddressMapping, map_at. intros Hm. inv_ok.
  destruct (decide _) as [|Hlen]; [done|]. apply dec_stable in Hlen. inv_ok.
  repeat match goal with H : mask_of _ = ok _ |- _ => apply mask_of_ok in H as [? ?] end. subst.
  rename x0 into ws, x1 into fp. set (l := rev (fields_of (address_mapping s))) in *.
  match goal with H : place _ _ _ _ = _ |- _ => rename H into Hpl end.
  match goal with H : field_widths _ _ _ = _ |- _ => rename H into Hws end.
  assert (l ≡ₚ six) as Hperm.
  { apply (place_six ws _ fp Hlen Hpl). intros t Ht.
    apply elem_of_six in Ht as [->|[->|[->|[->|[->| ->]]]]]; eauto. }
  destruct (place_follows ws l 0 ∅) as (fp' & Hpl' & _ & Hf).
  { rewrite Hperm. apply six_NoDup. } { apply (place_ok _ _ _ _ _ Hpl). }
  rewrite Hpl in Hpl'. injection Hpl' as <-.
  split.
  - exists l. split; [done|]. eapply follows_ext; [|exact Hf]. intros t Ht. rewrite Hperm in Ht.
    unfold bits, field_size, pos_of, mask_at.
    apply elem_of_six in Ht as [->|[->|[->|[->|[->| ->]]]]]; unfold by_field; simpl decide; cbv iota;
      repeat match goal with H : _ !! _ = Some _ |- _ => rewrite H end; simpl;
      rewrite Z.sub_add, Z.log2_pow2 by done; done.
  - intros t Ht. unfold bits, field_size, mask_at.
    apply elem_of_six in Ht as [->|[->|[->|[->|[->| ->]]]]]; unfold by_field; simpl decide; cbv iota; simpl;
      rewrite !Z.sub_add, Z.log2_pow2 by done; done.
  - simpl. by eapply LogBase2_nonneg.
Qed.

Lemma land_mask x m t : map_wf m → t ∈ six → Z.land x (mask_at m t) = x mod 2 ^ bits m t.
Proof.
  intros Hw Ht. assert (mask_at m t = Z.ones (bits m t)) as ->.
  { rewrite Z.ones_equiv, <- (mw_size _ Hw t Ht). unfold field_size. lia. }
  apply Z.land_ones. apply Z.log2_nonneg.
Qed.

Lemma AddressMapping_field m hex t :
  map_wf m → 0 ≤ pos_of m t → t ∈ six →
  field_of (AddressMapping m hex) t = (hex / 2 ^ shift_bits m / 2 ^ pos_of m t) mod 2 ^ bits m t.
Proof.
  intros Hw Hp Ht. rewrite <- land_mask by done.
  rewrite <- !Z.shiftr_div_pow2 by (done || apply Hw).
  unfold field_of, pos_of, mask_at, by_field, AddressMapping. simpl.
  by repeat case_decide.
Qed.

Lemma follows_pos pos w base l t :
  (∀ t, t ∈ l → 0 ≤ w t) → follows pos w base l → t ∈ l → base ≤ pos t.
Proof.
  revert base. induction l as [|t' l IH]; intros base Hw Hf Ht; [set_solver|].
  destruct Hf as [Hp Hf]. apply elem_of_cons in Ht as [->|Ht]; [lia|].
  assert (base + w t' ≤ pos t) by (apply IH; [intros; apply Hw; by right|done|done]).
  assert (0 ≤ w t') by (apply Hw; left). lia.
Qed.

Lemma map_wf_pos m t : map_wf m → t ∈ six → 0 ≤ pos_of m t.
Proof.
  intros [(l & Hperm & Hf) _ _] Ht. eapply follows_pos; [|done|by rewrite Hperm].
  intros. apply Z.log2_nonneg.
Qed.

Lemma field_ext A A' : (∀ t, t ∈ six → field_of A t = field_of A' t) → A = A'.
Proof.
  intros Hf. destruct A, A'.
  pose proof (Hf "ch"%string ltac:(set_solver)). pose proof (Hf "ra"%string ltac:(set_solver)).
  pose proof (Hf "bg"%string ltac:(set_solver)). pose proof (Hf "ba"%string ltac:(set_solver)).
  pose proof (Hf "ro"%string ltac:(set_solver)). pose proof (Hf "co"%string ltac:(set_solver)).
  unfold field_of, by_field in *. simpl in *. congruence.
Qed.

Lemma AddressMapping_compose m A : map_wf m → addr_ok m A → AddressMapping m (compose_addr m A) = A.
Proof.
  intros Hw HA. destruct (mw_order _ Hw) as (l & Hperm & Hf).
  apply field_ext. intros t Ht. rewrite AddressMapping_field by (done || by apply map_wf_pos).
  unfold compose_addr. rewrite Z.div_mul by (pose proof (mw_shift _ Hw); lia).
  rewrite <- (sum_fields_perm l six) by done.
  rewrite <- (Z.add_0_l (sum_fields _ _ _)).
  apply (digit_of_sum (bits m) (pos_of m) (field_of A) 0 l t); [done| |done|by rewrite Hperm|done].
  intros t' Ht'. rewrite Hperm in Ht'. split; [apply Z.log2_nonneg|].
  rewrite <- (mw_size _ Hw) by done. by apply HA.
Qed.

Lemma compose_AddressMapping m hex :
  map_wf m → 0 ≤ hex →
  addr_ok m (AddressMapping m hex) ∧
  compose_addr m (AddressMapping m hex) =
    (hex / 2 ^ shift_bits m) mod 2 ^ total_bits m * 2 ^ shift_bits m.
Proof.
  intros Hw Hh. split.
  - intros t Ht. rewrite AddressMapping_field, (mw_size _ Hw t Ht) by (done || by apply map_wf_pos).
    apply Z.mod_pos_bound. assert (0 ≤ bits m t) by apply Z.log2_nonneg. lia.
  - destruct (mw_order _ Hw) as (l & Hperm & Hf). unfold compose_addr. f_equal.
    rewrite <- (sum_fields_perm l six) by done.
    transitivity (sum_fields l (pos_of m) (fun t => (hex / 2 ^ shift_bits m / 2 ^ pos_of m t) mod 2 ^ bits m t)).
    { assert (∀ t, t ∈ l → t ∈ six) as Hsub by (intros t; by rewrite Hperm). clear Hperm Hf.
      induction l as [|t l IH]; [done|]. rewrite !sum_fields_cons, IH by set_solver.
      rewrite AddressMapping_field; [done|done|apply map_wf_pos; set_solver|set_solver]. }
    rewrite (sum_digits _ _ _ 0); [|done|intros; apply Z.log2_nonneg|done].
    rewrite Z.div_1_r, Z.mul_1_r. do 2 f_equal. by rewrite (sumw_perm _ _ _ Hperm).
Qed.

Lemma place_unknown ws l pos fp t :
  t ∈ l → ws !! t = None → place ws l pos fp = err AbruptExit.
Proof.
  revert pos fp. induction l as [|t' l IH]; intros pos fp Ht Hn; [set_solver|]. simpl.
  destruct (ws !! t') as [w|] eqn:Hw; simpl; [|done].
  apply IH; [|done]. apply elem_of_cons in Ht as [->|?]; [congruence|done].
Qed.

(** Sizes a configuration can have: positive [int]s, and at least one burst per row. *)
Record sizes_ok (s : SystemParams) (d : DRAMParams) (z : SizeParams) : Prop := {
  so_int : Forall (fun v => 1 ≤ v < 2 ^ 31)
             [channels s; ranks z; bankgroups d; banks_per_group d; rows d; columns d; BL d];
  so_req : Z.quot (bus_width s) 8 * BL d < 2 ^ 31;
  so_col : BL d ≤ columns d
}.

(** ** Theorems *)

(** The bits of a field: from the sizes of the memory. *)
Definition width_of (s : SystemParams) (d : DRAMParams) (z : SizeParams) (t : string) : Z :=
  by_field t (Z.log2 (channels s)) (Z.log2 (ranks z)) (Z.log2 (bankgroups d)) (Z.log2 (banks_per_group d))
    (Z.log2 (rows d)) (Z.log2 (columns d) - Z.log2 (BL d)).

Lemma field_widths_ok s d z :
  sizes_ok s d z → ∃ ws, field_widths s d z = ok ws ∧
    ∀ t, t ∈ six → ws !! t = Some (width_of s d z t) ∧ mask_of (width_of s d z t) = ok (2 ^ width_of s d z t - 1) ∧
      0 ≤ width_of s d z t.
Proof.
  intros [Hi _ Hc]. unfold field_widths.
  apply Forall_cons in Hi as [? Hi]. apply Forall_cons in Hi as [? Hi].
  apply Forall_cons in Hi as [? Hi]. apply Forall_cons in Hi as [? Hi].
  apply Forall_cons in Hi as [? Hi]. apply Forall_cons in Hi as [? Hi].
  apply Forall_cons in Hi as [? _].
  rewrite !LogBase2_pos by done. eexists. split; [done|].
  assert (∀ p : Z, 1 ≤ p < 2 ^ 31 → 0 ≤ Z.log2 p < 31) as Hl.
  { intros p ?. split; [apply Z.log2_nonneg|apply Z.log2_lt_pow2; lia]. }
  assert (∀ w, 0 ≤ w < 31 → mask_of w = ok (2 ^ w - 1)) as Hm.
  { intros w ?. unfold mask_of. destruct (Z.leb_spec 0 w), (Z.ltb_spec w 31); try lia.
    simpl. by rewrite Z.shiftl_1_l. }
  pose proof (Z.log2_le_mono _ _ Hc). pose proof (Z.log2_nonneg (BL d)).
  pose proof (Hl (columns d) ltac:(done)).
  intros t Ht. apply elem_of_six in Ht as [->|[->|[->|[->|[->| ->]]]]];
    (split; [reflexivity|]; split; [apply Hm|]); first [by apply Hl|apply Z.log2_nonneg|idtac].
  - change (0 ≤ Z.log2 (columns d) - Z.log2 (BL d) < 31). lia.
  - change (0 ≤ Z.log2 (columns d) - Z.log2 (BL d)). lia.
Qed.

(** Fields that all have a width are placed; those not named get no position. *)
Lemma place_total ws l pos fp :
  (∀ t, t ∈ l → is_Some (ws !! t)) → ∃ fp', place ws l pos fp = ok fp'.
Proof.
  revert pos fp. induction l as [|t l IH]; intros pos fp Hws; [by exists fp|]. simpl.
  destruct (Hws t) as [w ->]; [left|]. cbn [opt_exc mbind exc_bind]. apply IH. intros; apply Hws; by right.
Qed.

Lemma positions_missing (fp : gmap string Z) A (k : Z -> Z -> Z -> Z -> Z -> Z -> exc A) t :
  t ∈ six → fp !! t = None →
  (chp ← map_at fp "ch"; rap ← map_at fp "ra"; bgp ← map_at fp "bg";
   bap ← map_at fp "ba"; rop ← map_at fp "ro"; cop ← map_at fp "co"; k chp rap bgp bap rop cop) = err StdOutOfRange.
Proof.
  intros Ht Hn. unfold map_at. apply elem_of_six in Ht.
  destruct (fp !! "ch"%string) eqn:E1; [|done]. destruct (fp !! "ra"%string) eqn:E2; [|done].
  destruct (fp !! "bg"%string) eqn:E3; [|done]. destruct (fp !! "ba"%string) eqn:E4; [|done].
  destruct (fp !! "ro"%string) eqn:E5; [|done]. destruct (fp !! "co"%string) eqn:E6; [|done].
  exfalso. destruct Ht as [->|[->|[->|[->|[->| ->]]]]]; congruence.
Qed.

Lemma SetAddressMapping_succeeds s d z :
  sizes_ok s d z → fields_of (address_mapping s) ≡ₚ six →
  ∃ m, SetAddressMapping s d z = ok m ∧ follows (pos_of m) (width_of s d z) 0 (rev (fields_of (address_mapping s))) ∧
    ∀ t, t ∈ six → mask_at m t = 2 ^ width_of s d z t - 1.
Proof.
  intros Hsz Hperm. destruct (field_widths_ok s d z Hsz) as (ws & Hws & Hmask).
  destruct (LogBase2_total _ (so_req _ _ _ Hsz)) as (sh & Hsh & _).
  destruct (place_follows ws (rev (fields_of (address_mapping s))) 0 ∅) as (fp & Hpl & Hfp & Hfol).
  { rewrite <- Permutation_rev, Hperm. apply six_NoDup. }
  { intros t. rewrite <- Permutation_rev, Hperm. intros Ht. destruct (Hmask t Ht) as [-> _]. by eexists. }
  assert (∀ t, t ∈ six → fp !! t = Some (default 0 (fp !! t))) as Hat.
  { intros t Ht. destruct (Hfp t) as [p Hp]; [by rewrite <- Permutation_rev, Hperm|]. by rewrite Hp. }
  unfold SetAddressMapping. rewrite Hsh, Hws. cbn [mbind exc_bind].
  rewrite decide_False, Hpl by (rewrite fields_of_chars, six_chars; [by intros []|done]).
  cbn [mbind exc_bind]. unfold map_at.
  repeat match goal with |- context [opt_exc (fp !! ?t) _] =>
    rewrite (Hat t) by set_solver; cbn [opt_exc mbind exc_bind] end.
  repeat match goal with |- context [opt_exc (ws !! ?t) _ ≫= mask_of] =>
    let H := fresh in let Hk := fresh in destruct (Hmask t) as (H & Hk & _); [set_solver|];
    rewrite H; cbn [opt_exc mbind exc_bind]; rewrite Hk; cbn [mbind exc_bind]; clear H Hk end.
  eexists. split; [reflexivity|]. split.
  - eapply follows_ext; [|exact Hfol]. intros t. rewrite <- Permutation_rev, Hperm. intros Ht.
    destruct (Hmask t Ht) as [-> _]. split; [|done].
    by apply elem_of_six in Ht as [->|[->|[->|[->|[->| ->]]]]].
  - intros t Ht. by apply elem_of_six in Ht as [->|[->|[->|[->|[->| ->]]]]].
Qed.

(** (C25) Which mapping strings are accepted, and what becomes of the others, for sizes a
    configuration can have ([sizes_ok]: positive [int]s, at least one burst per row).
    Twelve characters whose six fields are the known ones, each once, are accepted:
    the fields fill the bits from the last one of the string on, each as wide as the
    sizes ask. With another length, or with an unknown field, the constructor exits;
    with a field that is named twice, so that another is missing, [at] throws. *)
Theorem SetAddressMapping_accepts s d z :
  sizes_ok s d z →
  (fields_of (address_mapping s) ≡ₚ six →
     ∃ m, SetAddressMapping s d z = ok m ∧ follows (pos_of m) (width_of s d z) 0 (rev (fields_of (address_mapping s))) ∧
       ∀ t, t ∈ six → mask_at m t = 2 ^ width_of s d z t - 1) ∧
  (String.length (address_mapping s) ≠ 12%nat → SetAddressMapping s d z = err AbruptExit) ∧
  (String.length (address_mapping s) = 12%nat → (∃ t, t ∈ fields_of (address_mapping s) ∧ t ∉ six) → SetAddressMapping s d z = err AbruptExit) ∧
  (String.length (address_mapping s) = 12%nat → (∀ t, t ∈ fields_of (address_mapping s) → t ∈ six) → ¬ fields_of (address_mapping s) ≡ₚ six →
     SetAddressMapping s d z = err StdOutOfRange).
Proof.
  intros Hsz. set (str := address_mapping s). split; [by apply SetAddressMapping_succeeds|].
  destruct (field_widths_ok s d z Hsz) as (ws & Hws & Hmask).
  destruct (LogBase2_total _ (so_req _ _ _ Hsz)) as (sh & Hsh & _).
  unfold SetAddressMapping. fold str. rewrite Hsh, Hws. cbn [mbind exc_bind].
  split; [|split]; intros Hlen; [by rewrite decide_True|intros (t & Ht & Hn)|intros Hin Hperm];
    rewrite decide_False by (by intros []).
  - rewrite (place_unknown ws _ 0 ∅ t); [done|by rewrite <- Permutation_rev|].
    apply eq_None_not_Some. by rewrite (field_widths_six s d z ws t Hws).
  - destruct (place_total ws (rev (fields_of str)) 0 ∅) as [fp Hpl].
    { intros t. rewrite <- Permutation_rev, (field_widths_six s d z ws t Hws). apply Hin. }
    rewrite Hpl. cbn [mbind exc_bind].
    destruct (decide (Forall (fun t => t ∈ rev (fields_of str)) six)) as [Hall|Hmiss].
    { destruct Hperm. rewrite (Permutation_rev (fields_of str)). rewrite Forall_forall in Hall.
      apply six_cover; [rewrite length_rev; by apply fields_of_length|done]. }
    apply not_Forall_Exists in Hmiss; [|apply _]. apply Exists_exists in Hmiss as (t & Ht & Hn).
    apply (positions_missing fp _ _ t Ht). simpl in Hn. rewrite (proj2 (place_ok _ _ _ _ _ Hpl) t Hn). apply lookup_empty.
Qed.

(** (C24) The mapping is a bijection: composing the fields of an in-range tuple
    gives an address that maps back to it, and every address maps to an
    in-range tuple that determines all its bits from the request offset up to
    the capacity. No two requests of the memory share a location and none is
    unreachable. *)
Theorem AddressMapping_bijection s d z m :
  SetAddressMapping s d z = ok m →
  (∀ A, addr_ok m A → AddressMapping m (compose_addr m A) = A) ∧
  (∀ hex, 0 ≤ hex → addr_ok m (AddressMapping m hex) ∧
     compose_addr m (AddressMapping m hex) =
       (hex / 2 ^ shift_bits m) mod 2 ^ total_bits m * 2 ^ shift_bits m).
Proof.
  intros Hm%SetAddressMapping_wf. split; intros.
  - by apply AddressMapping_compose.
  - by apply compose_AddressMapping.
Qed.

(** ** The configuration the simulator loads (configs/HBM2_4Gb_x128.ini) *)

Definition ini_ints : list (string * string * Z) :=
  [("dram_structure", "bankgroups", 4); ("dram_structure", "banks_per_group", 4);
   ("dram_structure", "rows", 16384); ("dram_structure", "columns", 64);
   ("dram_structure", "device_width", 128); ("dram_structure", "BL", 4);
   ("dram_structure", "num_dies", 4);
   ("timing", "CL", 14); ("timing", "CWL", 4); ("timing", "tRCDRD", 14);
   ("timing", "tRCDWR", 14); ("timing", "tRP", 14); ("timing", "tRAS", 34);
   ("timing", "tRFC", 260); ("timing", "tREFI", 3900); ("timing", "tREFIb", 128);
   ("timing", "tRPRE", 1); ("timing", "tWPRE", 1); ("timing", "tRRD_S", 4);
   ("timing", "tRRD_L", 6); ("timing", "tWTR_S", 6); ("timing", "tWTR_L", 8);
   ("timing", "tFAW", 30); ("timing", "tWR", 16); ("timing", "tCCD_S", 1);
   ("timing", "tCCD_L", 2); ("timing", "tXS", 268); ("timing", "tCKE", 8); ("timing", "tXP", 8);
   ("system", "channel_size", 512); ("system", "channels", 8); ("system", "bus_width", 128);
   ("system", "cmd_queue_size", 8); ("system", "trans_queue_size", 32);
   ("other", "epoch_period", 1000000); ("other", "output_level", 1)]%string.

Definition ini_strings : list (string * string * string) :=
  [("dram_structure", "protocol", "HBM"); ("system", "address_mapping", "rorabgbacoch");
   ("system", "queue_structure", "PER_BANK"); ("system", "row_buf_policy", "OPEN_PAGE")]%string.

Definition ini_lookup {A} (l : list (string * string * A)) (sec opt : string) (d : A) : A :=
  match list_find (fun e => e.1 = (sec, opt)) l with Some (_, e) => e.2 | None => d end.

Definition hbm2_reader : INIReader :=
  MkReader 0 (ini_lookup ini_strings) (ini_lookup ini_ints)
           (fun sec opt d => ini_lookup [("system", "unified_queue", false)]%string sec opt d).

Definition hbm2_parts : exc (SystemParams * DRAMParams * SizeParams * Mapping) :=
  s ← InitSystemParams hbm2_reader;
  d ← InitDRAMParams hbm2_reader;
  z ← CalculateSize s d;
  m ← SetAddressMapping s d z;
  ok (s, d, z, m).

(** The values the INI file gives: one rank of 16 banks, 64-byte requests, the
    channel in the lowest bits above the offset. *)
Definition hbm2_sys : SystemParams :=
  MkSystem 512 8 128 "rorabgbacoch" "PER_BANK" "OPEN_PAGE" 8 32 false 16
           RANK_LEVEL_STAGGERED false 1000 false.
Definition hbm2_dram : DRAMParams :=
  MkDRAM HBM 4 4 16 16384 128 128 4 4 true 4 16 15000 64 16 2.
Definition hbm2_size : SizeParams := MkSize 1 1 512.
Definition hbm2_map : Mapping := MkMapping 64 6 0 12 10 8 12 3 7 0 3 3 16383 31.

Definition hbm2 : Config :=
  MkConfig hbm2_sys hbm2_dram hbm2_size hbm2_map (InitTimingParams hbm2_reader hbm2_dram)
           (InitOtherParams hbm2_reader "." true).

Example hbm2_loads : new_Config hbm2_reader "." true = ok hbm2.
Proof. vm_compute. reflexivity. Qed.

Lemma hbm2_sizes : sizes_ok hbm2_sys hbm2_dram hbm2_size.
Proof. split; [repeat constructor; simpl; lia|reflexivity|discriminate]. Qed.

Definition with_mapping (str : string) (s : SystemParams) : SystemParams :=
  MkSystem (sys_channel_size s) (channels s) (bus_width s) str (queue_structure s) (row_buf_policy s) (cmd_queue_size s)
    (trans_queue_size s) (unified_queue s) (write_buf_size s) (refresh_policy s) (enable_self_refresh s) (sref_threshold s)
    (aggressive_precharging_enabled s).

(** The string of the file, and three that are refused. *)
Lemma SetAddressMapping_accepts_witness :
  (∃ m, SetAddressMapping hbm2_sys hbm2_dram hbm2_size = ok m ∧ mask_at m "ro" = 16383) ∧
  SetAddressMapping (with_mapping "rorabgbaco" hbm2_sys) hbm2_dram hbm2_size = err AbruptExit ∧
  SetAddressMapping (with_mapping "rorabgbacoxx" hbm2_sys) hbm2_dram hbm2_size = err AbruptExit ∧
  SetAddressMapping (with_mapping "rorabgbacoro" hbm2_sys) hbm2_dram hbm2_size = err StdOutOfRange.
Proof.
  assert (∀ str, sizes_ok (with_mapping str hbm2_sys) hbm2_dram hbm2_size) as Hsz.
  { intros str. split; [apply hbm2_sizes|reflexivity|discriminate]. }
  split_and!.
  - destruct (SetAddressMapping_accepts hbm2_sys hbm2_dram hbm2_size hbm2_sizes) as [(m & Hm & _ & Hmask) _].
    + apply (bool_decide_unpack _). vm_compute. exact I.
    + exists m. split; [exact Hm|]. rewrite Hmask by (apply (bool_decide_unpack _); vm_compute; exact I). reflexivity.
  - destruct (SetAddressMapping_accepts (with_mapping "rorabgbaco" hbm2_sys) hbm2_dram hbm2_size (Hsz _)) as (_ & Hl & _).
    apply Hl. intros E. vm_compute in E. discriminate E.
  - destruct (SetAddressMapping_accepts (with_mapping "rorabgbacoxx" hbm2_sys) hbm2_dram hbm2_size (Hsz _)) as (_ & _ & Hu & _).
    apply Hu; [reflexivity|]. exists "xx"%string. split; apply (bool_decide_unpack _); vm_compute; exact I.
  - destruct (SetAddressMapping_accepts (with_mapping "rorabgbacoro" hbm2_sys) hbm2_dram hbm2_size (Hsz _)) as (_ & _ & _ & Ht).
    apply Ht; [reflexivity| |].
    + apply Forall_forall. apply (bool_decide_unpack _). vm_compute. exact I.
    + apply (bool_decide_unpack _). vm_compute. exact I.
Defined.

Lemma AddressMapping_bijection_witness :
  AddressMapping hbm2_map (compose_addr hbm2_map (MkAddress 5 0 1 2 100 9)) =
    MkAddress 5 0 1 2 100 9.
Proof.
  apply (AddressMapping_bijection hbm2_sys hbm2_dram hbm2_size hbm2_map ltac:(vm_compute; reflexivity)).
  intros t Ht. unfold six in Ht.
  repeat (apply elem_of_cons in Ht as [->|Ht]; [vm_compute; split; [discriminate|reflexivity]|]).
  by apply elem_of_nil in Ht.
Defined.

(** The mapping of configs/HBM1_4Gb_x128.ini, on the addresses of
    tests/test_config.cc. *)
Definition hbm1_map : Mapping := MkMapping 64 6 5 12 10 8 12 0 7 0 3 3 16383 31.
Example hbm1_column : column (AddressMapping hbm1_map 1984) = 31.
Proof. reflexivity. Qed.
Example hbm1_channel : channel (AddressMapping hbm1_map 258047) = 5 ∧ channel (AddressMapping hbm1_map 16383) = 7.
Proof. split; reflexivity. Qed.
Example hbm1_bank : bank (AddressMapping hbm1_map 49151) = 2.
Proof. reflexivity. Qed.
