(* ===== verification/Timing.v ===== *)
(** * Command-to-command timing (DRAMsim3-master/src/timing.h, timing.cc)

    The five tables of [class Timing]: for a command just issued, the commands
    it delays and by how much, by the place of the delayed bank. A table is a
    function of the issued command's type; the vectors the constructor does not
    fill stay empty. *)

From stdpp Require Import numbers option list.
From Stdlib Require Import ZArith Lia.
From S2P Require Import Prelude DramCommon Config.

Definition delays : Type := list (CommandType * Z).

Section Timing.
Context (config : Config).

Definition read_to_read_l : Z :=
  if bankgroups config =? 1 then Z.max (burst_cycle config) (tCCD_S config)
  else Z.max (burst_cycle config) (tCCD_L config).
Definition read_to_read_s : Z := Z.max (burst_cycle config) (tCCD_S config).
Definition read_to_read_o : Z := burst_cycle config + tRTRS config.
Definition read_to_write : Z := RL config + burst_cycle config - WL config + tRTRS config.
Definition read_to_write_o : Z :=
  read_delay config + burst_cycle config + tRTRS config - write_delay config.
Definition read_to_precharge : Z := AL config + tRTP config.
Definition readp_to_act : Z := AL config + burst_cycle config + tRTP config + tRP config.
Definition write_to_read_l : Z :=
  if bankgroups config =? 1 then write_delay config + tWTR_S config
  else write_delay config + tWTR_L config.
Definition write_to_read_s : Z := write_delay config + tWTR_S config.
Definition write_to_read_o : Z :=
  write_delay config + burst_cycle config + tRTRS config - read_delay config.
Definition write_to_write_l : Z :=
  if bankgroups config =? 1 then Z.max (burst_cycle config) (tCCD_S config)
  else Z.max (burst_cycle config) (tCCD_L config).
Definition write_to_write_s : Z := Z.max (burst_cycle config) (tCCD_S config).
Definition write_to_write_o : Z := burst_cycle config.
Definition write_to_precharge : Z := WL config + burst_cycle config + tWR config.
Definition precharge_to_activate : Z := tRP config.
Definition precharge_to_precharge : Z := tPPD config.
Definition read_to_activate : Z := read_to_precharge + precharge_to_activate.
Definition write_to_activate : Z := write_to_precharge + precharge_to_activate.
Definition activate_to_activate : Z := tRC config.
Definition activate_to_activate_l : Z :=
  if bankgroups config =? 1 then tRRD_S config else tRRD_L config.
Definition activate_to_activate_s : Z := tRRD_S config.
Definition activate_to_precharge : Z := tRAS config.
Definition activate_to_read : Z :=
  if IsGDDR config || IsHBM config then tRCDRD config else tRCD config - AL config.
Definition activate_to_write : Z :=
  if IsGDDR config || IsHBM config then tRCDWR config else tRCD config - AL config.
Definition activate_to_refresh : Z := tRC config.
Definition refresh_to_refresh : Z := tREFI config.
Definition refresh_to_activate : Z := tRFC config.
Definition refresh_to_activate_bank : Z := tRFCb config.
Definition self_refresh_entry_to_exit : Z := tCKESR config.
Definition self_refresh_exit : Z := tXS config.

(** Whether the protocol needs [tPPD]. *)
Definition needs_tPPD : bool := IsGDDR config || bool_decide (protocol config = LPDDR4).

(** The delays on column commands: [r] for reads, [w] for writes. *)
Definition column_delays (r w : Z) : delays :=
  [(READ, r); (WRITE, w); (READ_PRECHARGE, r); (WRITE_PRECHARGE, w)].

(** [Timing::same_bank]. *)
Definition same_bank (ct : CommandType) : delays :=
  match ct with
  | READ => column_delays read_to_read_l read_to_write ++ [(PRECHARGE, read_to_precharge)]
  | WRITE => column_delays write_to_read_l write_to_write_l ++ [(PRECHARGE, write_to_precharge)]
  | READ_PRECHARGE =>
      [(ACTIVATE, readp_to_act); (REFRESH, read_to_activate); (REFRESH_BANK, read_to_activate);
       (SREF_ENTER, read_to_activate)]
  | WRITE_PRECHARGE =>
      [(ACTIVATE, write_to_activate); (REFRESH, write_to_activate);
       (REFRESH_BANK, write_to_activate); (SREF_ENTER, write_to_activate)]
  | ACTIVATE =>
      [(ACTIVATE, activate_to_activate); (READ, activate_to_read); (WRITE, activate_to_write);
       (READ_PRECHARGE, activate_to_read); (WRITE_PRECHARGE, activate_to_write);
       (PRECHARGE, activate_to_precharge)]
  | PRECHARGE =>
      [(ACTIVATE, precharge_to_activate); (REFRESH, precharge_to_activate);
       (REFRESH_BANK, precharge_to_activate); (SREF_ENTER, precharge_to_activate)]
  | _ => []
  end.

(** [Timing::other_banks_same_bankgroup]. *)
Definition other_banks_same_bankgroup (ct : CommandType) : delays :=
  match ct with
  | READ | READ_PRECHARGE => column_delays read_to_read_l read_to_write
  | WRITE | WRITE_PRECHARGE => column_delays write_to_read_l write_to_write_l
  | ACTIVATE => [(ACTIVATE, activate_to_activate_l); (REFRESH_BANK, activate_to_refresh)]
  | PRECHARGE => if needs_tPPD then [(PRECHARGE, precharge_to_precharge)] else []
  | REFRESH_BANK => [(ACTIVATE, refresh_to_activate); (REFRESH_BANK, refresh_to_refresh)]
  | _ => []
  end.

(** [Timing::other_bankgroups_same_rank]. *)
Definition other_bankgroups_same_rank (ct : CommandType) : delays :=
  match ct with
  | READ | READ_PRECHARGE => column_delays read_to_read_s read_to_write
  | WRITE | WRITE_PRECHARGE => column_delays write_to_read_s write_to_write_s
  | ACTIVATE => [(ACTIVATE, activate_to_activate_s); (REFRESH_BANK, activate_to_refresh)]
  | PRECHARGE => if needs_tPPD then [(PRECHARGE, precharge_to_precharge)] else []
  | REFRESH_BANK => [(ACTIVATE, refresh_to_activate); (REFRESH_BANK, refresh_to_refresh)]
  | _ => []
  end.

(** [Timing::other_ranks]. *)
Definition other_ranks (ct : CommandType) : delays :=
  match ct with
  | READ | READ_PRECHARGE => column_delays read_to_read_o read_to_write_o
  | WRITE | WRITE_PRECHARGE => column_delays write_to_read_o write_to_write_o
  | _ => []
  end.

(** [Timing::same_rank]. *)
Definition same_rank (ct : CommandType) : delays :=
  match ct with
  | REFRESH_BANK =>
      [(ACTIVATE, refresh_to_activate_bank); (REFRESH, refresh_to_activate_bank);
       (REFRESH_BANK, refresh_to_activate_bank); (SREF_ENTER, refresh_to_activate_bank)]
  | REFRESH =>
      [(ACTIVATE, refresh_to_activate); (REFRESH, refresh_to_activate);
       (SREF_ENTER, refresh_to_activate)]
  | SREF_ENTER => [(SREF_EXIT, self_refresh_entry_to_exit)]
  | SREF_EXIT =>
      [(ACTIVATE, self_refresh_exit); (REFRESH, self_refresh_exit);
       (REFRESH_BANK, self_refresh_exit); (SREF_ENTER, self_refresh_exit)]
  | _ => []
  end.

(** The delayed commands are real commands. *)
Definition delays_ok (l : delays) : Prop := Forall (fun p => p.1 ≠ CT_SIZE) l.

Lemma tables_ok ct :
  delays_ok (same_bank ct) ∧ delays_ok (other_banks_same_bankgroup ct) ∧
  delays_ok (other_bankgroups_same_rank ct) ∧ delays_ok (other_ranks ct) ∧
  delays_ok (same_rank ct).
Proof.
  unfold delays_ok. destruct ct; simpl; try (destruct needs_tPPD);
    split_and!; repeat constructor; done.
Qed.
End Timing.
