(* ===== verification/ChannelState.v ===== *)
(** * The state of a channel (DRAMsim3-master/src/channel_state.h, channel_state.cc)

    All banks of a channel, the pending refresh commands, the activation
    windows. The loops over bank groups and banks run over [bank_idx], in the
    order of the nested [for] loops. The theorems are about traces of issued
    commands: no trace violates a delay of the timing tables or the four- or
    thirty-two-activate window, and a command reported ready never aborts the
    update. *)

From stdpp Require Import sets numbers option list sorting.
From Stdlib Require Import ZArith Lia.
From S2P Require Import Prelude DramCommon BankState Config Timing.

(** [class ChannelState]. *)
Record ChannelState := MkChan {
  rank_idle_cycles : list Z;
  rank_is_sref_ : list bool;
  bank_states_ : list (list (list BankState));
  refresh_q_ : list Command;
  four_aw_ : list (list Z);
  thirty_two_aw_ : list (list Z)
}.

Definition with_banks (b : list (list (list BankState))) (s : ChannelState) : ChannelState :=
  MkChan (rank_idle_cycles s) (rank_is_sref_ s) b (refresh_q_ s) (four_aw_ s) (thirty_two_aw_ s).
Definition with_refresh_q (q : list Command) (s : ChannelState) : ChannelState :=
  MkChan (rank_idle_cycles s) (rank_is_sref_ s) (bank_states_ s) q (four_aw_ s) (thirty_two_aw_ s).
Definition with_sref (l : list bool) (s : ChannelState) : ChannelState :=
  MkChan (rank_idle_cycles s) l (bank_states_ s) (refresh_q_ s) (four_aw_ s) (thirty_two_aw_ s).
Definition with_aw (a4 a32 : list (list Z)) (s : ChannelState) : ChannelState :=
  MkChan (rank_idle_cycles s) (rank_is_sref_ s) (bank_states_ s) (refresh_q_ s) a4 a32.
Definition with_idle (l : list Z) (s : ChannelState) : ChannelState :=
  MkChan l (rank_is_sref_ s) (bank_states_ s) (refresh_q_ s) (four_aw_ s) (thirty_two_aw_ s).

(** A bank of the channel: rank, bank group, bank. *)
Definition bplace : Type := Z * Z * Z.

(** [bank_states_[i][j][k]]. *)
Definition bank_at (s : ChannelState) (p : bplace) : option BankState :=
  let '(i, j, k) := p in
  rs ← zget (bank_states_ s) i; bg ← zget rs j; zget bg k.

(** [bank_states_[i][j][k] = f(bank_states_[i][j][k])]. *)
Definition upd_bank (f : BankState -> exc BankState) (p : bplace) (s : ChannelState)
    : exc ChannelState :=
  let '(i, j, k) := p in
  rs ← vec_get (bank_states_ s) i;
  bg ← vec_get rs j;
  b ← vec_get bg k;
  b' ← f b;
  ok (with_banks (zset (bank_states_ s) i (zset rs j (zset bg k b'))) s).

Section Channel.
Context (config : Config).

(** The (bank group, bank) pairs of a rank, in the order of the loops
    [for j < bankgroups, for k < banks_per_group]. *)
Definition bank_idx : list (Z * Z) :=
  j ← zseq (bankgroups config); k ← zseq (banks_per_group config); [(j, k)].

(** [ChannelState::ChannelState(config, timing)]. *)
Definition new_channel : ChannelState :=
  let nr := Z.to_nat (ranks config) in
  MkChan (replicate nr 0) (replicate nr false)
    (replicate nr (replicate (Z.to_nat (bankgroups config))
       (replicate (Z.to_nat (banks_per_group config)) new_bank)))
    [] (replicate nr []) (replicate nr []).

Definition get_bank (s : ChannelState) (p : bplace) : exc BankState :=
  opt_exc (bank_at s p) UndefinedBehaviour.

Definition IsRowOpen (s : ChannelState) (p : bplace) : exc bool :=
  b ← get_bank s p; ok (b_IsRowOpen b).
Definition OpenRow (s : ChannelState) (p : bplace) : exc Z :=
  b ← get_bank s p; ok (open_row_ b).
Definition RowHitCount (s : ChannelState) (p : bplace) : exc Z :=
  b ← get_bank s p; ok (row_hit_count_ b).

(** [IsAllBankIdleInRank(rank)]. *)
Fixpoint all_idle (s : ChannelState) (r : Z) (l : list (Z * Z)) : exc bool :=
  match l with
  | [] => ok true
  | (j, k) :: l' => o ← IsRowOpen s (r, j, k); if (o : bool) then ok false else all_idle s r l'
  end.
Definition IsAllBankIdleInRank (s : ChannelState) (r : Z) : exc bool := all_idle s r bank_idx.

Definition IsRankSelfRefreshing (s : ChannelState) (r : Z) : exc bool := vec_get (rank_is_sref_ s) r.
Definition IsRefreshWaiting (s : ChannelState) : bool :=
  match refresh_q_ s with [] => false | _ => true end.
Definition PendingRefCommand (s : ChannelState) : exc Command :=
  opt_exc (head (refresh_q_ s)) UndefinedBehaviour.

(** The bank a command addresses. *)
Definition cplace (c : Command) : bplace := (Rank c, Bankgroup c, Bank c).

(** [IsRWPendingOnRef(cmd)]. *)
Definition IsRWPendingOnRef (s : ChannelState) (c : Command) : exc bool :=
  b ← get_bank s (cplace c);
  ok (b_IsRowOpen b && (row_hit_count_ b =? 0) && (open_row_ b =? Row c)).

(** [erase] of the first command that satisfies [P]. *)
Fixpoint erase_first (P : Command -> bool) (l : list Command) : list Command :=
  match l with
  | [] => []
  | c :: l' => if P c then l' else c :: erase_first P l'
  end.

(** [BankNeedRefresh(rank, bankgroup, bank, need)]. *)
Definition BankNeedRefresh (r bg ba : Z) (need : bool) (s : ChannelState) : ChannelState :=
  if need then
    with_refresh_q (refresh_q_ s ++
      [MkCommand REFRESH_BANK (MkAddress (-1) r bg ba (-1) (-1)) (u64 (-1))]) s
  else with_refresh_q (erase_first (fun c => (Rank c =? r) && (Bankgroup c =? bg) && (Bank c =? ba))
                         (refresh_q_ s)) s.

(** [RankNeedRefresh(rank, need)]. *)
Definition RankNeedRefresh (r : Z) (need : bool) (s : ChannelState) : ChannelState :=
  if need then
    with_refresh_q (refresh_q_ s ++
      [MkCommand REFRESH (MkAddress (-1) r (-1) (-1) (-1) (-1)) (u64 (-1))]) s
  else with_refresh_q (erase_first (fun c => Rank c =? r) (refresh_q_ s)) s.

(** [IsFAWReady] and [Is32AWReady] on the window of a rank. *)
Definition window_ready (size : nat) (aw : list Z) (t : Z) : bool :=
  match aw with
  | [] => true
  | a :: _ => negb ((t <? a) && (size <=? length aw)%nat)
  end.

(** [ActivationWindowOk(rank, curr_time)]. *)
Definition ActivationWindowOk (s : ChannelState) (r t : Z) : exc bool :=
  a4 ← vec_get (four_aw_ s) r;
  if IsGDDR config then
    if window_ready 4 a4 t then a32 ← vec_get (thirty_two_aw_ s) r; ok (window_ready 32 a32 t)
    else ok false
  else ok (window_ready 4 a4 t).

(** One window after an activation at [t]: an expired first entry goes. *)
Definition window_push (aw : list Z) (t d : Z) : list Z :=
  match aw with
  | [] => []
  | a :: aw' => if a <=? t then aw' else aw
  end ++ [u64 (t + d)].

(** [UpdateActivationTimes(rank, curr_time)]. *)
Definition UpdateActivationTimes (r t : Z) (s : ChannelState) : exc ChannelState :=
  a4 ← vec_get (four_aw_ s) r;
  let f := zset (four_aw_ s) r (window_push a4 t (tFAW config)) in
  if IsGDDR config then
    a32 ← vec_get (thirty_two_aw_ s) r;
    ok (with_aw f (zset (thirty_two_aw_ s) r (window_push a32 t (t32AW config))) s)
  else ok (with_aw f (thirty_two_aw_ s) s).

(** The loop of [GetReadyCommand] for a rank command: a bank that needs another
    command first ends it. *)
Fixpoint rank_ready (s : ChannelState) (c : Command) (clk : Z) (l : list (Z * Z))
    (ready : Command) (num : Z) : exc (Command + Command * Z) :=
  match l with
  | [] => ok (inr (ready, num))
  | (j, k) :: l' =>
      b ← get_bank s (Rank c, j, k);
      rc ← b_GetReadyCommand b c clk;
      if IsValid rc then
        if decide (cmd_type rc ≠ cmd_type c) then
          ok (inl (MkCommand (cmd_type rc) (MkAddress (-1) (Rank c) j k (-1) (-1)) (hex_addr rc)))
        else rank_ready s c clk l' rc (num + 1)
      else rank_ready s c clk l' rc num
  end.

(** [ChannelState::GetReadyCommand(cmd, clk)]. *)
Definition GetReadyCommand (s : ChannelState) (c : Command) (clk : Z) : exc Command :=
  if IsRankCMD c then
    r ← rank_ready s c clk bank_idx Command_default 0;
    match r with
    | inl rc => ok rc
    | inr (rc, num) => if num =? banks config then ok rc else ok Command_default
    end
  else
    b ← get_bank s (cplace c);
    rc ← b_GetReadyCommand b c clk;
    if IsValid rc then
      if decide (cmd_type rc = ACTIVATE) then
        w ← ActivationWindowOk s (Rank rc) clk;
        if (w : bool) then ok rc else ok Command_default
      else ok rc
    else ok Command_default.

(** [ChannelState::UpdateState(cmd)]. *)
Definition UpdateState (c : Command) (s : ChannelState) : exc ChannelState :=
  if IsRankCMD c then
    s' ← foldE (fun '(j, k) => upd_bank (fun b => b_UpdateState b c) (Rank c, j, k)) bank_idx s;
    if IsRefresh c then ok (RankNeedRefresh (Rank c) false s')
    else if decide (cmd_type c = SREF_ENTER) then
      _ ← vec_get (rank_is_sref_ s') (Rank c);
      ok (with_sref (zset (rank_is_sref_ s') (Rank c) true) s')
    else if decide (cmd_type c = SREF_EXIT) then
      _ ← vec_get (rank_is_sref_ s') (Rank c);
      ok (with_sref (zset (rank_is_sref_ s') (Rank c) false) s')
    else ok s'
  else
    s' ← upd_bank (fun b => b_UpdateState b c) (cplace c) s;
    if IsRefresh c then ok (BankNeedRefresh (Rank c) (Bankgroup c) (Bank c) false s')
    else ok s'.

(** The innermost loop of the [Update*Timing] functions: the delays of a list,
    applied to one bank. [clk + cmd_timing.second] is computed in [uint64_t]. *)
Definition apply_delays (l : delays) (clk : Z) (b : BankState) : exc BankState :=
  foldE (fun '(ct, d) b => b_UpdateTiming b ct (u64 (clk + d))) l b.

(** [UpdateSameBankTiming]. *)
Definition UpdateSameBankTiming (a : Address) (l : delays) (clk : Z) : ChannelState -> exc ChannelState :=
  upd_bank (apply_delays l clk) (rank a, bankgroup a, bank a).

(** [UpdateOtherBanksSameBankgroupTiming]. *)
Definition UpdateOtherBanksSameBankgroupTiming (a : Address) (l : delays) (clk : Z)
    : ChannelState -> exc ChannelState :=
  foldE (fun k s => if k =? bank a then ok s
                    else upd_bank (apply_delays l clk) (rank a, bankgroup a, k) s)
        (zseq (banks_per_group config)).

(** [UpdateOtherBankgroupsSameRankTiming]. *)
Definition UpdateOtherBankgroupsSameRankTiming (a : Address) (l : delays) (clk : Z)
    : ChannelState -> exc ChannelState :=
  foldE (fun '(j, k) s => if j =? bankgroup a then ok s
                          else upd_bank (apply_delays l clk) (rank a, j, k) s)
        bank_idx.

(** [UpdateOtherRanksTiming]. *)
Definition UpdateOtherRanksTiming (a : Address) (l : delays) (clk : Z)
    : ChannelState -> exc ChannelState :=
  foldE (fun i s => if i =? rank a then ok s
                    else foldE (fun '(j, k) => upd_bank (apply_delays l clk) (i, j, k)) bank_idx s)
        (zseq (ranks config)).

(** [UpdateSameRankTiming]. *)
Definition UpdateSameRankTiming (a : Address) (l : delays) (clk : Z)
    : ChannelState -> exc ChannelState :=
  foldE (fun '(j, k) => upd_bank (apply_delays l clk) (rank a, j, k)) bank_idx.

(** [ChannelState::UpdateTiming(cmd, clk)]; ACTIVATE falls through to the other
    bank commands. *)
Definition UpdateTiming (c : Command) (clk : Z) (s : ChannelState) : exc ChannelState :=
  let ct := cmd_type c in
  let bank_command s :=
    s ← UpdateSameBankTiming (addr c) (same_bank config ct) clk s;
    s ← UpdateOtherBanksSameBankgroupTiming (addr c) (other_banks_same_bankgroup config ct) clk s;
    s ← UpdateOtherBankgroupsSameRankTiming (addr c) (other_bankgroups_same_rank config ct) clk s;
    UpdateOtherRanksTiming (addr c) (other_ranks config ct) clk s in
  match ct with
  | ACTIVATE => s ← UpdateActivationTimes (Rank c) clk s; bank_command s
  | READ | READ_PRECHARGE | WRITE | WRITE_PRECHARGE | PRECHARGE | REFRESH_BANK => bank_command s
  | REFRESH | SREF_ENTER | SREF_EXIT => UpdateSameRankTiming (addr c) (same_rank config ct) clk s
  | CT_SIZE => err AbruptExit
  end.

(** [ChannelState::UpdateTimingAndStates(cmd, clk)]. *)
Definition UpdateTimingAndStates (c : Command) (clk : Z) (s : ChannelState) : exc ChannelState :=
  s' ← UpdateState c s; UpdateTiming c clk s'.
End Channel.

(** ** Updates of single banks and loops of them *)

Section Banks.
Implicit Types (s : ChannelState) (p q : bplace) (f : BankState -> exc BankState).

(** [s'] differs from [s] in the banks only. *)
Definition banks_only s s' : Prop := s' = with_banks (bank_states_ s') s.

Lemma banks_only_refl s : banks_only s s.
Proof. unfold banks_only. by destruct s. Qed.
Lemma banks_only_trans s1 s2 s3 : banks_only s1 s2 → banks_only s2 s3 → banks_only s1 s3.
Proof. unfold banks_only. intros -> ->. done. Qed.
Hint Resolve banks_only_refl : sim.

Lemma upd_bank_ok f p s b b' :
  bank_at s p = Some b → f b = ok b' →
  ∃ s', upd_bank f p s = ok s' ∧ bank_at s' p = Some b' ∧
    (∀ q, q ≠ p → bank_at s' q = bank_at s q) ∧ banks_only s s'.
Proof.
  destruct p as [[i j] k]. simpl. intros Hb Hf.
  apply bind_Some in Hb as (rs & Hrs & Hb). apply bind_Some in Hb as (bg & Hbg & Hb).
  unfold upd_bank, vec_get. rewrite Hrs. simpl. rewrite Hbg. simpl. rewrite Hb. simpl. rewrite Hf.
  simpl. eexists. split; [done|]. simpl.
  pose proof (zget_lt _ _ _ Hrs). pose proof (zget_lt _ _ _ Hbg). pose proof (zget_lt _ _ _ Hb).
  split_and!; [|intros [[i' j'] k'] Hne|done].
  - rewrite zget_zset_eq by done. simpl. rewrite zget_zset_eq by done. simpl. by rewrite zget_zset_eq.
  - simpl. destruct (decide (i' = i)) as [->|]; [|by rewrite zget_zset_ne].
    rewrite zget_zset_eq, Hrs by done. simpl.
    destruct (decide (j' = j)) as [->|]; [|by rewrite zget_zset_ne].
    rewrite zget_zset_eq, Hbg by done. simpl. rewrite zget_zset_ne; [done|]. congruence.
Qed.

(** A loop over distinct banks applies [f] to each of them, and to no other. *)
Lemma upd_banks_ok f ps s :
  NoDup ps → (∀ p, p ∈ ps → ∃ b b', bank_at s p = Some b ∧ f b = ok b') →
  ∃ s', foldE (upd_bank f) ps s = ok s' ∧ banks_only s s' ∧
    (∀ p, p ∈ ps → ∃ b b', bank_at s p = Some b ∧ f b = ok b' ∧ bank_at s' p = Some b') ∧
    (∀ q, q ∉ ps → bank_at s' q = bank_at s q).
Proof.
  revert s. induction ps as [|p ps IH]; intros s Hnd Hps.
  { exists s. split_and!; [done|apply banks_only_refl|set_solver|done]. }
  apply NoDup_cons in Hnd as [Hni Hnd].
  destruct (Hps p) as (b & b' & Hb & Hf); [left|].
  destruct (upd_bank_ok f p s b b' Hb Hf) as (s1 & Hs1 & Hp & Hq & Hbo).
  destruct (IH s1 Hnd) as (s2 & Hs2 & Hbo2 & Hin & Hout).
  { intros p' Hp'. rewrite Hq by set_solver. apply Hps. by right. }
  exists s2. simpl. rewrite Hs1. simpl. split_and!; [done|by eapply banks_only_trans| |].
  - intros p' [->|Hp']%elem_of_cons.
    + rewrite Hout by done. eauto.
    + destruct (Hin p' Hp') as (c & c' & Hc & ? & ?). rewrite Hq in Hc by set_solver. eauto.
  - intros q Hqn. rewrite Hout, Hq by set_solver. done.
Qed.

(** *** Delays *)

Lemma apply_delays_ok l clk b :
  bank_wf b → delays_ok l →
  ∃ b', apply_delays l clk b = ok b' ∧ bank_wf b' ∧
    (∀ ct, ct ≠ CT_SIZE → deadline b ct ≤ deadline b' ct) ∧
    (∀ ct d, (ct, d) ∈ l → u64 (clk + d) ≤ deadline b' ct) ∧
    state_ b' = state_ b ∧ open_row_ b' = open_row_ b ∧ row_hit_count_ b' = row_hit_count_ b.
Proof.
  revert b. induction l as [|[ct d] l IH]; intros b Hw Hl.
  { exists b. split_and!; try done. intros ? ? []%elem_of_nil. }
  apply Forall_cons in Hl as [Hct Hl]. simpl in Hct.
  destruct (b_UpdateTiming_wf b ct (u64 (clk + d)) Hw Hct) as (b1 & Hb1 & Hw1 & Hd & Ho & ? & ? & ?).
  destruct (IH b1 Hw1 Hl) as (b2 & Hb2 & Hw2 & Hge & Hin & ? & ? & ?).
  exists b2. unfold apply_delays in *. cbn [foldE]. rewrite Hb1. cbn [mbind exc_bind].
  split_and!; [done|done| | |congruence..].
  - intros ct' Hct'. etrans; [|by apply Hge]. destruct (decide (ct' = ct)) as [->|Hne]; [lia|].
    by rewrite Ho.
  - intros ct' d' [[= -> ->]|Hd']%elem_of_cons; [|by apply Hin].
    etrans; [|by apply Hge]. lia.
Qed.
End Banks.

Section Lemmas.
Context (config : Config).
Implicit Types (s : ChannelState) (p q : bplace) (c : Command).

Definition in_range p : Prop :=
  0 ≤ p.1.1 < ranks config ∧ 0 ≤ p.1.2 < bankgroups config ∧ 0 ≤ p.2 < banks_per_group config.

(** A channel has the shape of its configuration, and its banks are well formed. *)
Record chan_wf s : Prop := {
  cw_shape p : in_range p ↔ is_Some (bank_at s p);
  cw_banks p b : bank_at s p = Some b → bank_wf b;
  cw_sref : length (rank_is_sref_ s) = Z.to_nat (ranks config);
  cw_aw4 : length (four_aw_ s) = Z.to_nat (ranks config);
  cw_aw32 : length (thirty_two_aw_ s) = Z.to_nat (ranks config)
}.

(** The delays a command puts on the bank [p]. *)
Definition delays_for c p : delays :=
  let ct := cmd_type c in
  let '(i, j, k) := p in
  if IsRankCMD c then (if i =? Rank c then same_rank config ct else [])
  else if negb (i =? Rank c) then other_ranks config ct
  else if negb (j =? Bankgroup c) then other_bankgroups_same_rank config ct
  else if negb (k =? Bank c) then other_banks_same_bankgroup config ct
  else same_bank config ct.

Lemma delays_for_ok c p : delays_ok (delays_for c p).
Proof.
  destruct p as [[i j] k]. unfold delays_for.
  pose proof (tables_ok config (cmd_type c)) as (? & ? & ? & ? & ?).
  repeat case_match; try done; constructor.
Qed.

Lemma zseq_NoDup n : NoDup (zseq n).
Proof. unfold zseq. apply NoDup_fmap_2; [apply _|apply NoDup_seq]. Qed.

Lemma elem_of_bank_idx j k :
  (j, k) ∈ bank_idx config ↔ 0 ≤ j < bankgroups config ∧ 0 ≤ k < banks_per_group config.
Proof.
  unfold bank_idx. rewrite list_elem_of_bind. split.
  - intros (j' & H1 & Hj). apply list_elem_of_bind in H1 as (k' & H1 & Hk).
    apply list_elem_of_singleton in H1 as [= -> ->]. by rewrite elem_of_zseq in Hj, Hk.
  - intros [Hj Hk]. exists j. split; [|by apply elem_of_zseq]. apply list_elem_of_bind. exists k.
    split; [by apply list_elem_of_singleton|by apply elem_of_zseq].
Qed.

Lemma bank_idx_NoDup : NoDup (bank_idx config).
Proof.
  unfold bank_idx. apply NoDup_bind.
  - intros j1 j2 [j k] _ _ H1 H2.
    apply list_elem_of_bind in H1 as (? & H1 & _). apply list_elem_of_bind in H2 as (? & H2 & _).
    apply list_elem_of_singleton in H1, H2. congruence.
  - intros j _. apply NoDup_bind.
    + intros k1 k2 x _ _ H1 H2. apply list_elem_of_singleton in H1, H2. congruence.
    + intros. apply NoDup_singleton.
    + apply zseq_NoDup.
  - apply zseq_NoDup.
Qed.

Lemma length_bank_idx :
  0 ≤ bankgroups config → 0 ≤ banks_per_group config →
  Z.of_nat (length (bank_idx config)) = bankgroups config * banks_per_group config.
Proof.
  intros Hb Hk. unfold bank_idx. rewrite <- (Z2Nat.id (bankgroups config)) at 2 by done.
  rewrite <- (length_zseq (bankgroups config)).
  induction (zseq (bankgroups config)) as [|j l IH]; [done|].
  rewrite bind_cons, length_app, Nat2Z.inj_add, IH. simpl length.
  assert (∀ m, length (m ≫= (λ k, [(j, k)])) = length m) as ->.
  { clear. induction m as [|x m IH]; [done|]. rewrite bind_cons. simpl. by rewrite IH. }
  rewrite length_zseq. lia.
Qed.

(** *** The effect of a command on every deadline *)

(** [s'] is [s] with the delays [L p] applied to every bank [p]. *)
Record delayed (L : bplace -> delays) (clk : Z) s s' : Prop := {
  dl_only : banks_only s s';
  dl_some p b : bank_at s p = Some b → ∃ b', apply_delays (L p) clk b = ok b' ∧ bank_at s' p = Some b';
  dl_none p : bank_at s p = None → bank_at s' p = None
}.

Lemma delayed_app L1 L2 clk s1 s2 s3 :
  delayed L1 clk s1 s2 → delayed L2 clk s2 s3 → delayed (fun p => L1 p ++ L2 p) clk s1 s3.
Proof.
  intros [Ho1 Hs1 Hn1] [Ho2 Hs2 Hn2]. split.
  - by eapply banks_only_trans.
  - intros p b Hb. destruct (Hs1 p b Hb) as (b1 & Ha1 & Hb1). destruct (Hs2 p b1 Hb1) as (b2 & Ha2 & Hb2).
    exists b2. split; [|done]. unfold apply_delays in *. by rewrite foldE_app, Ha1.
  - auto.
Qed.

Lemma delayed_wf L clk s s' :
  chan_wf s → (∀ p, delays_ok (L p)) → delayed L clk s s' → chan_wf s'.
Proof.
  intros [Hsh Hb Hsr H4 H32] HL [Ho Hs Hn]. unfold banks_only in Ho. split.
  - intros p. rewrite Hsh. split; intros [b Hp].
    + destruct (Hs p b Hp) as (b' & _ & ?). by exists b'.
    + destruct (bank_at s p) eqn:Hq; [by eexists|]. apply Hn in Hq. congruence.
  - intros p b' Hp. destruct (bank_at s p) as [b|] eqn:Hq; [|apply Hn in Hq; congruence].
    destruct (Hs p b Hq) as (b1 & Ha & Hb1). destruct (apply_delays_ok (L p) clk b) as (b2 & Ha2 & ? & _);
      [by eapply Hb|done|]. congruence.
  - by rewrite Ho.
  - by rewrite Ho.
  - by rewrite Ho.
Qed.

(** The delays [l] on the banks of [ps]. *)
Definition on_places (ps : list bplace) (l : delays) p : delays := if decide (p ∈ ps) then l else [].

Lemma on_places_ok ps l p : delays_ok l → delays_ok (on_places ps l p).
Proof. intros. unfold on_places. case_decide; [done|constructor]. Qed.

Lemma on_places_in ps l p : p ∈ ps → on_places ps l p = l.
Proof. intros. unfold on_places. by rewrite decide_True. Qed.
Lemma on_places_out ps l p : p ∉ ps → on_places ps l p = [].
Proof. intros. unfold on_places. by rewrite decide_False. Qed.

Lemma pass_ok l clk ps s :
  chan_wf s → NoDup ps → (∀ p, p ∈ ps → in_range p) → delays_ok l →
  ∃ s', foldE (upd_bank (apply_delays l clk)) ps s = ok s' ∧
    delayed (on_places ps l) clk s s'.
Proof.
  intros Hw Hnd Hps Hl.
  destruct (upd_banks_ok (apply_delays l clk) ps s Hnd) as (s' & Hs' & Hbo & Hin & Hout).
  { intros p Hp. destruct (proj1 (cw_shape _ Hw p) (Hps p Hp)) as [b Hb].
    destruct (apply_delays_ok l clk b) as (b' & ? & _); [by eapply cw_banks|done|]. eauto. }
  exists s'. split; [done|]. split; [done| |].
  - intros p b Hb. unfold on_places. destruct (decide (p ∈ ps)) as [Hp|Hp].
    + destruct (Hin p Hp) as (c & c' & Hc & Ha & ?). assert (c = b) as -> by congruence. eauto.
    + exists b. split; [done|]. by rewrite Hout.
  - intros p Hn. destruct (decide (p ∈ ps)) as [Hp|Hp]; [|by rewrite Hout].
    destruct (Hin p Hp) as (c & ? & ? & _). congruence.
Qed.

Definition rank_places (i : Z) : list bplace := (fun jk => (i, jk.1, jk.2)) <$> bank_idx config.
Definition ob_places (a : Address) : list bplace :=
  (fun k => (rank a, bankgroup a, k)) <$>
    filter (fun k => (k =? bank a) = false) (zseq (banks_per_group config)).
Definition og_places (a : Address) : list bplace :=
  (fun jk => (rank a, jk.1, jk.2)) <$>
    filter (fun jk => (jk.1 =? bankgroup a) = false) (bank_idx config).
Definition or_places (a : Address) : list bplace :=
  concat (rank_places <$> filter (fun i => (i =? rank a) = false) (zseq (ranks config))).

Lemma elem_of_rank_places i p :
  p ∈ rank_places i ↔ p.1.1 = i ∧ 0 ≤ p.1.2 < bankgroups config ∧ 0 ≤ p.2 < banks_per_group config.
Proof.
  unfold rank_places. rewrite list_elem_of_fmap. destruct p as [[i' j] k]. simpl. split.
  - intros ([j' k'] & [= -> -> ->] & Hin). apply elem_of_bank_idx in Hin. naive_solver.
  - intros (-> & Hj & Hk). exists (j, k). split; [done|]. by apply elem_of_bank_idx.
Qed.

Lemma elem_of_ob_places a p :
  p ∈ ob_places a ↔ p.1 = (rank a, bankgroup a) ∧ p.2 ≠ bank a ∧ 0 ≤ p.2 < banks_per_group config.
Proof.
  unfold ob_places. rewrite list_elem_of_fmap. destruct p as [ij k]. simpl. split.
  - intros (k' & [= -> ->] & [Hk Hin]%list_elem_of_filter). apply elem_of_zseq in Hin.
    apply Z.eqb_neq in Hk. done.
  - intros (-> & Hne & Hk). exists k. split; [done|]. apply list_elem_of_filter.
    split; [by apply Z.eqb_neq|by apply elem_of_zseq].
Qed.

Lemma elem_of_og_places a p :
  p ∈ og_places a ↔ p.1.1 = rank a ∧ p.1.2 ≠ bankgroup a ∧
    0 ≤ p.1.2 < bankgroups config ∧ 0 ≤ p.2 < banks_per_group config.
Proof.
  unfold og_places. rewrite list_elem_of_fmap. destruct p as [[i j] k]. simpl. split.
  - intros ([j' k'] & [= -> -> ->] & [Hj Hin]%list_elem_of_filter). apply elem_of_bank_idx in Hin.
    apply Z.eqb_neq in Hj. simpl in Hj. naive_solver.
  - intros (-> & Hne & Hj & Hk). exists (j, k). split; [done|]. apply list_elem_of_filter.
    split; [by apply Z.eqb_neq|by apply elem_of_bank_idx].
Qed.

Lemma elem_of_or_places a p :
  p ∈ or_places a ↔ p.1.1 ≠ rank a ∧ in_range p.
Proof.
  unfold or_places. rewrite list_elem_of_In, in_concat. setoid_rewrite <- list_elem_of_In.
  unfold in_range. split.
  - intros (l & Hl & Hp). apply list_elem_of_fmap in Hl as (i & -> & [Hi Hr]%list_elem_of_filter).
    apply elem_of_rank_places in Hp as (<- & ? & ?). apply elem_of_zseq in Hr.
    by apply Z.eqb_neq in Hi.
  - intros (Hne & Hi & Hj & Hk). exists (rank_places p.1.1). split.
    + apply list_elem_of_fmap. eexists. split; [done|]. apply list_elem_of_filter.
      split; [by apply Z.eqb_neq|by apply elem_of_zseq].
    + by apply elem_of_rank_places.
Qed.

Lemma places_NoDup a i : NoDup (rank_places i) ∧ NoDup (ob_places a) ∧ NoDup (og_places a) ∧ NoDup (or_places a).
Proof.
  assert (∀ i, NoDup (rank_places i)) as Hr.
  { intros i'. apply NoDup_fmap_2; [|apply bank_idx_NoDup]. intros [] [] [= -> ->]. done. }
  split_and!; [done| | |].
  - apply NoDup_fmap_2; [by intros ?? [= ->]|]. apply NoDup_filter, zseq_NoDup.
  - apply NoDup_fmap_2; [intros [] [] [= -> ->]; done|]. apply NoDup_filter, bank_idx_NoDup.
  - unfold or_places. assert (NoDup (filter (fun i => (i =? rank a) = false) (zseq (ranks config)))) as Hf
      by apply NoDup_filter, zseq_NoDup.
    induction Hf as [|x l Hx Hl IH]; [constructor|]. simpl. apply NoDup_app. split_and!; [done| |done].
    intros p Hp Hin. apply elem_of_rank_places in Hp as [Hp _].
    apply list_elem_of_In, in_concat in Hin as (l' & Hl' & Hp'). apply list_elem_of_In in Hl', Hp'.
    apply list_elem_of_fmap in Hl' as (y & -> & Hy). apply elem_of_rank_places in Hp' as [Hp' _]. congruence.
Qed.

(** The four passes of a bank command, as loops over lists of banks. *)
Lemma passes_unfold a l clk s :
  UpdateOtherBanksSameBankgroupTiming config a l clk s =
    foldE (upd_bank (apply_delays l clk)) (ob_places a) s ∧
  UpdateOtherBankgroupsSameRankTiming config a l clk s =
    foldE (upd_bank (apply_delays l clk)) (og_places a) s ∧
  UpdateOtherRanksTiming config a l clk s =
    foldE (upd_bank (apply_delays l clk)) (or_places a) s ∧
  UpdateSameRankTiming config a l clk s =
    foldE (upd_bank (apply_delays l clk)) (rank_places (rank a)) s.
Proof.
  assert (∀ i s, foldE (fun '(j, k) => upd_bank (apply_delays l clk) (i, j, k)) (bank_idx config) s =
    foldE (upd_bank (apply_delays l clk)) (rank_places i) s) as Hr.
  { intros i s0. unfold rank_places. rewrite <- foldE_fmap. by apply foldE_ext; intros [] ?. }
  split_and!.
  - unfold UpdateOtherBanksSameBankgroupTiming, ob_places.
    rewrite <- foldE_fmap, <- (foldE_skip (fun k => k =? bank a)). done.
  - unfold UpdateOtherBankgroupsSameRankTiming, og_places.
    rewrite <- foldE_fmap, <- (foldE_skip (fun jk => jk.1 =? bankgroup a)).
    by apply foldE_ext; intros [] ?.
  - unfold UpdateOtherRanksTiming, or_places.
    rewrite <- foldE_concat, <- (foldE_skip (fun i => i =? rank a)).
    apply foldE_ext. intros i s0 _. destruct (i =? rank a); [done|]. apply Hr.
  - apply Hr.
Qed.

(** The place of a command is a bank of the channel; a rank command only names
    a rank. *)
Definition cmd_ok c : Prop :=
  if IsRankCMD c then 0 ≤ Rank c < ranks config else in_range (cplace c).

(** The four kinds of banks relative to a bank command partition the channel. *)
Lemma passes_cover c p :
  IsRankCMD c = false → in_range p → let ct := cmd_type c in
  on_places [cplace c] (same_bank config ct) p ++
  on_places (ob_places (addr c)) (other_banks_same_bankgroup config ct) p ++
  on_places (og_places (addr c)) (other_bankgroups_same_rank config ct) p ++
  on_places (or_places (addr c)) (other_ranks config ct) p = delays_for c p.
Proof.
  intros Hr Hp ct. pose proof Hp as (Hi & Hj & Hk). destruct p as [[i j] k]. simpl in *. rewrite Hr.
  assert ((i, j, k) ∈ or_places (addr c) ↔ i ≠ Rank c) as E4 by (rewrite elem_of_or_places; naive_solver).
  assert ((i, j, k) ∈ og_places (addr c) ↔ i = Rank c ∧ j ≠ Bankgroup c) as E3
    by (rewrite elem_of_og_places; naive_solver).
  assert ((i, j, k) ∈ ob_places (addr c) ↔ i = Rank c ∧ j = Bankgroup c ∧ k ≠ Bank c) as E2
    by (rewrite elem_of_ob_places; naive_solver).
  assert ((i, j, k) ∈ [cplace c] ↔ i = Rank c ∧ j = Bankgroup c ∧ k = Bank c) as E1
    by (rewrite list_elem_of_singleton; unfold cplace; naive_solver).
  destruct (Z.eqb_spec i (Rank c)) as [Ei|Ei]; simpl.
  - rewrite (on_places_out (or_places _)) by (rewrite E4; naive_solver).
    destruct (Z.eqb_spec j (Bankgroup c)) as [Ej|Ej]; simpl.
    + rewrite (on_places_out (og_places _)) by (rewrite E3; naive_solver).
      destruct (Z.eqb_spec k (Bank c)) as [Ek|Ek]; simpl.
      * rewrite (on_places_out (ob_places _)) by (rewrite E2; naive_solver).
        rewrite on_places_in by (by rewrite E1). by rewrite app_nil_r.
      * rewrite (on_places_out [_]) by (rewrite E1; naive_solver).
        rewrite on_places_in by (by rewrite E2). by rewrite app_nil_r.
    + rewrite (on_places_out [_]), (on_places_out (ob_places _)) by (rewrite ?E1, ?E2; naive_solver).
      rewrite on_places_in by (by rewrite E3). by rewrite app_nil_r.
  - rewrite (on_places_out [_]), (on_places_out (ob_places _)), (on_places_out (og_places _))
      by (rewrite ?E1, ?E2, ?E3; naive_solver).
    by rewrite on_places_in by (by rewrite E4).
Qed.

Lemma bank_passes_run c clk s1 s2 s3 s4 s5 :
  let ct := cmd_type c in
  foldE (upd_bank (apply_delays (same_bank config ct) clk)) [cplace c] s1 = ok s2 →
  foldE (upd_bank (apply_delays (other_banks_same_bankgroup config ct) clk)) (ob_places (addr c)) s2 = ok s3 →
  foldE (upd_bank (apply_delays (other_bankgroups_same_rank config ct) clk)) (og_places (addr c)) s3 = ok s4 →
  foldE (upd_bank (apply_delays (other_ranks config ct) clk)) (or_places (addr c)) s4 = ok s5 →
  (s ← UpdateSameBankTiming (addr c) (same_bank config ct) clk s1;
   s ← UpdateOtherBanksSameBankgroupTiming config (addr c) (other_banks_same_bankgroup config ct) clk s;
   s ← UpdateOtherBankgroupsSameRankTiming config (addr c) (other_bankgroups_same_rank config ct) clk s;
   UpdateOtherRanksTiming config (addr c) (other_ranks config ct) clk s) = ok s5.
Proof.
  intros ct E1 E2 E3 E4. cbn [foldE] in E1. apply exc_bind_ok in E1 as (? & E1 & [= ->]).
  unfold UpdateSameBankTiming. change (rank (addr c), bankgroup (addr c), bank (addr c)) with (cplace c).
  rewrite E1. cbn [mbind exc_bind].
  destruct (passes_unfold (addr c) (other_banks_same_bankgroup config ct) clk s2) as (-> & _).
  rewrite E2. cbn [mbind exc_bind].
  destruct (passes_unfold (addr c) (other_bankgroups_same_rank config ct) clk s3) as (_ & -> & _).
  rewrite E3. cbn [mbind exc_bind].
  by destruct (passes_unfold (addr c) (other_ranks config ct) clk s4) as (_ & _ & -> & _).
Qed.

Lemma delayed_ext L L' clk s s' :
  chan_wf s → (∀ p, in_range p → L p = L' p) → delayed L clk s s' → delayed L' clk s s'.
Proof.
  intros Hw He [Ho Hs Hn]. split; [done| |done]. intros p b Hb.
  rewrite <- He; [by apply Hs|]. apply (cw_shape _ Hw). by eexists.
Qed.

(** The deadline part of [UpdateTiming] for a bank command. *)
Lemma bank_passes c clk s :
  chan_wf s → cmd_ok c → IsRankCMD c = false →
  let ct := cmd_type c in
  ∃ s', (s ← UpdateSameBankTiming (addr c) (same_bank config ct) clk s;
         s ← UpdateOtherBanksSameBankgroupTiming config (addr c) (other_banks_same_bankgroup config ct) clk s;
         s ← UpdateOtherBankgroupsSameRankTiming config (addr c) (other_bankgroups_same_rank config ct) clk s;
         UpdateOtherRanksTiming config (addr c) (other_ranks config ct) clk s) = ok s' ∧
    delayed (delays_for c) clk s s'.
Proof.
  intros Hw Hc Hr ct. unfold cmd_ok in Hc. rewrite Hr in Hc.
  pose proof (tables_ok config ct) as (T1 & T2 & T3 & T4 & _).
  pose proof (places_NoDup (addr c) 0) as (_ & N2 & N3 & N4).
  pose proof Hc as (Hci & Hcj & Hck). simpl in Hci, Hcj, Hck.
  destruct (pass_ok (same_bank config ct) clk [cplace c] s Hw) as (s1 & E1 & D1);
    [apply NoDup_singleton|by intros p ->%list_elem_of_singleton|done|].
  pose proof (delayed_wf _ _ _ _ Hw (fun p => on_places_ok _ _ p T1) D1) as Hw1.
  destruct (pass_ok (other_banks_same_bankgroup config ct) clk (ob_places (addr c)) s1 Hw1) as (s2 & E2 & D2);
    [done| |done|].
  { intros [[i j] k] ([= -> ->] & _ & ?)%elem_of_ob_places. done. }
  pose proof (delayed_wf _ _ _ _ Hw1 (fun p => on_places_ok _ _ p T2) D2) as Hw2.
  destruct (pass_ok (other_bankgroups_same_rank config ct) clk (og_places (addr c)) s2 Hw2) as (s3 & E3 & D3);
    [done| |done|].
  { intros [[i j] k] (Hi & _ & ? & ?)%elem_of_og_places. simpl in Hi. subst i. done. }
  pose proof (delayed_wf _ _ _ _ Hw2 (fun p => on_places_ok _ _ p T3) D3) as Hw3.
  destruct (pass_ok (other_ranks config ct) clk (or_places (addr c)) s3 Hw3) as (s4 & E4 & D4);
    [done|by intros p [_ ?]%elem_of_or_places|done|].
  exists s4. split; [by eapply bank_passes_run|].
  eapply delayed_ext; [done| |
    exact (delayed_app _ _ _ _ _ _ D1 (delayed_app _ _ _ _ _ _ D2 (delayed_app _ _ _ _ _ _ D3 D4)))].
  intros p Hp. by apply passes_cover.
Qed.

Lemma rank_pass c clk s :
  chan_wf s → cmd_ok c → IsRankCMD c = true →
  ∃ s', UpdateSameRankTiming config (addr c) (same_rank config (cmd_type c)) clk s = ok s' ∧
    delayed (delays_for c) clk s s'.
Proof.
  intros Hw Hc Hr. unfold cmd_ok in Hc. rewrite Hr in Hc.
  pose proof (tables_ok config (cmd_type c)) as (_ & _ & _ & _ & T5).
  destruct (passes_unfold (addr c) (same_rank config (cmd_type c)) clk s) as (_ & _ & _ & ->).
  destruct (pass_ok (same_rank config (cmd_type c)) clk (rank_places (rank (addr c))) s Hw) as (s' & -> & D);
    [apply (places_NoDup (addr c))| |done|].
  { intros [[i j] k] (Hi & ? & ?)%elem_of_rank_places. simpl in Hi. subst i. done. }
  exists s'. split; [done|]. eapply delayed_ext; [done| |exact D].
  intros [[i j] k] (_ & Hj & Hk). simpl in *. rewrite Hr. destruct (Z.eqb_spec i (Rank c)).
  - apply on_places_in. by apply elem_of_rank_places.
  - apply on_places_out. rewrite elem_of_rank_places. naive_solver.
Qed.

(** *** Ready commands *)

(** Self refresh is a state of the whole rank. *)
Definition sref_inv s : Prop :=
  ∀ p b, bank_at s p = Some b → (state_ b = B_SREF ↔ zget (rank_is_sref_ s) p.1.1 = Some true).

Record chan_ok s : Prop := {
  ck_wf : chan_wf s;
  ck_sref : sref_inv s
}.

(** The banks a command takes effect on. *)
Definition targets c : list bplace := if IsRankCMD c then rank_places (Rank c) else [cplace c].

Lemma targets_NoDup c : NoDup (targets c).
Proof. unfold targets. destruct (IsRankCMD c); [apply (places_NoDup (addr c))|apply NoDup_singleton]. Qed.

Lemma targets_range c p : cmd_ok c → p ∈ targets c → in_range p.
Proof.
  unfold cmd_ok, targets. destruct (IsRankCMD c); intros Hc Hp.
  - apply elem_of_rank_places in Hp as (Hp & ? & ?). unfold in_range. by rewrite Hp.
  - by apply list_elem_of_singleton in Hp as ->.
Qed.

Lemma targets_rank c p : p ∈ targets c → p.1.1 = Rank c.
Proof.
  unfold targets. destruct (IsRankCMD c); intros Hp.
  - by apply elem_of_rank_places in Hp as [? _].
  - by apply list_elem_of_singleton in Hp as ->.
Qed.

(** A request the controller makes: addressed to a bank of the channel, with a
    row when it is a read or write. *)
Definition request_ok c : Prop := cmd_ok c ∧ (IsReadWrite c = true → 0 ≤ Row c).

Lemma get_bank_ok s p b : get_bank s p = ok b ↔ bank_at s p = Some b.
Proof. apply opt_exc_ok. Qed.

Lemma rank_ready_inl s c clk l rc0 n rc :
  chan_wf s → rank_ready s c clk l rc0 n = ok (inl rc) →
  ∃ j k b, (j, k) ∈ l ∧ bank_at s (Rank c, j, k) = Some b ∧ required_type b c = ok (cmd_type rc) ∧
    cmd_type rc ≠ cmd_type c ∧ addr rc = MkAddress (-1) (Rank c) j k (-1) (-1) ∧
    deadline b (cmd_type rc) ≤ clk.
Proof.
  intros Hw. revert rc0 n. induction l as [|[j k] l IH]; intros rc0 n Hr; simpl in Hr; [done|].
  inv_ok. apply get_bank_ok in H. rename x into b, x0 into rcb.
  destruct (IsValid rcb) eqn:Hv; [|destruct (IH _ _ Hr) as (j' & k' & b' & ? & ?); exists j', k', b'; set_solver].
  case_decide as Hne; [|destruct (IH _ _ Hr) as (j' & k' & b' & ? & ?); exists j', k', b'; set_solver].
  injection Hr as <-. exists j, k, b. simpl.
  destruct (b_GetReadyCommand_valid b c clk rcb) as (? & _ & _ & ?); [by eapply cw_banks|done|done|].
  split_and!; [set_solver|done..].
Qed.

Lemma rank_ready_inr s c clk l rc0 n rc m :
  chan_wf s → rank_ready s c clk l rc0 n = ok (inr (rc, m)) →
  m ≤ n + Z.of_nat (length l) ∧
  (m = n + Z.of_nat (length l) →
    (l = [] → rc = rc0) ∧ (l ≠ [] → cmd_type rc = cmd_type c ∧ addr rc = addr c) ∧
    ∀ j k, (j, k) ∈ l → ∃ b, bank_at s (Rank c, j, k) = Some b ∧
      required_type b c = ok (cmd_type c) ∧ deadline b (cmd_type c) ≤ clk).
Proof.
  intros Hw. revert rc0 n. induction l as [|[j k] l IH]; intros rc0 n Hr; cbn [rank_ready] in Hr.
  { injection Hr as -> ->. simpl. split; [lia|]. intros _. split_and!; [done|done|set_solver]. }
  inv_ok. apply get_bank_ok in H. rename x into b, x0 into rcb.
  destruct (IsValid rcb) eqn:Hv.
  2:{ destruct (IH _ _ Hr) as [? _]. simpl length. split; [lia|]. intros. lia. }
  case_decide as Hne; [done|].
  destruct (IH _ _ Hr) as [Hle Hall]. simpl length. split; [lia|]. intros Hm.
  destruct Hall as (Hnil & Hcons & Hall); [lia|].
  destruct (b_GetReadyCommand_valid b c clk rcb) as (Hrt & Ha & _ & Hd); [by eapply cw_banks|done|done|].
  split_and!; [done| |].
  - intros _. destruct l as [|x l]; [rewrite Hnil by done; done|]. by apply Hcons.
  - intros j' k' [[= -> ->]|Hin]%elem_of_cons; [|by apply Hall].
    exists b. by rewrite Hne in Hrt, Hd.
Qed.

(** The banks whose deadline was compared with the clock before the command was
    issued: all it takes effect on, but for the exit from self refresh, which
    is decided at the bank of the waiting request. *)
Definition checked c : list bplace :=
  if decide (cmd_type c = SREF_EXIT) then [cplace c] else targets c.

(** What makes a command safe to issue at [clk]. *)
Record issuable s (rc : Command) (clk : Z) : Prop := {
  is_ok : cmd_ok rc;
  is_upd p : p ∈ targets rc → ∃ b b', bank_at s p = Some b ∧ b_UpdateState b rc = ok b';
  is_due p b : p ∈ checked rc → bank_at s p = Some b → deadline b (cmd_type rc) ≤ clk;
  is_row : cmd_type rc = ACTIVATE → 0 ≤ Row rc;
  is_window : cmd_type rc = ACTIVATE → ActivationWindowOk config s (Rank rc) clk = ok true
}.

(** What a bank requires for a request is a command it can execute. *)
Lemma required_update b c rc :
  required_type b c = ok (cmd_type rc) → ∃ b', b_UpdateState b rc = ok b'.
Proof.
  unfold required_type, b_UpdateState. destruct (state_ b); intros Hr;
    destruct (cmd_type c); try discriminate Hr; try (destruct (_ =? _)); injection Hr as <-; eauto.
Qed.

Lemma required_cases b c ct :
  required_type b c = ok ct → IsRankCMD c = false →
  ct = ACTIVATE ∨ ct = PRECHARGE ∨ ct = REFRESH_BANK ∨ (ct = SREF_EXIT ∧ state_ b = B_SREF) ∨
  (ct = cmd_type c ∧ IsReadWrite c = true).
Proof.
  unfold required_type, IsRankCMD, IsReadWrite, IsRead, IsWrite, ct_is.
  destruct (state_ b); intros Hr; destruct (cmd_type c); try discriminate Hr;
    try (destruct (_ =? _)); injection Hr as <-; simpl; intros; try done; tauto.
Qed.

Lemma rank_required b c ct :
  required_type b c = ok ct → IsRankCMD c = true →
  (ct = cmd_type c ∧ state_ b = B_CLOSED ∧ ct ≠ SREF_EXIT) ∨ ct = PRECHARGE.
Proof.
  unfold required_type, IsRankCMD, ct_is.
  destruct (state_ b); intros Hr; destruct (cmd_type c); try discriminate Hr;
    try (destruct (_ =? _)); injection Hr as <-; simpl; intros; try done; auto.
Qed.

Lemma required_activate b c :
  required_type b c = ok ACTIVATE → IsReadWrite c = true.
Proof.
  unfold required_type, IsReadWrite, IsRead, IsWrite, ct_is.
  destruct (state_ b); intros Hr; destruct (cmd_type c); try discriminate Hr;
    try (destruct (_ =? _)); try discriminate Hr; done.
Qed.

Lemma IsRankCMD_type c c' : cmd_type c = cmd_type c' → IsRankCMD c = IsRankCMD c'.
Proof. unfold IsRankCMD, ct_is. by intros ->. Qed.

(** The deadline of one bank is checked when the command is for that bank. *)
Lemma checked_bank rc p b clk :
  IsRankCMD rc = false ∨ cmd_type rc = SREF_EXIT →
  deadline b (cmd_type rc) ≤ clk → p ∈ checked rc → p = cplace rc.
Proof.
  intros Hc _. unfold checked, targets. case_decide; [by intros ->%list_elem_of_singleton|].
  destruct Hc as [->|?]; [by intros ->%list_elem_of_singleton|done].
Qed.

Lemma bank_ready_issuable s c clk rc :
  chan_ok s → request_ok c → IsRankCMD c = false →
  GetReadyCommand config s c clk = ok rc → IsValid rc = true → issuable s rc clk.
Proof.
  intros [Hw Hsr] [Hc Hrow] Hr Hg Hv. unfold GetReadyCommand in Hg. rewrite Hr in Hg.
  inv_ok. apply get_bank_ok in H. rename x into b, x0 into rcb, H into Hb, H0 into Hrb.
  destruct (IsValid rcb) eqn:Hvb; [|injection Hg as <-; by rewrite IsValid_default in Hv].
  assert (rc = rcb ∧ (cmd_type rc = ACTIVATE → ActivationWindowOk config s (Rank rc) clk = ok true)) as [-> Hwin].
  { case_decide as Hact; [|injection Hg as <-; done]. inv_ok. destruct x; injection Hg as <-;
      [done|by rewrite IsValid_default in Hv]. }
  destruct (b_GetReadyCommand_valid b c clk rcb) as (Hrt & Ha & _ & Hd); [by eapply cw_banks|done|done|].
  assert (cplace rcb = cplace c) as Hpl by (unfold cplace, Rank, Bankgroup, Bank; by rewrite Ha).
  unfold cmd_ok in Hc. rewrite Hr in Hc.
  pose proof (required_cases _ _ _ Hrt Hr) as Hcase.
  assert (IsRankCMD rcb = false ∨ cmd_type rcb = SREF_EXIT ∧ state_ b = B_SREF) as Hk.
  { destruct Hcase as [E|[E|[E|[E|[E _]]]]]; [left|left|left|by right|left].
    1-3: unfold IsRankCMD, ct_is; by rewrite E. by rewrite (IsRankCMD_type rcb c). }
  split.
  - unfold cmd_ok. destruct (IsRankCMD rcb); [|by rewrite Hpl].
    destruct Hc as (Hi & _). unfold Rank in *. by rewrite Ha.
  - intros p Hp. unfold targets in Hp. destruct Hk as [Hk|[Hk Hst]].
    + rewrite Hk in Hp. apply list_elem_of_singleton in Hp as ->. rewrite Hpl, Hb.
      destruct (required_update b c rcb Hrt) as [b' ?]. eauto.
    + pose proof (targets_rank rcb p Hp) as Hpr. apply targets_range in Hp.
      2:{ unfold cmd_ok. destruct Hc as (Hi & Hc). destruct (IsRankCMD rcb); [|by rewrite Hpl].
          unfold Rank in *. by rewrite Ha. }
      destruct (proj1 (cw_shape _ Hw p) Hp) as [b1 Hb1].
      assert (state_ b1 = B_SREF) as Hs1.
      { apply (Hsr p b1 Hb1). rewrite Hpr. unfold Rank. rewrite Ha. by apply (Hsr (cplace c) b Hb). }
      exists b1. unfold b_UpdateState. rewrite Hs1, Hk. eauto.
  - intros p b1 Hp Hb1. apply (checked_bank _ _ b clk) in Hp; [|tauto|done].
    rewrite Hp, Hpl in Hb1. congruence.
  - intros Hact. rewrite Hact in Hrt. unfold Row. rewrite Ha. apply Hrow. by eapply required_activate.
  - done.
Qed.

(** The configuration names its banks consistently. *)
Record shape_ok : Prop := {
  sh_bg : 0 < bankgroups config;
  sh_bpg : 0 < banks_per_group config;
  sh_banks : banks config = bankgroups config * banks_per_group config;
  sh_ranks : 0 < ranks config
}.

Lemma rank_ready_issuable s c clk rc :
  shape_ok → chan_ok s → request_ok c → IsRankCMD c = true →
  GetReadyCommand config s c clk = ok rc → IsValid rc = true → issuable s rc clk.
Proof.
  intros Hsh [Hw Hsr] [Hc _] Hr Hg Hv. unfold GetReadyCommand in Hg. rewrite Hr in Hg.
  unfold cmd_ok in Hc. rewrite Hr in Hc. inv_ok. destruct x as [rc'|[rc' n]].
  - injection Hg as <-.
    destruct (rank_ready_inl _ _ _ _ _ _ _ Hw H) as (j & k & b & Hjk & Hb & Hrt & Hne & Ha & Hd).
    apply elem_of_bank_idx in Hjk as [Hj Hk].
    assert (cplace rc' = (Rank c, j, k)) as Hpl by (unfold cplace, Rank at 1, Bankgroup, Bank; by rewrite Ha).
    destruct (rank_required _ _ _ Hrt Hr) as [[E _]|E]; [done|].
    assert (IsRankCMD rc' = false) as Hrk by (unfold IsRankCMD, ct_is; by rewrite E).
    split.
    + unfold cmd_ok. rewrite Hrk, Hpl. done.
    + intros p Hp. unfold targets in Hp. rewrite Hrk, Hpl in Hp. apply list_elem_of_singleton in Hp as ->.
      destruct (required_update b c rc' Hrt) as [b' ?]. eauto.
    + intros p b1 Hp Hb1. apply (checked_bank _ _ b clk) in Hp; [|tauto|done].
      rewrite Hp, Hpl in Hb1. congruence.
    + by rewrite E.
    + by rewrite E.
  - destruct (Z.eqb_spec n (banks config)) as [Hn|]; [|injection Hg as <-; by rewrite IsValid_default in Hv].
    injection Hg as <-. pose proof Hsh as [Hbg Hbpg Hbanks _].
    pose proof (length_bank_idx ltac:(lia) ltac:(lia)) as Hlen.
    destruct (rank_ready_inr _ _ _ _ _ _ _ _ Hw H) as [_ Hall].
    destruct Hall as (_ & Hcons & Hall); [lia|].
    destruct Hcons as [Ht Ha]; [intros Hnil; rewrite Hnil in Hlen; simpl in Hlen; lia|].
    assert (IsRankCMD rc' = true) as Hrk by (by rewrite (IsRankCMD_type rc' c)).
    assert (Rank rc' = Rank c) as Hrank by (unfold Rank; by rewrite Ha).
    assert (∀ p, p ∈ targets rc' → ∃ b, bank_at s p = Some b ∧
      required_type b c = ok (cmd_type c) ∧ deadline b (cmd_type c) ≤ clk) as Hbank.
    { intros [[i j] k] Hp. unfold targets in Hp. rewrite Hrk, Hrank in Hp.
      apply elem_of_rank_places in Hp as (Hi & Hj & Hk). simpl in *. subst i.
      apply Hall, elem_of_bank_idx. done. }
    assert (cmd_type rc' ≠ ACTIVATE ∧ cmd_type rc' ≠ SREF_EXIT) as [Hna Hns].
    { split; intros E; [unfold IsRankCMD, ct_is in Hrk; by rewrite E in Hrk|].
      destruct (Hbank (Rank c, 0, 0)) as (b & _ & Hrt & _).
      { unfold targets. rewrite Hrk, Hrank. apply elem_of_rank_places. simpl. lia. }
      rewrite Ht in E. destruct (rank_required _ _ _ Hrt Hr) as [(_ & _ & ?)|?]; congruence. }
    split; try done.
    + unfold cmd_ok. by rewrite Hrk, Hrank.
    + intros p Hp. destruct (Hbank p Hp) as (b & Hb & Hrt & _). rewrite <- Ht in Hrt.
      destruct (required_update b c rc' Hrt) as [b' ?]. eauto.
    + intros p b Hp Hb. unfold checked in Hp. rewrite decide_False in Hp by done.
      destruct (Hbank p Hp) as (b1 & Hb1 & _ & ?). rewrite Ht. congruence.
Qed.

(** *** Issuing a command *)

Lemma foldE_rank f i s :
  foldE (fun '(j, k) => upd_bank f (i, j, k)) (bank_idx config) s = foldE (upd_bank f) (rank_places i) s.
Proof. unfold rank_places. rewrite <- foldE_fmap. by apply foldE_ext; intros [] ?. Qed.

(** [UpdateState] past the update of the banks. *)
Definition after_banks c s : exc ChannelState :=
  if IsRankCMD c then
    if IsRefresh c then ok (RankNeedRefresh (Rank c) false s)
    else if decide (cmd_type c = SREF_ENTER) then
      _ ← vec_get (rank_is_sref_ s) (Rank c); ok (with_sref (zset (rank_is_sref_ s) (Rank c) true) s)
    else if decide (cmd_type c = SREF_EXIT) then
      _ ← vec_get (rank_is_sref_ s) (Rank c); ok (with_sref (zset (rank_is_sref_ s) (Rank c) false) s)
    else ok s
  else if IsRefresh c then ok (BankNeedRefresh (Rank c) (Bankgroup c) (Bank c) false s) else ok s.

Lemma UpdateState_banks c s :
  UpdateState config c s =
    (s' ← foldE (upd_bank (fun b => b_UpdateState b c)) (targets c) s; after_banks c s').
Proof.
  unfold UpdateState, targets, after_banks. destruct (IsRankCMD c).
  - by rewrite foldE_rank.
  - cbn [foldE]. by destruct (upd_bank (fun b => b_UpdateState b c) (cplace c) s).
Qed.

(** [b_UpdateState] enters and leaves self refresh with the two commands only. *)
Lemma b_UpdateState_sref b c b' :
  b_UpdateState b c = ok b' →
  match cmd_type c with
  | SREF_ENTER => state_ b' = B_SREF
  | SREF_EXIT => state_ b' ≠ B_SREF
  | _ => state_ b' = B_SREF ↔ state_ b = B_SREF
  end.
Proof.
  unfold b_UpdateState. destruct (state_ b) eqn:E, (cmd_type c); intros [= <-]; simpl; try done.
  - by rewrite E. - by rewrite E.
Qed.

Lemma after_banks_ok c s :
  chan_wf s → 0 ≤ Rank c < ranks config →
  ∃ s', after_banks c s = ok s' ∧ bank_states_ s' = bank_states_ s ∧
    four_aw_ s' = four_aw_ s ∧ thirty_two_aw_ s' = thirty_two_aw_ s ∧
    rank_is_sref_ s' =
      match cmd_type c with
      | SREF_ENTER => zset (rank_is_sref_ s) (Rank c) true
      | SREF_EXIT => zset (rank_is_sref_ s) (Rank c) false
      | _ => rank_is_sref_ s
      end.
Proof.
  intros Hw Hr.
  assert (∃ x, vec_get (rank_is_sref_ s) (Rank c) = ok x) as [x Hx].
  { unfold vec_get. destruct (zget_is_Some (rank_is_sref_ s) (Rank c)) as [y ->]; [|by eexists].
    rewrite (cw_sref _ Hw). lia. }
  unfold after_banks, IsRankCMD, IsRefresh, ct_is.
  destruct (cmd_type c); cbn -[vec_get]; try rewrite Hx; cbn; eexists; done.
Qed.

Lemma UpdateState_ok s rc clk :
  chan_ok s → issuable s rc clk →
  ∃ s', UpdateState config rc s = ok s' ∧ chan_ok s' ∧
    four_aw_ s' = four_aw_ s ∧ thirty_two_aw_ s' = thirty_two_aw_ s ∧
    (∀ p b', bank_at s' p = Some b' → ∃ b, bank_at s p = Some b ∧ cmd_timing_ b' = cmd_timing_ b).
Proof.
  intros [Hw Hsr] [Hok Hupd _ Hrow _].
  destruct (upd_banks_ok (fun b => b_UpdateState b rc) (targets rc) s (targets_NoDup rc) Hupd)
    as (s1 & Hs1 & Hbo & Hin & Hout).
  assert (0 ≤ Rank rc < ranks config) as Hrk.
  { unfold cmd_ok, in_range in Hok. destruct (IsRankCMD rc); [done|]. by destruct Hok. }
  assert (chan_wf s1 ∧ ∀ p b', bank_at s1 p = Some b' → ∃ b, bank_at s p = Some b ∧
    cmd_timing_ b' = cmd_timing_ b) as [Hw1 Hback].
  { split; [split|].
    - intros p. rewrite (cw_shape _ Hw). destruct (decide (p ∈ targets rc)) as [Hp|Hp].
      + destruct (Hin p Hp) as (b & b' & -> & _ & ->). split; by eexists.
      + by rewrite Hout.
    - intros p b1 Hb1. destruct (decide (p ∈ targets rc)) as [Hp|Hp].
      + destruct (Hin p Hp) as (b & b' & Hb & Hu & Hb'). assert (b1 = b') as -> by congruence.
        eapply b_UpdateState_wf; [by eapply cw_banks|done|done].
      + rewrite Hout in Hb1 by done. by eapply cw_banks.
    - rewrite Hbo. apply Hw.
    - rewrite Hbo. apply Hw.
    - rewrite Hbo. apply Hw.
    - intros p b1 Hb1. destruct (decide (p ∈ targets rc)) as [Hp|Hp].
      + destruct (Hin p Hp) as (b & b' & Hb & Hu & Hb'). assert (b1 = b') as -> by congruence.
        exists b. split; [done|]. eapply b_UpdateState_wf; [by eapply cw_banks|done|done].
      + rewrite Hout in Hb1 by done. eauto. }
  destruct (after_banks_ok rc s1 Hw1 Hrk) as (s2 & Hs2 & Hbs & H4 & H32 & Hsref).
  assert (bank_at s2 = bank_at s1) as Hba by (unfold bank_at; by rewrite Hbs).
  exists s2. rewrite UpdateState_banks, Hs1. cbn [mbind exc_bind].
  split_and!; [done| |by rewrite H4, Hbo|by rewrite H32, Hbo|by rewrite Hba].
  split; [split|].
  - intros p. rewrite Hba. apply Hw1.
  - intros p b. rewrite Hba. apply Hw1.
  - rewrite Hsref. pose proof (cw_sref _ Hw1). by destruct (cmd_type rc); rewrite ?length_zset.
  - rewrite H4. apply Hw1.
  - rewrite H32. apply Hw1.
  - (* self refresh *)
    assert (rank_is_sref_ s1 = rank_is_sref_ s) as Hsame by (by rewrite Hbo).
    intros p b2 Hb2. rewrite Hba in Hb2. rewrite Hsref, Hsame.
    destruct (decide (p ∈ targets rc)) as [Hp|Hp].
    + destruct (Hin p Hp) as (b & b' & Hb & Hu & Hb'). assert (b2 = b') as -> by congruence.
      pose proof (b_UpdateState_sref _ _ _ Hu) as Hst. pose proof (Hsr p b Hb) as Hfl.
      pose proof (targets_rank _ _ Hp) as Hpr.
      assert (0 ≤ p.1.1 < Z.of_nat (length (rank_is_sref_ s))) by (rewrite (cw_sref _ Hw); lia).
      destruct (cmd_type rc); rewrite ?Hst; try done; rewrite <- Hpr, zget_zset_eq by done; naive_solver.
    + rewrite Hout in Hb2 by done. rewrite (Hsr p b2 Hb2).
      assert (IsRankCMD rc = true → p.1.1 ≠ Rank rc) as Hne.
      { intros Hr Heq. apply Hp. unfold targets. rewrite Hr. apply elem_of_rank_places.
        assert (in_range p) as (? & ? & ?) by (apply (cw_shape _ Hw); by eexists). done. }
      unfold IsRankCMD, ct_is in Hne.
      destruct (cmd_type rc); try done; rewrite zget_zset_ne; try done; intros E; by apply Hne.
Qed.

(** Deadlines only grow, and those of the command's delays reach their time. *)
Definition deadlines_grow (L : bplace -> delays) (clk : Z) s s' : Prop :=
  ∀ p b', bank_at s' p = Some b' → ∃ b, bank_at s p = Some b ∧
    (∀ ct, ct ≠ CT_SIZE → deadline b ct ≤ deadline b' ct) ∧
    (∀ ct d, (ct, d) ∈ L p → u64 (clk + d) ≤ deadline b' ct).

Lemma delayed_grow L clk s s' :
  chan_ok s → (∀ p, delays_ok (L p)) → delayed L clk s s' →
  chan_ok s' ∧ deadlines_grow L clk s s'.
Proof.
  intros [Hw Hsr] HL Hd. pose proof (delayed_wf _ _ _ _ Hw HL Hd) as Hw'. destruct Hd as [Ho Hs Hn].
  assert (∀ p b', bank_at s' p = Some b' → ∃ b, bank_at s p = Some b ∧ bank_wf b ∧
    apply_delays (L p) clk b = ok b') as Hback.
  { intros p b' Hb'. destruct (bank_at s p) as [b|] eqn:Hb; [|apply Hn in Hb; congruence].
    destruct (Hs p b Hb) as (b1 & Ha & Hb1). exists b. split_and!; [done|exact (cw_banks _ Hw _ _ Hb)|congruence]. }
  split; [split; [done|]|].
  - intros p b' Hb'. destruct (Hback p b' Hb') as (b & Hb & Hbw & Ha).
    destruct (apply_delays_ok (L p) clk b Hbw (HL p)) as (b1 & Ha1 & _ & _ & _ & Hst & _).
    assert (b1 = b') as -> by congruence. rewrite Hst, Ho. simpl. by apply Hsr.
  - intros p b' Hb'. destruct (Hback p b' Hb') as (b & Hb & Hbw & Ha).
    destruct (apply_delays_ok (L p) clk b Hbw (HL p)) as (b1 & Ha1 & _ & Hge & Hin & _).
    assert (b1 = b') as -> by congruence. eauto.
Qed.

Lemma UpdateActivationTimes_ok r t s :
  chan_ok s → 0 ≤ r < ranks config →
  ∃ s' a4 a32, UpdateActivationTimes config r t s = ok s' ∧ chan_ok s' ∧ bank_states_ s' = bank_states_ s ∧
    zget (four_aw_ s) r = Some a4 ∧ zget (thirty_two_aw_ s) r = Some a32 ∧
    four_aw_ s' = zset (four_aw_ s) r (window_push a4 t (tFAW config)) ∧
    thirty_two_aw_ s' =
      if IsGDDR config then zset (thirty_two_aw_ s) r (window_push a32 t (t32AW config))
      else thirty_two_aw_ s.
Proof.
  intros [Hw Hsr] Hr. unfold UpdateActivationTimes, vec_get.
  destruct (zget_is_Some (four_aw_ s) r) as [a4 H4]; [rewrite (cw_aw4 _ Hw); lia|].
  destruct (zget_is_Some (thirty_two_aw_ s) r) as [a32 H32]; [rewrite (cw_aw32 _ Hw); lia|].
  rewrite H4, H32. cbn [opt_exc mbind exc_bind].
  destruct (IsGDDR config); eexists _, a4, a32; (split; [done|]); split_and!; try done;
    split; try done; destruct Hw; split; simpl; rewrite ?length_zset; done.
Qed.

Lemma UpdateTiming_ok s rc clk :
  chan_ok s → cmd_ok rc → IsValid rc = true →
  ∃ s', UpdateTiming config rc clk s = ok s' ∧ chan_ok s' ∧ deadlines_grow (delays_for rc) clk s s' ∧
    (if decide (cmd_type rc = ACTIVATE) then
       ∃ a4 a32, zget (four_aw_ s) (Rank rc) = Some a4 ∧ zget (thirty_two_aw_ s) (Rank rc) = Some a32 ∧
         four_aw_ s' = zset (four_aw_ s) (Rank rc) (window_push a4 clk (tFAW config)) ∧
         thirty_two_aw_ s' =
           (if IsGDDR config then zset (thirty_two_aw_ s) (Rank rc) (window_push a32 clk (t32AW config))
            else thirty_two_aw_ s)
     else four_aw_ s' = four_aw_ s ∧ thirty_two_aw_ s' = thirty_two_aw_ s).
Proof.
  intros Hk Hok Hv. apply IsValid_true in Hv.
  assert (0 ≤ Rank rc < ranks config) as Hrk.
  { unfold cmd_ok, in_range in Hok. destruct (IsRankCMD rc); [done|]. by destruct Hok. }
  destruct (IsRankCMD rc) eqn:Hr.
  { destruct (rank_pass rc clk s (ck_wf _ Hk) Hok Hr) as (s' & Hs' & Hd).
    destruct (delayed_grow _ _ _ _ Hk (delays_for_ok rc) Hd) as [Hk' Hg].
    exists s'. unfold UpdateTiming. pose proof (dl_only _ _ _ _ Hd) as Ho. unfold banks_only in Ho.
    unfold IsRankCMD, ct_is in Hr.
    destruct (cmd_type rc); try discriminate Hr; simpl; split_and!; try done; by rewrite Ho. }
  destruct (decide (cmd_type rc = ACTIVATE)) as [Hact|Hact].
  - destruct (UpdateActivationTimes_ok (Rank rc) clk s Hk Hrk) as
      (s1 & a4 & a32 & Hs1 & Hk1 & Hbs & H4 & H32 & E4 & E32).
    destruct (bank_passes rc clk s1 (ck_wf _ Hk1) Hok Hr) as (s' & Hs' & Hd).
    destruct (delayed_grow _ _ _ _ Hk1 (delays_for_ok rc) Hd) as [Hk' Hg].
    pose proof (dl_only _ _ _ _ Hd) as Ho. unfold banks_only in Ho.
    exists s'. unfold UpdateTiming. rewrite Hact in *. rewrite Hs1. cbn [mbind exc_bind] in *.
    split_and!; [done|done| |].
    + intros p b' Hb'. destruct (Hg p b' Hb') as (b & Hb & ?). exists b.
      split; [|done]. unfold bank_at in *. by rewrite Hbs in Hb.
    + exists a4, a32. split_and!; try done; by rewrite Ho.
  - destruct (bank_passes rc clk s (ck_wf _ Hk) Hok Hr) as (s' & Hs' & Hd).
    destruct (delayed_grow _ _ _ _ Hk (delays_for_ok rc) Hd) as [Hk' Hg].
    exists s'. unfold UpdateTiming. pose proof (dl_only _ _ _ _ Hd) as Ho. unfold banks_only in Ho.
    unfold IsRankCMD, ct_is in Hr.
    destruct (cmd_type rc); try done; simpl; split_and!; try done; by rewrite Ho.
Qed.

Lemma UpdateTimingAndStates_ok s rc clk :
  chan_ok s → issuable s rc clk → IsValid rc = true →
  ∃ s', UpdateTimingAndStates config rc clk s = ok s' ∧ chan_ok s' ∧
    deadlines_grow (delays_for rc) clk s s' ∧
    (if decide (cmd_type rc = ACTIVATE) then
       ∃ a4 a32, zget (four_aw_ s) (Rank rc) = Some a4 ∧ zget (thirty_two_aw_ s) (Rank rc) = Some a32 ∧
         four_aw_ s' = zset (four_aw_ s) (Rank rc) (window_push a4 clk (tFAW config)) ∧
         thirty_two_aw_ s' =
           (if IsGDDR config then zset (thirty_two_aw_ s) (Rank rc) (window_push a32 clk (t32AW config))
            else thirty_two_aw_ s)
     else four_aw_ s' = four_aw_ s ∧ thirty_two_aw_ s' = thirty_two_aw_ s).
Proof.
  intros Hk His Hv. destruct (UpdateState_ok s rc clk Hk His) as (s1 & Hs1 & Hk1 & E4 & E32 & Hback).
  destruct (UpdateTiming_ok s1 rc clk Hk1 (is_ok _ _ _ His) Hv) as (s2 & Hs2 & Hk2 & Hg & Haw).
  exists s2. unfold UpdateTimingAndStates. rewrite Hs1. cbn [mbind exc_bind].
  rewrite E4, E32 in Haw. split_and!; try done.
  intros p b2 Hb2. destruct (Hg p b2 Hb2) as (b1 & Hb1 & Hge & Hin).
  destruct (Hback p b1 Hb1) as (b & Hb & Ht). exists b. split_and!; [done| |done].
  intros ct Hct. rewrite <- (deadline_timing _ _ Ht). by apply Hge.
Qed.

Lemma GetReadyCommand_issuable s c clk rc :
  shape_ok → chan_ok s → request_ok c →
  GetReadyCommand config s c clk = ok rc → IsValid rc = true → issuable s rc clk.
Proof.
  intros. destruct (IsRankCMD c) eqn:?; [by eapply rank_ready_issuable|by eapply bank_ready_issuable].
Qed.

Lemma zget_replicate {A} (n i : Z) (x : A) :
  zget (replicate (Z.to_nat n) x) i = if decide (0 ≤ i < n) then Some x else None.
Proof.
  unfold zget. destruct (Z.ltb_spec i 0).
  - rewrite decide_False by lia. done.
  - case_decide.
    + apply lookup_replicate. split; [done|lia].
    + apply lookup_ge_None. rewrite length_replicate. lia.
Qed.

Lemma bank_at_new p : bank_at (new_channel config) p = if decide (in_range p) then Some new_bank else None.
Proof.
  destruct p as [[i j] k]. unfold bank_at, new_channel, in_range. simpl.
  rewrite zget_replicate. case_decide; simpl; [|by rewrite decide_False by naive_solver].
  rewrite zget_replicate. case_decide; simpl; [|by rewrite decide_False by naive_solver].
  rewrite zget_replicate. case_decide; [by rewrite decide_True|by rewrite decide_False by naive_solver].
Qed.

Lemma new_channel_ok : chan_ok (new_channel config).
Proof.
  split; [split|].
  - intros p. rewrite bank_at_new. case_decide; split; try done; intros []; done.
  - intros p b. rewrite bank_at_new. case_decide; [|done]. intros [= <-]. apply new_bank_wf.
  - apply length_replicate.
  - apply length_replicate.
  - apply length_replicate.
  - intros p b. rewrite bank_at_new. case_decide; [|done]. intros [= <-]. simpl.
    rewrite zget_replicate. case_decide; done.
Qed.
End Lemmas.

(** ** Activation windows *)

Section Window.
Context (n : nat) (d : Z).
Implicit Types (aw hist : list Z) (t clk : Z).

(** [hist] are the activation times so far, [aw] the window kept of them: the
    last at most [n], the dropped ones having expired by [t]. *)
Definition window_inv aw hist t : Prop :=
  ∃ dropped kept, hist = dropped ++ kept ∧ aw = (fun a => u64 (a + d)) <$> kept ∧
    Forall (fun a => a + d ≤ t) dropped ∧ (length kept ≤ n)%nat.

(** Any [n + 1] consecutive activations span at least [d]. *)
Definition spaced hist : Prop :=
  ∀ i a b, hist !! i = Some a → hist !! (i + n)%nat = Some b → a + d ≤ b.

Lemma window_inv_mono aw hist t clk : window_inv aw hist t → t ≤ clk → window_inv aw hist clk.
Proof.
  intros (dr & k & ? & ? & Hf & ?) Ht. exists dr, k. split_and!; try done.
  eapply Forall_impl; [exact Hf|]. simpl. lia.
Qed.

Lemma window_push_inv aw hist clk :
  window_inv aw hist clk → window_ready n aw clk = true → (0 < n)%nat →
  Forall (fun a => 0 ≤ a ∧ a + d < two64) hist → 0 ≤ d →
  window_inv (window_push aw clk d) (hist ++ [clk]) clk.
Proof.
  intros (dr & kept & -> & -> & Hf & Hlen) Hrd Hn Hb Hd. apply Forall_app in Hb as [_ Hb].
  destruct kept as [|a kept].
  { exists dr, [clk]. rewrite app_nil_r. split_and!; [done|done|done|simpl; lia]. }
  apply Forall_cons in Hb as [[Ha0 Ha] Hb]. rewrite fmap_cons in *. unfold window_push, window_ready in *.
  rewrite (u64_small (a + d)) in * by lia. simpl in Hlen.
  destruct (Z.leb_spec (a + d) clk).
  - exists (dr ++ [a]), (kept ++ [clk]). rewrite <- !app_assoc, fmap_app. split_and!; try done.
    + apply Forall_app. split; [done|]. by constructor.
    + rewrite length_app. simpl. lia.
  - exists dr, (a :: kept ++ [clk]). rewrite <- app_assoc. rewrite <- app_comm_cons, fmap_cons, fmap_app, (u64_small (a + d)) by lia.
    split_and!; try done. simpl. rewrite length_app. simpl. simpl in Hrd. rewrite length_fmap in Hrd.
    destruct (Z.ltb_spec clk (a + d)); [|lia]. simpl in Hrd.
    destruct (Nat.leb_spec n (S (length kept))); [done|]. lia.
Qed.

Lemma spaced_snoc aw hist clk :
  window_inv aw hist clk → window_ready n aw clk = true →
  Forall (fun a => 0 ≤ a ∧ a + d < two64) hist → 0 ≤ d → (0 < n)%nat →
  spaced hist → spaced (hist ++ [clk]).
Proof.
  intros (dr & kept & -> & -> & Hf & Hlen) Hrd Hb Hd Hn Hs i a b Hi Hib.
  apply lookup_app_Some in Hib as [Hib|[Hge Hib]].
  { eapply Hs; [|exact Hib]. apply lookup_app_Some in Hi as [?|[Hge _]]; [done|].
    apply lookup_lt_Some in Hib. lia. }
  apply list_lookup_singleton_Some in Hib as [Hil <-].
  rewrite length_app in *. rewrite lookup_app_l in Hi by (rewrite length_app; lia).
  apply lookup_app_Some in Hi as [Hi|[Hge' Hi]]; [by eapply Forall_lookup_1 in Hf|].
  pose proof (lookup_lt_Some _ _ _ Hi). assert (i = length dr ∧ length kept = n) as [-> Hkn] by lia.
  rewrite Nat.sub_diag in Hi. destruct kept as [|a0 kept]; [done|]. injection Hi as ->.
  apply Forall_app in Hb as [_ [[? ?] _]%Forall_cons]. rewrite fmap_cons in Hrd. unfold window_ready in Hrd.
  rewrite u64_small in Hrd by lia. simpl in Hkn, Hrd. rewrite length_fmap in Hrd.
  destruct (Z.ltb_spec clk (a + d)); [|lia]. rewrite Hkn, Nat.leb_refl in Hrd. done.
Qed.
End Window.

(** ** Traces of issued commands *)

Section Traces.
Context (config : Config).
Implicit Types (s : ChannelState) (l : list (Command * Z)) (c rc : Command).

(** A channel driven by its controller: requests that are ready are issued, at
    times that do not decrease, and refreshes become pending. [trace l t s]
    says that the commands [l] have been issued, the last at [t], and led to
    [s]. *)
Inductive trace : list (Command * Z) -> Z -> ChannelState -> Prop :=
| tr_init : trace [] 0 (new_channel config)
| tr_issue l t s c clk rc s' :
    trace l t s → t ≤ clk < 2 ^ 63 → request_ok config c →
    GetReadyCommand config s c clk = ok rc → IsValid rc = true →
    UpdateTimingAndStates config rc clk s = ok s' →
    trace (l ++ [(rc, clk)]) clk s'
| tr_rank_refresh l t s r : trace l t s → trace l t (RankNeedRefresh r true s)
| tr_bank_refresh l t s r g b : trace l t s → trace l t (BankNeedRefresh r g b true s)
| tr_idle l t s v : trace l t s → trace l t (with_idle v s).

(** The delays of the tables that can apply are non-negative [int]s. *)
Definition delays_bounded : Prop :=
  ∀ c p ct d, cmd_ok config c → in_range config p → (ct, d) ∈ delays_for config c p → 0 ≤ d < 2 ^ 31.

(** The later command obeys the delay the earlier one put on its banks. *)
Definition obeys (x y : Command * Z) : Prop :=
  ∀ p d, p ∈ checked config y.1 → in_range config p →
    (cmd_type y.1, d) ∈ delays_for config x.1 p → x.2 + d ≤ y.2.

(** The activation times of a rank. *)
Definition acts (r : Z) l : list Z :=
  snd <$> filter (fun x => cmd_type x.1 = ACTIVATE ∧ Rank x.1 = r) l.

Lemma acts_snoc r l c t :
  acts r (l ++ [(c, t)]) = acts r l ++ if decide (cmd_type c = ACTIVATE ∧ Rank c = r) then [t] else [].
Proof. unfold acts. rewrite filter_app, fmap_app, filter_cons. simpl. by case_decide. Qed.

Lemma elem_of_acts r l a : a ∈ acts r l → ∃ c, (c, a) ∈ l.
Proof.
  unfold acts. intros ([c t] & -> & [_ Hin]%list_elem_of_filter)%list_elem_of_fmap. eauto.
Qed.

(** What every issued command leaves in the state. *)
Record trace_inv l t s : Prop := {
  ti_ok : chan_ok config s;
  ti_past : Forall (fun x => 0 ≤ x.2 ≤ t ∧ cmd_ok config x.1) l;
  ti_t : 0 ≤ t < 2 ^ 63;
  ti_due c t0 p b ct d : (c, t0) ∈ l → bank_at s p = Some b → (ct, d) ∈ delays_for config c p →
    t0 + d ≤ deadline b ct;
  ti_sorted : StronglySorted obeys l
}.

Lemma trace_inv_frame l t s s' :
  bank_states_ s' = bank_states_ s → rank_is_sref_ s' = rank_is_sref_ s →
  four_aw_ s' = four_aw_ s → thirty_two_aw_ s' = thirty_two_aw_ s →
  trace_inv l t s → trace_inv l t s'.
Proof.
  intros Eb Es E4 E32 [[Hw Hsr] Hp Ht Hd Hso].
  assert (bank_at s' = bank_at s) as Hba by (unfold bank_at; by rewrite Eb).
  split; [split; [split|]|done|done| |done].
  - intros p. rewrite Hba. apply Hw.
  - intros p b. rewrite Hba. apply Hw.
  - rewrite Es. apply Hw.
  - rewrite E4. apply Hw.
  - rewrite E32. apply Hw.
  - intros p b. rewrite Hba, Es. apply Hsr.
  - intros c t0 p b ct d. rewrite Hba. apply Hd.
Qed.

Lemma u64_delay clk d : 0 ≤ clk < 2 ^ 63 → 0 ≤ d < 2 ^ 31 → u64 (clk + d) = clk + d.
Proof. intros. apply u64_small. unfold two64. lia. Qed.

Lemma trace_inv_issue l t s c clk rc s' :
  shape_ok config → delays_bounded → trace_inv l t s → t ≤ clk < 2 ^ 63 → request_ok config c →
  GetReadyCommand config s c clk = ok rc → IsValid rc = true →
  UpdateTimingAndStates config rc clk s = ok s' → trace_inv (l ++ [(rc, clk)]) clk s'.
Proof.
  intros Hsh Hdb [Hk Hp Ht Hd Hso] Hclk Hreq Hg Hv Hu.
  pose proof (GetReadyCommand_issuable config s c clk rc Hsh Hk Hreq Hg Hv) as His.
  destruct (UpdateTimingAndStates_ok config s rc clk Hk His Hv) as (s1 & Hs1 & Hk' & Hgr & _).
  rewrite Hu in Hs1. injection Hs1 as <-.
  assert (∀ p b, bank_at s' p = Some b → in_range config p) as Hrg.
  { intros p b Hb. apply (cw_shape _ _ (ck_wf _ _ Hk')). by eexists. }
  split.
  - done.
  - apply Forall_app. split.
    + eapply Forall_impl; [exact Hp|]. simpl. intros x [? ?]. split; [lia|done].
    + constructor; [|done]. simpl. split; [lia|apply His].
  - lia.
  - intros c0 t0 p b ct d Hin Hb Hcd. destruct (Hgr p b Hb) as (b0 & Hb0 & Hge & Hadd).
    pose proof (delays_for_ok config c0 p) as Hok. unfold delays_ok in Hok. rewrite Forall_forall in Hok.
    apply elem_of_app in Hin as [Hin|Hin].
    + etrans; [by eapply Hd|]. apply Hge. exact (Hok _ Hcd).
    + apply list_elem_of_singleton in Hin as [= -> ->].
      rewrite <- (u64_delay clk d); [by apply Hadd|lia|].
      eapply Hdb; [apply His|by eapply Hrg|exact Hcd].
  - apply StronglySorted_snoc; [done|]. apply Forall_forall. intros [c0 t0] Hin p d Hp' Hr Hcd. simpl in *.
    destruct (proj1 (cw_shape _ _ (ck_wf _ _ Hk) p) Hr) as [b Hb].
    etrans; [by eapply Hd|]. by eapply (is_due _ _ _ _ His).
Qed.

Lemma trace_invariant l t s : shape_ok config → delays_bounded → trace l t s → trace_inv l t s.
Proof.
  intros Hsh Hdb. induction 1 as [|l t s c clk rc s' _ IH Hclk Hreq Hg Hv Hu| | |].
  - split; [apply new_channel_ok|done|done|set_solver|constructor].
  - by eapply trace_inv_issue.
  - eapply trace_inv_frame; [..|eassumption]; done.
  - eapply trace_inv_frame; [..|eassumption]; done.
  - eapply trace_inv_frame; [..|eassumption]; done.
Qed.

(** The windows kept by the channel, against the activations of the trace. *)
Record windows_inv l t s : Prop := {
  wi_4 r a4 : zget (four_aw_ s) r = Some a4 →
    window_inv 4 (tFAW config) a4 (acts r l) t ∧ spaced 4 (tFAW config) (acts r l);
  wi_32 r a32 : IsGDDR config = true → zget (thirty_two_aw_ s) r = Some a32 →
    window_inv 32 (t32AW config) a32 (acts r l) t ∧ spaced 32 (t32AW config) (acts r l);
  wi_none r : ¬ 0 ≤ r < ranks config → acts r l = []
}.

Lemma window_step n d aw r l t clk rc :
  window_inv n d aw (acts r l) t → spaced n d (acts r l) →
  t ≤ clk < 2 ^ 63 → Forall (fun x => 0 ≤ x.2 ≤ t) l → 0 ≤ d < 2 ^ 31 → (0 < n)%nat →
  cmd_type rc = ACTIVATE → Rank rc = r → window_ready n aw clk = true →
  window_inv n d (window_push aw clk d) (acts r (l ++ [(rc, clk)])) clk ∧
  spaced n d (acts r (l ++ [(rc, clk)])).
Proof.
  intros Hi Hs Hclk Hp Hd Hn Ha Hr Hrd. rewrite acts_snoc, decide_True by done.
  assert (Forall (fun a => 0 ≤ a ∧ a + d < two64) (acts r l)) as Hb.
  { apply Forall_forall. intros a [c Hin]%elem_of_acts. rewrite Forall_forall in Hp.
    apply Hp in Hin. simpl in Hin. unfold two64. lia. }
  pose proof (window_inv_mono n d aw (acts r l) t clk Hi ltac:(lia)) as Hi'.
  split; [by apply window_push_inv; try lia|]. by eapply spaced_snoc; try lia.
Qed.

Lemma window_keep n d aw r l t clk rc :
  window_inv n d aw (acts r l) t → spaced n d (acts r l) → t ≤ clk →
  ¬ (cmd_type rc = ACTIVATE ∧ Rank rc = r) →
  window_inv n d aw (acts r (l ++ [(rc, clk)])) clk ∧ spaced n d (acts r (l ++ [(rc, clk)])).
Proof.
  intros Hi Hs Ht Hn. rewrite acts_snoc, decide_False, app_nil_r by done.
  split; [by eapply window_inv_mono|done].
Qed.

Lemma windows_inv_issue l t s c clk rc s' :
  shape_ok config → delays_bounded → 0 ≤ tFAW config < 2 ^ 31 → 0 ≤ t32AW config < 2 ^ 31 →
  trace_inv l t s → windows_inv l t s → t ≤ clk < 2 ^ 63 → request_ok config c →
  GetReadyCommand config s c clk = ok rc → IsValid rc = true →
  UpdateTimingAndStates config rc clk s = ok s' → windows_inv (l ++ [(rc, clk)]) clk s'.
Proof.
  intros Hsh Hdb H4 H32 [Hk Hp Ht _ _] [W4 W32 Wn] Hclk Hreq Hg Hv Hu.
  pose proof (GetReadyCommand_issuable config s c clk rc Hsh Hk Hreq Hg Hv) as His.
  destruct (UpdateTimingAndStates_ok config s rc clk Hk His Hv) as (s1 & Hs1 & _ & _ & Haw).
  rewrite Hu in Hs1. injection Hs1 as <-.
  assert (Forall (fun x => 0 ≤ x.2 ≤ t) l) as Hp' by (eapply Forall_impl; [exact Hp|]; naive_solver).
  assert (0 ≤ Rank rc < ranks config) as Hrk.
  { pose proof (is_ok _ _ _ _ His) as Hok. unfold cmd_ok, in_range in Hok.
    destruct (IsRankCMD rc); [done|]. by destruct Hok. }
  assert (∀ r, ¬ 0 ≤ r < ranks config → acts r (l ++ [(rc, clk)]) = []) as Hnone.
  { intros r Hr. rewrite acts_snoc, Wn, decide_False by naive_solver lia. done. }
  destruct (decide (cmd_type rc = ACTIVATE)) as [Ha|Ha].
  - destruct Haw as (a4 & a32 & G4 & G32 & E4 & E32).
    pose proof (is_window _ _ _ _ His Ha) as Hw. unfold ActivationWindowOk, vec_get in Hw.
    rewrite G4, G32 in Hw. cbn [opt_exc mbind exc_bind] in Hw.
    pose proof (zget_lt _ _ _ G4). pose proof (zget_lt _ _ _ G32).
    split; [| |done].
    + intros r a Hr. rewrite E4 in Hr. destruct (decide (Rank rc = r)) as [<-|Hne].
      * rewrite zget_zset_eq in Hr by done. injection Hr as <-. destruct (W4 _ _ G4).
        apply window_step with t; try done; [lia|].
        destruct (IsGDDR config), (window_ready 4 a4 clk); done.
      * rewrite zget_zset_ne in Hr by done. destruct (W4 _ _ Hr). eapply window_keep; [done..|lia|naive_solver].
    + intros r a HG Hr. rewrite E32, HG in Hr. destruct (decide (Rank rc = r)) as [<-|Hne].
      * rewrite zget_zset_eq in Hr by done. injection Hr as <-. destruct (W32 _ _ HG G32).
        apply window_step with t; try done; [lia|]. rewrite HG in Hw.
        destruct (window_ready 4 a4 clk); [by injection Hw|done].
      * rewrite zget_zset_ne in Hr by done. destruct (W32 _ _ HG Hr).
        eapply window_keep; [done..|lia|naive_solver].
  - destruct Haw as [E4 E32]. split; [| |done].
    + intros r a. rewrite E4. intros Hr. destruct (W4 _ _ Hr). eapply window_keep; [done..|lia|naive_solver].
    + intros r a HG. rewrite E32. intros Hr. destruct (W32 _ _ HG Hr).
      eapply window_keep; [done..|lia|naive_solver].
Qed.

Lemma windows_inv_init : windows_inv [] 0 (new_channel config).
Proof.
  assert (∀ n d t, window_inv n d [] [] t ∧ spaced n d []) as Hw.
  { intros. split; [exists [], []; split_and!; [done|done|done|simpl; lia]|]. intros i a b Hi. done. }
  split; [| |done].
  - intros r a4 Hr. simpl in Hr. rewrite zget_replicate in Hr. case_decide; [|done].
    injection Hr as <-. apply Hw.
  - intros r a4 _ Hr. simpl in Hr. rewrite zget_replicate in Hr. case_decide; [|done].
    injection Hr as <-. apply Hw.
Qed.

Lemma trace_windows l t s :
  shape_ok config → delays_bounded → 0 ≤ tFAW config < 2 ^ 31 → 0 ≤ t32AW config < 2 ^ 31 →
  trace l t s → windows_inv l t s.
Proof.
  intros Hsh Hdb H4 H32. induction 1 as [|l t s c clk rc s' Htr IH Hclk Hreq Hg Hv Hu| | |].
  - apply windows_inv_init.
  - eapply windows_inv_issue; try done. by apply trace_invariant.
  - destruct IHtrace. by split.
  - destruct IHtrace. by split.
  - destruct IHtrace. by split.
Qed.

(** The timing rule, by the tables alone: each of the five tables of [Timing] is
    for the banks in one position relative to the bank of the earlier command. *)
Inductive scope := Same_bank | Same_bankgroup | Same_rank | Other_rank | Whole_rank.

Definition table (sc : scope) : CommandType -> delays :=
  match sc with
  | Same_bank => same_bank config
  | Same_bankgroup => other_banks_same_bankgroup config
  | Same_rank => other_bankgroups_same_rank config
  | Other_rank => other_ranks config
  | Whole_rank => same_rank config
  end.

Definition in_scope (sc : scope) c (p : bplace) : Prop :=
  match sc with
  | Same_bank => p = (Rank c, Bankgroup c, Bank c)
  | Same_bankgroup => p.1 = (Rank c, Bankgroup c) ∧ p.2 ≠ Bank c
  | Same_rank => p.1.1 = Rank c ∧ p.1.2 ≠ Bankgroup c
  | Other_rank => p.1.1 ≠ Rank c
  | Whole_rank => p.1.1 = Rank c
  end.

(** The banks a command has to keep the delays of: those of its rank for a
    refresh of the rank and the entry into self refresh, else the one of its
    address. *)
Definition bank_of c (p : bplace) : Prop :=
  match cmd_type c with
  | REFRESH | SREF_ENTER => p.1.1 = Rank c
  | _ => p = (Rank c, Bankgroup c, Bank c)
  end.

(** [y] comes at least the delay of every table after [x], but for the recovery
    of a rank from the refresh of one of its banks. *)
Definition respects (x y : Command * Z) : Prop :=
  ∀ p sc d, in_range config p → bank_of y.1 p → in_scope sc x.1 p →
    (cmd_type y.1, d) ∈ table sc (cmd_type x.1) → ¬ (sc = Whole_rank ∧ cmd_type x.1 = REFRESH_BANK) →
    x.2 + d ≤ y.2.

(** [UpdateTiming] applies the tables in the positions they are for. *)
Lemma table_delays sc c p ct d :
  in_scope sc c p → (ct, d) ∈ table sc (cmd_type c) → ¬ (sc = Whole_rank ∧ cmd_type c = REFRESH_BANK) →
  (ct, d) ∈ delays_for config c p.
Proof.
  destruct p as [[i j] k]. intros Hsc Hin Hex. unfold delays_for, IsRankCMD, ct_is.
  destruct sc; simpl in Hsc.
  - injection Hsc as -> -> ->. rewrite !Z.eqb_refl. destruct (cmd_type c); try exact Hin; by apply elem_of_nil in Hin.
  - destruct Hsc as [[= -> ->] Hk]. rewrite !Z.eqb_refl, (proj2 (Z.eqb_neq k _)) by done.
    destruct (cmd_type c); try exact Hin; by apply elem_of_nil in Hin.
  - destruct Hsc as [-> Hj]. rewrite Z.eqb_refl, (proj2 (Z.eqb_neq j _)) by done.
    destruct (cmd_type c); try exact Hin; by apply elem_of_nil in Hin.
  - rewrite (proj2 (Z.eqb_neq i _)) by done. destruct (cmd_type c); try exact Hin; by apply elem_of_nil in Hin.
  - rewrite Hsc, Z.eqb_refl. destruct (cmd_type c); try exact Hin; try (by apply elem_of_nil in Hin). by destruct Hex.
Qed.

Lemma bank_of_checked c p : in_range config p → bank_of c p → p ∈ checked config c.
Proof.
  intros (_ & Hj & Hk) Hp. unfold checked, targets, IsRankCMD, ct_is, bank_of in *. unfold cplace.
  destruct (cmd_type c); simpl; try (by apply list_elem_of_singleton); by apply elem_of_rank_places.
Qed.

Lemma obeys_respects x y : obeys x y → respects x y.
Proof.
  intros Ho p sc d Hr Hp Hsc Hin Hex. apply (Ho p d); [by apply bank_of_checked|done|by eapply table_delays].
Qed.

Lemma obeys_sorted l : StronglySorted obeys l → StronglySorted respects l.
Proof.
  induction 1 as [|x l _ IH Hx]; constructor; [exact IH|].
  eapply Forall_impl; [exact Hx|]. apply obeys_respects.
Qed.

(** (C5) DRAM timing: in every trace of issued commands, each command comes at
    least the delay of the timing tables after every earlier command, for every
    pair of types and every position of its bank (any bank of its rank, for a
    refresh of the rank and the entry into self refresh): same bank, same
    bankgroup, same rank, other rank, whole rank; where the delays that apply
    are non-negative [int]s. The one exception: the recovery of the rank from a
    per-bank refresh, which the channel never waits for
    ([refresh_bank_no_recovery]). *)
Theorem no_timing_violation l t s :
  shape_ok config → delays_bounded → trace l t s → StronglySorted respects l.
Proof. intros Hsh Hdb Htr. apply obeys_sorted, (trace_invariant l t s Hsh Hdb Htr). Qed.

(** (C6) Activation windows: any five consecutive activations of a rank span at
    least tFAW and, for GDDR, any thirty-three at least t32AW. *)
Theorem activation_windows l t s r :
  shape_ok config → delays_bounded → 0 ≤ tFAW config < 2 ^ 31 → 0 ≤ t32AW config < 2 ^ 31 →
  trace l t s →
  spaced 4 (tFAW config) (acts r l) ∧ (IsGDDR config = true → spaced 32 (t32AW config) (acts r l)).
Proof.
  intros Hsh Hdb H4 H32 Htr.
  pose proof (trace_invariant l t s Hsh Hdb Htr) as [[Hw _] _ _ _ _].
  destruct (trace_windows l t s Hsh Hdb H4 H32 Htr) as [W4 W32 Wn].
  destruct (decide (0 ≤ r < ranks config)) as [Hr|Hr].
  - split.
    + destruct (zget_is_Some (four_aw_ s) r) as [a Ha]; [rewrite (cw_aw4 _ _ Hw); lia|]. by eapply W4.
    + intros HG. destruct (zget_is_Some (thirty_two_aw_ s) r) as [a Ha]; [rewrite (cw_aw32 _ _ Hw); lia|].
      by eapply W32.
  - rewrite (Wn r Hr). split; [|intros _]; intros i a b Hi; done.
Qed.

(** (C7) Issue safety: in every reachable channel, a command [GetReadyCommand]
    reports as ready is executed by [UpdateTimingAndStates] without abort or
    out-of-range access, on every bank it addresses. *)
Theorem issue_never_aborts l t s c clk rc :
  shape_ok config → delays_bounded → trace l t s → request_ok config c →
  GetReadyCommand config s c clk = ok rc → IsValid rc = true →
  ∃ s', UpdateTimingAndStates config rc clk s = ok s' ∧ chan_ok config s'.
Proof.
  intros Hsh Hdb Htr Hreq Hg Hv. destruct (trace_invariant l t s Hsh Hdb Htr) as [Hk _ _ _ _].
  pose proof (GetReadyCommand_issuable config s c clk rc Hsh Hk Hreq Hg Hv) as His.
  destruct (UpdateTimingAndStates_ok config s rc clk Hk His Hv) as (s' & ? & ? & _). eauto.
Qed.
End Traces.

(** ** What issuing a command leaves alone *)

Section Frames.
Context (config : Config).
Implicit Types (s : ChannelState) (c : Command).

Definition chan_frame s s' : Prop :=
  rank_idle_cycles s' = rank_idle_cycles s ∧ rank_is_sref_ s' = rank_is_sref_ s ∧
  refresh_q_ s' = refresh_q_ s.

Lemma chan_frame_refl s : chan_frame s s.
Proof. done. Qed.
Lemma chan_frame_trans s1 s2 s3 : chan_frame s1 s2 → chan_frame s2 s3 → chan_frame s1 s3.
Proof. unfold chan_frame. naive_solver congruence. Qed.

Lemma upd_bank_frame f p s s' : upd_bank f p s = ok s' → chan_frame s s'.
Proof. destruct p as [[i j] k]. unfold upd_bank. intros H. inv_ok. done. Qed.

(** A loop of such updates. *)
Lemma foldE_frame {A} (h : A -> ChannelState -> exc ChannelState) l s s' :
  (∀ a s1 s2, h a s1 = ok s2 → chan_frame s1 s2) → foldE h l s = ok s' → chan_frame s s'.
Proof.
  intros Hh Hf. eapply (foldE_inv (chan_frame s)); [|apply chan_frame_refl|exact Hf].
  intros a s1 s2 _ H1 H2. eapply chan_frame_trans; [exact H1|]. by eapply Hh.
Qed.

Lemma UpdateTiming_frame c clk s s' : UpdateTiming config c clk s = ok s' → chan_frame s s'.
Proof.
  assert (∀ s1 s2, (s ← UpdateSameBankTiming (addr c) (same_bank config (cmd_type c)) clk s1;
    s ← UpdateOtherBanksSameBankgroupTiming config (addr c) (other_banks_same_bankgroup config (cmd_type c)) clk s;
    s ← UpdateOtherBankgroupsSameRankTiming config (addr c) (other_bankgroups_same_rank config (cmd_type c)) clk s;
    UpdateOtherRanksTiming config (addr c) (other_ranks config (cmd_type c)) clk s) = ok s2 → chan_frame s1 s2) as Hb.
  { intros s1 s2 H. unfold UpdateSameBankTiming in H. inv_ok.
    eapply chan_frame_trans; [eapply upd_bank_frame; eassumption|].
    eapply chan_frame_trans; [eapply foldE_frame; [|eassumption]|].
    { intros k s3 s4. cbn beta iota. destruct (k =? _); [by intros [= <-]|apply upd_bank_frame]. }
    eapply chan_frame_trans; [eapply foldE_frame; [|eassumption]|].
    { intros [j k] s3 s4. cbn beta iota. destruct (j =? _); [by intros [= <-]|apply upd_bank_frame]. }
    eapply foldE_frame; [|eassumption]. intros i s3 s4. cbn beta iota. destruct (i =? _); [by intros [= <-]|].
    apply foldE_frame. intros [j k] ? ?. apply upd_bank_frame. }
  assert (∀ r s1 s2, UpdateActivationTimes config r clk s1 = ok s2 → chan_frame s1 s2) as Ha.
  { intros r s1 s2. unfold UpdateActivationTimes. intros H. inv_ok. destruct (IsGDDR config); inv_ok; done. }
  assert (∀ s1 s2, UpdateSameRankTiming config (addr c) (same_rank config (cmd_type c)) clk s1 = ok s2 → chan_frame s1 s2) as Hr.
  { intros s1 s2. apply foldE_frame. intros [j k] ? ?. apply upd_bank_frame. }
  unfold UpdateTiming. intros H. destruct (cmd_type c); try (by apply Hb in H); try (by apply Hr in H); [|done].
  apply exc_bind_ok in H as (s1 & H1 & H2). eapply chan_frame_trans; [by eapply Ha|by apply Hb in H2].
Qed.

(** Issuing a command leaves the idle counters alone, at most removes a pending
    refresh, and changes self refresh only with its own two commands. *)
Lemma UpdateTimingAndStates_frame c clk s s' :
  UpdateTimingAndStates config c clk s = ok s' →
  rank_idle_cycles s' = rank_idle_cycles s ∧ (∀ r, r ∈ refresh_q_ s' → r ∈ refresh_q_ s) ∧
  (cmd_type c ≠ SREF_ENTER → cmd_type c ≠ SREF_EXIT → rank_is_sref_ s' = rank_is_sref_ s).
Proof.
  unfold UpdateTimingAndStates. rewrite UpdateState_banks. intros H. inv_ok.
  apply UpdateTiming_frame in H as (E1 & E2 & E3).
  match goal with H : foldE _ _ _ = ok _ |- _ => apply foldE_frame in H as (F1 & F2 & F3) end.
  2:{ intros p s1 s2. apply upd_bank_frame. }
  match goal with H : after_banks _ _ = ok _ |- _ => unfold after_banks in H; rename H into Hab end.
  assert (∀ P l (r : Command), r ∈ erase_first P l → r ∈ l) as Herase.
  { intros P l r. induction l as [|c' l IH]; simpl; [done|]. destruct (P c'); set_solver. }
  rewrite E1, E2, E3. rewrite <- F1, <- F2, <- F3.
  destruct (IsRankCMD c), (IsRefresh c); repeat case_decide; inv_ok; simpl; split_and!; try done;
    intros r Hr; by apply Herase in Hr.
Qed.
End Frames.

(** ** Instances *)

Section Demo.

(** Requests presented in order; those that are ready are issued. *)
Fixpoint drive (config : Config) (l : list (Command * Z)) (s : ChannelState) (reqs : list (Command * Z))
    : exc (list (Command * Z) * ChannelState) :=
  match reqs with
  | [] => ok (l, s)
  | (c, clk) :: reqs' =>
      rc ← GetReadyCommand config s c clk;
      if IsValid rc then
        s' ← UpdateTimingAndStates config rc clk s; drive config (l ++ [(rc, clk)]) s' reqs'
      else drive config l s reqs'
  end.

Fixpoint times_ok (t : Z) (reqs : list (Command * Z)) : Prop :=
  match reqs with
  | [] => True
  | (_, clk) :: reqs' => t ≤ clk < 2 ^ 63 ∧ times_ok clk reqs'
  end.

Lemma times_ok_weaken t t' reqs : t ≤ t' → times_ok t' reqs → times_ok t reqs.
Proof. destruct reqs as [|[c clk] reqs]; simpl; [done|]. intros ? [? ?]. split; [lia|done]. Qed.

Lemma drive_trace config reqs l t s l' s' :
  trace config l t s → times_ok t reqs → Forall (fun x => request_ok config x.1) reqs →
  drive config l s reqs = ok (l', s') → ∃ t', trace config l' t' s'.
Proof.
  revert l t s. induction reqs as [|[c clk] reqs IH]; intros l t s Htr Ht Hr Hd; cbn [drive] in Hd.
  { injection Hd as <- <-. eauto. }
  destruct Ht as [Hclk Ht]. apply Forall_cons in Hr as [Hrc Hr]. inv_ok.
  destruct (IsValid x) eqn:Hv.
  - inv_ok. eapply (IH _ clk); [|done|done|done]. by eapply tr_issue.
  - eapply IH; [done| |done|done]. eapply times_ok_weaken; [|exact Ht]. lia.
Qed.

(** A row of bank (0, 1, 2). *)
Definition demo_addr (r : Z) : Address := MkAddress 0 0 1 2 r 0.
Definition demo_cmd (ct : CommandType) (r : Z) : Command := MkCommand ct (demo_addr r) 0.

Definition demo_reqs : list (Command * Z) :=
  [(demo_cmd READ 5, 0); (demo_cmd READ 5, 13); (demo_cmd READ 5, 14); (demo_cmd WRITE 5, 15);
   (demo_cmd WRITE 5, 30); (demo_cmd READ 6, 60)].

Lemma hbm2_shape : shape_ok hbm2.
Proof. split; reflexivity. Qed.

Lemma hbm2_delays : delays_bounded hbm2.
Proof.
  intros c [[i j] k] ct d Hc (Hi & _) Hin.
  assert (∀ ct, Forall (fun x => 0 ≤ x.2 < 2 ^ 31) (same_bank hbm2 ct ++ other_banks_same_bankgroup hbm2 ct ++
    other_bankgroups_same_rank hbm2 ct ++ same_rank hbm2 ct)) as Hall.
  { intros ct'. apply (bool_decide_unpack _). destruct ct'; vm_compute; exact I. }
  specialize (Hall (cmd_type c)). rewrite !Forall_app, !Forall_forall in Hall.
  destruct Hall as (H1 & H2 & H3 & H4). unfold cmd_ok, in_range in Hc. unfold delays_for in Hin.
  assert (ranks hbm2 = 1) as Hr by reflexivity. rewrite Hr in *. simpl in Hi, Hc.
  clear Hr. revert Hc Hin. destruct (IsRankCMD c); simpl; intros Hc.
  - case_match; intros Hin; [by apply H4 in Hin|by apply elem_of_nil in Hin].
  - destruct (Z.eqb_spec i (Rank c)); [|lia]. simpl. case_match; [intros Hin; by apply H3 in Hin|].
    case_match; intros Hin; [by apply H2 in Hin|by apply H1 in Hin].
Qed.

Lemma demo_request ct r : 0 ≤ r → IsRankCMD (demo_cmd ct r) = false → request_ok hbm2 (demo_cmd ct r).
Proof. intros Hr Hk. split; [unfold cmd_ok; rewrite Hk; repeat split; done|done]. Qed.

(** The trace of the requests above: ACTIVATE, READ, WRITE, PRECHARGE. *)
Definition demo_run : exc (list (Command * Z) * ChannelState) :=
  drive hbm2 [] (new_channel hbm2) demo_reqs.
Definition demo_trace : list (Command * Z) := match demo_run with ok (l, _) => l | err _ => [] end.
Definition demo_state : ChannelState :=
  match demo_run with ok (_, s) => s | err _ => new_channel hbm2 end.

Example demo_types :
  (fun x => (cmd_type x.1, x.2)) <$> demo_trace =
    [(ACTIVATE, 0); (READ, 14); (WRITE, 30); (PRECHARGE, 60)].
Proof. vm_compute. reflexivity. Qed.

Lemma demo_trace_ok : ∃ t, trace hbm2 demo_trace t demo_state.
Proof.
  apply (drive_trace hbm2 demo_reqs [] 0 (new_channel hbm2)); [constructor|simpl; lia| |vm_compute; reflexivity].
  repeat constructor; simpl; try lia; try (intros; discriminate); done.
Qed.

Lemma no_timing_violation_witness : StronglySorted (respects hbm2) demo_trace.
Proof.
  destruct demo_trace_ok as [t Ht].
  exact (no_timing_violation hbm2 demo_trace t demo_state hbm2_shape hbm2_delays Ht).
Defined.

Lemma activation_windows_witness : spaced 4 30 (acts 0 demo_trace).
Proof.
  destruct demo_trace_ok as [t Ht].
  apply (activation_windows hbm2 demo_trace t demo_state 0 hbm2_shape hbm2_delays);
    [split; [discriminate|reflexivity]|split; [discriminate|reflexivity]|exact Ht].
Defined.

Lemma issue_never_aborts_witness :
  ∃ s', UpdateTimingAndStates hbm2 (demo_cmd ACTIVATE 6) 100 demo_state = ok s' ∧ chan_ok hbm2 s'.
Proof.
  destruct demo_trace_ok as [t Ht].
  apply (issue_never_aborts hbm2 demo_trace t demo_state (demo_cmd READ 6) 100 (demo_cmd ACTIVATE 6)
    hbm2_shape hbm2_delays Ht); [apply demo_request; [discriminate|reflexivity]| |reflexivity].
  vm_compute. reflexivity.
Defined.

(** A per-bank refresh of the demo bank, as [BankNeedRefresh] queues it. *)
Definition refresh_cmd : Command := MkCommand REFRESH_BANK (MkAddress (-1) 0 1 2 (-1) (-1)) (u64 (-1)).

(** A per-bank refresh does not delay the bank it refreshes: [UpdateTiming]
    looks REFRESH_BANK up in [same_bank], which has no entry for it (the
    constructor fills [same_rank] instead), so the channel issues ACTIVATE to
    the bank in the very cycle of its refresh, where tRFCb = 20 should pass. *)
Theorem refresh_bank_no_recovery :
  tRFCb hbm2 = 20 ∧ same_rank hbm2 REFRESH_BANK ≠ [] ∧
  ∃ t s, trace hbm2 [(refresh_cmd, 0); (demo_cmd ACTIVATE 5, 0)] t s.
Proof.
  split; [reflexivity|]. split; [discriminate|].
  destruct (drive hbm2 [] (new_channel hbm2) [(refresh_cmd, 0); (demo_cmd READ 5, 0)])
    as [[l s]|] eqn:Hd; [|vm_compute in Hd; discriminate Hd].
  assert (∃ t, trace hbm2 l t s) as [t Ht].
  { eapply drive_trace; [apply tr_init| | |exact Hd]; [simpl; lia|].
    repeat constructor; simpl; try lia; done. }
  assert (l = [(refresh_cmd, 0); (demo_cmd ACTIVATE 5, 0)]) as <-
    by (vm_compute in Hd; injection Hd as <- _; reflexivity).
  eauto.
Qed.
End Demo.
