(* ===== verification/Stats.v ===== *)
(** * Statistics counters (DRAMsim3-master/src/simple_stats.h, simple_stats.cc)

    Named counters, per-rank counters and value histograms of the current
    epoch, and the totals they are added to at the end of an epoch; energies,
    averages and printed reports are in [Report]. The theorems: no increment,
    of a counter or of a rank, and no sample is lost or counted twice across
    epochs, and every sample of a histogram falls into exactly one of its bins. *)

From Stdlib Require Import ZArith Lia String.
From stdpp Require Import strings gmap numbers option list.
From S2P Require Import Prelude.

(** [class SimpleStats]; the hash maps are finite maps. *)
Record SimpleStats := MkStats {
  counters_ : gmap string Z;
  epoch_counters_ : gmap string Z;
  vec_counters_ : gmap string (list Z);
  epoch_vec_counters_ : gmap string (list Z);
  bin_widths_ : gmap string Z;
  histo_bounds_ : gmap string (Z * Z);
  histo_counts_ : gmap string (gmap Z Z);
  epoch_histo_counts_ : gmap string (gmap Z Z);
  histo_bins_ : gmap string (list Z);
  epoch_histo_bins_ : gmap string (list Z)
}.

Definition st_counters (t e : gmap string Z) (s : SimpleStats) : SimpleStats :=
  MkStats t e (vec_counters_ s) (epoch_vec_counters_ s) (bin_widths_ s) (histo_bounds_ s)
          (histo_counts_ s) (epoch_histo_counts_ s) (histo_bins_ s) (epoch_histo_bins_ s).
Definition st_vecs (t e : gmap string (list Z)) (s : SimpleStats) : SimpleStats :=
  MkStats (counters_ s) (epoch_counters_ s) t e (bin_widths_ s) (histo_bounds_ s)
          (histo_counts_ s) (epoch_histo_counts_ s) (histo_bins_ s) (epoch_histo_bins_ s).
Definition st_histo (t e : gmap string (gmap Z Z)) (tb eb : gmap string (list Z)) (s : SimpleStats) : SimpleStats :=
  MkStats (counters_ s) (epoch_counters_ s) (vec_counters_ s) (epoch_vec_counters_ s)
          (bin_widths_ s) (histo_bounds_ s) t e tb eb.

(** [map.emplace(k, v)] keeps a present entry. *)
Definition emplace {A} (k : string) (v : A) (m : gmap string A) : gmap string A :=
  match m !! k with Some _ => m | None => <[k := v]> m end.

(** [InitStat(name, type, ...)] for a counter. *)
Definition InitStat (name : string) (s : SimpleStats) : SimpleStats :=
  st_counters (emplace name 0 (counters_ s)) (emplace name 0 (epoch_counters_ s)) s.

(** [InitVecStat] for a vector of counters. *)
Definition InitVecStat (name : string) (n : Z) (s : SimpleStats) : SimpleStats :=
  let v := replicate (Z.to_nat n) 0 in
  st_vecs (emplace name v (vec_counters_ s)) (emplace name v (epoch_vec_counters_ s)) s.

(** [InitHistoStat(name, ..., start_val, end_val, num_bins)]: one bin below, one
    above the range. *)
Definition InitHistoStat (name : string) (start_val end_val num_bins : Z) (s : SimpleStats) : SimpleStats :=
  let bins := replicate (Z.to_nat (num_bins + 2)) 0 in
  MkStats (counters_ s) (epoch_counters_ s) (vec_counters_ s) (epoch_vec_counters_ s)
          (emplace name (Z.quot (end_val - start_val) num_bins) (bin_widths_ s))
          (emplace name (start_val, end_val) (histo_bounds_ s))
          (emplace name ∅ (histo_counts_ s)) (emplace name ∅ (epoch_histo_counts_ s))
          (emplace name bins (histo_bins_ s)) (emplace name bins (epoch_histo_bins_ s)).

Definition counter_names : list string :=
  ["num_cycles"; "epoch_num"; "num_reads_done"; "num_writes_done"; "num_write_buf_hits";
   "num_read_row_hits"; "num_write_row_hits"; "num_read_cmds"; "num_write_cmds"; "num_act_cmds";
   "num_pre_cmds"; "num_ondemand_pres"; "num_ref_cmds"; "num_refb_cmds"; "num_srefe_cmds";
   "num_srefx_cmds"; "hbm_dual_cmds"]%string.
Definition vec_names : list string :=
  ["all_bank_idle_cycles"; "rank_active_cycles"; "sref_cycles"]%string.

(** [SimpleStats::SimpleStats(config, channel_id)]: first the counters, then the
    vectors and the histograms. *)
Definition counter_stats : SimpleStats :=
  foldl (fun s n => InitStat n s) (MkStats ∅ ∅ ∅ ∅ ∅ ∅ ∅ ∅ ∅ ∅) counter_names.
Definition new_stats (nranks : Z) : SimpleStats :=
  InitHistoStat "interarrival_latency" 0 100 10
    (InitHistoStat "write_latency" 0 200 10
      (InitHistoStat "read_latency" 0 200 10
        (foldl (fun s n => InitVecStat n nranks s) counter_stats vec_names))).

(** [Increment(name)]: [operator[]] creates a missing counter. *)
Definition Increment (name : string) (s : SimpleStats) : SimpleStats :=
  st_counters (counters_ s)
    (partial_alter (fun o => Some (u64 (default 0 o + 1))) name (epoch_counters_ s)) s.

(** [IncrementVecBy(name, pos, num)] and [IncrementVec(name, pos)]. A position
    outside the vector (undefined behaviour) changes nothing; the controller
    passes rank indices. *)
Definition IncrementVecBy (name : string) (pos num : Z) (s : SimpleStats) : SimpleStats :=
  st_vecs (vec_counters_ s)
    (alter (fun v => match zget v pos with Some x => zset v pos (u64 (x + num)) | None => v end)
           name (epoch_vec_counters_ s)) s.
Definition IncrementVec (name : string) (pos : Z) : SimpleStats -> SimpleStats :=
  IncrementVecBy name pos 1.

(** [AddValue(name, value)]; the value is converted to [int]. *)
Definition AddValue (name : string) (value : Z) (s : SimpleStats) : SimpleStats :=
  st_histo (histo_counts_ s)
    (partial_alter (fun o =>
       Some (partial_alter (fun c => Some (match c with None => 1 | Some k => u64 (k + 1) end))
                           (i32 value) (default ∅ o)))
       name (epoch_histo_counts_ s))
    (histo_bins_ s) (epoch_histo_bins_ s) s.

(** [UpdateCounters()]: the epoch's counts are added to the totals. *)
Definition UpdateCounters (s : SimpleStats) : SimpleStats :=
  st_vecs
    (merge (fun t e => match e with Some v => Some (zip_with (fun a b => u64 (a + b)) (default [] t) v) | None => t end)
           (vec_counters_ s) (epoch_vec_counters_ s))
    (epoch_vec_counters_ s)
    (st_counters
      (merge (fun t e => match e with Some v => Some (u64 (default 0 t + v)) | None => t end)
             (counters_ s) (epoch_counters_ s))
      (epoch_counters_ s) s).

(** The bin of a value in a histogram of [n] bins. *)
Definition bin_idx (bounds : Z * Z) (width : Z) (n : nat) (value : Z) : Z :=
  if value <? bounds.1 then 0
  else if bounds.2 <? value then Z.of_nat n - 1
  else Z.quot (value - bounds.1) width + 1.

(** [bins[i] += c]. *)
Definition bin_add (i c : Z) (bins : list Z) : list Z :=
  match zget bins i with Some x => zset bins i (u64 (x + c)) | None => bins end.

(** The bins of a list of values with their counts. *)
Definition fill_bins (bounds : Z * Z) (width : Z) (counts : list (Z * Z)) (bins : list Z) : list Z :=
  foldr (fun vc b => bin_add (bin_idx bounds width (length bins) vc.1) vc.2 b) bins counts.

(** [UpdateHistoBins()]. *)
Definition UpdateHistoBins (s : SimpleStats) : SimpleStats :=
  let eb := map_imap (fun name bins =>
              Some (fill_bins (default (0, 0) (histo_bounds_ s !! name)) (default 0 (bin_widths_ s !! name))
                      (map_to_list (default ∅ (epoch_histo_counts_ s !! name)))
                      (replicate (length bins) 0)))
              (epoch_histo_bins_ s) in
  st_histo
    (merge (fun t e => match e with
                       | Some v => Some (union_with (fun a b => Some (u64 (a + b))) (default ∅ t) v)
                       | None => t end)
           (histo_counts_ s) (epoch_histo_counts_ s))
    (epoch_histo_counts_ s)
    (map_imap (fun name bins =>
       Some (match epoch_histo_counts_ s !! name with
             | Some _ => zip_with (fun a b => u64 (a + b)) bins (default [] (eb !! name))
             | None => bins end)) (histo_bins_ s))
    eb s.

(** [UpdateEpochStats()]: totals, bins, and a fresh epoch. *)
Definition UpdateEpochStats (s : SimpleStats) : SimpleStats :=
  let s := UpdateHistoBins (UpdateCounters s) in
  st_histo (histo_counts_ s) ((fun _ => ∅) <$> epoch_histo_counts_ s) (histo_bins_ s) (epoch_histo_bins_ s)
    (st_vecs (vec_counters_ s) ((fun v : list Z => replicate (length v) 0) <$> epoch_vec_counters_ s)
      (st_counters (counters_ s) ((fun _ => 0) <$> epoch_counters_ s) s)).

(** [UpdateFinalStats()]. *)
Definition UpdateFinalStats (s : SimpleStats) : SimpleStats := UpdateHistoBins (UpdateCounters s).

(** [Reset()], on the counters. *)
Definition Reset (s : SimpleStats) : SimpleStats :=
  let zeros (v : list Z) := replicate (length v) 0 in
  st_histo ((fun _ => ∅) <$> histo_counts_ s) ((fun _ => ∅) <$> epoch_histo_counts_ s)
           (histo_bins_ s) (epoch_histo_bins_ s)
    (st_vecs (zeros <$> vec_counters_ s) (zeros <$> epoch_vec_counters_ s)
      (st_counters ((fun _ => 0) <$> counters_ s) ((fun _ => 0) <$> epoch_counters_ s) s)).

(** ** Counters across epochs *)

Section Totals.
Implicit Types (s : SimpleStats) (n : string).

(** What a run does to a counter. *)
Inductive stat_op := St_incr (n : string) | St_vec (n : string) (pos num : Z) | St_sample (n : string) (v : Z) | St_epoch.
Definition stat_step s (o : stat_op) : SimpleStats :=
  match o with
  | St_incr n => Increment n s
  | St_vec n pos num => IncrementVecBy n pos num s
  | St_sample n v => AddValue n v s
  | St_epoch => UpdateEpochStats s
  end.
Fixpoint increments n (ops : list stat_op) : Z :=
  match ops with
  | [] => 0
  | St_incr m :: ops' => (if decide (m = n) then 1 else 0) + increments n ops'
  | _ :: ops' => increments n ops'
  end.

Definition total n s : Z := u64 (default 0 (counters_ s !! n) + default 0 (epoch_counters_ s !! n)).

Lemma u64_add_l a b : u64 (u64 a + b) = u64 (a + b).
Proof. unfold u64. apply Zplus_mod_idemp_l. Qed.
Lemma u64_add_r a b : u64 (a + u64 b) = u64 (a + b).
Proof. unfold u64. apply Zplus_mod_idemp_r. Qed.
Lemma u64_u64 a : u64 (u64 a) = u64 a.
Proof. unfold u64. apply Zmod_mod. Qed.

Lemma UpdateCounters_lookup n s :
  counters_ (UpdateCounters s) !! n =
    match epoch_counters_ s !! n with
    | Some v => Some (u64 (default 0 (counters_ s !! n) + v))
    | None => counters_ s !! n
    end.
Proof.
  unfold UpdateCounters. simpl. rewrite lookup_merge.
  destruct (counters_ s !! n), (epoch_counters_ s !! n); done.
Qed.

Lemma total_step n s o :
  total n (stat_step s o) = u64 (total n s + increments n [o]).
Proof.
  unfold total. rewrite u64_add_l. destruct o as [m|m i v|m v|]; cbn [increments stat_step].
  - unfold Increment. simpl. case_decide as Hm; [subst m; rewrite lookup_partial_alter_eq|rewrite lookup_partial_alter_ne by done].
    + simpl. rewrite u64_add_r. f_equal. lia.
    + f_equal. lia.
  - simpl. f_equal. lia.
  - simpl. f_equal. lia.
  - change (counters_ (UpdateEpochStats s)) with (counters_ (UpdateCounters s)).
    change (epoch_counters_ (UpdateEpochStats s)) with ((fun _ : Z => 0) <$> epoch_counters_ s).
    rewrite UpdateCounters_lookup, lookup_fmap.
    destruct (epoch_counters_ s !! n); simpl; rewrite ?Z.add_0_r, ?u64_u64; done.
Qed.

Lemma total_run n ops s : total n (foldl stat_step s ops) = u64 (total n s + increments n ops).
Proof.
  revert s. induction ops as [|o ops IH]; intros s; simpl.
  - rewrite Z.add_0_r. unfold total. by rewrite u64_u64.
  - rewrite IH, total_step, u64_add_l. f_equal. destruct o; simpl; lia.
Qed.

Lemma new_stats_counters nranks :
  counters_ (new_stats nranks) = counters_ counter_stats ∧
  epoch_counters_ (new_stats nranks) = epoch_counters_ counter_stats.
Proof. done. Qed.

Lemma new_stats_zero n nranks :
  n ∈ counter_names → is_Some (epoch_counters_ (new_stats nranks) !! n) ∧ total n (new_stats nranks) = 0.
Proof.
  unfold total. destruct (new_stats_counters nranks) as [-> ->]. intros Hn.
  assert (Forall (fun n => counters_ counter_stats !! n = Some 0 ∧ epoch_counters_ counter_stats !! n = Some 0) counter_names) as Hall.
  { apply (bool_decide_unpack _). vm_compute. exact I. }
  rewrite Forall_forall in Hall. destruct (Hall n Hn) as [-> ->]. split; [by eexists|done].
Qed.

Lemma epoch_counter_kept n ops s :
  is_Some (epoch_counters_ s !! n) → is_Some (epoch_counters_ (foldl stat_step s ops) !! n).
Proof.
  revert s. induction ops as [|o ops IH]; intros s Hi; [done|]. simpl. apply IH. destruct o as [m|m i v|m v|]; simpl.
  - destruct (decide (m = n)) as [->|]; [rewrite lookup_partial_alter_eq; by eexists|by rewrite lookup_partial_alter_ne].
  - done.
  - done.
  - rewrite lookup_fmap. by apply fmap_is_Some.
Qed.

(** The final value of a registered counter. *)
Lemma final_counter n nranks ops :
  n ∈ counter_names →
  counters_ (UpdateFinalStats (foldl stat_step (new_stats nranks) ops)) !! n = Some (u64 (increments n ops)).
Proof.
  intros Hn. set (s := foldl stat_step (new_stats nranks) ops).
  change (counters_ (UpdateFinalStats s)) with (counters_ (UpdateCounters s)).
  destruct (new_stats_zero n nranks Hn) as [Hi H0]. destruct (epoch_counter_kept n ops _ Hi) as [e He]. fold s in He.
  pose proof (total_run n ops (new_stats nranks)) as Ht. fold s in Ht. rewrite H0 in Ht.
  rewrite UpdateCounters_lookup, He. unfold total in Ht. rewrite He in Ht. simpl in Ht. by rewrite Ht.
Qed.

(** The totals are exact: whatever increments, samples and epoch ends a
    run makes, the final value of a registered counter is the number of its
    increments, modulo [2^64]. *)
Theorem stats_count_exact n nranks ops :
  n ∈ counter_names →
  counters_ (UpdateFinalStats (foldl stat_step (new_stats nranks) ops)) !! n = Some (u64 (increments n ops)).
Proof. apply final_counter. Qed.
End Totals.

(** ** Histograms *)

Section Histograms.
Implicit Types (b : list Z).

Definition sum (l : list Z) : Z := foldr Z.add 0 l.

Lemma bin_idx_range lo hi w n v :
  0 < w → 0 ≤ hi - lo → (hi - lo) / w + 2 ≤ Z.of_nat n → 0 ≤ bin_idx (lo, hi) w n v < Z.of_nat n.
Proof.
  intros Hw Hl Hn. unfold bin_idx. simpl. pose proof (Z.div_pos (hi - lo) w Hl Hw).
  destruct (Z.ltb_spec v lo); [lia|]. destruct (Z.ltb_spec hi v); [lia|].
  rewrite Z.quot_div_nonneg by lia. pose proof (Z.div_pos (v - lo) w ltac:(lia) Hw).
  pose proof (Z.div_le_mono (v - lo) (hi - lo) w Hw ltac:(lia)). lia.
Qed.

Lemma sum_insert b (i : nat) x : (i < length b)%nat → sum (<[i := x]> b) = sum b - default 0 (b !! i) + x.
Proof.
  revert i. induction b as [|y b IH]; intros [|i] Hi; simpl in *; try lia.
  unfold sum in *. simpl. rewrite IH by lia. lia.
Qed.

Lemma length_bin_add i c b : length (bin_add i c b) = length b.
Proof. unfold bin_add. destruct (zget b i); [apply length_zset|done]. Qed.

Lemma sum_bin_add i c b : 0 ≤ i < Z.of_nat (length b) → u64 (sum (bin_add i c b)) = u64 (sum b + c).
Proof.
  intros Hi. unfold bin_add. destruct (zget_is_Some b i Hi) as [x Hx]. rewrite Hx.
  apply zget_Some in Hx as [_ Hx]. unfold zset. destruct (Z.ltb_spec i 0); [lia|].
  rewrite sum_insert by lia. rewrite Hx. simpl. rewrite u64_add_r. f_equal. lia.
Qed.

Lemma sum_zeros n : sum (replicate n 0) = 0.
Proof. induction n as [|n IH]; [done|]. exact IH. Qed.

Lemma fill_bins_sum lo hi w counts b :
  0 < w → 0 ≤ hi - lo → (hi - lo) / w + 2 ≤ Z.of_nat (length b) →
  length (fill_bins (lo, hi) w counts b) = length b ∧
  u64 (sum (fill_bins (lo, hi) w counts b)) = u64 (sum b + sum counts.*2).
Proof.
  intros Hw Hl Hn. unfold fill_bins. induction counts as [|[v c] counts [IHl IHs]]; simpl.
  - split; [done|]. f_equal. lia.
  - rewrite length_bin_add. split; [done|]. rewrite sum_bin_add by (rewrite IHl; by apply bin_idx_range).
    rewrite <- u64_add_l, IHs, u64_add_l. f_equal.
    unfold fmap. lia.
Qed.

(** Every sample of an epoch is in exactly one bin: for a registered
    histogram no value leaves the array of bins, and after [UpdateHistoBins] the
    bins of the epoch add up to its samples. *)
Theorem histogram_complete s name lo hi w bins counts :
  histo_bounds_ s !! name = Some (lo, hi) → bin_widths_ s !! name = Some w →
  epoch_histo_bins_ s !! name = Some bins → epoch_histo_counts_ s !! name = Some counts →
  0 < w → lo ≤ hi → (hi - lo) / w + 2 ≤ Z.of_nat (length bins) →
  (∀ v, 0 ≤ bin_idx (lo, hi) w (length bins) v < Z.of_nat (length bins)) ∧
  ∃ bins', epoch_histo_bins_ (UpdateHistoBins s) !! name = Some bins' ∧ length bins' = length bins ∧
    u64 (sum bins') = u64 (sum (map_to_list counts).*2).
Proof.
  intros Hb Hwd Hbi Hc Hw Hl Hn. split; [intros v; apply bin_idx_range; lia|].
  pose proof (sum_zeros (length bins)) as Hz.
  destruct (fill_bins_sum lo hi w (map_to_list counts) (replicate (length bins) 0) Hw ltac:(lia)) as [Hlen Hsum];
    [by rewrite length_replicate|].
  exists (fill_bins (lo, hi) w (map_to_list counts) (replicate (length bins) 0)). split_and!.
  - unfold UpdateHistoBins. cbn [epoch_histo_bins_ st_histo]. rewrite map_lookup_imap, Hbi. simpl. by rewrite Hb, Hwd, Hc.
  - by rewrite Hlen, length_replicate.
  - by rewrite Hsum, Hz, Z.add_0_l.
Qed.
End Histograms.

(** ** Vectors and histograms across epochs *)

Section Vectors.
Implicit Types (s : SimpleStats) (n : string).

(** The increments of one element; those behind the end of the vector do nothing. *)
Fixpoint vec_increments n (pos : Z) (ops : list stat_op) : Z :=
  match ops with
  | [] => 0
  | St_vec m i num :: ops' => (if decide (m = n ∧ i = pos) then num else 0) + vec_increments n pos ops'
  | _ :: ops' => vec_increments n pos ops'
  end.

(** Total and epoch vector of a registered name are as long as there are ranks. *)
Definition vec_sized n nranks s : Prop :=
  ∃ t e, vec_counters_ s !! n = Some t ∧ epoch_vec_counters_ s !! n = Some e ∧
    length t = Z.to_nat nranks ∧ length e = Z.to_nat nranks.
Definition vec_total n (pos : Z) s : Z :=
  u64 (default 0 (vec_counters_ s !! n ≫= fun v => zget v pos) + default 0 (epoch_vec_counters_ s !! n ≫= fun v => zget v pos)).

Lemma zget_zset (l : list Z) i j x :
  is_Some (zget l i) → zget (zset l i x) j = if decide (i = j) then Some x else zget l j.
Proof.
  intros [y Hy]. pose proof (zget_lt _ _ _ Hy) as Hi. unfold zget, zset. destruct (Z.ltb_spec i 0); [lia|].
  destruct (Z.ltb_spec j 0); [by case_decide; [lia|]|]. case_decide as Hij.
  - subst j. apply list_lookup_insert_eq. lia.
  - apply list_lookup_insert_ne. lia.
Qed.

Lemma zget_zip (t e : list Z) i :
  length t = length e →
  zget (zip_with (fun a b => u64 (a + b)) t e) i = (x ← zget t i; y ← zget e i; Some (u64 (x + y))).
Proof.
  intros _. unfold zget. destruct (i <? 0); [done|]. rewrite lookup_zip_with.
  by destruct (t !! Z.to_nat i); [destruct (e !! Z.to_nat i)|].
Qed.

Lemma vec_step n pos nranks s o :
  vec_sized n nranks s → 0 ≤ pos < nranks →
  vec_sized n nranks (stat_step s o) ∧ vec_total n pos (stat_step s o) = u64 (vec_total n pos s + vec_increments n pos [o]).
Proof.
  intros (t & e & Ht & He & Hlt & Hle) Hpos. unfold vec_total. rewrite Ht, He, u64_add_l. cbn [mbind option_bind].
  destruct (zget_is_Some t pos ltac:(lia)) as [x Hx]. destruct (zget_is_Some e pos ltac:(lia)) as [y Hy].
  destruct o as [m|m i num|m v|]; cbn [stat_step vec_increments]; rewrite ?Z.add_0_r.
  - split; [by exists t, e|]. unfold Increment. simpl. by rewrite Ht, He.
  - unfold IncrementVecBy, vec_sized. simpl. rewrite Ht. destruct (decide (m = n)) as [->|Hm].
    2:{ rewrite lookup_alter_ne, He by done. split; [by exists t, e|]. case_decide; [naive_solver|]. simpl. f_equal. lia. }
    rewrite lookup_alter_eq, He. cbn [fmap option_fmap option_map mbind option_bind]. destruct (zget e i) as [z|] eqn:Ez.
    + split; [exists t, (zset e i (u64 (z + num))); by rewrite length_zset|]. rewrite zget_zset by (by eexists). rewrite Hx.
      case_decide as Hi; case_decide as Hm; try naive_solver.
      * subst i. rewrite Ez in Hy. injection Hy as ->. rewrite Ez. simpl. rewrite u64_add_r. f_equal. lia.
      * rewrite Hy. simpl. f_equal. lia.
    + split; [by exists t, e|]. rewrite Hx, Hy. simpl. case_decide as Hm; [destruct Hm as [_ ->]; congruence|]. f_equal. lia.
  - split; [by exists t, e|]. unfold AddValue. simpl. by rewrite Ht, He.
  - unfold UpdateEpochStats, vec_sized. simpl. rewrite lookup_merge, Ht, He, lookup_fmap, He. simpl.
    split; [eexists _, _; split; [done|]; split; [done|]; rewrite length_zip_with, length_replicate; lia|].
    rewrite zget_zip by lia. rewrite Hx, Hy. simpl.
    assert (zget (replicate (length e) 0) pos = Some 0) as ->
      by (apply zget_Some; split; [lia|apply lookup_replicate; split; [done|lia]]).
    simpl. by rewrite Z.add_0_r, u64_u64.
Qed.

Lemma vec_run n pos nranks ops s :
  vec_sized n nranks s → 0 ≤ pos < nranks →
  vec_sized n nranks (foldl stat_step s ops) ∧
  vec_total n pos (foldl stat_step s ops) = u64 (vec_total n pos s + vec_increments n pos ops).
Proof.
  intros Hs Hpos. revert s Hs. induction ops as [|o ops IH]; intros s Hs; simpl.
  - rewrite Z.add_0_r. unfold vec_total. by rewrite u64_u64.
  - destruct (vec_step n pos nranks s o Hs Hpos) as [Hs' Ht]. destruct (IH _ Hs') as [Hs'' Ht']. split; [done|].
    rewrite Ht', Ht, u64_add_l. f_equal. destruct o; simpl; lia.
Qed.

Lemma new_stats_vec n nranks :
  n ∈ vec_names → vec_counters_ (new_stats nranks) !! n = Some (replicate (Z.to_nat nranks) 0) ∧
    epoch_vec_counters_ (new_stats nranks) !! n = Some (replicate (Z.to_nat nranks) 0).
Proof.
  intros Hn. set (v := replicate (Z.to_nat nranks) 0).
  assert (vec_counters_ (new_stats nranks) = foldl (fun m k => emplace k v m) ∅ vec_names ∧
    epoch_vec_counters_ (new_stats nranks) = foldl (fun m k => emplace k v m) ∅ vec_names) as [-> ->] by done.
  unfold vec_names, emplace in *. clearbody v. simpl.
  repeat (apply elem_of_cons in Hn as [->|Hn]; [by split|]). by apply elem_of_nil in Hn.
Qed.

Lemma final_tables s :
  vec_counters_ (UpdateFinalStats s) = vec_counters_ (UpdateCounters s) ∧
  histo_counts_ (UpdateFinalStats s) = histo_counts_ (UpdateHistoBins (UpdateCounters s)).
Proof. done. Qed.

(** The final value of an element of a registered vector. *)
Lemma final_vec n nranks pos ops :
  n ∈ vec_names → 0 ≤ pos < nranks →
  ∃ v, vec_counters_ (UpdateFinalStats (foldl stat_step (new_stats nranks) ops)) !! n = Some v ∧
    length v = Z.to_nat nranks ∧ zget v pos = Some (u64 (vec_increments n pos ops)).
Proof.
  intros Hn Hpos. destruct (new_stats_vec n nranks Hn) as [Ht0 He0]. revert Ht0 He0. generalize (new_stats nranks). intros s0 Ht0 He0.
  assert (zget (replicate (Z.to_nat nranks) 0) pos = Some 0) as Hz
    by (apply zget_Some; split; [lia|apply lookup_replicate; split; [done|lia]]).
  destruct (vec_run n pos nranks ops s0) as [(t & e & Ht & He & Hlt & Hle) Htot]; [|done|].
  { eexists _, _. split; [exact Ht0|]. split; [exact He0|]. by rewrite length_replicate. }
  rewrite (proj1 (final_tables _)). generalize dependent (foldl stat_step s0 ops). intros s Ht He Htot.
  unfold UpdateCounters. simpl. rewrite lookup_merge, Ht, He. eexists. split; [reflexivity|]. simpl.
  split; [rewrite length_zip_with; lia|]. rewrite zget_zip by lia.
  destruct (zget_is_Some t pos ltac:(lia)) as [x Hx]. destruct (zget_is_Some e pos ltac:(lia)) as [y Hy]. rewrite Hx, Hy. simpl.
  unfold vec_total in Htot. rewrite Ht, He, Ht0, He0 in Htot. cbn [mbind option_bind] in Htot. rewrite Hx, Hy, Hz in Htot.
  simpl in Htot. rewrite Htot. done.
Qed.
End Vectors.

Section Samples.
Implicit Types (s : SimpleStats) (n : string) (m : gmap Z Z) (w : Z -> Z).

(** A weighted sum over the samples of a histogram. *)
Definition wsum w m : Z := map_fold (fun v c a => a + w v * c) 0 m.
Fixpoint samples n w (ops : list stat_op) : Z :=
  match ops with
  | [] => 0
  | St_sample k v :: ops' => (if decide (k = n) then w (i32 v) else 0) + samples n w ops'
  | _ :: ops' => samples n w ops'
  end.

Lemma wsum_insert_new w m v c : m !! v = None → wsum w (<[v := c]> m) = wsum w m + w v * c.
Proof. intros Hm. unfold wsum. rewrite map_fold_insert_L; [done| |done]. intros. lia. Qed.
Lemma wsum_delete w m v : wsum w (delete v m) = wsum w m - w v * default 0 (m !! v).
Proof.
  destruct (m !! v) as [c|] eqn:Hm; [|rewrite delete_id by done; simpl; lia].
  rewrite <- (insert_delete_id m v c Hm) at 2. rewrite wsum_insert_new by apply lookup_delete_eq. simpl. lia.
Qed.
Lemma wsum_insert w m v c : wsum w (<[v := c]> m) = wsum w m + w v * (c - default 0 (m !! v)).
Proof. rewrite <- insert_delete_eq, wsum_insert_new by apply lookup_delete_eq. rewrite wsum_delete. lia. Qed.

Lemma u64_weight (k a b c : Z) : u64 (c + k * (u64 a - b)) = u64 (c + k * (a - b)).
Proof.
  rewrite <- (u64_add_r c), <- (u64_add_r c (k * (a - b))). do 2 f_equal. unfold u64.
  by rewrite <- Zmult_mod_idemp_r, Zminus_mod_idemp_l, Zmult_mod_idemp_r.
Qed.

Lemma wsum_union w m1 m2 :
  u64 (wsum w (union_with (fun a b => Some (u64 (a + b))) m1 m2)) = u64 (wsum w m1 + wsum w m2).
Proof.
  induction m2 as [|v c m2 Hv IH] using map_ind.
  - rewrite (right_id_L ∅ (union_with _)). f_equal. unfold wsum at 3. rewrite map_fold_empty. lia.
  - assert (union_with (fun a b => Some (u64 (a + b))) m1 (<[v := c]> m2) =
      <[v := match m1 !! v with Some y => u64 (y + c) | None => c end]> (union_with (fun a b => Some (u64 (a + b))) m1 m2)) as ->.
    { apply map_eq. intros i. rewrite lookup_union_with. destruct (decide (v = i)) as [->|Hi].
      - rewrite !lookup_insert_eq. by destruct (m1 !! i).
      - rewrite !lookup_insert_ne, lookup_union_with by done. done. }
    rewrite wsum_insert, (wsum_insert_new w m2) by done. rewrite lookup_union_with, Hv.
    transitivity (u64 (wsum w (union_with (fun a b => Some (u64 (a + b))) m1 m2) + w v * c)).
    + destruct (m1 !! v) as [y|]; simpl; [rewrite u64_weight|]; f_equal; lia.
    + rewrite <- u64_add_l, IH, u64_add_l. f_equal. lia.
Qed.

Definition wtotal n w s : Z :=
  u64 (default 0 (wsum w <$> histo_counts_ s !! n) + default 0 (wsum w <$> epoch_histo_counts_ s !! n)).
Definition has_histo n s : Prop := is_Some (histo_counts_ s !! n) ∧ is_Some (epoch_histo_counts_ s !! n).

Lemma AddValue_sum w m v :
  u64 (wsum w (partial_alter (fun c => Some (match c with None => 1 | Some k => u64 (k + 1) end)) v m)) = u64 (wsum w m + w v).
Proof.
  assert (partial_alter (fun c => Some (match c with None => 1 | Some k => u64 (k + 1) end)) v m =
    <[v := match m !! v with None => 1 | Some k => u64 (k + 1) end]> m) as ->.
  { apply map_eq. intros i. destruct (decide (v = i)) as [->|Hi]; [by rewrite lookup_partial_alter_eq, lookup_insert_eq|].
    by rewrite lookup_partial_alter_ne, lookup_insert_ne. }
  rewrite wsum_insert. destruct (m !! v) as [k|]; simpl; [rewrite u64_weight|]; f_equal; lia.
Qed.

Lemma UpdateHistoBins_counts n s h e :
  histo_counts_ s !! n = Some h → epoch_histo_counts_ s !! n = Some e →
  histo_counts_ (UpdateHistoBins s) !! n = Some (union_with (fun a b => Some (u64 (a + b))) h e).
Proof. intros Hh He. unfold UpdateHistoBins. simpl. by rewrite lookup_merge, Hh, He. Qed.

Lemma samples_step n w s o :
  has_histo n s → has_histo n (stat_step s o) ∧ wtotal n w (stat_step s o) = u64 (wtotal n w s + samples n w [o]).
Proof.
  intros [[h Hh] [e He]]. unfold wtotal, has_histo. rewrite Hh, He, u64_add_l. simpl.
  destruct o as [m|m i num|m v|]; cbn [stat_step samples]; rewrite ?Z.add_0_r.
  - simpl. by rewrite Hh, He.
  - simpl. by rewrite Hh, He.
  - unfold AddValue. simpl. rewrite Hh. split; [split; [done|]|].
    + destruct (decide (m = n)) as [->|]; [rewrite lookup_partial_alter_eq; by eexists|by rewrite lookup_partial_alter_ne, He by done].
    + case_decide as Hm; [subst m; rewrite lookup_partial_alter_eq, He|rewrite lookup_partial_alter_ne, He by done; simpl; f_equal; lia].
      simpl. rewrite <- u64_add_r, AddValue_sum, u64_add_r. f_equal. lia.
  - change (histo_counts_ (UpdateEpochStats s)) with (histo_counts_ (UpdateHistoBins (UpdateCounters s))).
    rewrite (UpdateHistoBins_counts n (UpdateCounters s) h e Hh He).
    assert (epoch_histo_counts_ (UpdateEpochStats s) !! n = Some ∅) as -> by (simpl; by rewrite lookup_fmap, He).
    split; [done|]. simpl. unfold wsum at 2. by rewrite map_fold_empty, Z.add_0_r, wsum_union.
Qed.

Lemma samples_run n w ops s :
  has_histo n s →
  has_histo n (foldl stat_step s ops) ∧ wtotal n w (foldl stat_step s ops) = u64 (wtotal n w s + samples n w ops).
Proof.
  revert s. induction ops as [|o ops IH]; intros s Hs; simpl.
  - rewrite Z.add_0_r. unfold wtotal. by rewrite u64_u64.
  - destruct (samples_step n w s o Hs) as [Hs' Ht]. destruct (IH _ Hs') as [Hs'' Ht']. split; [done|].
    rewrite Ht', Ht, u64_add_l. f_equal. destruct o; simpl; lia.
Qed.

Definition histo_names : list string := ["read_latency"; "write_latency"; "interarrival_latency"]%string.

(** The final histogram of a registered name holds every sample of the run. *)
Lemma final_samples n w nranks ops :
  n ∈ histo_names →
  ∃ m, histo_counts_ (UpdateFinalStats (foldl stat_step (new_stats nranks) ops)) !! n = Some m ∧
    u64 (wsum w m) = u64 (samples n w ops).
Proof.
  intros Hn. assert (histo_counts_ (new_stats nranks) !! n = Some ∅ ∧ epoch_histo_counts_ (new_stats nranks) !! n = Some ∅) as [Hh0 He0].
  { assert (histo_counts_ (new_stats nranks) = foldl (fun (t : gmap string (gmap Z Z)) k => emplace k ∅ t) ∅ histo_names ∧
      epoch_histo_counts_ (new_stats nranks) = foldl (fun (t : gmap string (gmap Z Z)) k => emplace k ∅ t) ∅ histo_names) as [-> ->] by done.
    unfold histo_names in *. repeat (apply elem_of_cons in Hn as [->|Hn]; [by split|]). by apply elem_of_nil in Hn. }
  revert Hh0 He0. generalize (new_stats nranks). intros s0 Hh0 He0.
  destruct (samples_run n w ops s0) as [[[h Hh] [e He]] Ht]; [split; by eexists|].
  rewrite (proj2 (final_tables _)). generalize dependent (foldl stat_step s0 ops). intros s Hh He Ht.
  rewrite (UpdateHistoBins_counts n (UpdateCounters s) h e Hh He). eexists. split; [reflexivity|].
  unfold wtotal in Ht. rewrite Hh, He, Hh0, He0 in Ht. simpl in Ht. unfold wsum at 3 4 in Ht. rewrite map_fold_empty in Ht.
  by rewrite wsum_union, Ht.
Qed.
End Samples.

(** ** Instances *)

Section Demo.

Lemma stats_count_exact_witness :
  counters_ (UpdateFinalStats (foldl stat_step (new_stats 1)
    [St_incr "num_act_cmds"; St_epoch; St_incr "num_act_cmds"; St_incr "num_cycles"])) !! "num_act_cmds"%string = Some 2.
Proof. apply (stats_count_exact "num_act_cmds" 1). vm_compute. repeat constructor. Defined.

(** A read latency of 200 goes to the bin for values of 200 and more. *)
Definition demo_stats : SimpleStats :=
  foldr (AddValue "read_latency") (new_stats 1) [3; 25; 200; 4000; -1; 199].
Example demo_bins :
  epoch_histo_bins_ (UpdateHistoBins demo_stats) !! "read_latency"%string = Some [1; 1; 1; 0; 0; 0; 0; 0; 0; 0; 1; 2].
Proof. vm_compute. reflexivity. Qed.

Lemma histogram_complete_witness :
  ∃ bins', epoch_histo_bins_ (UpdateHistoBins demo_stats) !! "read_latency"%string = Some bins' ∧
    length bins' = 12%nat ∧ u64 (sum bins') = 6.
Proof.
  destruct (histogram_complete demo_stats "read_latency" 0 200 20 (replicate 12 0)
    (list_to_map [(3, 1); (25, 1); (200, 1); (4000, 1); (-1, 1); (199, 1)])) as (_ & bins' & Hb & Hl & Hs);
    [vm_compute; reflexivity..|vm_compute; discriminate|vm_compute; discriminate|].
  exists bins'. split; [exact Hb|]. split; [exact Hl|]. rewrite Hs. vm_compute. reflexivity.
Defined.
End Demo.
