(* ===== verification/Power.v ===== *)
(** * Doubles and the power figures of the configuration (DRAMsim3-master/src/configuration.cc)

    A C++ [double] is an IEEE 754 binary64 number, modelled by the executable
    specification of the Standard Library ([SpecFloat]: round to nearest even, no
    contraction of operations). [InitPowerParams] turns the currents of the INI file
    into energies per command and per cycle. *)

From Stdlib Require Import ZArith Lia String SpecFloat.
From stdpp Require Import strings gmap numbers option list.
From S2P Require Import Prelude DramCommon Config.

(** ** Doubles *)

Definition double : Type := spec_float.
Definition dadd : double -> double -> double := SFadd 53 1024.
Definition dsub : double -> double -> double := SFsub 53 1024.
Definition dmul : double -> double -> double := SFmul 53 1024.
Definition ddiv : double -> double -> double := SFdiv 53 1024.
(** The conversion of an [int] or a [uint64_t], and the literal [n / d]. *)
Definition of_int (z : Z) : double := binary_normalize 53 1024 z 0 false.
Definition lit (n d : Z) : double := ddiv (of_int n) (of_int d).
Definition dzero : double := S754_zero false.

(** 0.1 + 0.2 is not 0.3, and 2^53 + 1 rounds to even. *)
Example double_rounds : dadd (lit 1 10) (lit 2 10) ≠ lit 3 10 ∧ of_int (2 ^ 53 + 1) = of_int (2 ^ 53).
Proof. split; vm_compute; [discriminate|reflexivity]. Qed.

(** ** The power figures *)

(** What [InitPowerParams] sets, and [tCK], which [InitTimingParams] sets;
    [pre_energy_inc] is never set nor read. *)
Record PowerParams := MkPower {
  tCK : double;
  act_energy_inc : double;
  read_energy_inc : double;
  write_energy_inc : double;
  ref_energy_inc : double;
  refb_energy_inc : double;
  act_stb_energy_inc : double;
  pre_stb_energy_inc : double;
  pre_pd_energy_inc : double;
  sref_energy_inc : double
}.

(** [Config::InitPowerParams()]; [GetReal] is the reader's. *)
Definition InitPowerParams (GetReal : string -> string -> double -> double)
    (t : TimingParams) (d : DRAMParams) (z : SizeParams) : PowerParams :=
  let gr opt dflt := GetReal "power"%string opt dflt in
  let VDD := gr "VDD"%string (lit 12 10) in
  let IDD0 := gr "IDD0"%string (of_int 48) in
  let IDD2P := gr "IDD2P"%string (of_int 25) in
  let IDD2N := gr "IDD2N"%string (of_int 34) in
  let IDD3N := gr "IDD3N"%string (of_int 43) in
  let IDD4W := gr "IDD4W"%string (of_int 123) in
  let IDD4R := gr "IDD4R"%string (of_int 135) in
  let IDD5AB := gr "IDD5AB"%string (of_int 250) in
  let IDD5PB := gr "IDD5PB"%string (of_int 5) in
  let IDD6x := gr "IDD6x"%string (of_int 31) in
  let devices := of_int (devices_per_rank z) in
  {| tCK := GetReal "timing"%string "tCK"%string (of_int 1);
     act_energy_inc :=
       dmul (dmul VDD (dsub (dmul IDD0 (of_int (tRC t)))
                            (dadd (dmul IDD3N (of_int (tRAS t))) (dmul IDD2N (of_int (tRP t)))))) devices;
     read_energy_inc := dmul (dmul (dmul VDD (dsub IDD4R IDD3N)) (of_int (burst_cycle d))) devices;
     write_energy_inc := dmul (dmul (dmul VDD (dsub IDD4W IDD3N)) (of_int (burst_cycle d))) devices;
     ref_energy_inc := dmul (dmul (dmul VDD (dsub IDD5AB IDD3N)) (of_int (tRFC t))) devices;
     refb_energy_inc := dmul (dmul (dmul VDD (dsub IDD5PB IDD3N)) (of_int (tRFCb t))) devices;
     act_stb_energy_inc := dmul (dmul VDD IDD3N) devices;
     pre_stb_energy_inc := dmul (dmul VDD IDD2N) devices;
     pre_pd_energy_inc := dmul (dmul VDD IDD2P) devices;
     sref_energy_inc := dmul (dmul VDD IDD6x) devices |}.

(** The [power] section and the clock of configs/HBM2_4Gb_x128.ini. *)
Definition hbm2_reals (sec opt : string) (d : double) : double :=
  ini_lookup [("timing", "tCK", of_int 1); ("power", "VDD", lit 12 10); ("power", "IDD0", of_int 65); ("power", "IDD2P", of_int 28);
    ("power", "IDD2N", of_int 40); ("power", "IDD3P", of_int 40); ("power", "IDD3N", of_int 55); ("power", "IDD4W", of_int 500);
    ("power", "IDD4R", of_int 390); ("power", "IDD5AB", of_int 250); ("power", "IDD6x", of_int 31)]%string sec opt d.
Definition hbm2_power : PowerParams := InitPowerParams hbm2_reals hbm2 hbm2 hbm2.

(** A read takes 1.2 V * 335 mA * 2 cycles = 804 pJ. *)
Example hbm2_read_energy : read_energy_inc hbm2_power = of_int 804.
Proof. vm_compute. reflexivity. Qed.

(** IDD5PB is not in the file, and its default of 5 is less than the standby current that
    is taken off: a refresh of one bank has a negative energy, with the default currents
    too. *)
Definition negative (x : double) : bool := SFltb x dzero.
Example refb_energy_negative :
  negative (refb_energy_inc hbm2_power) = true ∧
  negative (refb_energy_inc (InitPowerParams (fun _ _ d => d) hbm2 hbm2 hbm2)) = true.
Proof. split; vm_compute; reflexivity. Qed.
