(* ===== verification/Report.v ===== *)
(** * Energies, averages and reports (DRAMsim3-master/src/simple_stats.cc, dram_system.cc)

    [Stats] counts; this file models what [SimpleStats] makes of the counts at the end
    of an epoch and of the run: energies, bandwidth, power and average latencies, the
    lines and the JSON data it prints, and the files the channels of a system write
    together. Formatting a double, a line and a JSON value is vendored code and a
    parameter; where the code runs through a hash map the model takes the order of
    [map_to_list]. The theorems: the final report is computed from all operations of
    the run, however they fall into epochs; every printed line has its description;
    the epoch file is the JSON list of all epochs of all channels. *)

From Stdlib Require Import ZArith Lia Ascii String SpecFloat.
From stdpp Require Import strings pretty gmap numbers option list.
From S2P Require Import Prelude DramCommon Config Stats Power.

(** ** State *)

(** A value of the JSON data. *)
Inductive jval := JInt (z : Z) | JReal (x : double) | JInts (l : gmap string Z) | JReals (l : gmap string double).

(** [class SimpleStats]: the counters of [Stats], and the members that reports use. *)
Record Reports := MkReports {
  rp_stats : SimpleStats;
  channel_id_ : Z;
  header_descs_ : gmap string string;
  histo_headers_ : gmap string (list string);
  doubles_ : gmap string double;
  vec_doubles_ : gmap string (list double);
  calculated_ : gmap string double;
  j_data_ : gmap string jval;
  print_pairs_ : list (string * string)
}.
Definition with_stats (s : SimpleStats) (r : Reports) : Reports :=
  MkReports s (channel_id_ r) (header_descs_ r) (histo_headers_ r) (doubles_ r) (vec_doubles_ r) (calculated_ r) (j_data_ r) (print_pairs_ r).
Definition with_figures (d : gmap string double) (v : gmap string (list double)) (c : gmap string double) (r : Reports) : Reports :=
  MkReports (rp_stats r) (channel_id_ r) (header_descs_ r) (histo_headers_ r) d v c (j_data_ r) (print_pairs_ r).
Definition with_prints (j : gmap string jval) (l : list (string * string)) (r : Reports) : Reports :=
  MkReports (rp_stats r) (channel_id_ r) (header_descs_ r) (histo_headers_ r) (doubles_ r) (vec_doubles_ r) (calculated_ r) j l.

(** ** Construction *)

(** The statistics with their descriptions, as the constructor registers them. *)
Definition counter_descs : list (string * string) :=
  [("num_cycles", "Number of DRAM cycles"); ("epoch_num", "Number of epochs");
   ("num_reads_done", "Number of read requests issued"); ("num_writes_done", "Number of read requests issued");
   ("num_write_buf_hits", "Number of write buffer hits"); ("num_read_row_hits", "Number of read row buffer hits");
   ("num_write_row_hits", "Number of write row buffer hits"); ("num_read_cmds", "Number of READ/READP commands");
   ("num_write_cmds", "Number of WRITE/WRITEP commands"); ("num_act_cmds", "Number of ACT commands");
   ("num_pre_cmds", "Number of PRE commands"); ("num_ondemand_pres", "Number of ondemend PRE commands");
   ("num_ref_cmds", "Number of REF commands"); ("num_refb_cmds", "Number of REFb commands");
   ("num_srefe_cmds", "Number of SREFE commands"); ("num_srefx_cmds", "Number of SREFX commands");
   ("hbm_dual_cmds", "Number of cycles dual cmds issued")]%string.
Definition double_descs : list (string * string) :=
  [("act_energy", "Activation energy"); ("read_energy", "Read energy"); ("write_energy", "Write energy");
   ("ref_energy", "Refresh energy"); ("refb_energy", "Refresh-bank energy")]%string.
Definition vec_counter_descs : list (string * string) :=
  [("all_bank_idle_cycles", "Cyles of all bank idle in rank"); ("rank_active_cycles", "Cyles of rank active");
   ("sref_cycles", "Cyles of rank in SREF mode")]%string.
Definition vec_double_descs : list (string * string) :=
  [("act_stb_energy", "Active standby energy"); ("pre_stb_energy", "Precharge standby energy"); ("sref_energy", "SREF energy")]%string.
Definition histo_descs : list (string * string * (Z * Z)) :=
  [("read_latency", "Read request latency (cycles)", (0, 200)); ("write_latency", "Write cmd latency (cycles)", (0, 200));
   ("interarrival_latency", "Request interarrival latency (cycles)", (0, 100))]%string.
Definition calculated_descs : list (string * string) :=
  [("average_bandwidth", "Average bandwidth"); ("total_energy", "Total energy (pJ)"); ("average_power", "Average power (mW)");
   ("average_read_latency", "Average read request latency (cycles)");
   ("average_interarrival", "Average request interarrival latency (cycles)")]%string.

(** [name + "." + std::to_string(i)]. *)
Definition part (name : string) (i : Z) : string := (name +:+ "." +:+ pretty i)%string.
Definition parts (nranks : Z) (e : string * string) : list (string * string) :=
  (fun i => (part e.1 i, (e.2 +:+ " rank." +:+ pretty i)%string)) <$> zseq nranks.

(** The headers of the bins of a histogram. *)
Definition bin_headers (name : string) (lo hi num : Z) : list string :=
  let w := Z.quot (hi - lo) num in
  [(name +:+ "[-" +:+ pretty lo +:+ "]")%string] ++
  ((fun i => (name +:+ "[" +:+ pretty (lo + i * w) +:+ "-" +:+ pretty (lo + (i + 1) * w - 1) +:+ "]")%string) <$> zseq num) ++
  [(name +:+ "[" +:+ pretty hi +:+ "-]")%string].

Definition emplaces {A} (l : list (string * A)) (m : gmap string A) : gmap string A := foldl (fun m e => emplace e.1 e.2 m) m l.

(** [SimpleStats::SimpleStats(config, channel_id)]. *)
Definition described (nranks : Z) : list (string * string) :=
  counter_descs ++ double_descs ++ (vec_counter_descs ≫= parts nranks) ++ (vec_double_descs ≫= parts nranks) ++
  (histo_descs ≫= fun e => (fun h => (h, e.1.2)) <$> bin_headers e.1.1 e.2.1 e.2.2 10) ++ calculated_descs.
Definition new_Reports (nranks channel : Z) : Reports :=
  MkReports (new_stats nranks) channel (emplaces (described nranks) ∅)
    (emplaces ((fun e => (e.1.1, bin_headers e.1.1 e.2.1 e.2.2 10)) <$> histo_descs) ∅)
    (emplaces ((fun e => (e.1, dzero)) <$> double_descs) ∅)
    (emplaces ((fun e => (e.1, replicate (Z.to_nat nranks) dzero)) <$> vec_double_descs) ∅)
    (emplaces ((fun e => (e.1, dzero)) <$> calculated_descs) ∅) ∅ [].

(** ** The figures *)

Section Reporting.
Context (config : Config) (power : PowerParams).

(** [epoch_counters_[name]] or [counters_[name]]. *)
Definition count (m : gmap string Z) (n : string) : Z := default 0 (m !! n).

(** The energies of the commands. *)
Definition energies (cnt : string -> Z) : list (string * double) :=
  [("act_energy", dmul (of_int (cnt "num_act_cmds")) (act_energy_inc power));
   ("read_energy", dmul (of_int (cnt "num_read_cmds")) (read_energy_inc power));
   ("write_energy", dmul (of_int (cnt "num_write_cmds")) (write_energy_inc power));
   ("ref_energy", dmul (of_int (cnt "num_ref_cmds")) (ref_energy_inc power));
   ("refb_energy", dmul (of_int (cnt "num_refb_cmds")) (refb_energy_inc power))]%string.

(** The standby energies of a rank: active, precharged, in self refresh. *)
Definition rank_energies (cnt : string -> Z) : list (string * double) :=
  [("act_stb_energy", dmul (of_int (cnt "rank_active_cycles")) (act_stb_energy_inc power));
   ("pre_stb_energy", dmul (of_int (cnt "all_bank_idle_cycles")) (pre_stb_energy_inc power));
   ("sref_energy", dmul (of_int (cnt "sref_cycles")) (sref_energy_inc power))]%string.
Definition sum3 (l : list (string * double)) : double :=
  match (snd <$> l) with [a; p; s] => dadd (dadd a p) s | _ => S754_nan end.

(** [vector[i]], and [vector[i] = x]. *)
Definition vec_at {A} (m : gmap string (list A)) (n : string) (i : Z) : exc A := vec_get (default [] (m !! n)) i.
Definition vec_put {A} (i : Z) (e : string * A) (m : gmap string (list A)) : exc (gmap string (list A)) :=
  vec_at m e.1 i ;; ok (alter (fun v => zset v i e.2) e.1 m).

(** An iteration of the loop over the ranks. *)
Definition rank_step (vc : gmap string (list Z)) (i : Z) (st : gmap string (list double) * double)
    : exc (gmap string (list double) * double) :=
  a ← vec_at vc "rank_active_cycles" i;
  b ← vec_at vc "all_bank_idle_cycles" i;
  c ← vec_at vc "sref_cycles" i;
  let l := rank_energies (fun n => if decide (n = "rank_active_cycles"%string) then a
                                   else if decide (n = "all_bank_idle_cycles"%string) then b else c) in
  vd ← foldE (vec_put i) l st.1;
  ok (vd, dadd st.2 (sum3 l)).

(** [GetHistoAvg(hist_counts)]; an [int] times a [uint64_t] is unsigned. *)
Definition histo_sums (m : gmap Z Z) : Z * Z :=
  map_fold (fun v c st => (u64 (st.1 + u64 (u64 v * c)), u64 (st.2 + c))) (0, 0) m.
Definition GetHistoAvg (m : gmap Z Z) : double :=
  let '(accu_sum, cnt) := histo_sums m in
  if cnt =? 0 then dzero else ddiv (of_int accu_sum) (of_int cnt).

Definition sum_energies (l : list (string * double)) : double :=
  match (snd <$> l) with [a; r; w; f; b] => dadd (dadd (dadd (dadd a r) w) f) b | _ => S754_nan end.

(** The calculated figures. *)
Definition calculations (cnt : string -> Z) (background read_latency interarrival : double) : list (string * double) :=
  let total_reqs := u64 (cnt "num_reads_done" + cnt "num_writes_done") in
  let total_time := dmul (of_int (cnt "num_cycles")) (tCK power) in
  let total_energy := dadd (sum_energies (energies cnt)) background in
  [("average_bandwidth", ddiv (of_int (u64 (total_reqs * u64 (request_size_bytes config)))) total_time);
   ("total_energy", total_energy);
   ("average_power", ddiv total_energy (of_int (cnt "num_cycles")));
   ("average_read_latency", read_latency); ("average_interarrival", interarrival)]%string.

Definition inserts {A} (l : list (string * A)) (m : gmap string A) : gmap string A := foldl (fun m e => <[e.1 := e.2]> m) m l.

(** What [UpdateEpochStats] and [UpdateFinalStats] compute, each from its own tables. *)
Definition compute (counters : gmap string Z) (vc : gmap string (list Z)) (hc : gmap string (gmap Z Z)) (r : Reports) : exc Reports :=
  '(vd, background) ← foldE (rank_step vc) (zseq (ranks config)) (vec_doubles_ r, dzero);
  rl ← opt_exc (hc !! "read_latency"%string) StdOutOfRange;
  ia ← opt_exc (hc !! "interarrival_latency"%string) StdOutOfRange;
  ok (with_figures (inserts (energies (count counters)) (doubles_ r)) vd
       (inserts (calculations (count counters) background (GetHistoAvg rl) (GetHistoAvg ia)) (calculated_ r)) r).

(** [RankBackgroundEnergy(rank)]. *)
Definition RankBackgroundEnergy (r : Reports) (rank : Z) : exc double :=
  a ← opt_exc (vec_doubles_ r !! "act_stb_energy"%string) StdOutOfRange ≫= fun v => vec_get v rank;
  b ← opt_exc (vec_doubles_ r !! "pre_stb_energy"%string) StdOutOfRange ≫= fun v => vec_get v rank;
  c ← opt_exc (vec_doubles_ r !! "sref_energy"%string) StdOutOfRange ≫= fun v => vec_get v rank;
  ok (dadd (dadd a b) c).
End Reporting.

(** ** The printed report *)

(** The text files, by name, and the standard output. *)
Record outputs := MkOutputs { files : gmap string string; console : string }.
Definition write_trunc (name text : string) (o : outputs) : outputs := MkOutputs (<[name := text]> (files o)) (console o).
Definition write_app (name text : string) (o : outputs) : outputs :=
  MkOutputs (<[name := (default EmptyString (files o !! name) +:+ text)%string]> (files o)) (console o).
Definition write_console (text : string) (o : outputs) : outputs := MkOutputs (files o) (console o +:+ text)%string.

Definition nl : string := String (ascii_of_nat 10) EmptyString.
Definition quote : string := String (ascii_of_nat 34) EmptyString.

(** The elements of a vector with their indices. *)
Definition indexed {A} (l : list A) : list (Z * A) := zip (zseq (Z.of_nat (length l))) l.
Definition named_parts {A} (l : list A) : gmap string A := list_to_map ((fun e => (pretty e.1, e.2)) <$> indexed l).

Section Printing.
Context (config : Config) (power : PowerParams).
Context (fmt_double : double -> string) (dump : gmap string jval -> string) (stat_text : string -> string -> string -> string).

(** The bins of the histograms with their headers. *)
Definition bin_lines (hb : gmap string (list Z)) (headers : gmap string (list string)) : exc (list (string * Z)) :=
  l ← mapE (fun e : string * list Z =>
        mapE (fun b : Z * Z => h ← vec_get (default [] (headers !! e.1)) b.1; ok (h, b.2)) (indexed e.2)) (map_to_list hb);
  ok (concat l).

(** [UpdatePrints(epoch)]. *)
Definition UpdatePrints (epoch : bool) (r : Reports) : exc Reports :=
  let s := rp_stats r in
  let cnt := if epoch then epoch_counters_ s else counters_ s in
  let vc := if epoch then epoch_vec_counters_ s else vec_counters_ s in
  let hb := if epoch then epoch_histo_bins_ s else histo_bins_ s in
  bins ← bin_lines hb (histo_headers_ r);
  let pairs :=
    ((fun e => (e.1, pretty e.2)) <$> map_to_list cnt) ++
    (map_to_list vc ≫= fun e => (fun x : Z * Z => (part e.1 x.1, pretty x.2)) <$> indexed e.2) ++
    ((fun e => (e.1, pretty e.2)) <$> bins) ++
    ((fun e => (e.1, fmt_double e.2)) <$> map_to_list (doubles_ r)) ++
    (map_to_list (vec_doubles_ r) ≫= fun e => (fun x : Z * double => (part e.1 x.1, fmt_double x.2)) <$> indexed e.2) ++
    ((fun e => (e.1, fmt_double e.2)) <$> map_to_list (calculated_ r)) in
  let data :=
    [("channel"%string, JInt (channel_id_ r))] ++
    ((fun e => (e.1, JInt e.2)) <$> map_to_list cnt) ++
    [("epoch_num"%string, JInt (count (counters_ s) "epoch_num"))] ++
    ((fun e => (e.1, JInts (named_parts e.2))) <$> map_to_list vc) ++
    ((fun e => (e.1, JInt e.2)) <$> bins) ++
    (if epoch then []
     else (fun e => (e.1, JInts (list_to_map ((fun x : Z * Z => (pretty x.1, x.2)) <$> map_to_list e.2)))) <$> map_to_list (histo_counts_ s)) ++
    ((fun e => (e.1, JReal e.2)) <$> map_to_list (doubles_ r)) ++
    ((fun e => (e.1, JReals (named_parts e.2))) <$> map_to_list (vec_doubles_ r)) ++
    ((fun e => (e.1, JReal e.2)) <$> map_to_list (calculated_ r)) in
  ok (with_prints (inserts data (j_data_ r)) (print_pairs_ r ++ pairs) r).

(** [UpdateEpochStats()] and [UpdateFinalStats()]. *)
Definition r_UpdateEpochStats (r : Reports) : exc Reports :=
  let s := UpdateHistoBins (UpdateCounters (rp_stats r)) in
  r1 ← compute config power (epoch_counters_ s) (epoch_vec_counters_ s) (epoch_histo_counts_ s) (with_stats s r);
  r2 ← UpdatePrints true r1;
  ok (with_stats (UpdateEpochStats (rp_stats r)) r2).
Definition r_UpdateFinalStats (r : Reports) : exc Reports :=
  let s := UpdateFinalStats (rp_stats r) in
  r1 ← compute config power (counters_ s) (vec_counters_ s) (histo_counts_ s) (with_stats s r);
  UpdatePrints false r1.

(** [Reset()]. *)
Definition r_Reset (r : Reports) : Reports :=
  with_figures ((fun _ => dzero) <$> doubles_ r) ((fun v : list double => replicate (length v) dzero) <$> vec_doubles_ r)
    ((fun _ => dzero) <$> calculated_ r) (with_stats (Reset (rp_stats r)) r).

(** [GetTextHeader(is_final)] and the lines of the report. *)
Definition GetTextHeader (is_final : bool) (r : Reports) : exc string :=
  let hashes := "###########################################"%string in
  n ← (if is_final then ok EmptyString
       else e ← opt_exc (counters_ (rp_stats r) !! "epoch_num"%string) StdOutOfRange; ok (" of epoch " +:+ pretty e)%string);
  ok (hashes +:+ nl +:+ "## Statistics of Channel " +:+ pretty (channel_id_ r) +:+ n +:+ nl +:+ hashes +:+ nl)%string.
Definition report_lines (r : Reports) : string :=
  foldr String.append EmptyString
    ((fun e => (stat_text e.1 e.2 (default EmptyString (header_descs_ r !! e.1)) +:+ nl)%string) <$> print_pairs_ r).

(** [PrintEpochStats()] and [PrintFinalStats()]. *)
Definition r_PrintEpochStats (r : Reports) (o : outputs) : exc (Reports * outputs) :=
  r ← r_UpdateEpochStats r;
  let o := if 1 <=? output_level config then write_app (json_epoch_name config) (dump (j_data_ r)) o else o in
  o ← (if 2 <=? output_level config then h ← GetTextHeader false r; ok (write_console (h +:+ report_lines r)%string o) else ok o);
  ok (with_prints (j_data_ r) [] r, o).
Definition r_PrintFinalStats (r : Reports) (o : outputs) : exc (Reports * outputs) :=
  r ← r_UpdateFinalStats r;
  let o := if 0 <=? output_level config then
      write_app (json_stats_name config) (quote +:+ pretty (channel_id_ r) +:+ quote +:+ ":" +:+ dump (j_data_ r))%string o else o in
  o ← (if 1 <=? output_level config then
         h ← GetTextHeader true r;
         ok ((if channel_id_ r =? 0 then write_trunc (txt_stats_name config) else write_app (txt_stats_name config))
               (h +:+ report_lines r)%string o)
       else ok o);
  ok (with_prints (j_data_ r) [] r, o).

(** *** All channels *)

(** The loop of [BaseDRAMSystem::PrintEpochStats()] over the controllers; each counts the
    epoch first. *)
Fixpoint print_epochs (l : list Reports) (o : outputs) : exc (list Reports * outputs) :=
  match l with
  | [] => ok ([], o)
  | r :: l =>
      '(r, o) ← r_PrintEpochStats (with_stats (Increment "epoch_num" (rp_stats r)) r) o;
      let o := write_app (json_epoch_name config) ("," +:+ nl)%string o in
      '(l, o) ← print_epochs l o;
      ok (r :: l, o)
  end.
Definition sys_PrintEpochStats (clk : Z) (l : list Reports) (o : outputs) : exc (list Reports * outputs) :=
  print_epochs l (if u64 (clk - epoch_period config) =? 0 then write_trunc (json_epoch_name config) "[" o else o).

(** The comma behind the last epoch becomes the closing bracket; a file that is missing or
    shorter than two characters is left alone. *)
Definition close_epochs (o : outputs) : outputs :=
  match files o !! json_epoch_name config with
  | Some t =>
      if (2 <=? String.length t)%nat then
        let n := (String.length t - 2)%nat in
        write_trunc (json_epoch_name config) (String.substring 0 n t +:+ "]" +:+ String.substring (n + 1) 1 t)%string o
      else o
  | None => o
  end.
Fixpoint print_finals (l : list Reports) (o : outputs) : exc (list Reports * outputs) :=
  match l with
  | [] => ok ([], o)
  | r :: l =>
      '(r, o) ← r_PrintFinalStats r o;
      let o := match l with [] => o | _ => write_app (json_stats_name config) ("," +:+ nl)%string o end in
      '(l, o) ← print_finals l o;
      ok (r :: l, o)
  end.
(** [BaseDRAMSystem::PrintStats()]. *)
Definition sys_PrintStats (l : list Reports) (o : outputs) : exc (list Reports * outputs) :=
  '(l, o) ← print_finals l (write_trunc (json_stats_name config) "{" (close_epochs o));
  ok (l, write_app (json_stats_name config) "}" o).
End Printing.

(** ** The figures are computed *)

Lemma inserts_lookup {A} (l : list (string * A)) m n x :
  NoDup l.*1 → (n, x) ∈ l → inserts l m !! n = Some x.
Proof.
  revert m. induction l as [|[k y] l IH] using rev_ind; intros m Hnd Hin; [by apply elem_of_nil in Hin|].
  unfold inserts. rewrite foldl_snoc. simpl. rewrite fmap_app in Hnd. apply NoDup_app in Hnd as (Hnd & Hk & _).
  apply elem_of_app in Hin as [Hin|Hin%list_elem_of_singleton].
  - rewrite lookup_insert_ne; [by apply IH|]. intros ->. apply (Hk n); [apply list_elem_of_fmap; by exists (n, x)|by left].
  - injection Hin as -> ->. apply lookup_insert_eq.
Qed.
Lemma inserts_other {A} (l : list (string * A)) m n : n ∉ l.*1 → inserts l m !! n = m !! n.
Proof.
  revert m. induction l as [|[k y] l IH] using rev_ind; intros m Hn; [done|].
  unfold inserts. rewrite foldl_snoc. simpl. rewrite fmap_app, not_elem_of_app in Hn. destruct Hn as [Hn Hk].
  rewrite lookup_insert_ne; [by apply IH|]. intros ->. apply Hk. by left.
Qed.

Lemma vec_put_ok {A} i n (x : A) m v :
  m !! n = Some v → 0 ≤ i < Z.of_nat (length v) → vec_put i (n, x) m = ok (<[n := zset v i x]> m).
Proof.
  intros Hm Hi. unfold vec_put, vec_at. cbn [fst snd]. rewrite Hm. change (default [] (Some v)) with v.
  destruct (zget_is_Some v i Hi) as [y Hy]. rewrite (proj2 (vec_get_ok _ _ _) Hy). cbn [mbind exc_bind]. f_equal.
  apply map_eq. intros k. destruct (decide (n = k)) as [->|]; [by rewrite lookup_alter_eq, lookup_insert_eq, Hm|].
  by rewrite lookup_alter_ne, lookup_insert_ne.
Qed.

(** A loop that stores one element in each of several vectors. *)
Lemma vec_puts_ok {A} i N (l : list (string * A)) m :
  NoDup l.*1 → 0 ≤ i < Z.of_nat N → (∀ n, n ∈ l.*1 → ∃ v, m !! n = Some v ∧ length v = N) →
  ∃ m', foldE (vec_put i) l m = ok m' ∧ (∀ n, n ∉ l.*1 → m' !! n = m !! n) ∧
    (∀ n x, (n, x) ∈ l → ∃ v, m !! n = Some v ∧ m' !! n = Some (zset v i x)).
Proof.
  intros Hnd Hi. revert m. induction l as [|[n x] l IH]; intros m Hm.
  { exists m. split; [done|]. split; [done|]. by intros n x ?%elem_of_nil. }
  apply NoDup_cons in Hnd as [Hn Hnd]. destruct (Hm n) as (v & Hv & Hlen); [by left|].
  cbn [foldE]. rewrite (vec_put_ok i n x m v Hv) by lia. cbn [mbind exc_bind].
  destruct (IH Hnd (<[n := zset v i x]> m)) as (m' & -> & Ho & Hs).
  { intros k Hk. rewrite lookup_insert_ne by (intros ->; done). apply Hm. by right. }
  exists m'. split; [done|]. split.
  - intros k [Hk Hl]%not_elem_of_cons. rewrite (Ho k Hl). by rewrite lookup_insert_ne by done.
  - intros k y [Hk|Hk]%elem_of_cons.
    + injection Hk as -> ->. exists v. split; [done|]. rewrite Ho by done. apply lookup_insert_eq.
    + assert (n ≠ k) as Hnk by (intros ->; apply Hn, list_elem_of_fmap; by exists (k, y)).
      destruct (Hs k y Hk) as (w & Hw & Hw'). rewrite lookup_insert_ne in Hw by done. by exists w.
Qed.

Section Figures.
Context (config : Config) (power : PowerParams).

(** The counters of a rank, and the standby energy of the first [k] ranks. *)
Definition rank_count (vc : gmap string (list Z)) (i : Z) (n : string) : Z := default 0 (vc !! n ≫= fun v => zget v i).
Definition background (cnt : Z -> string -> Z) (k : Z) : double :=
  foldl (fun b i => dadd b (sum3 (rank_energies power (cnt i)))) dzero (zseq k).

Definition sized {A} (m : gmap string (list A)) (names : list string) : Prop :=
  ∀ n, n ∈ names → ∃ v, m !! n = Some v ∧ length v = Z.to_nat (ranks config).

Lemma rank_energies_names cnt : (rank_energies power cnt).*1 = vec_double_descs.*1.
Proof. done. Qed.
Lemma rank_energy_name cnt n x : (n, x) ∈ rank_energies power cnt → n ∈ vec_double_descs.*1.
Proof. intros Hin. rewrite <- (rank_energies_names cnt). apply list_elem_of_fmap. by exists (n, x). Qed.
Lemma vec_double_names_nodup : NoDup vec_double_descs.*1.
Proof. apply (bool_decide_unpack _). vm_compute. exact I. Qed.

(** The vectors [vd] hold the energies of the first [k] ranks. *)
Definition filled (vc : gmap string (list Z)) (k : Z) (vd : gmap string (list double)) : Prop :=
  ∀ i n x, 0 ≤ i < k → (n, x) ∈ rank_energies power (rank_count vc i) → ∃ v, vd !! n = Some v ∧ zget v i = Some x.

Lemma rank_step_ok vc i (vd0 vd : gmap string (list double)) b :
  sized vc vec_names → 0 ≤ i < ranks config →
  sized vd vec_double_descs.*1 ∧ (∀ n, n ∉ vec_double_descs.*1 → vd !! n = vd0 !! n) ∧ filled vc i vd ∧ b = background (rank_count vc) i →
  ∃ st : gmap string (list double) * double, rank_step power vc i (vd, b) = ok st ∧
    sized st.1 vec_double_descs.*1 ∧ (∀ n, n ∉ vec_double_descs.*1 → st.1 !! n = vd0 !! n) ∧ filled vc (i + 1) st.1 ∧
    st.2 = background (rank_count vc) (i + 1).
Proof.
  intros Hvc Hi (Hvd & Hoth & Hfill & ->).
  assert (∀ n, n ∈ vec_names → vec_at vc n i = ok (rank_count vc i n)) as Hat.
  { intros n Hn. destruct (Hvc n Hn) as (v & Hv & Hl). unfold vec_at, rank_count. rewrite Hv. change (default [] (Some v)) with v. cbn [mbind option_bind].
    destruct (zget_is_Some v i ltac:(lia)) as [y Hy]. rewrite (proj2 (vec_get_ok _ _ _) Hy), Hy. done. }
  unfold rank_step. rewrite !Hat by (apply (bool_decide_unpack _); vm_compute; exact I). cbn [mbind exc_bind fst snd].
  change (rank_energies power _) with (rank_energies power (rank_count vc i)).
  destruct (vec_puts_ok i (Z.to_nat (ranks config)) (rank_energies power (rank_count vc i)) vd vec_double_names_nodup ltac:(lia) Hvd)
    as (vd' & -> & Ho & Hs). cbn [mbind exc_bind]. eexists. split; [reflexivity|]. cbn [fst snd].
  assert (∀ n, n ∈ vec_double_descs.*1 → ∃ x, (n, x) ∈ rank_energies power (rank_count vc i)) as Hx.
  { intros n Hn. rewrite <- (rank_energies_names (rank_count vc i)) in Hn. apply list_elem_of_fmap in Hn as ([k x] & -> & Hk). by exists x. }
  split_and!.
  - intros n Hn. destruct (Hx n Hn) as [x Hin]. destruct (Hs n x Hin) as (v & Hv & ->). eexists. split; [done|].
    rewrite length_zset. destruct (Hvd n Hn) as (v' & Hv' & ?). congruence.
  - intros n Hn. rewrite Ho by done. by apply Hoth.
  - intros j n x Hj Hin. destruct (decide (j = i)) as [->|Hne].
    + destruct (Hs n x Hin) as (v & Hv & ->). eexists. split; [done|]. apply zget_zset_eq.
      destruct (Hvd n (rank_energy_name _ n x Hin)) as (v' & Hv' & Hl). rewrite Hv in Hv'. injection Hv' as <-. lia.
    + destruct (Hfill j n x ltac:(lia) Hin) as (v & Hv & Hg).
      destruct (Hx n (rank_energy_name _ n x Hin)) as [y Hy]. destruct (Hs n y Hy) as (v' & Hv' & ->). rewrite Hv in Hv'. injection Hv' as <-.
      eexists. split; [done|]. by rewrite zget_zset_ne.
  - unfold background. rewrite zseq_succ by lia. by rewrite foldl_snoc.
Qed.

(** [compute] succeeds on tables of the right shape; what it stores. *)
Lemma compute_ok cnt vc hc r rl ia :
  0 ≤ ranks config → sized vc vec_names → sized (vec_doubles_ r) vec_double_descs.*1 →
  hc !! "read_latency"%string = Some rl → hc !! "interarrival_latency"%string = Some ia →
  ∃ vd, compute config power cnt vc hc r =
      ok (with_figures (inserts (energies power (count cnt)) (doubles_ r)) vd
        (inserts (calculations config power (count cnt) (background (rank_count vc) (ranks config)) (GetHistoAvg rl) (GetHistoAvg ia))
          (calculated_ r)) r) ∧
    sized vd vec_double_descs.*1 ∧ (∀ n, n ∉ vec_double_descs.*1 → vd !! n = vec_doubles_ r !! n) ∧ filled vc (ranks config) vd.
Proof.
  intros Hr Hvc Hvd Hrl Hia. unfold compute.
  destruct (foldE_index (fun i (st : gmap string (list double) * double) => sized st.1 vec_double_descs.*1 ∧ (∀ n, n ∉ vec_double_descs.*1 → st.1 !! n = vec_doubles_ r !! n) ∧
      filled vc i st.1 ∧ st.2 = background (rank_count vc) i) (rank_step power vc) (ranks config) (vec_doubles_ r, dzero) Hr)
    as ([vd b] & -> & Hs & Ho & Hf & Hb).
  - intros i [vd b] Hi HI. by apply rank_step_ok.
  - split_and!; [done|done| |done]. intros i n x Hi. simpl in *. lia.
  - cbn [mbind exc_bind]. rewrite Hrl, Hia. cbn [opt_exc mbind exc_bind fst snd] in *. exists vd. subst b. by split_and!.
Qed.

(** The average of a histogram. *)
Lemma histo_sums_ok m : histo_sums m = (u64 (wsum (fun v => v) m), u64 (wsum (fun _ => 1) m)).
Proof.
  unfold histo_sums. induction m as [|v c m Hv IH] using map_ind; [done|]. rewrite map_fold_insert_L; [|intros; cbn [fst snd]|done].
  - rewrite IH, !wsum_insert_new by done. cbn [fst snd]. f_equal.
    + unfold u64. rewrite Zmult_mod_idemp_l, Zplus_mod_idemp_l, Zplus_mod_idemp_r. done.
    + rewrite u64_add_l. f_equal. lia.
  - rewrite !u64_add_l. f_equal; f_equal; lia.
Qed.

Definition average (sum cnt : Z) : double := if cnt =? 0 then dzero else ddiv (of_int sum) (of_int cnt).
Lemma GetHistoAvg_ok m : GetHistoAvg m = average (u64 (wsum (fun v => v) m)) (u64 (wsum (fun _ => 1) m)).
Proof. unfold GetHistoAvg. by rewrite histo_sums_ok. Qed.
End Figures.

(** ** What is printed is described *)

Lemma emplaces_some {A} (l : list (string * A)) m n :
  n ∈ l.*1 ∨ is_Some (m !! n) → is_Some (emplaces l m !! n).
Proof.
  revert m. induction l as [|[k x] l IH]; intros m Hn; simpl in *; [by destruct Hn as [?%elem_of_nil|]|].
  apply IH. unfold emplace. destruct Hn as [[->|Hn]%elem_of_cons|Hn]; [right|by left|right].
  - destruct (m !! k) eqn:E; [by rewrite E|by rewrite lookup_insert_eq].
  - destruct (m !! k) eqn:E; [done|]. destruct (decide (k = n)) as [->|]; [by rewrite lookup_insert_eq|by rewrite lookup_insert_ne].
Qed.
Lemma emplaces_in {A} (l : list (string * A)) m n x :
  emplaces l m !! n = Some x → (n, x) ∈ l ∨ m !! n = Some x.
Proof.
  revert m. induction l as [|[k y] l IH]; intros m Hn; simpl in *; [by right|].
  destruct (IH _ Hn) as [?|Hm]; [left; by right|]. unfold emplace in Hm. destruct (m !! k) eqn:E; [by right|].
  destruct (decide (k = n)) as [->|]; [rewrite lookup_insert_eq in Hm; injection Hm as ->; left; by left|].
  rewrite lookup_insert_ne in Hm by done. by right.
Qed.

(** A map whose keys are [names] and whose values satisfy [P]. *)
Definition table {A} (names : list string) (P : A -> Prop) (m : gmap string A) : Prop :=
  (∀ n, n ∈ names → ∃ x, m !! n = Some x ∧ P x) ∧ (∀ n, n ∉ names → m !! n = None).

Section Tables.
Context (names : list string).

Lemma table_lookup {A} (P : A -> Prop) m n x : table names P m → m !! n = Some x → n ∈ names ∧ P x.
Proof.
  intros [Hin Hout] Hx. destruct (decide (n ∈ names)) as [Hn|Hn]; [|by rewrite Hout in Hx]. destruct (Hin n Hn) as (y & Hy & ?). naive_solver.
Qed.
Lemma table_const {A} (P : A -> Prop) x : P x → table names P (emplaces ((fun n => (n, x)) <$> names) ∅).
Proof.
  intros Hx. split; intros n Hn.
  - destruct (emplaces_some ((fun n => (n, x)) <$> names) ∅ n) as [y Hy]; [left; by rewrite <- list_fmap_compose, list_fmap_id|].
    exists y. split; [done|]. apply emplaces_in in Hy as [Hy|Hy]; [|by rewrite lookup_empty in Hy].
    by apply list_elem_of_fmap in Hy as (? & [= ? ->] & _).
  - apply eq_None_not_Some. intros [y Hy]. apply emplaces_in in Hy as [Hy|Hy]; [|by rewrite lookup_empty in Hy].
    apply list_elem_of_fmap in Hy as (k & [= -> _] & Hk). done.
Qed.
Lemma table_fmap {A B} (P : A -> Prop) (Q : B -> Prop) (g : A -> B) m :
  (∀ x, P x → Q (g x)) → table names P m → table names Q (g <$> m).
Proof.
  intros Hg [Hin Hout]. split; intros n Hn; rewrite lookup_fmap; [|by rewrite Hout].
  destruct (Hin n Hn) as (x & -> & Hx). exists (g x). split; [done|by apply Hg].
Qed.
Lemma table_put {A} (P : A -> Prop) m m' :
  table names P m → (∀ n, (∃ x, m' !! n = Some x ∧ P x ∧ n ∈ names) ∨ m' !! n = m !! n) → table names P m'.
Proof. intros [Hin Hout] Hm. split; intros n Hn; destruct (Hm n) as [(x & Hx & ? & ?)|E]; rewrite ?E; naive_solver. Qed.
Lemma table_insert {A} (P : A -> Prop) m n x : table names P m → n ∈ names → P x → table names P (<[n := x]> m).
Proof.
  intros Hm Hn Hx. apply (table_put P m); [done|]. intros k. destruct (decide (n = k)) as [->|]; [left|right].
  - exists x. by rewrite lookup_insert_eq.
  - by rewrite lookup_insert_ne.
Qed.
Lemma table_inserts {A} l (m : gmap string A) :
  table names (fun _ => True) m → Forall (fun e => e.1 ∈ names) l → table names (fun _ => True) (inserts l m).
Proof.
  revert m. induction l as [|e l IH]; intros m Hm Hl; [done|]. apply Forall_cons in Hl as [He Hl].
  apply (IH (<[e.1 := e.2]> m)); [by apply table_insert|done].
Qed.
Lemma table_merge {A B C} (P : A -> Prop) (Q : B -> Prop) (R : C -> Prop) (f : option A -> option B -> option C) m1 m2 :
  f None None = None → (∀ x y, P x → Q y → ∃ z, f (Some x) (Some y) = Some z ∧ R z) →
  table names P m1 → table names Q m2 → table names R (merge f m1 m2).
Proof.
  intros Hf Hr [Hin1 Hout1] [Hin2 Hout2]. split; intros n Hn; rewrite lookup_merge.
  - destruct (Hin1 n Hn) as (x & -> & Hx), (Hin2 n Hn) as (y & -> & Hy). by apply Hr.
  - by rewrite Hout1, Hout2.
Qed.
End Tables.

(** A run of the operations on the statistics. *)
Section Described.
Context (config : Config).
Implicit Types (r : Reports) (s : SimpleStats) (n : string).

Definition any {A} (_ : A) : Prop := True.
Definition per_rank {A} (v : list A) : Prop := length v = Z.to_nat (ranks config).
Definition twelve (b : list Z) : Prop := length b = 12%nat.

(** The registered tables, and only these. *)
Record stats_ok s : Prop := {
  so_counters : table counter_names any (counters_ s);
  so_epoch : table counter_names any (epoch_counters_ s);
  so_vecs : table vec_names per_rank (vec_counters_ s);
  so_epoch_vecs : table vec_names per_rank (epoch_vec_counters_ s);
  so_bins : table histo_names twelve (histo_bins_ s);
  so_epoch_bins : table histo_names twelve (epoch_histo_bins_ s);
  so_counts : table histo_names any (histo_counts_ s);
  so_epoch_counts : table histo_names any (epoch_histo_counts_ s)
}.

Lemma InitStats_table (l : list string) s :
  counters_ (foldl (fun s n => InitStat n s) s l) = emplaces ((fun n => (n, 0)) <$> l) (counters_ s) ∧
  epoch_counters_ (foldl (fun s n => InitStat n s) s l) = emplaces ((fun n => (n, 0)) <$> l) (epoch_counters_ s).
Proof. revert s. induction l as [|n l IH]; intros s; [done|]. apply (IH (InitStat n s)). Qed.
Lemma counter_stats_table :
  counters_ counter_stats = emplaces ((fun n => (n, 0)) <$> counter_names) ∅ ∧
  epoch_counters_ counter_stats = emplaces ((fun n => (n, 0)) <$> counter_names) ∅.
Proof. apply InitStats_table. Qed.
Lemma new_stats_tables nranks : let v := replicate (Z.to_nat nranks) 0 in
  vec_counters_ (new_stats nranks) = emplaces ((fun n => (n, v)) <$> vec_names) ∅ ∧
  epoch_vec_counters_ (new_stats nranks) = emplaces ((fun n => (n, v)) <$> vec_names) ∅ ∧
  histo_bins_ (new_stats nranks) = emplaces ((fun n => (n, replicate 12 0)) <$> histo_names) ∅ ∧
  epoch_histo_bins_ (new_stats nranks) = emplaces ((fun n => (n, replicate 12 0)) <$> histo_names) ∅ ∧
  histo_counts_ (new_stats nranks) = emplaces ((fun n => (n, ∅)) <$> histo_names) ∅ ∧
  epoch_histo_counts_ (new_stats nranks) = emplaces ((fun n => (n, ∅)) <$> histo_names) ∅.
Proof. done. Qed.

Lemma new_stats_ok : stats_ok (new_stats (ranks config)).
Proof.
  destruct (new_stats_tables (ranks config)) as (Ev & Eev & Eb & Eeb & Eh & Eeh). destruct counter_stats_table as [Ec Eec].
  destruct (new_stats_counters (ranks config)) as [Ec1 Ec2].
  split; rewrite ?Ec1, ?Ec2, ?Ec, ?Eec, ?Ev, ?Eev, ?Eb, ?Eeb, ?Eh, ?Eeh; apply table_const; try exact I; try apply length_replicate.
Qed.

Lemma UpdateCounters_ok s : stats_ok s → stats_ok (UpdateCounters s).
Proof.
  intros [Hc He Hv Hev Hb Heb Hh Heh]. split; try done.
  - apply (table_merge _ any any); [done| |exact Hc|exact He]. intros x y _ _. by eexists.
  - apply (table_merge _ per_rank per_rank); [done| |exact Hv|exact Hev]. intros x y Hx Hy. eexists. split; [done|].
    unfold per_rank in *. simpl. rewrite length_zip_with. lia.
Qed.
Lemma length_fill_bins bd w l b : length (fill_bins bd w l b) = length b.
Proof. unfold fill_bins. induction l as [|e l IH]; [done|]. simpl. by rewrite length_bin_add. Qed.
Lemma UpdateHistoBins_ok s : stats_ok s → stats_ok (UpdateHistoBins s).
Proof.
  intros [Hc He Hv Hev Hb Heb Hh Heh].
  assert (table histo_names twelve (epoch_histo_bins_ (UpdateHistoBins s))) as Heb'.
  { destruct Heb as [Hin Hout]. unfold UpdateHistoBins. split; intros n Hn; simpl; rewrite map_lookup_imap; [|by rewrite Hout].
    destruct (Hin n Hn) as (b & -> & Hl). eexists. split; [done|]. unfold twelve. by rewrite length_fill_bins, length_replicate. }
  split; try done.
  - destruct Hb as [Hin Hout]. split; intros n Hn; simpl; rewrite map_lookup_imap; [|by rewrite Hout].
    destruct (Hin n Hn) as (b & -> & Hl). destruct Heb' as [Hin' _]. destruct (Hin' n Hn) as (eb & Hebn & Hle).
    eexists. split; [done|]. simpl. destruct (epoch_histo_counts_ s !! n); [|done]. unfold UpdateHistoBins in Hebn. simpl in Hebn.
    rewrite Hebn. simpl. unfold twelve in *. rewrite length_zip_with. lia.
  - apply (table_merge _ any any); [done| |exact Hh|exact Heh]. intros x y _ _. by eexists.
Qed.
Lemma UpdateEpochStats_ok s : stats_ok s → stats_ok (UpdateEpochStats s).
Proof.
  intros Hs. apply UpdateCounters_ok, UpdateHistoBins_ok in Hs. destruct Hs as [Hc He Hv Hev Hb Heb Hh Heh]. split; try done.
  - by apply (table_fmap _ any).
  - apply (table_fmap _ per_rank); [|exact Hev]. intros x Hx. unfold per_rank in *. by rewrite length_replicate.
  - by apply (table_fmap _ any).
Qed.

(** The names an operation may use. *)
Definition registered (o : stat_op) : Prop :=
  match o with
  | St_incr n => n ∈ counter_names
  | St_vec n _ _ => n ∈ vec_names
  | St_sample n _ => n ∈ histo_names
  | St_epoch => True
  end.
Lemma stat_step_ok s o : stats_ok s → registered o → stats_ok (stat_step s o).
Proof.
  intros Hs Ho. destruct o as [n|n i num|n v|]; cbn [stat_step registered] in *; [| | |by apply UpdateEpochStats_ok];
    destruct Hs as [Hc He Hv Hev Hb Heb Hh Heh]; split; try done.
  - apply (table_put _ any _ _ He). intros k. destruct (decide (n = k)) as [->|]; [left|right].
    + eexists. simpl. rewrite lookup_partial_alter_eq. by split.
    + by apply lookup_partial_alter_ne.
  - apply (table_put _ per_rank _ _ Hev). intros k. destruct (decide (n = k)) as [->|]; [left|right; by apply lookup_alter_ne].
    destruct Hev as [Hin _]. destruct (Hin k Ho) as (v & Hk & Hl). eexists. simpl. rewrite lookup_alter_eq, Hk. split; [done|]. split; [|done].
    destruct (zget v i); [|done]. unfold per_rank in *. by rewrite length_zset.
  - apply (table_put _ any _ _ Heh). intros k. destruct (decide (n = k)) as [->|]; [left|right].
    + eexists. simpl. rewrite lookup_partial_alter_eq. by split.
    + by apply lookup_partial_alter_ne.
Qed.

(** *** The reports *)

Definition descr r n : Prop := is_Some (header_descs_ r !! n).
Record rep_ok r : Prop := {
  ro_ranks : 0 ≤ ranks config;
  ro_descs : header_descs_ r = emplaces (described (ranks config)) ∅;
  ro_headers : histo_headers_ r = emplaces ((fun e => (e.1.1, bin_headers e.1.1 e.2.1 e.2.2 10)) <$> histo_descs) ∅;
  ro_stats : stats_ok (rp_stats r);
  ro_doubles : table double_descs.*1 any (doubles_ r);
  ro_vds : table vec_double_descs.*1 per_rank (vec_doubles_ r);
  ro_calculated : table calculated_descs.*1 any (calculated_ r)
}.

Lemma descr_in r n : rep_ok r → n ∈ (described (ranks config)).*1 → descr r n.
Proof. intros Hr Hn. unfold descr. rewrite (ro_descs _ Hr). apply emplaces_some. by left. Qed.
Lemma descr_counter r n : rep_ok r → n ∈ counter_names ++ double_descs.*1 ++ calculated_descs.*1 → descr r n.
Proof.
  intros Hr Hn. apply descr_in; [done|]. unfold described. rewrite !fmap_app, !elem_of_app. rewrite !elem_of_app in Hn.
  change (counter_descs.*1) with counter_names. tauto.
Qed.
Lemma descr_part r n i : rep_ok r → n ∈ vec_names ++ vec_double_descs.*1 → 0 ≤ i < ranks config → descr r (part n i).
Proof.
  intros Hr Hn Hi. apply descr_in; [done|]. unfold described. rewrite !fmap_app, !elem_of_app.
  assert (∀ l, n ∈ l.*1 → part n i ∈ (l ≫= parts (ranks config)).*1) as Hp.
  { intros l Hl. apply list_elem_of_fmap in Hl as ([k d] & -> & Hk). apply list_elem_of_fmap.
    exists (part k i, (d +:+ " rank." +:+ pretty i)%string). split; [done|].
    apply list_elem_of_bind. exists (k, d). split; [|done]. unfold parts. apply list_elem_of_fmap. exists i. split; [done|by apply elem_of_zseq]. }
  apply elem_of_app in Hn as [Hn|Hn]; [do 2 right; left|do 3 right; left]; by apply Hp.
Qed.
Lemma headers_ok r n : rep_ok r → n ∈ histo_names → ∃ h, histo_headers_ r !! n = Some h ∧ length h = 12%nat ∧ Forall (descr r) h.
Proof.
  intros Hr Hn. assert (∃ d lo hi, (n, d, (lo, hi)) ∈ histo_descs ∧ histo_headers_ r !! n = Some (bin_headers n lo hi 10)) as (d & lo & hi & Hin & Hh).
  { rewrite (ro_headers _ Hr). unfold histo_names in Hn. repeat (apply elem_of_cons in Hn as [->|Hn];
      [eexists _, _, _; split; [unfold histo_descs; rewrite !elem_of_cons; eauto|vm_compute; reflexivity]|]). by apply elem_of_nil in Hn. }
  exists (bin_headers n lo hi 10). split; [done|]. split; [done|]. apply Forall_forall. intros h Hhd. apply descr_in; [done|].
  unfold described. rewrite !fmap_app, !elem_of_app. do 4 right. left. apply list_elem_of_fmap. exists (h, d). split; [done|].
  apply list_elem_of_bind. exists (n, d, (lo, hi)). split; [|done]. apply list_elem_of_fmap. by exists h.
Qed.

Lemma table_consts {A} (l : list (string * string)) (P : A -> Prop) x : P x → table l.*1 P (emplaces ((fun e => (e.1, x)) <$> l) ∅).
Proof. intros Hx. pose proof (table_const l.*1 P x Hx) as Ht. by rewrite <- list_fmap_compose in Ht. Qed.
Lemma new_Reports_ok channel : 0 ≤ ranks config → rep_ok (new_Reports (ranks config) channel).
Proof.
  intros Hr. split; [done|done|done|apply new_stats_ok| | |]; apply table_consts; [exact I|apply length_replicate|exact I].
Qed.
Lemma with_stats_ok r s : rep_ok r → stats_ok s → rep_ok (with_stats s r).
Proof. intros [] ?. by split. Qed.
Lemma with_prints_ok r j l : rep_ok r → rep_ok (with_prints j l r).
Proof. intros []. by split. Qed.

(** The background energies exist. *)
Lemma RankBackgroundEnergy_ok r j : rep_ok r → 0 ≤ j < ranks config → ∃ e, RankBackgroundEnergy r j = ok e.
Proof.
  intros Hr Hj. assert (∀ n, n ∈ vec_double_descs.*1 → ∃ x, opt_exc (vec_doubles_ r !! n) StdOutOfRange ≫= (fun v => vec_get v j) = ok x) as Hget.
  { intros n Hn. destruct (proj1 (ro_vds _ Hr) n Hn) as (v & -> & Hv). unfold per_rank in Hv. destruct (zget_is_Some v j) as [x Hx]; [lia|].
    exists x. by apply vec_get_ok. }
  unfold RankBackgroundEnergy.
  destruct (Hget "act_stb_energy"%string) as [x ->]; [apply (bool_decide_unpack _); vm_compute; exact I|].
  destruct (Hget "pre_stb_energy"%string) as [y ->]; [apply (bool_decide_unpack _); vm_compute; exact I|].
  destruct (Hget "sref_energy"%string) as [z ->]; [apply (bool_decide_unpack _); vm_compute; exact I|].
  by eexists.
Qed.

Lemma elem_of_indexed {A} (l : list A) i x : (i, x) ∈ indexed l → 0 ≤ i < Z.of_nat (length l).
Proof. intros Hin. apply elem_of_zip_l in Hin. by apply elem_of_zseq in Hin. Qed.

Lemma Forall2_right {A B} (P : B -> Prop) (l : list A) k : Forall2 (fun _ y => P y) l k → Forall P k.
Proof. induction 1; by constructor. Qed.

Lemma bin_lines_ok r hb :
  rep_ok r → table histo_names twelve hb → ∃ l, bin_lines hb (histo_headers_ r) = ok l ∧ Forall (fun e => descr r e.1) l.
Proof.
  intros Hr Hb. unfold bin_lines. match goal with |- context [mapE ?f (map_to_list hb)] =>
    destruct (mapE_total (fun (_ : string * list Z) out => Forall (fun e : string * Z => descr r e.1) out) f (map_to_list hb)) as (l & -> & Hl) end.
  - intros [n b] Hin. apply elem_of_map_to_list in Hin. destruct (table_lookup _ _ _ _ _ Hb Hin) as [Hn Hlen].
    destruct (headers_ok r n Hr Hn) as (h & Hh & Hlh & Hd). cbn [fst snd]. rewrite Hh. change (default [] (Some h)) with h.
    match goal with |- context [mapE ?f (indexed b)] =>
      destruct (mapE_total (fun (_ : Z * Z) (e : string * Z) => descr r e.1) f (indexed b)) as (l & Hl & Hall) end.
    + intros [i x] Hix. apply elem_of_indexed in Hix. rewrite Hlen in Hix. cbn [fst snd].
      destruct (zget_is_Some h i ltac:(lia)) as [k Hk]. rewrite (proj2 (vec_get_ok _ _ _) Hk).
      eexists. split; [reflexivity|]. simpl. rewrite Forall_forall in Hd. apply Hd. by apply (zget_elem h i).
    + exists l. split; [exact Hl|]. by apply Forall2_right in Hall.
  - cbn [mbind exc_bind]. exists (concat l). split; [done|]. apply Forall_concat. by apply Forall2_right in Hl.
Qed.
End Described.

(** ** Runs of a statistics object *)

Section Runs.
Context (config : Config) (power : PowerParams).
Context (fmt_double : double -> string) (dump : gmap string jval -> string) (stat_text : string -> string -> string -> string).
Implicit Types (r : Reports) (o : outputs).
Local Notation rep_ok := (rep_ok config).
Local Notation prints := (UpdatePrints fmt_double).

Lemma UpdatePrints_ok epoch r :
  rep_ok r → ∃ j new, prints epoch r = ok (with_prints j (print_pairs_ r ++ new) r) ∧ Forall (fun e => descr r e.1) new.
Proof.
  clear dump stat_text power. intros Hr. destruct (ro_stats _ _ Hr) as [Hc He Hv Hev Hb Heb Hh Heh]. unfold UpdatePrints.
  destruct (bin_lines_ok config r (if epoch then epoch_histo_bins_ (rp_stats r) else histo_bins_ (rp_stats r)) Hr) as (bins & -> & Hbins);
    [by destruct epoch|]. cbn [mbind exc_bind]. eexists _, _. split; [reflexivity|].
  assert (∀ A (m : gmap string A) (f : A -> string) names, table names any m →
    (∀ n, n ∈ names → n ∈ counter_names ++ double_descs.*1 ++ calculated_descs.*1) →
    Forall (fun e => descr r e.1) ((fun e => (e.1, f e.2)) <$> map_to_list m)) as Hflat.
  { intros A m f names Hm Hn. apply Forall_fmap, Forall_forall. intros [n x] Hin%elem_of_map_to_list.
    apply (descr_counter config); [done|]. apply Hn. by apply (table_lookup _ _ _ _ _ Hm Hin). }
  assert (∀ A (m : gmap string (list A)) (f : A -> string) names, table names (per_rank config) m →
    (∀ n, n ∈ names → n ∈ vec_names ++ vec_double_descs.*1) →
    Forall (fun e => descr r e.1) (map_to_list m ≫= fun e => (fun x : Z * A => (part e.1 x.1, f x.2)) <$> indexed e.2)) as Hparts.
  { intros A m f names Hm Hn. apply Forall_forall. intros e He'. apply list_elem_of_bind in He' as ([n v] & Hin & Hv').
    apply list_elem_of_fmap in Hin as ([i x] & -> & Hix). apply elem_of_map_to_list in Hv'. apply elem_of_indexed in Hix. cbn [fst snd] in *.
    destruct (table_lookup _ _ _ _ _ Hm Hv') as [Hk Hl]. apply (descr_part config); [done|by apply Hn|]. unfold per_rank in Hl.
    pose proof (ro_ranks _ _ Hr). lia. }
  rewrite !Forall_app. split_and!.
  - apply (Hflat _ _ _ counter_names); [by destruct epoch|]. intros n Hn. rewrite !elem_of_app. tauto.
  - apply (Hparts _ _ _ vec_names); [by destruct epoch|]. intros n Hn. rewrite !elem_of_app. tauto.
  - apply Forall_fmap. exact Hbins.
  - apply (Hflat _ _ _ double_descs.*1); [apply Hr|]. intros n Hn. rewrite !elem_of_app. tauto.
  - apply (Hparts _ _ _ vec_double_descs.*1); [apply Hr|]. intros n Hn. rewrite !elem_of_app. tauto.
  - apply (Hflat _ _ _ calculated_descs.*1); [apply Hr|]. intros n Hn. rewrite !elem_of_app. tauto.
Qed.

(** [compute] on the tables of a well-formed object. *)
Lemma compute_rep_ok cnt vc hc r :
  rep_ok r → table vec_names (per_rank config) vc → table histo_names any hc →
  ∃ r' rl ia, hc !! "read_latency"%string = Some rl ∧ hc !! "interarrival_latency"%string = Some ia ∧
    compute config power cnt vc hc r = ok r' ∧ rep_ok r' ∧ filled power vc (ranks config) (vec_doubles_ r') ∧
    print_pairs_ r' = print_pairs_ r ∧ doubles_ r' = inserts (energies power (count cnt)) (doubles_ r) ∧
    calculated_ r' = inserts (calculations config power (count cnt) (background power (rank_count vc) (ranks config)) (GetHistoAvg rl) (GetHistoAvg ia))
      (calculated_ r).
Proof.
  intros Hr Hvc Hhc. destruct Hhc as [Hin _].
  destruct (Hin "read_latency"%string) as (rl & Hrl & _); [apply (bool_decide_unpack _); vm_compute; exact I|].
  destruct (Hin "interarrival_latency"%string) as (ia & Hia & _); [apply (bool_decide_unpack _); vm_compute; exact I|].
  destruct (compute_ok config power cnt vc hc r rl ia (ro_ranks _ _ Hr) (proj1 Hvc) (proj1 (ro_vds _ _ Hr)) Hrl Hia) as (vd & Hc & Hs & Ho & Hf).
  eexists _, rl, ia. split; [done|]. split; [done|]. split; [exact Hc|]. split; [|done].
  destruct Hr as [Hrk Hd Hh Hst Hdb Hvd Hca]. split; try done; cbn [doubles_ vec_doubles_ calculated_ with_figures].
  - apply table_inserts; [done|]. apply Forall_forall. intros e He. exact (list_elem_of_fmap_2 fst _ _ He).
  - split; [exact Hs|]. intros n Hn. rewrite Ho by done. by apply Hvd.
  - apply table_inserts; [done|]. apply Forall_forall. intros e He.
    exact (list_elem_of_fmap_2 fst _ _ He : e.1 ∈ calculated_descs.*1).
Qed.

Lemma epoch_ok r :
  rep_ok r → print_pairs_ r = [] →
  ∃ r', r_UpdateEpochStats config power fmt_double r = ok r' ∧ rep_ok r' ∧ rp_stats r' = UpdateEpochStats (rp_stats r) ∧
    Forall (fun e => descr r' e.1) (print_pairs_ r').
Proof.
  intros Hr Hp. unfold r_UpdateEpochStats. pose proof (UpdateHistoBins_ok config _ (UpdateCounters_ok config _ (ro_stats _ _ Hr))) as Hs.
  destruct (compute_rep_ok (epoch_counters_ (UpdateHistoBins (UpdateCounters (rp_stats r))))
    (epoch_vec_counters_ (UpdateHistoBins (UpdateCounters (rp_stats r)))) (epoch_histo_counts_ (UpdateHistoBins (UpdateCounters (rp_stats r))))
    (with_stats (UpdateHistoBins (UpdateCounters (rp_stats r))) r) (with_stats_ok _ _ _ Hr Hs) (so_epoch_vecs _ _ Hs) (so_epoch_counts _ _ Hs))
    as (r1 & rl & ia & _ & _ & -> & Hr1 & _ & Hp1 & _). cbn [mbind exc_bind].
  destruct (UpdatePrints_ok true _ Hr1) as (j & new & -> & Hnew). cbn [mbind exc_bind].
  eexists. split; [reflexivity|]. split; [|split; [done|]].
  - apply with_stats_ok; [by apply with_prints_ok|]. by apply UpdateEpochStats_ok, Hr.
  - change (print_pairs_ (with_stats _ r)) with (print_pairs_ r) in Hp1. cbn [print_pairs_ with_prints with_stats]. rewrite Hp1, Hp. exact Hnew.
Qed.

Lemma final_ok r :
  rep_ok r → print_pairs_ r = [] →
  ∃ r' rl ia, r_UpdateFinalStats config power fmt_double r = ok r' ∧ rep_ok r' ∧ Forall (fun e => descr r' e.1) (print_pairs_ r') ∧
    let s := UpdateFinalStats (rp_stats r) in
    histo_counts_ s !! "read_latency"%string = Some rl ∧ histo_counts_ s !! "interarrival_latency"%string = Some ia ∧
    filled power (vec_counters_ s) (ranks config) (vec_doubles_ r') ∧
    doubles_ r' = inserts (energies power (count (counters_ s))) (doubles_ r) ∧
    calculated_ r' = inserts (calculations config power (count (counters_ s)) (background power (rank_count (vec_counters_ s)) (ranks config))
      (GetHistoAvg rl) (GetHistoAvg ia)) (calculated_ r).
Proof.
  intros Hr Hp. unfold r_UpdateFinalStats. assert (stats_ok config (UpdateFinalStats (rp_stats r))) as Hs
    by apply UpdateHistoBins_ok, UpdateCounters_ok, Hr. generalize dependent (UpdateFinalStats (rp_stats r)). intros s Hs.
  destruct (compute_rep_ok (counters_ s) (vec_counters_ s) (histo_counts_ s) (with_stats s r) (with_stats_ok _ _ _ Hr Hs) (so_vecs _ _ Hs) (so_counts _ _ Hs))
    as (r1 & rl & ia & Hrl & Hia & -> & Hr1 & Hf & Hp1 & Hd1 & Hc1). cbn [mbind exc_bind].
  destruct (UpdatePrints_ok false _ Hr1) as (j & new & -> & Hnew).
  eexists _, rl, ia. split; [reflexivity|]. split; [by apply with_prints_ok|]. split; [|done].
  change (print_pairs_ (with_stats _ r)) with (print_pairs_ r) in Hp1. cbn [print_pairs_ with_prints]. rewrite Hp1, Hp. exact Hnew.
Qed.

(** An operation of the controller on its statistics, the end of an epoch with its output. *)
Definition rep_step (op : stat_op) (ro : Reports * outputs) : exc (Reports * outputs) :=
  match op with
  | St_epoch => r_PrintEpochStats config power fmt_double dump stat_text ro.1 ro.2
  | _ => ok (with_stats (stat_step (rp_stats ro.1) op) ro.1, ro.2)
  end.

Lemma header_ok is_final r : rep_ok r → ∃ h, GetTextHeader is_final r = ok h.
Proof.
  intros Hr. unfold GetTextHeader. destruct is_final; [by eexists|].
  destruct (proj1 (so_counters _ _ (ro_stats _ _ Hr)) "epoch_num"%string) as (e & -> & _); [unfold counter_names; right; by left|].
  by eexists.
Qed.
Lemma PrintEpochStats_ok r o :
  rep_ok r → print_pairs_ r = [] →
  ∃ r' o', r_PrintEpochStats config power fmt_double dump stat_text r o = ok (r', o') ∧ rep_ok r' ∧ print_pairs_ r' = [] ∧
    rp_stats r' = UpdateEpochStats (rp_stats r) ∧
    files o' = if 1 <=? output_level config then
      <[json_epoch_name config := (default EmptyString (files o !! json_epoch_name config) +:+ dump (j_data_ r'))%string]> (files o) else files o.
Proof.
  intros Hr Hp. unfold r_PrintEpochStats. destruct (epoch_ok r Hr Hp) as (r1 & -> & Hr1 & Hst & _). cbn [mbind exc_bind].
  destruct (header_ok false r1 Hr1) as [h Hh]. rewrite Hh.
  destruct (2 <=? output_level config); cbn [mbind exc_bind]; (eexists _, _; split; [reflexivity|]);
    (split; [by apply with_prints_ok|]); (split; [done|]); (split; [done|]); by destruct (1 <=? output_level config).
Qed.

Lemma rep_run ops r o :
  Forall registered ops → rep_ok r → print_pairs_ r = [] →
  ∃ r' o', foldE rep_step ops (r, o) = ok (r', o') ∧ rep_ok r' ∧ print_pairs_ r' = [] ∧ rp_stats r' = foldl stat_step (rp_stats r) ops.
Proof.
  intros Hops. revert r o. induction Hops as [|op ops Hop Hops IH]; intros r o Hr Hp; cbn [foldE foldl].
  { by exists r, o. }
  assert (∃ r1 o1, rep_step op (r, o) = ok (r1, o1) ∧ rep_ok r1 ∧ print_pairs_ r1 = [] ∧ rp_stats r1 = stat_step (rp_stats r) op)
    as (r1 & o1 & -> & Hr1 & Hp1 & Hs1).
  { pose proof (with_stats_ok config r _ Hr (stat_step_ok config _ op (ro_stats _ _ Hr) Hop)) as Hw.
    destruct op; try (eexists _, _; split; [reflexivity|by split_and!]).
    destruct (PrintEpochStats_ok r o Hr Hp) as (r' & o' & ? & ? & ? & ? & _). by exists r', o'. }
  cbn [mbind exc_bind]. rewrite <- Hs1. by apply IH.
Qed.

Lemma energies_ext cnt cnt' : (∀ n, n ∈ counter_names → cnt n = cnt' n) → energies power cnt = energies power cnt'.
Proof. intros H. unfold energies. by rewrite !H by (apply (bool_decide_unpack _); vm_compute; exact I). Qed.
Lemma rank_energies_ext cnt cnt' : (∀ n, n ∈ vec_names → cnt n = cnt' n) → rank_energies power cnt = rank_energies power cnt'.
Proof. intros H. unfold rank_energies. by rewrite !H by (apply (bool_decide_unpack _); vm_compute; exact I). Qed.
Lemma calculations_ext cnt cnt' b x y :
  (∀ n, n ∈ counter_names → cnt n = cnt' n) → calculations config power cnt b x y = calculations config power cnt' b x y.
Proof.
  intros H. unfold calculations. rewrite (energies_ext cnt cnt' H). by rewrite !H by (apply (bool_decide_unpack _); vm_compute; exact I).
Qed.
Lemma background_ext cnt cnt' k :
  0 ≤ k → (∀ i n, 0 ≤ i < k → n ∈ vec_names → cnt i n = cnt' i n) → background power cnt k = background power cnt' k.
Proof.
  intros Hk. revert k Hk. refine (natlike_ind _ _ _); [done|]. intros k Hk IH He. unfold background in *.
  rewrite <- Z.add_1_r, zseq_succ, !foldl_snoc by done. rewrite IH by (intros; apply He; [lia|done]).
  by rewrite (rank_energies_ext (cnt k) (cnt' k)) by (intros; apply He; [lia|done]).
Qed.

(** (C21) The final report does not depend on where the epochs ended: for any run of counts,
    samples and epochs, energies, bandwidth, power and average latencies are those of
    the numbers of all counts and samples of the run (as 64-bit numbers). *)
Theorem final_report channel o ops :
  0 ≤ ranks config → Forall registered ops →
  let cnt n := u64 (increments n ops) in
  let rank i n := u64 (vec_increments n i ops) in
  let avg n := average (u64 (samples n (fun v => v) ops)) (u64 (samples n (fun _ => 1) ops)) in
  ∃ r o1 r' o2, foldE rep_step ops (new_Reports (ranks config) channel, o) = ok (r, o1) ∧
    r_PrintFinalStats config power fmt_double dump stat_text r o1 = ok (r', o2) ∧
    (∀ n x, (n, x) ∈ energies power cnt → doubles_ r' !! n = Some x) ∧
    (∀ i n x, 0 ≤ i < ranks config → (n, x) ∈ rank_energies power (rank i) → ∃ v, vec_doubles_ r' !! n = Some v ∧ zget v i = Some x) ∧
    (∀ n x, (n, x) ∈ calculations config power cnt (background power rank (ranks config)) (avg "read_latency"%string) (avg "interarrival_latency"%string) →
       calculated_ r' !! n = Some x).
Proof.
  intros Hrk Hops cnt rank avg. destruct (rep_run ops _ o Hops (new_Reports_ok config channel Hrk) eq_refl) as (r & o1 & Hrun & Hr & Hp & Hst).
  change (rp_stats (new_Reports (ranks config) channel)) with (new_stats (ranks config)) in Hst.
  destruct (final_ok r Hr Hp) as (r1 & rl & ia & Hf & Hr1 & _ & Hrl & Hia & Hfill & Hd & Hc). rewrite Hst in Hrl, Hia, Hfill, Hd, Hc.
  exists r, o1. unfold r_PrintFinalStats. rewrite Hf. cbn [mbind exc_bind]. destruct (header_ok true r1 Hr1) as [h ->].
  assert (∀ n, n ∈ counter_names → count (counters_ (UpdateFinalStats (foldl stat_step (new_stats (ranks config)) ops))) n = cnt n) as Hcnt.
  { intros n Hn. unfold count. by rewrite (final_counter n (ranks config) ops Hn). }
  assert (∀ i n, 0 ≤ i < ranks config → n ∈ vec_names →
    rank_count (vec_counters_ (UpdateFinalStats (foldl stat_step (new_stats (ranks config)) ops))) i n = rank i n) as Hrank.
  { intros i n Hi Hn. destruct (final_vec n (ranks config) i ops Hn Hi) as (v & Hv & _ & Hg). unfold rank_count. rewrite Hv.
    cbn [mbind option_bind]. by rewrite Hg. }
  assert (∀ n m, n ∈ histo_names → histo_counts_ (UpdateFinalStats (foldl stat_step (new_stats (ranks config)) ops)) !! n = Some m →
    GetHistoAvg m = avg n) as Havg.
  { intros n m Hn Hm. rewrite GetHistoAvg_ok. unfold avg.
    destruct (final_samples n (fun v => v) (ranks config) ops Hn) as (m1 & Hm1 & <-).
    destruct (final_samples n (fun _ => 1) (ranks config) ops Hn) as (m2 & Hm2 & <-). congruence. }
  generalize dependent (UpdateFinalStats (foldl stat_step (new_stats (ranks config)) ops)). intros s Hrl Hia Hfill Hd Hc Hcnt Hrank Havg.
  rewrite (energies_ext _ cnt Hcnt) in Hd.
  assert ("read_latency"%string ∈ histo_names ∧ "interarrival_latency"%string ∈ histo_names) as [Hn1 Hn2]
    by (split; apply (bool_decide_unpack _); vm_compute; exact I).
  rewrite (calculations_ext _ cnt _ _ _ Hcnt), (background_ext _ rank _ Hrk Hrank), (Havg _ rl Hn1 Hrl), (Havg _ ia Hn2 Hia) in Hc.
  destruct (1 <=? output_level config); cbn [mbind exc_bind]; (eexists _, _; split; [exact Hrun|]; split; [reflexivity|]);
    cbn [doubles_ vec_doubles_ calculated_ with_prints]; rewrite Hd, Hc; (split; [|split]).
  1, 4: intros n x Hin; apply inserts_lookup; [apply (bool_decide_unpack _); vm_compute; exact I|done].
  1, 3: intros i n x Hi Hin; apply (Hfill i n x Hi); by rewrite (rank_energies_ext _ (rank i)) by (intros; by apply Hrank).
  1, 2: intros n x Hin; apply inserts_lookup; [apply (bool_decide_unpack _); vm_compute; exact I|done].
Qed.

(** (C23) Every line of a report has a description: whatever is printed at the end of an epoch
    or of the run is registered by the constructor, with the ranks and bins as they are
    printed. *)
Theorem printed_described channel o ops :
  0 ≤ ranks config → Forall registered ops →
  ∃ r o1 e f, foldE rep_step ops (new_Reports (ranks config) channel, o) = ok (r, o1) ∧
    r_UpdateEpochStats config power fmt_double r = ok e ∧ Forall (fun p => is_Some (header_descs_ e !! p.1)) (print_pairs_ e) ∧
    r_UpdateFinalStats config power fmt_double r = ok f ∧ Forall (fun p => is_Some (header_descs_ f !! p.1)) (print_pairs_ f).
Proof.
  intros Hrk Hops. destruct (rep_run ops _ o Hops (new_Reports_ok config channel Hrk) eq_refl) as (r & o1 & Hrun & Hr & Hp & _).
  destruct (epoch_ok r Hr Hp) as (e & He & _ & _ & Hde). destruct (final_ok r Hr Hp) as (f & rl & ia & Hf & _ & Hdf & _).
  by exists r, o1, e, f.
Qed.
End Runs.

(** ** The epoch file *)

Lemma string_app_cons x (a b : string) : (String x a +:+ b)%string = String x (a +:+ b)%string.
Proof. done. Qed.
Lemma string_app_assoc (a b c : string) : ((a +:+ b) +:+ c)%string = (a +:+ (b +:+ c))%string.
Proof. induction a as [|x a IH]; [done|]. by rewrite !string_app_cons, IH. Qed.
Lemma string_app_nil (a : string) : (a +:+ EmptyString)%string = a.
Proof. induction a as [|x a IH]; [done|]. by rewrite string_app_cons, IH. Qed.
Lemma length_app_string (a b : string) : String.length (a +:+ b)%string = (String.length a + String.length b)%nat.
Proof. induction a as [|x a IH]; [done|]. rewrite string_app_cons. simpl. by rewrite IH. Qed.
Lemma substring_front (a b : string) : String.substring 0 (String.length a) (a +:+ b)%string = a.
Proof. induction a as [|x a IH]; [by destruct b|]. rewrite string_app_cons. simpl. by rewrite IH. Qed.
Lemma substring_back (a b : string) k n : String.substring (String.length a + k) n (a +:+ b)%string = String.substring k n b.
Proof. induction a as [|x a IH]; [done|]. exact IH. Qed.

(** The values, each with a comma and a newline behind it, and with them in between. *)
Definition comma : string := ("," +:+ nl)%string.
Definition commas (l : list string) : string := foldr (fun d t => (d +:+ comma +:+ t)%string) EmptyString l.
Lemma commas_app l l' : commas (l ++ l') = (commas l +:+ commas l')%string.
Proof. induction l as [|d l IH]; [done|]. simpl. by rewrite IH, !string_app_assoc. Qed.
Lemma commas_concat l : l ≠ [] → commas l = (String.concat comma l +:+ comma)%string.
Proof.
  induction l as [|d l IH]; [done|]. intros _. destruct l as [|d' l]; [done|].
  change (commas (d :: d' :: l)) with (d +:+ comma +:+ commas (d' :: l))%string. rewrite IH by done.
  change (String.concat comma (d :: d' :: l)) with (d +:+ comma +:+ String.concat comma (d' :: l))%string. by rewrite !string_app_assoc.
Qed.

Section EpochFile.
Context (config : Config) (power : PowerParams).
Context (fmt_double : double -> string) (dump : gmap string jval -> string) (stat_text : string -> string -> string -> string).
Implicit Types (r : Reports) (o : outputs).

Definition rep_clean r : Prop := rep_ok config r ∧ print_pairs_ r = [].
Definition the_file o : string := default EmptyString (files o !! json_epoch_name config).

Definition open_list (js : list (gmap string jval)) : string := ("[" +:+ commas (dump <$> js))%string.

Lemma write_app_file (name text : string) o : default EmptyString (files (write_app name text o) !! name) = (default EmptyString (files o !! name) +:+ text)%string.
Proof. unfold write_app. simpl. by rewrite lookup_insert_eq. Qed.

Lemma print_epochs_ok l o :
  1 ≤ output_level config → Forall rep_clean l →
  ∃ l' o', print_epochs config power fmt_double dump stat_text l o = ok (l', o') ∧ Forall rep_clean l' ∧ length l' = length l ∧
    the_file o' = (the_file o +:+ commas ((fun r => dump (j_data_ r)) <$> l'))%string.
Proof.
  intros Hlev. revert o. induction l as [|r l IH]; intros o Hl; cbn [print_epochs].
  { exists [], o. split_and!; try done. simpl. by rewrite string_app_nil. }
  apply Forall_cons in Hl as [[Hr Hp] Hl].
  assert (rep_ok config (with_stats (Increment "epoch_num" (rp_stats r)) r)) as Hr0.
  { apply with_stats_ok; [done|]. apply (stat_step_ok config _ (St_incr "epoch_num")); [apply Hr|].
    unfold registered, counter_names. right. by left. }
  destruct (PrintEpochStats_ok config power fmt_double dump stat_text _ o Hr0 Hp) as (r' & o1 & -> & Hr' & Hp' & _ & Hf). cbn [mbind exc_bind].
  destruct (IH (write_app (json_epoch_name config) ("," +:+ nl)%string o1) Hl) as (l' & o2 & -> & Hl' & Hlen & Hfile). cbn [mbind exc_bind].
  exists (r' :: l'), o2. split; [done|]. split; [by constructor|]. split; [simpl; by rewrite Hlen|].
  rewrite Hfile. unfold the_file at 1. rewrite write_app_file, Hf. destruct (Z.leb_spec 1 (output_level config)); [|lia].
  rewrite lookup_insert_eq. cbn [default]. unfold comma. simpl. unfold id. by rewrite !string_app_assoc.
Qed.

(** What the channels do in an epoch, and epochs one behind the other; the JSON data are
    collected as they are printed. *)
Definition sys_epoch (clk : Z) (ops : list (list stat_op)) (st : list Reports * outputs * list (gmap string jval))
    : exc (list Reports * outputs * list (gmap string jval)) :=
  let '(l, o, js) := st in
  '(l, o) ← sys_PrintEpochStats config power fmt_double dump stat_text clk
              (zip_with (fun r ops => with_stats (foldl stat_step (rp_stats r) ops) r) l ops) o;
  ok (l, o, js ++ (j_data_ <$> l)).
Fixpoint sys_epochs (k : Z) (epochs : list (list (list stat_op))) (st : list Reports * outputs * list (gmap string jval))
    : exc (list Reports * outputs * list (gmap string jval)) :=
  match epochs with
  | [] => ok st
  | ops :: epochs => st ← sys_epoch (k * epoch_period config) ops st; sys_epochs (k + 1) epochs st
  end.

Definition epochs_ok (n : nat) (epochs : list (list (list stat_op))) : Prop :=
  Forall (fun e => length e = n ∧ Forall (Forall registered) e) epochs.

Lemma foldl_stats_ok ops s : Forall registered ops → stats_ok config s → stats_ok config (foldl stat_step s ops).
Proof. intros Hops. revert s. induction Hops as [|op ops Hop Hops IH]; intros s Hs; [done|]. simpl. apply IH. by apply stat_step_ok. Qed.

Lemma sys_epoch_ok clk ops l o js :
  1 ≤ output_level config → 0 ≤ clk < two64 → Forall rep_clean l → length ops = length l → Forall (Forall registered) ops →
  (clk = epoch_period config ∧ js = []) ∨ (0 < epoch_period config < clk ∧ the_file o = open_list js) →
  ∃ l' o', sys_epoch clk ops (l, o, js) = ok (l', o', js ++ (j_data_ <$> l')) ∧ Forall rep_clean l' ∧ length l' = length l ∧
    the_file o' = open_list (js ++ (j_data_ <$> l')).
Proof.
  intros Hlev Hclk Hl Hlen Hops Hfile. unfold sys_epoch, sys_PrintEpochStats.
  set (l0 := zip_with _ l ops). assert (Forall rep_clean l0 ∧ length l0 = length l) as [Hl0 Hlen0].
  { unfold l0. split; [|rewrite length_zip_with; lia]. clear l0 Hlen Hfile. revert ops Hops.
    induction Hl as [|r l [Hr Hp] Hl IH]; intros [|op ops] Hops; try constructor; apply Forall_cons in Hops as [Hop Hops].
    - split; [|done]. apply with_stats_ok; [done|]. by apply foldl_stats_ok, Hr.
    - by apply IH. }
  set (o0 := if _ =? 0 then _ else o). assert (the_file o0 = open_list js) as Ho0.
  { unfold o0. destruct Hfile as [[-> ->]|[Hper Hf]].
    - rewrite Z.sub_diag. unfold the_file. simpl. by rewrite lookup_insert_eq.
    - rewrite u64_small by lia. destruct (Z.eqb_spec (clk - epoch_period config) 0); [lia|done]. }
  destruct (print_epochs_ok l0 o0 Hlev Hl0) as (l' & o' & -> & Hl' & Hlen' & Hf'). cbn [mbind exc_bind].
  exists l', o'. split; [done|]. split; [done|]. split; [lia|]. rewrite Hf', Ho0. unfold open_list.
  by rewrite fmap_app, commas_app, <- list_fmap_compose, string_app_assoc.
Qed.

Lemma sys_epochs_ok k epochs l o js :
  1 ≤ output_level config → 0 < epoch_period config → 0 < k → (k + Z.of_nat (length epochs)) * epoch_period config ≤ two64 →
  Forall rep_clean l → epochs_ok (length l) epochs →
  (k = 1 ∧ js = [] ∧ epochs ≠ []) ∨ (1 < k ∧ the_file o = open_list js) →
  ∃ l' o' new, sys_epochs k epochs (l, o, js) = ok (l', o', js ++ new) ∧ Forall rep_clean l' ∧ length l' = length l ∧
    length new = (length epochs * length l)%nat ∧ the_file o' = open_list (js ++ new).
Proof.
  intros Hlev Hper. revert k l o js. induction epochs as [|ops epochs IH]; intros k l o js Hk Hb Hl He Hfile; cbn [sys_epochs].
  { destruct Hfile as [(_ & _ & ?)|[_ Hf]]; [done|]. exists l, o, []. rewrite !app_nil_r. by split_and!. }
  apply Forall_cons in He as [[Hlen Hops] He]. cbn [length] in Hb.
  destruct (sys_epoch_ok (k * epoch_period config) ops l o js Hlev) as (l1 & o1 & -> & Hl1 & Hlen1 & Hf1); [nia|done|done|done| |].
  { destruct Hfile as [(-> & -> & _)|[? ?]]; [left; split; [lia|done]|right; split; [nia|done]]. }
  cbn [mbind exc_bind]. destruct (IH (k + 1) l1 o1 (js ++ (j_data_ <$> l1))) as (l' & o' & new & -> & Hl' & Hlen' & Hnew & Hf');
    [lia|lia|done|by rewrite Hlen1|right; split; [lia|done]|].
  exists l', o', ((j_data_ <$> l1) ++ new). rewrite <- app_assoc in *. split_and!; [done|done|lia| |done].
  rewrite length_app, length_fmap, Hnew, Hlen1. simpl. lia.
Qed.

(** Closing the list, and the final reports, which go to other files. *)
Lemma close_epochs_file o t :
  the_file o = (t +:+ comma)%string → the_file (close_epochs config o) = (t +:+ "]" +:+ nl)%string.
Proof.
  unfold the_file, close_epochs. destruct (files o !! json_epoch_name config) as [s|].
  2:{ intros E. apply (f_equal String.length) in E. rewrite length_app_string in E. simpl in E. lia. }
  intros Es. change s with (default EmptyString (Some s)). rewrite Es, length_app_string. change (String.length comma) with 2%nat.
  destruct (Nat.leb_spec 2 (String.length t + 2)); [|lia]. cbn [files write_trunc]. rewrite lookup_insert_eq.
  replace (String.length t + 2 - 2)%nat with (String.length t) by lia. by rewrite substring_front, substring_back.
Qed.

Lemma write_other (b : bool) (name text : string) o :
  name ≠ json_epoch_name config → the_file ((if b then write_trunc name text else write_app name text) o) = the_file o.
Proof. intros Hn. unfold the_file. destruct b; simpl; by rewrite lookup_insert_ne. Qed.

Definition other_names : Prop :=
  json_stats_name config ≠ json_epoch_name config ∧ txt_stats_name config ≠ json_epoch_name config.

(** The names [InitOtherParams] gives are different files. *)
Lemma InitOtherParams_names (rd : INIReader) d x : p_other config = InitOtherParams rd d x → other_names.
Proof.
  intros E. unfold other_names. rewrite E. unfold InitOtherParams. cbn [json_stats_name json_epoch_name txt_stats_name].
  split; intros He; apply (inj _) in He; discriminate.
Qed.

Lemma PrintFinalStats_file r o :
  other_names → rep_clean r →
  ∃ r' o', r_PrintFinalStats config power fmt_double dump stat_text r o = ok (r', o') ∧ the_file o' = the_file o.
Proof.
  intros [Hj Ht] [Hr Hp]. unfold r_PrintFinalStats. destruct (final_ok config power fmt_double r Hr Hp) as (r1 & rl & ia & -> & Hr1 & _).
  cbn [mbind exc_bind]. destruct (header_ok config true r1 Hr1) as [h ->].
  destruct (0 <=? output_level config), (1 <=? output_level config); cbn [mbind exc_bind]; (eexists _, _; split; [reflexivity|]);
    try destruct (channel_id_ r1 =? 0); unfold the_file; simpl; by rewrite ?lookup_insert_ne by done.
Qed.
Lemma print_finals_file l o :
  other_names → Forall rep_clean l →
  ∃ l' o', print_finals config power fmt_double dump stat_text l o = ok (l', o') ∧ the_file o' = the_file o.
Proof.
  intros Hn Hl. revert o. induction Hl as [|r l Hr Hl IH]; intros o; cbn [print_finals]; [by exists [], o|].
  destruct (PrintFinalStats_file r o Hn Hr) as (r' & o1 & -> & Hf). cbn [mbind exc_bind].
  set (o2 := match l with [] => o1 | _ => _ end). assert (the_file o2 = the_file o1) as Ho2
    by (unfold o2; destruct l; [done|]; exact (write_other false _ _ o1 (proj1 Hn))).
  destruct (IH o2) as (l' & o3 & -> & Hf3). cbn [mbind exc_bind]. exists (r' :: l'), o3. split; [done|]. congruence.
Qed.

(** (C22) The epoch file is a JSON list, when [output_level] is at least 1 and at least one
    epoch has ended (of a run below 2^64 cycles): after these epochs and the final report
    it holds, between brackets and with commas in between, the data of every channel at
    the end of every epoch, in order; so it is what the closing of the file, which goes
    back two characters and writes over the last comma, is for. (At level 0 it is not:
    [quiet_epoch_file].) *)
Theorem epoch_file (rd : INIReader) d x o epochs :
  p_other config = InitOtherParams rd d x → 1 ≤ output_level config → 0 < epoch_period config →
  0 ≤ ranks config → 0 < channels config →
  epochs ≠ [] → epochs_ok (Z.to_nat (channels config)) epochs → (1 + Z.of_nat (length epochs)) * epoch_period config ≤ two64 →
  ∃ l o1 js l' o2, sys_epochs 1 epochs (new_Reports (ranks config) <$> zseq (channels config), o, []) = ok (l, o1, js) ∧
    sys_PrintStats config power fmt_double dump stat_text l o1 = ok (l', o2) ∧
    length js = (length epochs * Z.to_nat (channels config))%nat ∧
    files o2 !! json_epoch_name config = Some ("[" +:+ String.concat comma (dump <$> js) +:+ "]" +:+ nl)%string.
Proof.
  intros Ho Hlev Hper Hrk Hch Hne He Hb. pose proof (InitOtherParams_names rd d x Ho) as Hn.
  assert (length (new_Reports (ranks config) <$> zseq (channels config)) = Z.to_nat (channels config)) as Hlen0
    by (by rewrite length_fmap, length_zseq).
  destruct (sys_epochs_ok 1 epochs (new_Reports (ranks config) <$> zseq (channels config)) o []) as (l & o1 & js & Hrun & Hl & _ & Hlen & Hf);
    [done|done|lia|lia| |by rewrite Hlen0|by left|].
  { apply Forall_fmap, Forall_forall. intros i _. split; [by apply new_Reports_ok|done]. }
  rewrite Hlen0 in Hlen. simpl in Hf, Hrun. unfold open_list in Hf.
  assert (dump <$> js ≠ []) as Hjs by (destruct js; [destruct epochs; [done|simpl in Hlen; lia]|done]).
  rewrite (commas_concat _ Hjs), <- string_app_assoc in Hf. apply close_epochs_file in Hf.
  unfold sys_PrintStats. destruct (print_finals_file l (write_trunc (json_stats_name config) "{" (close_epochs config o1)) Hn Hl) as (l' & o2 & Hfin & Hf2).
  exists l, o1, js, l'. eexists. split; [exact Hrun|]. rewrite Hfin. cbn [mbind exc_bind]. split; [reflexivity|]. split; [done|].
  pose proof (write_other false (json_stats_name config) "}" o2 (proj1 Hn)) as Hw.
  pose proof (write_other true (json_stats_name config) "{" (close_epochs config o1) (proj1 Hn)) as Hw2.
  cbn iota in Hw, Hw2. rewrite Hf2, Hw2, Hf in Hw. unfold the_file in Hw. rewrite string_app_assoc in Hw.
  destruct (files (write_app (json_stats_name config) "}" o2) !! json_epoch_name config) as [s|]; [|done]. simpl in Hw. by rewrite <- Hw.
Qed.
End EpochFile.

(** ** Concrete reports *)

Section Demo.
Definition demo_ops : list stat_op :=
  [St_incr "num_read_cmds"; St_incr "num_cycles"; St_sample "read_latency" 30; St_vec "rank_active_cycles" 0 5; St_epoch;
   St_incr "num_read_cmds"; St_incr "num_cycles"; St_sample "read_latency" 31]%string.
Lemma demo_ops_ok : Forall registered demo_ops.
Proof. repeat constructor; apply (bool_decide_unpack _); vm_compute; exact I. Qed.

Definition plain_double (_ : double) : string := "0"%string.
Definition plain_dump (m : gmap string jval) : string :=
  match m !! "channel"%string with Some (JInt z) => pretty z | _ => EmptyString end.
Definition plain_text (name value desc : string) : string := (name +:+ "=" +:+ value +:+ " " +:+ desc)%string.
Definition no_outputs : outputs := MkOutputs ∅ EmptyString.

(** Two reads of 804 pJ in two epochs, and an average latency of 30.5 cycles. *)
Lemma final_report_witness :
  ∃ r o1 r' o2,
    foldE (rep_step hbm2 hbm2_power plain_double plain_dump plain_text) demo_ops (new_Reports (ranks hbm2) 0, no_outputs) = ok (r, o1) ∧
    r_PrintFinalStats hbm2 hbm2_power plain_double plain_dump plain_text r o1 = ok (r', o2) ∧
    doubles_ r' !! "read_energy"%string = Some (of_int 1608) ∧ calculated_ r' !! "average_read_latency"%string = Some (lit 61 2).
Proof.
  destruct (final_report hbm2 hbm2_power plain_double plain_dump plain_text 0 no_outputs demo_ops ltac:(vm_compute; discriminate) demo_ops_ok)
    as (r & o1 & r' & o2 & Hr & Hp & Hd & _ & Hc). exists r, o1, r', o2. split; [exact Hr|]. split; [exact Hp|]. split.
  - rewrite (Hd "read_energy"%string _ (list_elem_of_lookup_2 (energies hbm2_power _) 1 _ eq_refl)). vm_compute. reflexivity.
  - rewrite (Hc "average_read_latency"%string _ (list_elem_of_lookup_2 (calculations hbm2 hbm2_power _ _ _ _) 3 _ eq_refl)).
    vm_compute. reflexivity.
Defined.

Lemma printed_described_witness :
  ∃ r o1 e f,
    foldE (rep_step hbm2 hbm2_power plain_double plain_dump plain_text) demo_ops (new_Reports (ranks hbm2) 0, no_outputs) = ok (r, o1) ∧
    r_UpdateEpochStats hbm2 hbm2_power plain_double r = ok e ∧ Forall (fun p => is_Some (header_descs_ e !! p.1)) (print_pairs_ e) ∧
    r_UpdateFinalStats hbm2 hbm2_power plain_double r = ok f ∧ Forall (fun p => is_Some (header_descs_ f !! p.1)) (print_pairs_ f).
Proof.
  apply (printed_described hbm2 hbm2_power plain_double plain_dump plain_text 0 no_outputs demo_ops); [vm_compute; discriminate|exact demo_ops_ok].
Defined.

Lemma epoch_file_witness :
  ∃ l o1 js l' o2,
    sys_epochs hbm2 hbm2_power plain_double plain_dump plain_text 1 [replicate 8 demo_ops; replicate 8 []]
      (new_Reports (ranks hbm2) <$> zseq (channels hbm2), no_outputs, []) = ok (l, o1, js) ∧
    sys_PrintStats hbm2 hbm2_power plain_double plain_dump plain_text l o1 = ok (l', o2) ∧ length js = 16%nat ∧
    files o2 !! json_epoch_name hbm2 = Some ("[" +:+ String.concat comma (plain_dump <$> js) +:+ "]" +:+ nl)%string.
Proof.
  apply (epoch_file hbm2 hbm2_power plain_double plain_dump plain_text hbm2_reader "." true no_outputs [replicate 8 demo_ops; replicate 8 []]);
    [reflexivity|vm_compute; discriminate|vm_compute; reflexivity|vm_compute; discriminate|vm_compute; reflexivity|discriminate| |vm_compute; discriminate].
  repeat constructor; apply (bool_decide_unpack _); vm_compute; exact I.
Defined.

(** With [output_level] 0 no data are written, but the commas are: with two channels the
    file is not JSON. *)
Definition quiet : Config :=
  MkConfig hbm2 hbm2 hbm2 hbm2 hbm2
    (MkOther (epoch_period hbm2) 0 (output_dir hbm2) (output_prefix hbm2) (json_stats_name hbm2) (json_epoch_name hbm2) (txt_stats_name hbm2)).
Example quiet_epoch_file :
  ('(l, o, _) ← sys_epochs quiet hbm2_power plain_double plain_dump plain_text 1 [[[]; []]] ([new_Reports 1 0; new_Reports 1 1], no_outputs, []);
   '(_, o) ← sys_PrintStats quiet hbm2_power plain_double plain_dump plain_text l o; ok (files o !! json_epoch_name quiet))
  = ok (Some ("[" +:+ comma +:+ "]" +:+ nl)%string).
Proof. vm_compute. reflexivity. Qed.

(** [Reset] forgets the samples but not the bins they are in. *)
Example reset_keeps_bins :
  let s := Reset (UpdateEpochStats (AddValue "read_latency" 30 (new_stats 1))) in
  histo_counts_ s !! "read_latency"%string = Some ∅ ∧ histo_bins_ s !! "read_latency"%string = Some [0; 0; 1; 0; 0; 0; 0; 0; 0; 0; 0; 0].
Proof. split; vm_compute; reflexivity. Qed.

(** A report of no cycles divides zero by zero. *)
Example no_cycles_power :
  (r ← r_UpdateFinalStats hbm2 hbm2_power plain_double (new_Reports 1 0); ok (calculated_ r !! "average_power"%string)) = ok (Some S754_nan).
Proof. vm_compute. reflexivity. Qed.
End Demo.
