(* ===== verification/ThermalSolver.v ===== *)
(** * The thermal solver (DRAMsim3-master/src/thermal_solver.c, thermal_config.h)

    The chip is a stack of [3 * numP + 1] layers (the heat sink, and an active, a wire
    and a dielectric layer per die) of [dimX * dimZ] nodes. [calculate_Midx_array] builds
    the conductance matrix, one row of at most seven entries per node, sorted by column;
    [calculate_Cap_array] the capacity of a node of each layer. The transient solver
    takes explicit steps in blocks of eight entries; the steady one gives the matrix to
    SuperLU, an external library, which is a parameter. Row and column numbers, which the
    code stores as doubles (they are exact) and truncates back, are integers. *)

From Stdlib Require Import ZArith Lia String SpecFloat Sorted.
From stdpp Require Import strings gmap numbers option list.
From S2P Require Import Prelude Config Power.

(** ** Constants of thermal_config.h *)

(** [M_PI] is the macro of math.h, so the fallback of thermal_config.h is not used. *)
Definition M_PI : double := lit 884279719003555 (2 ^ 48).
Definition T0 : double := lit 27315 100.
Definition R_TSV : double := lit 5 1000000.
Definition Ksi : double := of_int 148.
Definition Kcu : double := of_int 401.
Definition Kin : double := lit 15 10.
Definition Khs : double := of_int 4.
Definition Csi : double := of_int 1660000.
Definition Ccu : double := of_int 3200000.
Definition Cin : double := of_int 1650000.
Definition Chs : double := of_int 2420000.
Definition Hsi : double := lit 400 1000000.
Definition Hcu : double := lit 5 1000000.
Definition Hin : double := lit 20 1000000.
Definition Hhs : double := lit 1000 1000000.

(** The value of one of the three kinds of layers: [switch (i % 3)]. *)
Definition by_kind (si cu ins : double) (i : Z) : double :=
  if Z.rem i 3 =? 0 then si else if Z.rem i 3 =? 1 then cu else ins.
Definition layer_K : Z -> double := by_kind Ksi Kcu Kin.
Definition layer_H : Z -> double := by_kind Hsi Hcu Hin.
Definition layer_C : Z -> double := by_kind Csi Ccu Cin.

(** One entry of [Midx]: row, column, value. *)
Record entry := MkEntry { e_row : Z; e_col : Z; e_val : double }.

(** A three-dimensional array, read at [[i][j][l]]. *)
Definition array3 : Type := list (list (list double)).
Definition get3 (a : array3) (i j l : Z) : exc double :=
  x ← vec_get a i; y ← vec_get x j; vec_get y l.

(** The power a node draws in every column, layer and row: [for l, for j, for i]. *)
Definition nodes3 (nl nj ni : Z) : list (Z * Z * Z) :=
  zseq nl ≫= fun l => zseq nj ≫= fun j => (fun i => (l, j, i)) <$> zseq ni.

Section Solver.
Context (W Lc : double) (numP dimX dimZ : Z).

Definition numLayer : Z := numP * 3.
Definition gridX : double := ddiv W (of_int dimX).
Definition gridZ : double := ddiv Lc (of_int dimZ).
Definition T_nodes : Z := dimX * dimZ * (numLayer + 1).

(** [initialize_Temperature]. *)
Definition initialize_Temperature (Tamb : double) : list double := replicate (Z.to_nat T_nodes) Tamb.

(** [calculate_Cap_array]; the sink is as wide as the chip. *)
Definition calculate_Cap_array : list double :=
  dmul (dmul (dmul Chs Hhs) gridX) gridZ ::
  ((fun i => dmul (dmul (dmul (layer_C i) (layer_H i)) gridX) gridZ) <$> zseq numLayer).

(** *** The conductance matrix *)

(** The tier of through-silicon vias a layer belongs to, 0 for none. *)
Definition mapTSV : list Z :=
  zset ((fun i => if (i =? 0) || (i =? numLayer - 1) then 0 else Z.quot (i - 1) 3 + 1) <$> zseq numLayer)
       (numLayer - 2) (numP - 1).
(** The number of vias of a node, by tier: none, everywhere. *)
Definition TSV_column : list Z := replicate (Z.to_nat (numP - 1)) 0.

Definition Rsinkx : double := ddiv (ddiv (ddiv gridX Khs) gridZ) Hhs.
Definition Rsinky : double := ddiv (ddiv (ddiv Hhs Khs) gridX) gridZ.
Definition Rsinkz : double := ddiv (ddiv (ddiv gridZ Khs) gridX) Hhs.
Definition Ramb : double := ddiv Rsinky (of_int 2).

(** [Rvert[i][j][l + 1]], the same for every [i] and [j]. *)
Definition Rvert_layer (l : Z) : exc double :=
  tier ← vec_get mapTSV l;
  if tier =? 0 then ok (ddiv (ddiv (layer_H l) (layer_K l)) (dmul gridX gridZ))
  else
    n ← vec_get TSV_column (tier - 1);
    let vias := dmul (dmul (dmul M_PI R_TSV) R_TSV) (of_int n) in
    ok (ddiv (of_int 1)
         (dadd (ddiv (of_int 1) (ddiv (ddiv (layer_H l) (layer_K l)) (dsub (dmul gridX gridZ) vias)))
               (ddiv (of_int 1) (ddiv (ddiv (layer_H l) Kcu) vias)))).
(** [Rvert[i][j]]: the sink, then the layers. *)
Definition Rvert : exc (list double) :=
  r ← mapE Rvert_layer (zseq numLayer); ok (Rsinky :: r).

(** [Rhori[l][0]] and [Rhori[l][1]]: the resistance to the neighbours in x and in z. *)
Definition Rhori (l : Z) : double * double :=
  if l =? 0 then (Rsinkx, Rsinkz)
  else
    (dmul (ddiv (ddiv (ddiv gridX (layer_K (l - 1))) gridZ) (layer_H (l - 1))) (of_int 10),
     dmul (ddiv (ddiv (ddiv gridZ (layer_K (l - 1))) gridZ) (layer_H (l - 1))) (of_int 10)).

(** The number of entries, counted node by node, and the diagonal. *)
Definition entry_count : Z :=
  foldl (fun c p => let '(l, i, j) := p in
    let c := if 0 <=? i - 1 then c + 1 else c in
    let c := if i + 1 <? dimX then c + 1 else c in
    let c := if 0 <=? j - 1 then c + 1 else c in
    let c := if j + 1 <? dimZ then c + 1 else c in
    let c := if l <? numLayer then c + 1 else c in
    if 0 <? l then c + 1 else c) 0 (nodes3 (numLayer + 1) dimX dimZ)
  + dimX * dimZ * (numLayer + 1).

Definition node (l j i : Z) : Z := l * dimX * dimZ + j * dimX + i.
Definition minus_inv (r : double) : double := ddiv (of_int (-1)) r.

(** The entries of a node before the diagonal one: below, behind, left, right, in front,
    above. [rv] is [Rvert[i][j]]. *)
Definition neighbours (rv : list double) (l j i : Z) : exc (list entry) :=
  let n := node l j i in
  let vert a b := ra ← vec_get rv a; rb ← vec_get rv b;
                  ok (minus_inv (dadd (ddiv ra (of_int 2)) (ddiv rb (of_int 2)))) in
  down ← (if 0 <? l then v ← vert l (l - 1); ok [MkEntry n (node (l - 1) j i) v] else ok []);
  up ← (if l <? numLayer then v ← vert l (l + 1); ok [MkEntry n (node (l + 1) j i) v] else ok []);
  ok (down ++
      (if 0 <=? j - 1 then [MkEntry n (node l (j - 1) i) (minus_inv (Rhori l).2)] else []) ++
      (if 0 <=? i - 1 then [MkEntry n (node l j i - 1) (minus_inv (Rhori l).1)] else []) ++
      (if i + 1 <? dimX then [MkEntry n (node l j i + 1) (minus_inv (Rhori l).1)] else []) ++
      (if j + 1 <? dimZ then [MkEntry n (node l (j + 1) i) (minus_inv (Rhori l).2)] else []) ++ up).

(** The diagonal entry takes the others off, and adds the way to the ambient for a node
    of the sink. *)
Definition diagonal (n : Z) (row : list entry) : entry :=
  let v := foldl (fun v e => dsub v (e_val e)) dzero row in
  MkEntry n n (if n <? dimX * dimZ then dadd v (ddiv (of_int 1) Ramb) else v).

(** "sort this row": the new last entry moves down past the larger columns; [pre] is the
    row in reverse. *)
Fixpoint sink_entry (pre : list entry) (d : entry) (post : list entry) : list entry :=
  match pre with
  | e :: pre' => if e_col d <? e_col e then sink_entry pre' d (e :: post) else rev pre ++ d :: post
  | [] => d :: post
  end.

Definition matrix_row (rv : list double) (p : Z * Z * Z) : exc (list entry) :=
  let '(l, j, i) := p in
  row ← neighbours rv l j i;
  ok (sink_entry (rev row) (diagonal (node l j i) row) []).

(** [calculate_Midx_array]: the array of [count] entries, which starts as zeros, and
    [count]; a row behind the end of the array is written outside it. *)
Definition calculate_Midx_array : exc (list entry * Z) :=
  rv ← Rvert;
  rows ← mapE (matrix_row rv) (nodes3 (numLayer + 1) dimZ dimX);
  let m := concat rows in
  if Z.of_nat (length m) <=? entry_count then
    ok (m ++ replicate (Z.to_nat (entry_count - Z.of_nat (length m))) (MkEntry 0 0 dzero), entry_count)
  else err UndefinedBehaviour.

(** *** The steady state *)

(** The right-hand side: the ambient for the sink, and the power of the active layers. *)
Definition set_sink (Tamb : double) (v : list double) : exc (list double) :=
  foldE (fun i v => _ ← vec_get v i; ok (zset v i (ddiv Tamb Ramb))) (zseq (dimX * dimZ)) v.
Definition steady_rhs (powerM : array3) (Tamb : double) : exc (list double) :=
  v ← set_sink Tamb (replicate (Z.to_nat T_nodes) dzero);
  foldE (fun p v => let '(l, i, j) := p in
    w ← get3 powerM i j l;
    let k := dimX * dimZ * (l * 3 + 1) + j * dimX + i in
    _ ← vec_get v k; ok (zset v k w)) (nodes3 numP dimX dimZ) v.

(** The arrays [a], [asub] and [xa] of the compressed matrix; [xa] has a value only where
    one was stored. *)
Definition compress (m : list entry) (count : Z) : exc (list double * list Z * list (option Z)) :=
  '(row, xa) ← foldE (fun i (s : Z * list (option Z)) =>
      e ← vec_get m i;
      if s.1 <? e_row e then _ ← vec_get s.2 (e_row e); ok (e_row e, zset s.2 (e_row e) (Some i)) else ok s)
    (zseq count) (-1, replicate (Z.to_nat (T_nodes + 1)) None);
  _ ← vec_get xa (row + 1);
  ok (e_val <$> m, e_col <$> m, zset xa (row + 1) (Some count)).

(** [pdgssv] of SuperLU: the solution, from the order of the matrix, the compressed
    matrix and the right-hand side. *)
Context (pdgssv : Z -> list double -> list Z -> list (option Z) -> list double -> list double).

Definition steady_thermal_solver (powerM : array3) (m : list entry) (count : Z) (Tamb : double) : exc (list double) :=
  '(a, asub, xa) ← compress m count;
  rhs ← steady_rhs powerM Tamb;
  ok ((fun t => dsub t T0) <$> pdgssv T_nodes a asub xa rhs).

(** *** The transient *)

(** The sources: as [steady_rhs], but the power of column [i], row [j] goes to the place
    [i * dimZ + j] of its layer. *)
Definition transient_source (powerM : array3) (Tamb : double) : exc (list double) :=
  v ← set_sink Tamb (replicate (Z.to_nat T_nodes) dzero);
  foldE (fun p v => let '(l, j, i) := p in
    w ← get3 powerM i j l;
    let k := dimX * dimZ * (l * 3 + 1) + i * dimZ + j in
    _ ← vec_get v k; ok (zset v k w)) (nodes3 numP dimZ dimX) v.

(** What one entry adds to its node. *)
Definition entry_update (cap P Tp : list double) (dt : double) (e : entry) (T : list double) : exc (list double) :=
  c ← vec_get cap (Z.quot (e_row e) (dimX * dimZ));
  t ← vec_get T (e_row e);
  tp ← vec_get Tp (e_col e);
  if e_row e =? e_col e then
    p ← vec_get P (e_row e);
    let tmp_a := dsub (of_int 1) (ddiv (dmul (e_val e) dt) c) in
    let tmp_b := dadd (dmul tmp_a tp) (ddiv (dmul p dt) c) in
    ok (zset T (e_row e) (dadd t tmp_b))
  else
    let tmp_a := ddiv (dmul (dmul (e_val e) tp) dt) c in
    ok (zset T (e_row e) (dsub t tmp_a)).

(** One iteration over the entries, in blocks of eight. *)
Definition transient_step (m : list entry) (size : Z) (cap P : list double) (dt : double) (Tp : list double) : exc (list double) :=
  foldE (fun j T =>
    let bound := if j + 8 <? size then j + 8 else size in
    foldE (fun b T => e ← vec_get m b; entry_update cap P Tp dt e T) ((fun k => j + k) <$> zseq (bound - j)) T)
    ((fun k => 8 * k) <$> zseq (Z.quot (size + 7) 8)) (replicate (Z.to_nat T_nodes) dzero).

Definition transient_thermal_solver (powerM : array3) (m : list entry) (size : Z) (cap : list double)
    (time : double) (iter : Z) (T_trans : list double) (Tamb : double) : exc (list double) :=
  P ← transient_source powerM Tamb;
  let dt := ddiv time (of_int iter) in
  foldE (fun _ Tp => transient_step m size cap P dt Tp) (zseq iter) T_trans.
End Solver.

(** ** Lemmas: enumerations *)

Lemma zseq_add a b : 0 ≤ a → 0 ≤ b → zseq (a + b) = zseq a ++ ((fun k => a + k) <$> zseq b).
Proof.
  intros Ha Hb. unfold zseq. rewrite Z2Nat.inj_add, seq_app, fmap_app by done. f_equal. rewrite Nat.add_0_l.
  rewrite <- (Nat.add_0_r (Z.to_nat a)) at 1. rewrite <- fmap_add_seq, <- !list_fmap_compose.
  apply list_fmap_ext. intros i x _. simpl. lia.
Qed.

Lemma zseq_mul n k : 0 ≤ n → 0 ≤ k → zseq (n * k) = zseq n ≫= fun a => (fun b => a * k + b) <$> zseq k.
Proof.
  intros Hn Hk. revert n Hn. apply natlike_ind; [done|]. intros n Hn IH. unfold Z.succ.
  rewrite zseq_succ by done. rewrite bind_app, <- IH, Z.mul_add_distr_r, Z.mul_1_l. simpl. rewrite app_nil_r. apply zseq_add; nia.
Qed.

Lemma fmap_of_bind {A B C} (f : B -> C) (g : A -> list B) l : f <$> (l ≫= g) = l ≫= fun a => f <$> g a.
Proof. induction l as [|a l IH]; [done|]. rewrite !bind_cons, fmap_app. by f_equal. Qed.

Lemma elem_of_nodes3 nl nj ni l j i :
  (l, j, i) ∈ nodes3 nl nj ni ↔ 0 ≤ l < nl ∧ 0 ≤ j < nj ∧ 0 ≤ i < ni.
Proof.
  unfold nodes3. rewrite list_elem_of_bind. split.
  - intros (l0 & (j0 & (i0 & [= -> -> ->] & Hi)%list_elem_of_fmap & Hj)%list_elem_of_bind & Hl).
    apply elem_of_zseq in Hi, Hj, Hl. lia.
  - intros (Hl & Hj & Hi). exists l. split; [|by apply elem_of_zseq]. apply list_elem_of_bind.
    exists j. split; [|by apply elem_of_zseq]. apply list_elem_of_fmap. exists i. split; [done|by apply elem_of_zseq].
Qed.

(** The node numbers, in the order of the loops, are 0, 1, 2, ... *)
Definition node_of (dimX dimZ : Z) (p : Z * Z * Z) : Z := let '(l, j, i) := p in node dimX dimZ l j i.
Lemma nodes3_numbers dimX dimZ nl :
  0 ≤ nl → 0 ≤ dimZ → 0 ≤ dimX → node_of dimX dimZ <$> nodes3 nl dimZ dimX = zseq (nl * (dimZ * dimX)).
Proof.
  intros Hl Hz Hx. rewrite (zseq_mul nl) by lia. rewrite (zseq_mul dimZ dimX) by done. unfold nodes3.
  rewrite fmap_of_bind. apply list_bind_ext; [|done]. intros l. rewrite !fmap_of_bind.
  apply list_bind_ext; [|done]. intros j. rewrite <- !list_fmap_compose. apply list_fmap_ext. intros _ i _. simpl. unfold node. lia.
Qed.

Lemma NoDup_zseq n : NoDup (zseq n).
Proof. unfold zseq. apply NoDup_fmap_2; [intros ??; lia|apply NoDup_seq]. Qed.
Lemma NoDup_nodes3 nl nj ni : 0 ≤ nl → 0 ≤ nj → 0 ≤ ni → NoDup (nodes3 nl nj ni).
Proof. intros Hl Hj Hi. apply (NoDup_fmap_1 (node_of ni nj)). rewrite nodes3_numbers by done. apply NoDup_zseq. Qed.

Definition flip_node (p : Z * Z * Z) : Z * Z * Z := let '(l, i, j) := p in (l, j, i).

Lemma flip_nodes nl nj ni : 0 ≤ nl → 0 ≤ nj → 0 ≤ ni → flip_node <$> nodes3 nl nj ni ≡ₚ nodes3 nl ni nj.
Proof.
  intros Hl Hj Hi. apply NoDup_Permutation; [|by apply NoDup_nodes3|].
  - apply NoDup_fmap_2; [|by apply NoDup_nodes3]. by intros [[??]?] [[??]?] [= -> -> ->].
  - intros [[l i] j]. rewrite elem_of_nodes3, list_elem_of_fmap. split.
    + intros ([[l' j'] i'] & [= -> -> ->] & Hp%elem_of_nodes3). lia.
    + intros Hp. exists (l, j, i). split; [done|]. apply elem_of_nodes3. lia.
Qed.

Lemma sum_list_with_perm {A} (f : A -> nat) l k : l ≡ₚ k → sum_list_with f l = sum_list_with f k.
Proof. intros Hp. by rewrite Hp. Qed.
Lemma sum_list_with_fmap {A B} (f : B -> nat) (g : A -> B) l : sum_list_with f (g <$> l) = sum_list_with (fun x => f (g x)) l.
Proof. induction l as [|a l IH]; simpl; [done|]. by f_equal. Qed.
Lemma foldl_count {A} (f : A -> nat) (step : Z -> A -> Z) l c :
  (∀ c a, step c a = c + Z.of_nat (f a)) → foldl step c l = c + Z.of_nat (sum_list_with f l).
Proof. intros Hs. revert c. induction l as [|a l IH]; intros c; simpl; [lia|]. rewrite IH, Hs. lia. Qed.
Lemma length_concat_sum {A B} (f : A -> list B) l : length (concat (f <$> l)) = sum_list_with (fun a => length (f a)) l.
Proof. induction l as [|a l IH]; [done|]. cbn [fmap list_fmap concat sum_list_with]. rewrite length_app. by f_equal. Qed.

Lemma sink_above d pre hi post :
  Forall (fun e => e_col d < e_col e) hi → sink_entry (rev hi ++ pre) d post = sink_entry pre d (hi ++ post).
Proof.
  revert post. induction hi as [|e hi IH] using rev_ind; intros post Hf; [done|]. rewrite rev_app_distr. cbn [rev app sink_entry].
  apply Forall_app in Hf as [Hf [He _]%Forall_cons]. apply Z.ltb_lt in He. rewrite He, IH by done. by rewrite <- app_assoc.
Qed.
Lemma sink_stop d lo post : Forall (fun e => e_col e ≤ e_col d) lo → sink_entry (rev lo) d post = lo ++ d :: post.
Proof.
  intros Hf. destruct lo as [|e lo _] using rev_ind; [done|]. rewrite rev_app_distr. cbn [rev app sink_entry].
  apply Forall_app in Hf as [_ [He _]%Forall_cons]. apply Z.ltb_ge in He. rewrite He. cbn [rev]. rewrite rev_involutive. by rewrite <- app_assoc.
Qed.

(** ** Lemmas: doubles *)

Lemma dadd_comm x y : dadd x y = dadd y x.
Proof.
  unfold dadd, SFadd. destruct x as [s|s| |s m e], y as [s'|s'| |s' m' e']; try done.
  - destruct s, s'; done.
  - destruct s, s'; done.
  - rewrite Z.min_comm, Z.add_comm. done.
Qed.

(** ** Lemmas: the rows of the matrix *)

Section Matrix.
Context (W Lc : double) (numP dimX dimZ : Z).
Context (HP : 1 ≤ numP) (HX : 1 ≤ dimX) (HZ : 1 ≤ dimZ).
Local Notation numLayer := (numLayer numP).
Local Notation node := (node dimX dimZ).
Local Notation node_of := (node_of dimX dimZ).
Local Notation T_nodes := (T_nodes numP dimX dimZ).
Local Notation Rhori := (Rhori W Lc dimX dimZ).

Lemma mapTSV_range l : 0 ≤ l < numLayer → ∃ t, zget (mapTSV numP) l = Some t ∧ 0 ≤ t ≤ numP - 1.
Proof using HP.
  intros Hl. unfold mapTSV. set (base := _ <$> zseq numLayer). assert (length base = Z.to_nat numLayer) as Hn by (unfold base; by rewrite length_fmap, length_zseq).
  assert (zget (zseq numLayer) l = Some l) as Hz.
  { destruct (zseq_split numLayer l Hl) as (k & Hk). apply zget_Some. split; [lia|]. rewrite Hk, lookup_app_r; rewrite length_zseq; [|lia].
    by rewrite Nat.sub_diag. }
  destruct (decide (l = numLayer - 2)) as [->|Hne].
  - exists (numP - 1). split; [|lia]. apply zget_zset_eq. unfold ThermalSolver.numLayer in *. lia.
  - rewrite zget_zset_ne by done. unfold base. rewrite zget_fmap, Hz. eexists. split; [done|]. unfold ThermalSolver.numLayer in *.
    destruct (Z.eqb_spec l 0), (Z.eqb_spec l (numP * 3 - 1)); cbn [orb]; try lia.
    rewrite Z.quot_div_nonneg by lia. assert (0 ≤ (l - 1) / 3 < numP - 1) by (split; [apply Z.div_pos; lia|apply Z.div_lt_upper_bound; lia]). lia.
Qed.

Lemma Rvert_total : ∃ rv, Rvert W Lc numP dimX dimZ = ok rv ∧ Z.of_nat (length rv) = numLayer + 1.
Proof using HP.
  destruct (mapE_total (fun _ _ => True) (Rvert_layer W Lc numP dimX dimZ) (zseq numLayer)) as (r & Hr & Hf).
  { intros l Hl%elem_of_zseq. destruct (mapTSV_range l Hl) as (t & Ht & Hr). unfold Rvert_layer.
    apply vec_get_ok in Ht. rewrite Ht. cbn [mbind exc_bind]. destruct (Z.eqb_spec t 0); [by eexists|].
    destruct (zget_is_Some (TSV_column numP) (t - 1)) as [v Hv]; [unfold TSV_column; rewrite length_replicate; lia|].
    apply vec_get_ok in Hv. rewrite Hv. by eexists. }
  unfold Rvert. rewrite Hr. eexists. split; [done|]. apply Forall2_length in Hf. rewrite length_zseq in Hf. simpl.
  unfold ThermalSolver.numLayer in *. lia.
Qed.

Section Row.
Context (rv : list double) (Hrv : Z.of_nat (length rv) = numLayer + 1).

(** The neighbours of a node with smaller and with larger numbers, in ascending order,
    with the entries that stand for them. *)
Definition vert (a b : Z) : double :=
  minus_inv (dadd (ddiv (default dzero (zget rv a)) (of_int 2)) (ddiv (default dzero (zget rv b)) (of_int 2))).
Definition below (p : Z * Z * Z) : list (Z * Z * Z * double) :=
  let '(l, j, i) := p in
  (if 0 <? l then [(l - 1, j, i, vert l (l - 1))] else []) ++
  (if 0 <=? j - 1 then [(l, j - 1, i, minus_inv (Rhori l).2)] else []) ++
  (if 0 <=? i - 1 then [(l, j, i - 1, minus_inv (Rhori l).1)] else []).
Definition above (p : Z * Z * Z) : list (Z * Z * Z * double) :=
  let '(l, j, i) := p in
  (if i + 1 <? dimX then [(l, j, i + 1, minus_inv (Rhori l).1)] else []) ++
  (if j + 1 <? dimZ then [(l, j + 1, i, minus_inv (Rhori l).2)] else []) ++
  (if l <? numLayer then [(l + 1, j, i, vert l (l + 1))] else []).
Definition entry_to (p : Z * Z * Z) (q : Z * Z * Z * double) : entry := MkEntry (node_of p) (node_of q.1) q.2.
Definition full_row (p : Z * Z * Z) : list entry :=
  (entry_to p <$> below p) ++
  diagonal W Lc dimX dimZ (node_of p) (entry_to p <$> (below p ++ above p)) :: (entry_to p <$> above p).

Lemma vert_sym a b : vert a b = vert b a.
Proof. unfold vert. by rewrite dadd_comm. Qed.

Lemma vert_read a b :
  0 ≤ a ≤ numLayer → 0 ≤ b ≤ numLayer →
  ∃ ra rb, vec_get rv a = ok ra ∧ vec_get rv b = ok rb ∧ minus_inv (dadd (ddiv ra (of_int 2)) (ddiv rb (of_int 2))) = vert a b.
Proof using Hrv.
  intros Ha Hb. destruct (zget_is_Some rv a) as [ra Hra]; [lia|]. destruct (zget_is_Some rv b) as [rb Hrb]; [lia|].
  exists ra, rb. unfold vert. rewrite Hra, Hrb. split_and!; [by apply vec_get_ok..|done].
Qed.

(** A relation of nodes in range. *)
Definition in_grid (p : Z * Z * Z) : Prop := let '(l, j, i) := p in 0 ≤ l ≤ numLayer ∧ 0 ≤ j < dimZ ∧ 0 ≤ i < dimX.

Lemma neighbours_ok l j i :
  in_grid (l, j, i) → neighbours W Lc numP dimX dimZ rv l j i = ok (entry_to (l, j, i) <$> (below (l, j, i) ++ above (l, j, i))).
Proof using Hrv.
  intros (Hl & Hj & Hi). unfold neighbours, below, above. cbv zeta. rewrite !fmap_app.
  assert (∀ z, node l j i + z = node l j (i + z)) as Hn by (intros; unfold ThermalSolver.node; lia).
  rewrite Hn. change (node l j i - 1) with (node l j i + -1). rewrite Hn.
  assert (∀ (b : bool) (x : Z * Z * Z * double), entry_to (l, j, i) <$> (if b then [x] else []) = if b then [entry_to (l, j, i) x] else []) as Hif by by intros [].
  rewrite !Hif. rewrite <- !app_assoc.
  destruct (Z.ltb_spec 0 l) as [H0|H0].
  - destruct (vert_read l (l - 1)) as (ra & rb & Ha & Hb & Hv); [lia|lia|]. rewrite Ha, Hb. cbn [mbind exc_bind]. rewrite Hv.
    destruct (Z.ltb_spec l numLayer) as [H1|H1].
    + destruct (vert_read l (l + 1)) as (ra' & rb' & Ha' & -> & Hv'); [lia|lia|]. cbn [mbind exc_bind].
      assert (ra' = ra) as -> by congruence. by rewrite Hv'.
    + done.
  - cbn [mbind exc_bind]. destruct (Z.ltb_spec l numLayer) as [H1|H1].
    + destruct (vert_read l (l + 1)) as (ra' & rb' & -> & -> & Hv'); [lia|lia|]. cbn [mbind exc_bind]. by rewrite Hv'.
    + done.
Qed.
(** The neighbours, by distance. *)
Lemma below_inv p q v : (q, v) ∈ below p → in_grid p → in_grid q ∧ node_of q < node_of p.
Proof using HP HX HZ. clear Hrv.
  destruct p as [[l j] i]. unfold below. rewrite !elem_of_app. intros Hq (Hl & Hj & Hi).
  assert (dimX ≤ dimX * dimZ) by nia.
  destruct Hq as [Hq|[Hq|Hq]]; (case_match eqn:E; [|by apply not_elem_of_nil in Hq]); apply list_elem_of_singleton in Hq as [= -> _];
    apply Z.ltb_lt in E || apply Z.leb_le in E; unfold in_grid, ThermalSolver.node_of, ThermalSolver.node; nia.
Qed.
Lemma above_inv p q v : (q, v) ∈ above p → in_grid p → in_grid q ∧ node_of p < node_of q.
Proof using HP HX HZ. clear Hrv.
  destruct p as [[l j] i]. unfold above. rewrite !elem_of_app. intros Hq (Hl & Hj & Hi).
  assert (dimX ≤ dimX * dimZ) by nia.
  destruct Hq as [Hq|[Hq|Hq]]; (case_match eqn:E; [|by apply not_elem_of_nil in Hq]); apply list_elem_of_singleton in Hq as [= -> _];
    apply Z.ltb_lt in E; unfold in_grid, ThermalSolver.node_of, ThermalSolver.node; nia.
Qed.

(** A neighbour is one from both sides, with the same conductance. *)
Lemma below_above p q v : in_grid p → (q, v) ∈ below p → (p, v) ∈ above q.
Proof. clear Hrv.
  destruct p as [[l j] i]. unfold below. rewrite !elem_of_app. intros (Hl & Hj & Hi) Hq.
  destruct Hq as [Hq|[Hq|Hq]]; (case_match eqn:E; [|by apply not_elem_of_nil in Hq]); apply list_elem_of_singleton in Hq as [= -> ->];
    apply Z.ltb_lt in E || apply Z.leb_le in E; unfold above; rewrite !elem_of_app.
  - right. right. assert (l - 1 <? numLayer = true) as -> by (apply Z.ltb_lt; lia). rewrite vert_sym.
    rewrite Z.sub_add. by apply list_elem_of_singleton.
  - right. left. assert (j - 1 + 1 <? dimZ = true) as -> by (apply Z.ltb_lt; lia). rewrite Z.sub_add. by apply list_elem_of_singleton.
  - left. assert (i - 1 + 1 <? dimX = true) as -> by (apply Z.ltb_lt; lia). rewrite Z.sub_add. by apply list_elem_of_singleton.
Qed.
Lemma above_below p q v : in_grid p → (q, v) ∈ above p → (p, v) ∈ below q.
Proof. clear Hrv.
  destruct p as [[l j] i]. unfold above. rewrite !elem_of_app. intros (Hl & Hj & Hi) Hq.
  destruct Hq as [Hq|[Hq|Hq]]; (case_match eqn:E; [|by apply not_elem_of_nil in Hq]); apply list_elem_of_singleton in Hq as [= -> ->];
    apply Z.ltb_lt in E; unfold below; rewrite !elem_of_app.
  - right. right. assert (0 <=? i + 1 - 1 = true) as -> by (apply Z.leb_le; lia). rewrite Z.add_simpl_r. by apply list_elem_of_singleton.
  - right. left. assert (0 <=? j + 1 - 1 = true) as -> by (apply Z.leb_le; lia). rewrite Z.add_simpl_r. by apply list_elem_of_singleton.
  - left. assert (0 <? l + 1 = true) as -> by (apply Z.ltb_lt; lia). rewrite vert_sym. rewrite Z.add_simpl_r. by apply list_elem_of_singleton.
Qed.

Lemma matrix_row_ok p : in_grid p → matrix_row W Lc numP dimX dimZ rv p = ok (full_row p).
Proof using HP HX HZ Hrv.
  intros Hp. destruct p as [[l j] i] eqn:Ep. unfold matrix_row. rewrite neighbours_ok by done. cbn [mbind exc_bind]. rewrite <- Ep in *.
  f_equal. unfold full_row. rewrite (fmap_app _ (below p)) at 1. rewrite rev_app_distr.
  change (ThermalSolver.node dimX dimZ l j i) with (ThermalSolver.node_of dimX dimZ (l, j, i)). rewrite <- Ep.
  rewrite sink_above, sink_stop, app_nil_r; [done| |].
  - apply Forall_fmap, Forall_forall. intros [q v] Hq. simpl. destruct (below_inv p q v Hq Hp). lia.
  - apply Forall_fmap, Forall_forall. intros [q v] Hq. simpl. destruct (above_inv p q v Hq Hp). lia.
Qed.

(** The columns of a row ascend. *)
Lemma full_row_sorted p : in_grid p → StronglySorted Z.lt (e_col <$> full_row p).
Proof using HP HX HZ. clear Hrv.
  intros Hp. assert (e_col <$> full_row p = ((fun q => node_of q.1) <$> below p) ++ node_of p :: ((fun q => node_of q.1) <$> above p)) as ->.
  { unfold full_row. rewrite fmap_app. cbn [fmap list_fmap]. by rewrite <- !list_fmap_compose. }
  destruct p as [[l j] i], Hp as (Hl & Hj & Hi). unfold below, above.
  assert (dimX ≤ dimX * dimZ) by nia. assert (0 < j ∨ j + 1 < dimZ → 2 * dimX ≤ dimX * dimZ) by nia.
  assert (0 < i ∨ i + 1 < dimX → 2 ≤ dimX) by lia. unfold ThermalSolver.node_of, ThermalSolver.node.
  repeat match goal with |- context [Z.ltb ?a ?b] => destruct (Z.ltb_spec a b) | |- context [Z.leb ?a ?b] => destruct (Z.leb_spec a b) end;
    simpl; repeat (constructor; [|repeat constructor; nia]); constructor.
Qed.
(** *** The number of entries *)

Definition degree (p : Z * Z * Z) : nat := length (below p) + length (above p).
Lemma entry_count_ok :
  entry_count numP dimX dimZ = Z.of_nat (length (concat (full_row <$> nodes3 (numLayer + 1) dimZ dimX))).
Proof using HP HX HZ.
  clear Hrv. assert (0 ≤ numLayer) by (unfold ThermalSolver.numLayer; lia). rewrite length_concat_sum.
  assert (sum_list_with (fun p => length (full_row p)) (nodes3 (numLayer + 1) dimZ dimX) =
    (sum_list_with degree (nodes3 (numLayer + 1) dimZ dimX) + length (nodes3 (numLayer + 1) dimZ dimX))%nat) as ->.
  { induction (nodes3 _ _ _) as [|p l IH]; [done|]. cbn [sum_list_with length]. rewrite IH. unfold full_row, degree.
    rewrite length_app, length_fmap. cbn [length]. rewrite length_fmap. lia. }
  assert (Z.of_nat (length (nodes3 (numLayer + 1) dimZ dimX)) = dimX * dimZ * (numLayer + 1)) as Hn.
  { rewrite <- (length_fmap (ThermalSolver.node_of dimX dimZ)), nodes3_numbers, length_zseq by lia. nia. }
  rewrite Nat2Z.inj_add, Hn. unfold entry_count. f_equal.
  rewrite (foldl_count (fun p => degree (flip_node p))).
  - rewrite <- (sum_list_with_perm _ _ _ (flip_nodes (numLayer + 1) dimX dimZ ltac:(lia) ltac:(lia) ltac:(lia))).
    by rewrite sum_list_with_fmap.
  - intros c [[l i] j]. unfold degree, flip_node, below, above. rewrite !length_app.
    repeat match goal with |- context [Z.ltb ?a ?b] => destruct (Z.ltb a b) | |- context [Z.leb ?a ?b] => destruct (Z.leb a b) end;
      cbn [length]; lia.
Qed.
End Row.
End Matrix.

(** ** The matrix *)

Lemma elem_of_concat {A} (x : A) ls : x ∈ concat ls ↔ ∃ l, x ∈ l ∧ l ∈ ls.
Proof. rewrite list_elem_of_In, in_concat. setoid_rewrite list_elem_of_In. naive_solver. Qed.

(** One row per node: its entries ascend by column, the diagonal is among them, and every
    entry between two nodes is there from both sides with the same value. *)
Record matrix_ok (T : Z) (rows : list (list entry)) : Prop := {
  mx_rows : Z.of_nat (length rows) = T;
  mx_row : ∀ n row, zget rows n = Some row →
    Forall (fun e => e_row e = n ∧ 0 ≤ e_col e < T) row ∧ StronglySorted Z.lt (e_col <$> row) ∧ n ∈ e_col <$> row;
  mx_symmetric : ∀ r c v, r ≠ c → MkEntry r c v ∈ concat rows → MkEntry c r v ∈ concat rows
}.

(** ** The heat equation, as a specification of the rows *)

Section Physics.
Context (W Lc : double) (numP dimX dimZ : Z).

(** The sides of a node; the conductivity and thickness of a layer: layer 0 is the heat
    sink, then come silicon, copper and dielectric of each die. *)
Definition side_x : double := ddiv W (of_int dimX).
Definition side_z : double := ddiv Lc (of_int dimZ).
Definition material (l : Z) : double * double :=
  if l =? 0 then (of_int 4, lit 1000 1000000)
  else if (l - 1) mod 3 =? 0 then (of_int 148, lit 400 1000000)
  else if (l - 1) mod 3 =? 1 then (of_int 401, lit 5 1000000)
  else (lit 15 10, lit 20 1000000).

(** The resistances of a node of the layer: to the next node in x and in z (where the code
    divides by the side in z twice), and from bottom to top, past the place of vias of
    which there are none. *)
Definition resist_x (l : Z) : double :=
  let '(k, h) := material l in
  let r := ddiv (ddiv (ddiv side_x k) side_z) h in
  if l =? 0 then r else dmul r (of_int 10).
Definition resist_z (l : Z) : double :=
  let '(k, h) := material l in
  if l =? 0 then ddiv (ddiv (ddiv side_z k) side_x) h
  else dmul (ddiv (ddiv (ddiv side_z k) side_z) h) (of_int 10).
Definition resist_y (l : Z) : double :=
  let '(k, h) := material l in
  if l =? 0 then ddiv (ddiv (ddiv h k) side_x) side_z
  else if (numP =? 1) || (l =? 1) || (l =? numP * 3) then ddiv (ddiv h k) (dmul side_x side_z)
  else
    let vias := dmul (dmul (dmul M_PI R_TSV) R_TSV) (of_int 0) in
    ddiv (of_int 1)
      (dadd (ddiv (of_int 1) (ddiv (ddiv h k) (dsub (dmul side_x side_z) vias)))
            (ddiv (of_int 1) (ddiv (ddiv h (of_int 401)) vias))).

(** Nodes next to each other, and the entry for the conductance between them. *)
Inductive link : Z * Z * Z -> Z * Z * Z -> double -> Prop :=
| link_x l j i i' : Z.abs (i - i') = 1 → link (l, j, i) (l, j, i') (ddiv (of_int (-1)) (resist_x l))
| link_z l j j' i : Z.abs (j - j') = 1 → link (l, j, i) (l, j', i) (ddiv (of_int (-1)) (resist_z l))
| link_y l l' j i : Z.abs (l - l') = 1 →
    link (l, j, i) (l', j, i) (ddiv (of_int (-1)) (dadd (ddiv (resist_y l) (of_int 2)) (ddiv (resist_y l') (of_int 2)))).

(** The row of a node: entries for the nodes next to it and for no others, and a diagonal
    that takes them off, in their order, and for the sink adds the way to the ambient. *)
Record heat_row (p : Z * Z * Z) (row : list entry) : Prop := {
  hr_links c v : c ≠ node_of dimX dimZ p →
    MkEntry (node_of dimX dimZ p) c v ∈ row ↔ ∃ q, in_grid numP dimX dimZ q ∧ link p q v ∧ c = node_of dimX dimZ q;
  hr_diagonal :
    let off := foldl (fun v e => dsub v (e_val e)) dzero (filter (fun e => e_col e ≠ node_of dimX dimZ p) row) in
    MkEntry (node_of dimX dimZ p) (node_of dimX dimZ p)
      (if p.1.1 =? 0 then dadd off (ddiv (of_int 1) (ddiv (resist_y 0) (of_int 2))) else off) ∈ row
}.
End Physics.

Section Resistances.
Context (W Lc : double) (numP dimX dimZ : Z).
Context (HP : 1 ≤ numP).

Lemma layer_material l :
  1 ≤ l → layer_K (l - 1) = (material l).1 ∧ layer_H (l - 1) = (material l).2.
Proof using.
  intros Hl. unfold layer_K, layer_H, by_kind, material. rewrite (proj2 (Z.eqb_neq l 0)), Z.rem_mod_nonneg by lia.
  by repeat case_match.
Qed.

Lemma Rhori_resist l : 0 ≤ l → Rhori W Lc dimX dimZ l = (resist_x W Lc dimX dimZ l, resist_z W Lc dimX dimZ l).
Proof using.
  intros Hl. unfold Rhori, resist_x, resist_z. destruct (Z.eqb_spec l 0) as [->|Hne]; [done|].
  destruct (layer_material l) as [EK EH]; [lia|]. rewrite EK, EH. by destruct (material l).
Qed.

Lemma mapTSV_tier l :
  0 ≤ l < numLayer numP → ∃ t, zget (mapTSV numP) l = Some t ∧
    (t =? 0) = ((numP =? 1) || (l + 1 =? 1) || (l + 1 =? numP * 3)) ∧ 0 ≤ t ≤ numP - 1.
Proof using HP.
  intros Hl. destruct (mapTSV_range numP HP l Hl) as (t & Ht & Hr). exists t. split; [done|]. split; [|done].
  assert (zget (zseq (numLayer numP)) l = Some l) as Hz.
  { destruct (zseq_split (numLayer numP) l Hl) as (k & Hk). apply zget_Some. split; [lia|].
    rewrite Hk, lookup_app_r; rewrite length_zseq; [|lia]. by rewrite Nat.sub_diag. }
  unfold mapTSV in Ht. unfold numLayer in *. destruct (decide (l = numP * 3 - 2)) as [->|Hne].
  - rewrite zget_zset_eq in Ht by (rewrite length_fmap, length_zseq; lia). injection Ht as <-.
    destruct (Z.eqb_spec (numP - 1) 0), (Z.eqb_spec numP 1), (Z.eqb_spec (numP * 3 - 2 + 1) 1),
      (Z.eqb_spec (numP * 3 - 2 + 1) (numP * 3)); simpl; lia.
  - rewrite zget_zset_ne, zget_fmap, Hz in Ht by done. injection Ht as <-.
    destruct (Z.eqb_spec l 0), (Z.eqb_spec l (numP * 3 - 1)), (Z.eqb_spec numP 1), (Z.eqb_spec (l + 1) 1),
      (Z.eqb_spec (l + 1) (numP * 3)); cbn [orb] in *; try lia; try done.
    apply Z.eqb_neq. rewrite Z.quot_div_nonneg by lia. assert (0 ≤ (l - 1) / 3) by (apply Z.div_pos; lia). lia.
Qed.

Lemma Rvert_layer_resist l :
  0 ≤ l < numLayer numP → Rvert_layer W Lc numP dimX dimZ l = ok (resist_y W Lc numP dimX dimZ (l + 1)).
Proof using HP.
  intros Hl. destruct (mapTSV_tier l Hl) as (t & Ht & Et & Hr). unfold Rvert_layer, resist_y.
  apply vec_get_ok in Ht. rewrite Ht. cbn [mbind exc_bind]. rewrite Et.
  destruct (layer_material (l + 1)) as [EK EH]; [lia|]. rewrite Z.add_simpl_r in EK, EH. rewrite EK, EH.
  rewrite (proj2 (Z.eqb_neq (l + 1) 0)) by lia. destruct (material (l + 1)) as [k h]. cbn [fst snd].
  destruct (_ || _); [done|]. apply Z.eqb_neq in Et.
  assert (vec_get (TSV_column numP) (t - 1) = ok 0) as ->; [|done].
  apply vec_get_ok, zget_Some. split; [lia|]. unfold TSV_column. apply lookup_replicate. split; [done|lia].
Qed.

Lemma Rvert_resist : Rvert W Lc numP dimX dimZ = ok (resist_y W Lc numP dimX dimZ <$> zseq (numLayer numP + 1)).
Proof using HP.
  unfold Rvert.
  assert (∀ l, (∀ i, i ∈ l → 0 ≤ i < numLayer numP) →
    mapE (Rvert_layer W Lc numP dimX dimZ) l = ok ((fun i => resist_y W Lc numP dimX dimZ (i + 1)) <$> l)) as Hall.
  { induction l as [|i l IH]; intros Hin; [done|]. cbn [mapE fmap list_fmap].
    rewrite Rvert_layer_resist by (apply Hin; left). cbn [mbind exc_bind]. rewrite IH by (intros; apply Hin; by right). done. }
  rewrite Hall by (intros i; apply elem_of_zseq). cbn [mbind exc_bind].
  rewrite Z.add_comm, zseq_add by (unfold numLayer; lia). change (zseq 1) with [0]. cbn [fmap list_fmap app].
  f_equal. f_equal. rewrite <- list_fmap_compose. apply list_fmap_ext. intros _ i _. simpl. f_equal. lia.
Qed.
End Resistances.

Section Whole.
Context (W Lc : double) (numP dimX dimZ : Z).
Context (HP : 1 ≤ numP) (HX : 1 ≤ dimX) (HZ : 1 ≤ dimZ).

Lemma zget_zseq n i : 0 ≤ i < n → zget (zseq n) i = Some i.
Proof using. intros Hi. destruct (zseq_split n i Hi) as (k & Hk). apply zget_Some. split; [lia|]. rewrite Hk, lookup_app_r; rewrite length_zseq; [|lia]. by rewrite Nat.sub_diag. Qed.

Lemma node_range p :
  p ∈ nodes3 (numLayer numP + 1) dimZ dimX ↔ in_grid numP dimX dimZ p.
Proof using. destruct p as [[l j] i]. rewrite elem_of_nodes3. unfold in_grid. lia. Qed.

Lemma in_grid_node p : in_grid numP dimX dimZ p → 0 ≤ node_of dimX dimZ p < T_nodes numP dimX dimZ.
Proof using HX HZ. destruct p as [[l j] i]. unfold in_grid, node_of, node, T_nodes. intros (? & ? & ?). nia. Qed.

Section Rows.
Context (rv : list double) (Hlen : Z.of_nat (length rv) = numLayer numP + 1).
Local Notation below := (below W Lc dimX dimZ rv).
Local Notation above := (above W Lc numP dimX dimZ rv).
Local Notation full_row := (full_row W Lc numP dimX dimZ rv).
Local Notation ps := (nodes3 (numLayer numP + 1) dimZ dimX).

Lemma rows_ok : mapE (matrix_row W Lc numP dimX dimZ rv) ps = ok (full_row <$> ps).
Proof using HP HX HZ Hlen.
  assert (∀ p, p ∈ ps → in_grid numP dimX dimZ p) as Hp by (intros p; apply node_range). induction ps as [|p l IH]; [done|].
  cbn [mapE fmap list_fmap]. rewrite matrix_row_ok by (done || apply Hp; left). cbn [mbind exc_bind].
  rewrite IH by (intros q Hq; apply Hp; by right). done.
Qed.

Lemma node_numbers : node_of dimX dimZ <$> ps = zseq (T_nodes numP dimX dimZ).
Proof using HP HX HZ.
  clear Hlen. assert (0 ≤ numLayer numP) by (unfold numLayer; lia). rewrite nodes3_numbers by lia. f_equal. unfold T_nodes. nia.
Qed.

Lemma row_of n row :
  zget (full_row <$> ps) n = Some row → ∃ p, in_grid numP dimX dimZ p ∧ node_of dimX dimZ p = n ∧ row = full_row p.
Proof using HP HX HZ.
  clear Hlen. rewrite zget_fmap. destruct (zget ps n) as [p|] eqn:Hp; [|done]. intros [= <-]. exists p. split; [apply node_range; by eapply zget_elem|]. split; [|done].
  assert (zget (node_of dimX dimZ <$> ps) n = Some (node_of dimX dimZ p)) as Hz by by rewrite zget_fmap, Hp.
  rewrite node_numbers in Hz. apply zget_lt in Hz as Hr. rewrite length_zseq in Hr. rewrite zget_zseq in Hz by lia. by injection Hz.
Qed.

Lemma row_entries p :
  in_grid numP dimX dimZ p →
  Forall (fun e => e_row e = node_of dimX dimZ p ∧ 0 ≤ e_col e < T_nodes numP dimX dimZ) (full_row p) ∧ node_of dimX dimZ p ∈ e_col <$> full_row p.
Proof using HP HX HZ.
  clear Hlen. intros Hg. pose proof (in_grid_node p Hg) as Hr. split.
  - unfold ThermalSolver.full_row. apply Forall_app. split; [|constructor; [simpl; lia|]]; apply Forall_fmap, Forall_forall; intros [q v] Hq; simpl;
      (split; [done|]); apply in_grid_node;
      [by apply (below_inv W Lc numP dimX dimZ HP HX HZ rv) in Hq as [? _]|by apply (above_inv W Lc numP dimX dimZ HP HX HZ rv) in Hq as [? _]].
  - unfold ThermalSolver.full_row. rewrite fmap_app. apply elem_of_app. right. left.
Qed.

(** An entry off the diagonal stands for a neighbour, which has one for this node. *)
Lemma row_edge p r c v :
  r ≠ c → MkEntry r c v ∈ full_row p → ∃ q, (q, v) ∈ below p ++ above p ∧ r = node_of dimX dimZ p ∧ c = node_of dimX dimZ q.
Proof using.
  intros Hne He. unfold ThermalSolver.full_row in He. rewrite elem_of_app, elem_of_cons in He. destruct He as [He|[He|He]].
  - apply list_elem_of_fmap in He as ([q v'] & [= -> -> ->] & Hq). exists q. split; [|done]. apply elem_of_app. by left.
  - pose proof (f_equal e_row He) as Hr. pose proof (f_equal e_col He) as Hc. unfold diagonal in Hr, Hc. cbv zeta in Hr, Hc.
    cbn [e_row e_col] in Hr, Hc. congruence.
  - apply list_elem_of_fmap in He as ([q v'] & [= -> -> ->] & Hq). exists q. split; [|done]. apply elem_of_app. by right.
Qed.

Lemma edge_back p q v :
  in_grid numP dimX dimZ p → (q, v) ∈ below p ++ above p →
  in_grid numP dimX dimZ q ∧ MkEntry (node_of dimX dimZ q) (node_of dimX dimZ p) v ∈ full_row q.
Proof using HP HX HZ.
  clear Hlen. intros Hg [Hq|Hq]%elem_of_app.
  - split; [by eapply (below_inv W Lc numP dimX dimZ HP HX HZ rv)|]. unfold ThermalSolver.full_row. rewrite elem_of_app, elem_of_cons. right. right.
    apply list_elem_of_fmap. exists (p, v). split; [done|by apply below_above].
  - split; [by eapply (above_inv W Lc numP dimX dimZ HP HX HZ rv)|]. unfold ThermalSolver.full_row. rewrite elem_of_app, elem_of_cons. left.
    apply list_elem_of_fmap. exists (p, v). split; [done|by eapply above_below].
Qed.

Lemma full_rows_ok : matrix_ok (T_nodes numP dimX dimZ) (full_row <$> ps).
Proof using HP HX HZ.
  clear Hlen. split.
  - rewrite length_fmap, <- (length_fmap (node_of dimX dimZ)), node_numbers, length_zseq. unfold T_nodes, numLayer. nia.
  - intros n row (p & Hg & <- & ->)%row_of. destruct (row_entries p Hg). split_and!; [done|by apply full_row_sorted|done].
  - intros r c v Hne (row & He & (p & -> & Hp)%list_elem_of_fmap)%elem_of_concat. apply node_range in Hp as Hg.
    destruct (row_edge p r c v Hne He) as (q & Hq & -> & ->). destruct (edge_back p q v Hg Hq) as [Hgq Hb].
    apply elem_of_concat. exists (full_row q). split; [done|]. apply list_elem_of_fmap. exists q. split; [done|by apply node_range].
Qed.
End Rows.

(** The rows are those of the heat equation. *)
Section Heat.
Context (rv : list double) (Hres : rv = resist_y W Lc numP dimX dimZ <$> zseq (numLayer numP + 1)).
Local Notation below := (below W Lc dimX dimZ rv).
Local Notation above := (above W Lc numP dimX dimZ rv).
Local Notation full_row := (full_row W Lc numP dimX dimZ rv).
Local Notation ps := (nodes3 (numLayer numP + 1) dimZ dimX).

Lemma vert_resist a b : 0 ≤ a ≤ numLayer numP → 0 ≤ b ≤ numLayer numP →
  vert rv a b = ddiv (of_int (-1)) (dadd (ddiv (resist_y W Lc numP dimX dimZ a) (of_int 2)) (ddiv (resist_y W Lc numP dimX dimZ b) (of_int 2))).
Proof using Hres. intros Ha Hb. unfold vert. rewrite Hres, !zget_fmap, !zget_zseq by lia. done. Qed.

Lemma neighbour_link p q v :
  in_grid numP dimX dimZ p → (q, v) ∈ below p ++ above p ↔ in_grid numP dimX dimZ q ∧ link W Lc numP dimX dimZ p q v.
Proof using Hres HP.
  pose proof vert_resist as Hvert. clear Hres.
  destruct p as [[l j] i]. intros (Hl & Hj & Hi). unfold ThermalSolver.below, ThermalSolver.above.
  rewrite !Rhori_resist by lia. cbn [fst snd]. unfold minus_inv. split.
  - rewrite !elem_of_app. intros Hq.
    destruct Hq as [[Hq|[Hq|Hq]]|[Hq|[Hq|Hq]]]; (case_match eqn:E; [|by apply not_elem_of_nil in Hq]); apply list_elem_of_singleton in Hq as [= -> ->];
      apply Z.ltb_lt in E || apply Z.leb_le in E; unfold in_grid; (split; [lia|]);
      try (rewrite Hvert by lia); constructor; lia.
  - destruct q as [[l' j'] i']. intros ((Hl' & Hj' & Hi') & Hlk). rewrite !elem_of_app. inversion Hlk as [? ? ? ? Hd|? ? ? ? Hd|? ? ? ? Hd]; subst.
    + destruct (decide (i' = i + 1)) as [->|]; [right; left|left; right; right; replace i' with (i - 1) by lia];
        (case_match eqn:E; [by apply list_elem_of_singleton|]); apply Z.ltb_ge in E || apply Z.leb_gt in E; lia.
    + destruct (decide (j' = j + 1)) as [->|]; [right; right; left|left; right; left; replace j' with (j - 1) by lia];
        (case_match eqn:E; [by apply list_elem_of_singleton|]); apply Z.ltb_ge in E || apply Z.leb_gt in E; lia.
    + destruct (decide (l' = l + 1)) as [->|]; [right; right; right|left; left; replace l' with (l - 1) by lia];
        (case_match eqn:E; [rewrite Hvert by lia; by apply list_elem_of_singleton|]); apply Z.ltb_ge in E; lia.
Qed.

Lemma row_off p :
  in_grid numP dimX dimZ p →
  filter (fun e => e_col e ≠ node_of dimX dimZ p) (full_row p) = entry_to dimX dimZ p <$> (below p ++ above p).
Proof using HP HX HZ.
  clear Hres. intros Hg. assert (∀ l : list (Z * Z * Z * double), (∀ q v, (q, v) ∈ l → node_of dimX dimZ q ≠ node_of dimX dimZ p) →
    filter (fun e => e_col e ≠ node_of dimX dimZ p) (entry_to dimX dimZ p <$> l) = entry_to dimX dimZ p <$> l) as Hall.
  { induction l as [|[q v] l IH]; intros Hne; [done|]. cbn [fmap list_fmap]. rewrite filter_cons_True by (simpl; apply (Hne q v); left).
    f_equal. apply IH. intros q' v' Hin. apply (Hne q' v'). by right. }
  unfold ThermalSolver.full_row. rewrite filter_app, filter_cons_False by (intros Hc; by apply Hc).
  rewrite !Hall, fmap_app; [done| |].
  - intros q v Hq. apply (above_inv W Lc numP dimX dimZ HP HX HZ rv) in Hq as [_ ?]; [lia|done].
  - intros q v Hq. apply (below_inv W Lc numP dimX dimZ HP HX HZ rv) in Hq as [_ ?]; [lia|done].
Qed.

Lemma full_row_heat p : in_grid numP dimX dimZ p → heat_row W Lc numP dimX dimZ p (full_row p).
Proof using Hres HP HX HZ.
  intros Hg. split.
  - intros c v Hne. split.
    + intros He. unfold ThermalSolver.full_row in He. rewrite elem_of_app, elem_of_cons in He.
      assert (∀ l : list (Z * Z * Z * double), MkEntry (node_of dimX dimZ p) c v ∈ entry_to dimX dimZ p <$> l → ∃ q, (q, v) ∈ l ∧ c = node_of dimX dimZ q) as Hin.
      { intros l. intros ([q v'] & [= -> ->] & Hq)%list_elem_of_fmap. by exists q. }
      destruct He as [(q & Hq & ->)%Hin|[He|(q & Hq & ->)%Hin]].
      * exists q. assert ((q, v) ∈ below p ++ above p) as Hq' by (apply elem_of_app; by left). apply neighbour_link in Hq'; tauto.
      * apply (f_equal e_col) in He. unfold diagonal in He. cbv zeta in He. cbn [e_col] in He. congruence.
      * exists q. assert ((q, v) ∈ below p ++ above p) as Hq' by (apply elem_of_app; by right). apply neighbour_link in Hq'; tauto.
    + intros (q & Hgq & Hlk & ->). assert ((q, v) ∈ below p ++ above p) as Hq by (by apply neighbour_link).
      assert (entry_to dimX dimZ p (q, v) ∈ filter (fun e => e_col e ≠ node_of dimX dimZ p) (full_row p)) as Hf
        by (rewrite row_off by done; by apply list_elem_of_fmap_2).
      by apply list_elem_of_filter in Hf as [_ ?].
  - rewrite row_off by done. cbv zeta. unfold ThermalSolver.full_row. apply elem_of_app. right.
    assert ((node_of dimX dimZ p <? dimX * dimZ) = (p.1.1 =? 0)) as E.
    { destruct p as [[l j] i], Hg as (Hl & Hj & Hi). simpl. unfold node. destruct (Z.eqb_spec l 0) as [->|]; [apply Z.ltb_lt|apply Z.ltb_ge]; nia. }
    unfold diagonal. cbv zeta. rewrite E. unfold Ramb, Rsinky. destruct (p.1.1 =? 0); apply elem_of_cons; by left.
Qed.

Lemma row_at p : in_grid numP dimX dimZ p → zget (full_row <$> ps) (node_of dimX dimZ p) = Some (full_row p).
Proof using HP HX HZ.
  clear Hres. intros Hg. apply node_range in Hg as Hp. apply list_elem_of_lookup in Hp as [k Hk].
  assert (zget ps (Z.of_nat k) = Some p) as Hz by (apply zget_Some; split; [lia|by rewrite Nat2Z.id]).
  assert (node_of dimX dimZ p = Z.of_nat k) as ->; [|by rewrite zget_fmap, Hz].
  assert (zget (node_of dimX dimZ <$> ps) (Z.of_nat k) = Some (node_of dimX dimZ p)) as Hn by by rewrite zget_fmap, Hz.
  rewrite node_numbers in Hn. apply zget_lt in Hn as Hr. rewrite length_zseq in Hr. rewrite zget_zseq in Hn by lia. by injection Hn.
Qed.
End Heat.

Lemma Midx_ok :
  ∃ rows, calculate_Midx_array W Lc numP dimX dimZ = ok (concat rows, Z.of_nat (length (concat rows))) ∧
    matrix_ok (T_nodes numP dimX dimZ) rows ∧
    ∀ p, in_grid numP dimX dimZ p → ∃ row, zget rows (node_of dimX dimZ p) = Some row ∧ heat_row W Lc numP dimX dimZ p row.
Proof using HP HX HZ.
  pose proof (Rvert_resist W Lc numP dimX dimZ HP) as Hrv. set (rv := resist_y W Lc numP dimX dimZ <$> zseq (numLayer numP + 1)) in *.
  assert (Z.of_nat (length rv) = numLayer numP + 1) as Hlen by (unfold rv; rewrite length_fmap, length_zseq; unfold numLayer; lia).
  eexists. split; [|split; [apply (full_rows_ok rv)|]].
  - unfold calculate_Midx_array. rewrite Hrv. cbn [mbind exc_bind]. rewrite (rows_ok rv Hlen). cbn [mbind exc_bind].
    rewrite (entry_count_ok W Lc numP dimX dimZ HP HX HZ rv), Z.leb_refl, Z.sub_diag. by rewrite app_nil_r.
  - intros p Hp. exists (full_row W Lc numP dimX dimZ rv p). split; [by apply row_at|by apply full_row_heat].
Qed.
End Whole.

(** ** Lemmas: loops over an array *)

Fixpoint enum {A} (b : Z) (l : list A) : list (Z * A) :=
  match l with [] => [] | x :: l' => (b, x) :: enum (b + 1) l' end.

Lemma enum_app {A} b (l k : list A) : enum b (l ++ k) = enum b l ++ enum (b + Z.of_nat (length l)) k.
Proof.
  revert b. induction l as [|x l IH]; intros b; cbn [enum app length]; [by rewrite Z.add_0_r|]. rewrite IH. do 3 f_equal. lia.
Qed.

Lemma zseq_cons n : 0 ≤ n → zseq (n + 1) = 0 :: ((fun k => k + 1) <$> zseq n).
Proof.
  intros Hn. rewrite Z.add_comm, zseq_add by lia. change (zseq 1) with [0]. cbn [app]. f_equal. apply list_fmap_ext. intros _ k _. lia.
Qed.

(** Reading the elements by their index is going through them. *)
Lemma foldE_enum {A S} (g : Z -> A -> S -> exc S) (m pre post : list A) s :
  foldE (fun i s => e ← vec_get (pre ++ m ++ post) i; g i e s)
        ((fun k => Z.of_nat (length pre) + k) <$> zseq (Z.of_nat (length m))) s
  = foldE (fun p s => g p.1 p.2 s) (enum (Z.of_nat (length pre)) m) s.
Proof.
  revert pre s. induction m as [|e m IH]; intros pre s; [done|].
  cbn [length]. rewrite Nat2Z.inj_succ. unfold Z.succ. rewrite zseq_cons by lia. cbn [fmap list_fmap foldE enum fst snd]. rewrite Z.add_0_r.
  assert (vec_get (pre ++ (e :: m) ++ post) (Z.of_nat (length pre)) = ok e) as ->.
  { apply vec_get_ok, zget_Some. split; [lia|]. rewrite Nat2Z.id, lookup_app_r, Nat.sub_diag by lia. done. }
  cbn [mbind exc_bind]. destruct (g (Z.of_nat (length pre)) e s) as [s1|]; [|done]. cbn [mbind exc_bind].
  specialize (IH (pre ++ [e]) s1). rewrite length_app in IH. cbn [length] in IH. rewrite Nat2Z.inj_add in IH. change (Z.of_nat 1) with 1 in IH.
  rewrite <- IH, <- app_assoc, <- list_fmap_compose. cbn [app].
  f_equal. apply list_fmap_ext. intros _ k _. simpl. lia.
Qed.

Lemma foldE_entries {A S} (g : Z -> A -> S -> exc S) (m : list A) s :
  foldE (fun i s => e ← vec_get m i; g i e s) (zseq (Z.of_nat (length m))) s = foldE (fun p s => g p.1 p.2 s) (enum 0 m) s.
Proof.
  pose proof (foldE_enum g m [] [] s) as H. cbn [app length] in H. rewrite app_nil_r in H. change (Z.of_nat 0) with 0 in H. rewrite <- H.
  f_equal. rewrite <- list_fmap_id at 1. apply list_fmap_ext. intros _ k _. done.
Qed.

(** A loop that fills an array: every place is written with its value. *)
Lemma fill_ok {P A} (get : P -> exc A) (k : P -> Z) (w : P -> A) l v :
  (∀ p, p ∈ l → get p = ok (w p) ∧ 0 ≤ k p < Z.of_nat (length v)) → (∀ p q, p ∈ l → q ∈ l → k p = k q → w p = w q) →
  ∃ v', foldE (fun p v => x ← get p; _ ← vec_get v (k p); ok (zset v (k p) x)) l v = ok v' ∧ length v' = length v ∧
    (∀ p, p ∈ l → zget v' (k p) = Some (w p)) ∧ (∀ n, (∀ p, p ∈ l → k p ≠ n) → zget v' n = zget v n).
Proof.
  revert v. induction l as [|p l IH]; intros v Hg Hk.
  { exists v. split_and!; try done. by intros p ?%not_elem_of_nil. }
  destruct (Hg p) as [Hp Hr]; [left|]. cbn [foldE]. rewrite Hp. cbn [mbind exc_bind].
  destruct (zget_is_Some v (k p) Hr) as [x Hx%vec_get_ok]. rewrite Hx. cbn [mbind exc_bind].
  destruct (IH (zset v (k p) (w p))) as (v' & -> & Hl & Hin & Hout).
  { intros q Hq. rewrite length_zset. apply Hg. by right. }
  { intros q r Hq Hr'. apply Hk; by right. }
  rewrite length_zset in Hl. exists v'. split_and!; [done|done| |].
  - intros q [->|Hq]%elem_of_cons; [|by apply Hin].
    destruct (decide (k p ∈ k <$> l)) as [(r & Hkr & Hr')%list_elem_of_fmap|Hno].
    + rewrite Hkr, (Hin r Hr'). f_equal. apply Hk; [by right|left|done].
    + rewrite Hout; [by apply zget_zset_eq|]. intros r Hr' He. apply Hno. rewrite <- He. by apply list_elem_of_fmap_2.
  - intros n Hn. rewrite Hout; [|intros q Hq; apply Hn; by right]. apply zget_zset_ne. apply Hn. left.
Qed.

(** Two arrays are equal when their elements are. *)
Lemma zget_ext {A} (l k : list A) : length l = length k → (∀ n, 0 ≤ n < Z.of_nat (length l) → zget l n = zget k n) → l = k.
Proof.
  intros Hl Hn. apply list_eq_same_length with (n := length l); [done|done|]. intros i x y Hi Hx Hy.
  specialize (Hn (Z.of_nat i) ltac:(lia)). assert (∀ z : list A, zget z (Z.of_nat i) = z !! i) as Hz.
  { intros z. unfold zget. destruct (Z.ltb_spec (Z.of_nat i) 0); [lia|]. by rewrite Nat2Z.id. }
  rewrite !Hz in Hn. congruence.
Qed.

(** ** The compressed matrix *)

Definition starts (rows : list (list entry)) (n : Z) : Z := Z.of_nat (length (concat (take (Z.to_nat n) rows))).

Definition xa_step (i : Z) (e : entry) (s : Z * list (option Z)) : exc (Z * list (option Z)) :=
  if s.1 <? e_row e then _ ← vec_get s.2 (e_row e); ok (e_row e, zset s.2 (e_row e) (Some i)) else ok s.

Lemma xa_row n row b xa :
  row ≠ [] → Forall (fun e => e_row e = n) row → 0 ≤ n < Z.of_nat (length xa) →
  foldE (fun p s => xa_step p.1 p.2 s) (enum b row) (n - 1, xa) = ok (n, zset xa n (Some b)).
Proof.
  intros Hne Hf Hn. destruct row as [|e row]; [done|]. apply Forall_cons in Hf as [He Hf].
  assert (xa_step b e (n - 1, xa) = ok (n, zset xa n (Some b))) as Hfirst.
  { unfold xa_step. cbn [fst snd]. rewrite He. assert (n - 1 <? n = true) as -> by (apply Z.ltb_lt; lia).
    destruct (zget_is_Some xa n Hn) as [x Hx%vec_get_ok]. by rewrite Hx. }
  cbn [enum foldE fst snd]. rewrite Hfirst. cbn [mbind exc_bind]. generalize (zset xa n (Some b)), (b + 1). clear Hfirst.
  induction Hf as [|e' row He' Hf IH]; intros l b'; [done|].
  assert (xa_step b' e' (n, l) = ok (n, l)) as Hnext by (unfold xa_step; cbn [fst snd]; by rewrite He', Z.ltb_irrefl).
  cbn [enum foldE fst snd]. rewrite Hnext. cbn [mbind exc_bind]. by apply IH.
Qed.

Lemma xa_rows rows n b xa :
  (∀ k row, zget rows k = Some row → row ≠ [] ∧ Forall (fun e => e_row e = n + k) row) → 0 ≤ n → n + Z.of_nat (length rows) ≤ Z.of_nat (length xa) →
  ∃ xa', foldE (fun p s => xa_step p.1 p.2 s) (enum b (concat rows)) (n - 1, xa) = ok (n + Z.of_nat (length rows) - 1, xa') ∧ length xa' = length xa ∧
    (∀ k, 0 ≤ k < Z.of_nat (length rows) → zget xa' (n + k) = Some (Some (b + starts rows k))) ∧ (∀ k, k < n → zget xa' k = zget xa k).
Proof.
  revert n b xa. induction rows as [|row rows IH]; intros n b xa Hrows Hn Hlen.
  { exists xa. cbn [concat enum foldE length]. split_and!; try done. - do 2 f_equal. lia. - intros k Hk. simpl in Hk. lia. }
  destruct (Hrows 0 row) as [Hne Hf]; [done|]. rewrite Z.add_0_r in Hf. cbn [concat]. rewrite enum_app, foldE_app.
  cbn [length] in Hlen. rewrite (xa_row n row b xa Hne Hf) by lia. cbn [mbind exc_bind].
  destruct (IH (n + 1) (b + Z.of_nat (length row)) (zset xa n (Some b))) as (xa' & Hr & Hl & Hin & Hlow).
  { intros k r Hk. replace (n + 1 + k) with (n + (k + 1)) by lia. apply Hrows. apply zget_lt in Hk as Hk'. apply zget_Some in Hk as [_ Hk]. apply zget_Some.
    split; [lia|]. by rewrite Z2Nat.inj_add, Nat.add_comm by lia. }
  { lia. }
  { rewrite length_zset. lia. }
  rewrite Z.add_simpl_r in Hr. exists xa'. rewrite length_zset in Hl. split_and!; [| done | |].
  - rewrite Hr. cbn [length]. do 2 f_equal. lia.
  - intros k Hk. destruct (decide (k = 0)) as [->|Hk0].
    + rewrite Z.add_0_r, Hlow by lia. rewrite zget_zset_eq by lia. unfold starts. simpl. by rewrite Z.add_0_r.
    + replace (n + k) with (n + 1 + (k - 1)) by lia. cbn [length] in Hk. rewrite Hin by lia. do 2 f_equal. unfold starts.
      replace (Z.to_nat k) with (S (Z.to_nat (k - 1))) by lia. cbn [take concat]. rewrite length_app. lia.
  - intros k Hk. rewrite Hlow by lia. apply zget_zset_ne. lia.
Qed.

(** The steady solver hands over, for each node, the values and columns of its row. *)
Lemma compress_ok numP dimX dimZ rows :
  1 ≤ T_nodes numP dimX dimZ → matrix_ok (T_nodes numP dimX dimZ) rows →
  ∃ xa, compress numP dimX dimZ (concat rows) (Z.of_nat (length (concat rows))) = ok (e_val <$> concat rows, e_col <$> concat rows, xa) ∧
    length xa = Z.to_nat (T_nodes numP dimX dimZ + 1) ∧ ∀ n, 0 ≤ n ≤ T_nodes numP dimX dimZ → zget xa n = Some (Some (starts rows n)).
Proof.
  intros HT [Hn Hr _]. unfold compress. set (xa0 := replicate _ None).
  assert (length xa0 = Z.to_nat (T_nodes numP dimX dimZ + 1)) as H0 by (unfold xa0; by rewrite length_replicate).
  destruct (xa_rows rows 0 0 xa0) as (xa & Hx & Hl & Hin & _).
  { intros k row Hk. destruct (Hr k row Hk) as (Hf & _ & Hd). split; [|eapply Forall_impl; [exact Hf|]; intros e [? _]; lia].
    intros ->. by apply not_elem_of_nil in Hd. }
  { done. }
  { lia. }
  assert (foldE (fun i (s : Z * list (option Z)) => e ← vec_get (concat rows) i;
      if s.1 <? e_row e then _ ← vec_get s.2 (e_row e); ok (e_row e, zset s.2 (e_row e) (Some i)) else ok s)
    (zseq (Z.of_nat (length (concat rows)))) (-1, xa0) = ok (T_nodes numP dimX dimZ - 1, xa)) as ->.
  { rewrite (foldE_entries xa_step). change (-1) with (0 - 1). rewrite Hx. do 2 f_equal. lia. }
  cbn [mbind exc_bind]. rewrite Z.sub_add. destruct (zget_is_Some xa (T_nodes numP dimX dimZ)) as [x Hx'%vec_get_ok]; [lia|]. rewrite Hx'. cbn [mbind exc_bind].
  eexists. split; [done|]. split; [rewrite length_zset; congruence|]. intros n Hn'. destruct (decide (n = T_nodes numP dimX dimZ)) as [->|Hne].
  - rewrite zget_zset_eq by lia. do 2 f_equal. unfold starts. rewrite take_ge; [done|lia].
  - rewrite zget_zset_ne by done. specialize (Hin n ltac:(lia)). by rewrite !Z.add_0_l in Hin.
Qed.

(** ** The sources *)

(** An array that is filled with the values of a function where they are not yet. *)
Lemma fill_eq {P A} (get : P -> exc A) (k : P -> Z) (f : Z -> A) l v :
  (∀ p, p ∈ l → get p = ok (f (k p)) ∧ 0 ≤ k p < Z.of_nat (length v)) →
  (∀ n, 0 ≤ n < Z.of_nat (length v) → (∃ p, p ∈ l ∧ k p = n) ∨ zget v n = Some (f n)) →
  foldE (fun p v => x ← get p; _ ← vec_get v (k p); ok (zset v (k p) x)) l v = ok (f <$> zseq (Z.of_nat (length v))).
Proof.
  intros Hg Hn. destruct (fill_ok get k (fun p => f (k p)) l v Hg) as (v' & Hv & Hl & Hin & Hout).
  { by intros p q _ _ ->. }
  rewrite Hv. f_equal. apply zget_ext; [by rewrite length_fmap, length_zseq, Nat2Z.id|]. rewrite Hl. intros n Hr.
  rewrite zget_fmap, zget_zseq by done. simpl. destruct (decide (n ∈ k <$> l)) as [(p & -> & Hp)%list_elem_of_fmap|Hno]; [by apply Hin|].
  destruct (Hn n Hr) as [(p & Hp & He)|He]; [destruct Hno; rewrite <- He; by apply list_elem_of_fmap_2|].
  rewrite Hout; [done|]. intros p Hp He'. apply Hno. rewrite <- He'. by apply list_elem_of_fmap_2.
Qed.

Section Sources.
Context (W Lc : double) (numP dimX dimZ : Z) (powerM : array3) (w : Z -> Z -> Z -> double) (Tamb : double).
Context (HP : 1 ≤ numP) (HX : 1 ≤ dimX) (HZ : 1 ≤ dimZ).
Context (Hw : ∀ i j l, 0 ≤ i < dimX → 0 ≤ j < dimZ → 0 ≤ l < numP → get3 powerM i j l = ok (w i j l)).
Local Notation T := (T_nodes numP dimX dimZ).

(** What flows into a node: the sink is joined to the ambient, the active layer of die
    [l] has the power of the column and row [place] says. *)
Definition source (place : Z -> Z * Z) (n : Z) : double :=
  let layer := n / (dimX * dimZ) in
  let '(i, j) := place (n mod (dimX * dimZ)) in
  if layer =? 0 then ddiv Tamb (Ramb W Lc dimX dimZ)
  else if layer mod 3 =? 1 then w i j (layer / 3) else dzero.
Definition by_rows (k : Z) : Z * Z := (k mod dimX, k / dimX).
Definition by_columns (k : Z) : Z * Z := (k / dimZ, k mod dimZ).

Lemma set_sink_ok :
  set_sink W Lc dimX dimZ Tamb (replicate (Z.to_nat T) dzero) =
  ok ((fun n => if n <? dimX * dimZ then ddiv Tamb (Ramb W Lc dimX dimZ) else dzero) <$> zseq T).
Proof using HP HX HZ.
  clear Hw. unfold set_sink. set (f := fun n : Z => if n <? dimX * dimZ then ddiv Tamb (Ramb W Lc dimX dimZ) else dzero).
  assert (0 ≤ dimX * dimZ ≤ T) as HT by (unfold T_nodes, numLayer; nia).
  pose proof (fill_eq (fun _ => ok (ddiv Tamb (Ramb W Lc dimX dimZ))) (fun i => i) f (zseq (dimX * dimZ)) (replicate (Z.to_nat T) dzero)) as Hf.
  rewrite length_replicate, Z2Nat.id in Hf by lia. apply Hf.
  - intros p Hp%elem_of_zseq. split; [|lia]. unfold f. apply proj2 in Hp as Hp'. apply Z.ltb_lt in Hp'. by rewrite Hp'.
  - intros n Hn. destruct (decide (n < dimX * dimZ)); [left; exists n; split; [apply elem_of_zseq; lia|done]|right].
    unfold f. assert (n <? dimX * dimZ = false) as -> by (apply Z.ltb_ge; lia). apply zget_Some. split; [lia|].
    apply lookup_replicate. split; [done|lia].
Qed.

(** The place of the node at [off] in the active layer of die [l]. *)
Lemma source_place place l off i j :
  0 ≤ l < numP → 0 ≤ off < dimX * dimZ → place off = (i, j) →
  source place (dimX * dimZ * (l * 3 + 1) + off) = w i j l ∧ 0 ≤ dimX * dimZ * (l * 3 + 1) + off < T.
Proof using HP HX HZ.
  clear Hw. intros Hl Ho Hp. unfold source. rewrite (Z.mul_comm (dimX * dimZ)), radix_div, radix_mod, Hp by done.
  destruct (Z.eqb_spec (l * 3 + 1) 0); [lia|]. rewrite radix_mod, radix_div by lia. rewrite Z.eqb_refl.
  split; [done|]. unfold T_nodes, numLayer. nia.
Qed.

Lemma source_filled (k : Z * Z * Z -> Z) (get : Z * Z * Z -> exc double) place ps :
  (∀ p, p ∈ ps → get p = ok (source place (k p)) ∧ 0 ≤ k p < T) →
  (∀ l off, 0 ≤ l < numP → 0 ≤ off < dimX * dimZ → ∃ p, p ∈ ps ∧ k p = dimX * dimZ * (l * 3 + 1) + off) →
  foldE (fun p v => x ← get p; _ ← vec_get v (k p); ok (zset v (k p) x)) ps
    ((fun n => if n <? dimX * dimZ then ddiv Tamb (Ramb W Lc dimX dimZ) else dzero) <$> zseq T) = ok (source place <$> zseq T).
Proof using HP HX HZ.
  clear Hw. intros Hg Hall. set (v := _ <$> zseq T). assert (0 ≤ T) as HT by (unfold T_nodes, numLayer; nia).
  assert (Z.of_nat (length v) = T) as Hl by (unfold v; rewrite length_fmap, length_zseq; lia).
  pose proof (fill_eq get k (source place) ps v) as Hf. rewrite Hl in Hf. apply Hf; [done|].
  intros n Hn. assert (0 < dimX * dimZ) as HXZ by nia. pose proof (Z.div_mod n (dimX * dimZ) ltac:(lia)) as Hd.
  pose proof (Z.mod_pos_bound n (dimX * dimZ) HXZ) as Hm.
  assert (0 ≤ n / (dimX * dimZ) < numP * 3 + 1) as Hlay.
  { split; [apply Z.div_pos; lia|]. apply Z.div_lt_upper_bound; [lia|]. unfold T_nodes, numLayer in Hn. lia. }
  destruct (decide ((n / (dimX * dimZ)) mod 3 = 1)) as [H1|H1].
  - left. destruct (Hall ((n / (dimX * dimZ)) / 3) (n mod (dimX * dimZ))) as (p & Hp & Hk); [|done|].
    { pose proof (Z.div_mod (n / (dimX * dimZ)) 3 ltac:(lia)). split; [apply Z.div_pos; lia|]. apply Z.div_lt_upper_bound; lia. }
    exists p. split; [done|]. rewrite Hk. pose proof (Z.div_mod (n / (dimX * dimZ)) 3 ltac:(lia)). nia.
  - right. unfold v. rewrite zget_fmap, zget_zseq by done. simpl. unfold source. destruct (place _) as [i j].
    destruct (Z.ltb_spec n (dimX * dimZ)) as [Hlt|Hge].
    + rewrite (Z.div_small n (dimX * dimZ)) by lia. done.
    + destruct (Z.eqb_spec (n / (dimX * dimZ)) 0) as [H0|H0]; [rewrite H0 in Hd; lia|]. apply Z.eqb_neq in H1. by rewrite H1.
Qed.

Lemma steady_rhs_ok : steady_rhs W Lc numP dimX dimZ powerM Tamb = ok (source by_rows <$> zseq T).
Proof using HP HX HZ Hw.
  unfold steady_rhs. rewrite set_sink_ok. cbn [mbind exc_bind].
  set (k := fun p : Z * Z * Z => let '(l, i, j) := p in dimX * dimZ * (l * 3 + 1) + j * dimX + i).
  assert (∀ l i j, 0 ≤ i < dimX → k (l, i, j) = dimX * dimZ * (l * 3 + 1) + (j * dimX + i)) as Hk by (intros; unfold k; lia).
  rewrite <- (source_filled k (fun p => let '(l, i, j) := p in get3 powerM i j l) by_rows (nodes3 numP dimX dimZ)).
  - apply foldE_ext. by intros [[l i] j].
  - intros [[l i] j] (Hl & Hi & Hj)%elem_of_nodes3. rewrite Hk by done.
    destruct (source_place by_rows l (j * dimX + i) i j Hl) as [-> Hr]; [|unfold by_rows; by rewrite radix_mod, radix_div by done|].
    + rewrite (Z.mul_comm dimX dimZ). by apply radix_range.
    + split; [by apply Hw|done].
  - intros l off Hl Ho. exists (l, off mod dimX, off / dimX). pose proof (Z.mod_pos_bound off dimX ltac:(lia)). split.
    + apply elem_of_nodes3. split; [lia|]. split; [lia|]. split; [apply Z.div_pos; lia|apply Z.div_lt_upper_bound; lia].
    + rewrite Hk by done. pose proof (Z.div_mod off dimX ltac:(lia)). lia.
Qed.

Lemma transient_source_ok : transient_source W Lc numP dimX dimZ powerM Tamb = ok (source by_columns <$> zseq T).
Proof using HP HX HZ Hw.
  unfold transient_source. rewrite set_sink_ok. cbn [mbind exc_bind].
  set (k := fun p : Z * Z * Z => let '(l, j, i) := p in dimX * dimZ * (l * 3 + 1) + i * dimZ + j).
  assert (∀ l i j, k (l, j, i) = dimX * dimZ * (l * 3 + 1) + (i * dimZ + j)) as Hk by (intros; unfold k; lia).
  rewrite <- (source_filled k (fun p => let '(l, j, i) := p in get3 powerM i j l) by_columns (nodes3 numP dimZ dimX)).
  - apply foldE_ext. by intros [[l j] i].
  - intros [[l j] i] (Hl & Hj & Hi)%elem_of_nodes3. rewrite Hk.
    destruct (source_place by_columns l (i * dimZ + j) i j Hl) as [-> Hr]; [|unfold by_columns; by rewrite radix_mod, radix_div by done|].
    + by apply radix_range.
    + split; [by apply Hw|done].
  - intros l off Hl Ho. exists (l, off mod dimZ, off / dimZ). pose proof (Z.mod_pos_bound off dimZ ltac:(lia)). split.
    + apply elem_of_nodes3. split; [lia|]. split; [lia|]. split; [apply Z.div_pos; lia|apply Z.div_lt_upper_bound; lia].
    + rewrite Hk. pose proof (Z.div_mod off dimZ ltac:(lia)). lia.
Qed.
End Sources.

(** ** The transient *)

Lemma foldE_enum_snd {A S} (h : A -> S -> exc S) b (m : list A) s : foldE (fun p s => h p.2 s) (enum b m) s = foldE h m s.
Proof. revert b s. induction m as [|e m IH]; intros b s; [done|]. cbn [enum foldE snd]. destruct (h e s); [apply IH|done]. Qed.

(** The blocks of eight, one after the other, are all the entries. *)
Lemma blocks_all size :
  0 ≤ size →
  concat ((fun j => (fun k => j + k) <$> zseq ((if j + 8 <? size then j + 8 else size) - j)) <$> ((fun k => 8 * k) <$> zseq (Z.quot (size + 7) 8)))
  = zseq size.
Proof.
  intros Hs. rewrite Z.quot_div_nonneg by lia. destruct (decide (size = 0)) as [->|Hne]; [done|].
  set (q := (size - 1) / 8). pose proof (Z.div_mod (size - 1) 8 ltac:(lia)) as Hd. fold q in Hd. pose proof (Z.mod_pos_bound (size - 1) 8 ltac:(lia)) as Hm.
  assert (0 ≤ q) by (apply Z.div_pos; lia). assert ((size + 7) / 8 = q + 1) as ->.
  { replace (size + 7) with (size - 1 + 1 * 8) by lia. rewrite Z.div_add by lia. done. }
  rewrite zseq_succ by done. rewrite !fmap_app, concat_app. cbn [fmap list_fmap concat]. rewrite app_nil_r.
  assert (8 * q + 8 <? size = false) as -> by (apply Z.ltb_ge; lia).
  transitivity (zseq (q * 8 + (size - 8 * q))); [|f_equal; lia]. rewrite zseq_add by lia. f_equal.
  - rewrite zseq_mul by lia. rewrite <- list_fmap_compose.
    assert (∀ k, k ∈ zseq q → 0 ≤ k < q) as Hk by (intros k; apply elem_of_zseq). induction (zseq q) as [|k l IH]; [done|].
    rewrite bind_cons. cbn [fmap list_fmap concat]. rewrite IH by (intros j Hj; apply Hk; by right). f_equal. unfold compose.
    destruct (Hk k) as [? ?]; [left|]. assert (8 * k + 8 <? size = true) as -> by (apply Z.ltb_lt; lia).
    replace (8 * k + 8 - 8 * k) with 8 by lia. apply list_fmap_ext. intros _ x _. lia.
  - apply list_fmap_ext. intros _ k _. lia.
Qed.

Section Transient.
Context (dimX dimZ : Z) (cap P : list double) (dt : double).
Definition at_ (l : list double) (i : Z) : double := default dzero (zget l i).

(** What one entry adds to the new temperature of its node, and the new temperature. *)
Definition entry_flow (Tp : list double) (t : double) (e : entry) : double :=
  let c := at_ cap (e_row e / (dimX * dimZ)) in
  if e_row e =? e_col e then
    dadd t (dadd (dmul (dsub (of_int 1) (ddiv (dmul (e_val e) dt) c)) (at_ Tp (e_col e))) (ddiv (dmul (at_ P (e_row e)) dt) c))
  else dsub t (ddiv (dmul (dmul (e_val e) (at_ Tp (e_col e))) dt) c).
Definition euler_node (Tp : list double) (row : list entry) : double := foldl (entry_flow Tp) dzero row.
Definition euler (rows : list (list entry)) (Tp : list double) : list double := euler_node Tp <$> rows.

Context (numP : Z) (HX : 1 ≤ dimX) (HZ : 1 ≤ dimZ) (HP : 1 ≤ numP).
Local Notation T := (T_nodes numP dimX dimZ).
Context (Hcap : Z.of_nat (length cap) = numLayer numP + 1) (HPl : Z.of_nat (length P) = T).

Lemma vec_get_at l i : 0 ≤ i < Z.of_nat (length l) → vec_get l i = ok (at_ l i).
Proof using. intros Hi. destruct (zget_is_Some l i Hi) as [x Hx]. unfold at_. rewrite Hx. by apply vec_get_ok. Qed.

Lemma entry_update_ok Tp e (v : list double) :
  Z.of_nat (length Tp) = T → Z.of_nat (length v) = T → 0 ≤ e_row e < T → 0 ≤ e_col e < T →
  entry_update dimX dimZ cap P Tp dt e v = ok (zset v (e_row e) (entry_flow Tp (at_ v (e_row e)) e)).
Proof using HX HZ HP Hcap HPl.
  intros HTp Hv Hr Hc. unfold entry_update. assert (0 < dimX * dimZ) by nia.
  rewrite Z.quot_div_nonneg by lia. rewrite (vec_get_at cap).
  2:{ rewrite Hcap. split; [apply Z.div_pos; lia|]. apply Z.div_lt_upper_bound; [lia|]. unfold T_nodes in Hr. lia. }
  cbn [mbind exc_bind]. rewrite (vec_get_at v), (vec_get_at Tp) by lia. cbn [mbind exc_bind]. unfold entry_flow.
  destruct (e_row e =? e_col e); [rewrite (vec_get_at P) by lia|]; done.
Qed.

Lemma entries_ok Tp n row (v : list double) :
  Z.of_nat (length Tp) = T → Z.of_nat (length v) = T → 0 ≤ n < T → Forall (fun e => e_row e = n ∧ 0 ≤ e_col e < T) row →
  foldE (entry_update dimX dimZ cap P Tp dt) row v = ok (zset v n (foldl (entry_flow Tp) (at_ v n) row)).
Proof using HX HZ HP Hcap HPl.
  intros HTp Hv Hn Hf. revert v Hv. induction Hf as [|e row [He Hc] Hf IH]; intros v Hv.
  { cbn [foldE foldl]. f_equal. symmetry. apply zset_id. destruct (zget_is_Some v n) as [x Hx]; [lia|]. unfold at_. by rewrite Hx. }
  cbn [foldE foldl]. rewrite entry_update_ok by lia. cbn [mbind exc_bind]. rewrite IH by (rewrite length_zset; done). rewrite He, zset_zset. do 2 f_equal.
  unfold at_ at 1. rewrite zget_zset_eq by lia. done.
Qed.

Lemma step_rows Tp pre rows :
  Z.of_nat (length Tp) = T → Z.of_nat (length pre + length rows) = T →
  (∀ k row, zget rows k = Some row → Forall (fun e => e_row e = Z.of_nat (length pre) + k ∧ 0 ≤ e_col e < T) row) →
  foldE (entry_update dimX dimZ cap P Tp dt) (concat rows) (pre ++ replicate (length rows) dzero) = ok (pre ++ euler rows Tp).
Proof using HX HZ HP Hcap HPl.
  intros HTp. revert pre. induction rows as [|row rows IH]; intros pre Hlen Hrows; [done|]. cbn [concat]. rewrite foldE_app.
  cbn [length] in Hlen. specialize (Hrows 0 row eq_refl) as H0. rewrite Z.add_0_r in H0.
  rewrite (entries_ok Tp (Z.of_nat (length pre))); [|done|rewrite length_app, length_replicate; cbn [length]; lia|lia|done].
  assert (∀ x l y, zset (pre ++ x :: l) (Z.of_nat (length pre)) y = (pre ++ [y]) ++ l) as Hset.
  { intros x l y. unfold zset. destruct (Z.ltb_spec (Z.of_nat (length pre)) 0); [lia|]. rewrite Nat2Z.id, <- app_assoc.
    by rewrite insert_app_r_alt, Nat.sub_diag by lia. }
  assert (at_ (pre ++ replicate (length (row :: rows)) dzero) (Z.of_nat (length pre)) = dzero) as ->.
  { unfold at_. assert (zget (pre ++ replicate (length (row :: rows)) dzero) (Z.of_nat (length pre)) = Some dzero) as ->; [|done].
    apply zget_Some. split; [lia|]. rewrite Nat2Z.id, lookup_app_r, Nat.sub_diag by lia. done. }
  cbn [length replicate mbind exc_bind]. rewrite Hset, IH.
  - unfold euler. by rewrite <- app_assoc.
  - rewrite length_app. cbn [length]. lia.
  - intros k r Hk. apply zget_lt in Hk as Hr. specialize (Hrows (k + 1) r). rewrite length_app. cbn [length].
    replace (Z.of_nat (length pre + 1) + k) with (Z.of_nat (length pre) + (k + 1)) by lia. apply Hrows.
    apply zget_Some in Hk as [_ Hk]. apply zget_Some. split; [lia|]. by rewrite Z2Nat.inj_add, Nat.add_comm by lia.
Qed.

Lemma transient_step_ok Tp rows :
  matrix_ok T rows → Z.of_nat (length Tp) = T →
  transient_step numP dimX dimZ (concat rows) (Z.of_nat (length (concat rows))) cap P dt Tp = ok (euler rows Tp).
Proof using HX HZ HP Hcap HPl.
  intros [Hn Hr _] HTp. unfold transient_step. cbv zeta. rewrite foldE_concat, blocks_all by lia.
  rewrite (foldE_entries (fun _ e v => entry_update dimX dimZ cap P Tp dt e v)).
  rewrite (foldE_enum_snd (entry_update dimX dimZ cap P Tp dt)). pose proof (step_rows Tp [] rows HTp) as Hs. cbn [app length] in Hs.
  replace (Z.to_nat T) with (length rows) by lia. apply Hs; [done|]. intros k row Hk. by destruct (Hr k row Hk).
Qed.

Lemma transient_iter rows (iters : list Z) Tp :
  matrix_ok T rows → Z.of_nat (length Tp) = T →
  foldE (fun _ Tp => transient_step numP dimX dimZ (concat rows) (Z.of_nat (length (concat rows))) cap P dt Tp) iters Tp
  = ok (Nat.iter (length iters) (euler rows) Tp).
Proof using HX HZ HP Hcap HPl.
  intros Hm. revert Tp. induction iters as [|i iters IH]; intros Tp HTp; [done|]. cbn [foldE length]. rewrite transient_step_ok by done.
  cbn [mbind exc_bind]. rewrite IH by (unfold euler; rewrite length_fmap; apply Hm). f_equal. symmetry. apply Nat.iter_succ_r.
Qed.
End Transient.

Lemma length_Cap W Lc numP dimX dimZ : 1 ≤ numP → Z.of_nat (length (calculate_Cap_array W Lc numP dimX dimZ)) = numLayer numP + 1.
Proof. intros HP. unfold calculate_Cap_array. cbn [length]. rewrite length_fmap, length_zseq. unfold numLayer. lia. Qed.

(** ** Theorems *)

(** The powers of the active layers. *)
Definition powers (powerM : array3) (numP dimX dimZ : Z) (w : Z -> Z -> Z -> double) : Prop :=
  ∀ i j l, 0 ≤ i < dimX → 0 ≤ j < dimZ → 0 ≤ l < numP → get3 powerM i j l = ok (w i j l).

(** (C36) The steady solver gives SuperLU the heat equation of the chip. The entries counted
    beforehand are exactly the entries written. There is one row per node, sorted by
    column, and the matrix is symmetric, bit for bit; the row of a node holds the
    (negative) conductances to the nodes next to it and nothing else, as the materials and
    the sides of the layers give them (in z with the resistance that the code computes,
    which does not depend on the grid: [Rhori_width]), and a diagonal that balances them,
    with the way to the ambient for a node of the sink. The start of every row is handed over, and the
    sources: the ambient at the sink, the power of each active layer at its nodes, nothing
    elsewhere. *)
Theorem steady_system solve W Lc numP dimX dimZ powerM w Tamb :
  1 ≤ numP → 1 ≤ dimX → 1 ≤ dimZ → powers powerM numP dimX dimZ w →
  ∃ rows xa rhs, calculate_Midx_array W Lc numP dimX dimZ = ok (concat rows, Z.of_nat (length (concat rows))) ∧
    matrix_ok (T_nodes numP dimX dimZ) rows ∧
    (∀ p, in_grid numP dimX dimZ p → ∃ row, zget rows (node_of dimX dimZ p) = Some row ∧ heat_row W Lc numP dimX dimZ p row) ∧
    (∀ n, 0 ≤ n ≤ T_nodes numP dimX dimZ → zget xa n = Some (Some (starts rows n))) ∧
    (∀ l j i, in_grid numP dimX dimZ (l, j, i) → zget rhs (node dimX dimZ l j i) =
       Some (if l =? 0 then ddiv Tamb (ddiv (resist_y W Lc numP dimX dimZ 0) (of_int 2))
             else if l mod 3 =? 1 then w i j (l / 3) else dzero)) ∧
    steady_thermal_solver W Lc numP dimX dimZ solve powerM (concat rows) (Z.of_nat (length (concat rows))) Tamb =
      ok ((fun t => dsub t T0) <$> solve (T_nodes numP dimX dimZ) (e_val <$> concat rows) (e_col <$> concat rows) xa rhs).
Proof.
  intros HP HX HZ Hw. destruct (Midx_ok W Lc numP dimX dimZ HP HX HZ) as (rows & Hm & Hok & Hheat).
  destruct (compress_ok numP dimX dimZ rows) as (xa & Hc & _ & Hs); [unfold T_nodes, numLayer; nia|done|].
  eexists rows, xa, _. split; [done|]. split; [done|]. split; [done|]. split; [done|]. split.
  2:{ unfold steady_thermal_solver. rewrite Hc. cbn [mbind exc_bind].
      by rewrite (steady_rhs_ok W Lc numP dimX dimZ powerM w Tamb HP HX HZ Hw). }
  intros l j i Hg. pose proof (in_grid_node numP dimX dimZ HX HZ _ Hg) as Hn. destruct Hg as (Hl & Hj & Hi).
  change (node_of dimX dimZ (l, j, i)) with (node dimX dimZ l j i) in Hn. rewrite zget_fmap, zget_zseq by done. apply (f_equal Some).
  assert (0 ≤ j * dimX + i < dimX * dimZ) as Ho by (rewrite (Z.mul_comm dimX dimZ); by apply radix_range).
  assert (node dimX dimZ l j i = l * (dimX * dimZ) + (j * dimX + i)) as -> by (unfold node; lia).
  unfold source. rewrite radix_div, radix_mod by done. unfold by_rows. rewrite radix_mod, radix_div by done. done.
Qed.

(** (C35) The transient solver never leaves its arrays, and is the explicit Euler method: in
    each iteration the new temperature of a node is the sum of the flows of the entries of
    its row, in order, at the old temperatures; the blocks make no difference. *)
Theorem transient_euler W Lc numP dimX dimZ powerM w Tamb time iter T_trans :
  1 ≤ numP → 1 ≤ dimX → 1 ≤ dimZ → powers powerM numP dimX dimZ w → Z.of_nat (length T_trans) = T_nodes numP dimX dimZ →
  let cap := calculate_Cap_array W Lc numP dimX dimZ in
  ∃ rows, calculate_Midx_array W Lc numP dimX dimZ = ok (concat rows, Z.of_nat (length (concat rows))) ∧
    matrix_ok (T_nodes numP dimX dimZ) rows ∧
    transient_thermal_solver W Lc numP dimX dimZ powerM (concat rows) (Z.of_nat (length (concat rows))) cap time iter T_trans Tamb =
      ok (Nat.iter (Z.to_nat iter)
           (euler dimX dimZ cap (source W Lc dimX dimZ w Tamb (by_columns dimZ) <$> zseq (T_nodes numP dimX dimZ)) (ddiv time (of_int iter)) rows)
           T_trans).
Proof.
  intros HP HX HZ Hw HT cap. destruct (Midx_ok W Lc numP dimX dimZ HP HX HZ) as (rows & Hm & Hok & _).
  exists rows. split; [done|]. split; [done|]. unfold transient_thermal_solver.
  rewrite (transient_source_ok W Lc numP dimX dimZ powerM w Tamb HP HX HZ Hw). cbn [mbind exc_bind].
  rewrite <- (length_zseq iter). apply transient_iter; try done; [by apply length_Cap|].
  rewrite length_fmap, length_zseq. unfold T_nodes, numLayer. nia.
Qed.

(** The two solvers disagree about where the power goes: the node of die [l] in column [i],
    row [j] gets its own power from the steady solver, but from the transient one that of
    column [k / dimZ], row [k mod dimZ], where [k] is its number in the layer. *)
Theorem transient_transposed W Lc numP dimX dimZ powerM w Tamb :
  1 ≤ numP → 1 ≤ dimX → 1 ≤ dimZ → powers powerM numP dimX dimZ w →
  ∃ s t, steady_rhs W Lc numP dimX dimZ powerM Tamb = ok s ∧ transient_source W Lc numP dimX dimZ powerM Tamb = ok t ∧
    ∀ l j i, 0 ≤ l < numP → 0 ≤ j < dimZ → 0 ≤ i < dimX →
      zget s (node dimX dimZ (3 * l + 1) j i) = Some (w i j l) ∧
      zget t (node dimX dimZ (3 * l + 1) j i) = Some (w ((j * dimX + i) / dimZ) ((j * dimX + i) mod dimZ) l).
Proof.
  intros HP HX HZ Hw. eexists _, _. split; [by apply steady_rhs_ok|]. split; [by apply transient_source_ok|]. intros l j i Hl Hj Hi.
  assert (node dimX dimZ (3 * l + 1) j i = dimX * dimZ * (l * 3 + 1) + (j * dimX + i)) as -> by (unfold node; lia).
  assert (0 ≤ j * dimX + i < dimX * dimZ) as Ho by (rewrite (Z.mul_comm dimX dimZ); by apply radix_range).
  destruct (source_place W Lc numP dimX dimZ w Tamb HP HX HZ (by_rows dimX) l (j * dimX + i) i j Hl Ho) as [Hs Hr];
    [unfold by_rows; by rewrite radix_mod, radix_div by done|].
  destruct (source_place W Lc numP dimX dimZ w Tamb HP HX HZ (by_columns dimZ) l (j * dimX + i) _ _ Hl Ho eq_refl) as [Ht _].
  rewrite !zget_fmap, !zget_zseq by done. simpl. by rewrite Hs, Ht.
Qed.

(** ** Instances *)

(** A chip of one die and two by three nodes, every node with a power of its own. *)
Definition demo_power : array3 := (fun i => (fun j => [of_int (10 * i + j)]) <$> zseq 3) <$> zseq 2.
Lemma demo_powers : powers demo_power 1 2 3 (fun i j _ => of_int (10 * i + j)).
Proof.
  intros i j l Hi Hj Hl. assert (l = 0) as -> by lia. assert (i = 0 ∨ i = 1) as Hi' by lia. assert (j = 0 ∨ j = 1 ∨ j = 2) as Hj' by lia.
  by destruct Hi' as [-> | ->], Hj' as [-> |[-> | ->]].
Qed.
Definition centimetre : double := lit 1 100.
Definition room : double := dadd (of_int 40) T0.

(** A solver that gives the sources back. *)
Lemma steady_system_witness :
  powers demo_power 1 2 3 (fun i j _ => of_int (10 * i + j)) ∧ ∃ m rhs,
    steady_thermal_solver centimetre centimetre 1 2 3 (fun _ _ _ _ rhs => rhs) demo_power m (Z.of_nat (length m)) room =
      ok ((fun t => dsub t T0) <$> rhs) ∧ zget rhs (node 2 3 1 2 1) = Some (of_int 12).
Proof.
  split; [exact demo_powers|].
  destruct (steady_system (fun _ _ _ _ rhs => rhs) centimetre centimetre 1 2 3 demo_power _ room ltac:(lia) ltac:(lia) ltac:(lia) demo_powers)
    as (rows & xa & rhs & _ & _ & _ & _ & Hrhs & Hs).
  exists (concat rows), rhs. split; [exact Hs|]. exact (Hrhs 1 2 1 ltac:(repeat split; discriminate || reflexivity)).
Defined.

Lemma transient_euler_witness :
  powers demo_power 1 2 3 (fun i j _ => of_int (10 * i + j)) ∧ ∃ m T,
    transient_thermal_solver centimetre centimetre 1 2 3 demo_power m (Z.of_nat (length m)) (calculate_Cap_array centimetre centimetre 1 2 3)
      (lit 1 1000) 10 (initialize_Temperature 1 2 3 room) room = ok T.
Proof.
  split; [exact demo_powers|].
  destruct (transient_euler centimetre centimetre 1 2 3 demo_power _ room (lit 1 1000) 10 (initialize_Temperature 1 2 3 room)
    ltac:(lia) ltac:(lia) ltac:(lia) demo_powers) as (rows & _ & _ & Hs); [by unfold initialize_Temperature; rewrite length_replicate|].
  exists (concat rows). eexists. exact Hs.
Defined.

(** The node in column 1 of row 0 draws 10, but heats the transient with 1. *)
Lemma transient_transposed_witness :
  powers demo_power 1 2 3 (fun i j _ => of_int (10 * i + j)) ∧ ∃ s t,
    steady_rhs centimetre centimetre 1 2 3 demo_power room = ok s ∧ transient_source centimetre centimetre 1 2 3 demo_power room = ok t ∧
    zget s (node 2 3 1 0 1) = Some (of_int 10) ∧ zget t (node 2 3 1 0 1) = Some (of_int 1).
Proof.
  split; [exact demo_powers|].
  destruct (transient_transposed centimetre centimetre 1 2 3 demo_power _ room ltac:(lia) ltac:(lia) ltac:(lia) demo_powers)
    as (s & t & Hs & Ht & Hn).
  destruct (Hn 0 0 1 ltac:(lia) ltac:(lia) ltac:(lia)) as [H1 H2]. exists s, t. split; [exact Hs|]. split; [exact Ht|]. split; [exact H1|exact H2].
Defined.

(** The resistance of a layer in z takes [gridZ] for the length and for the width, so that
    the width cancels; that of the sink takes [gridX] for the width. *)
Example Rhori_width :
  (Rhori centimetre (lit 2 100) 2 2 1).2 ≠
    dmul (ddiv (ddiv (ddiv (gridZ (lit 2 100) 2) (layer_K 0)) (gridX centimetre 2)) (layer_H 0)) (of_int 10).
Proof. vm_compute. discriminate. Qed.
