(* ===== verification/Thermal.v ===== *)
(** * The thermal model of the memory (DRAMsim3-master/src/thermal.h, thermal.cc)

    A [ThermalCalculator] keeps two maps of energies, one value per grid cell of every
    die: of the current epoch and of the whole run. Each DRAM command adds energy to the
    cells of its bank ([UpdateCMDPower]); at an epoch and at the end the maps, with the
    background energy, go to the solvers of [ThermalSolver]. Built only with the THERMAL
    option. The reader of the INI file, [GetPhyAddress]'s caller and SuperLU are
    parameters; log lines on the standard output are left out. *)

From Stdlib Require Import ZArith Lia Ascii String SpecFloat.
From stdpp Require Import strings gmap numbers option list.
From S2P Require Import Prelude DramCommon Config Power ThermalSolver.

(** ** Configuration (configuration.cc) *)

(** What [InitThermalParams] sets in every case, and what it sets only when the rows are
    not tiled. *)
Record ThermalRest := MkRest {
  loc_mapping : string;
  bank_order : Z;
  bank_layer_order : Z;
  num_row_refresh : Z;
  chip_dim_x : double;
  chip_dim_y : double;
  amb_temp : double
}.
Record ThermalParams := MkThermal {
  const_logic_power : double;
  mat_dim_x : Z;
  mat_dim_y : Z;
  num_x_grids : Z;
  num_y_grids : Z;
  tile_row_num : Z;
  row_tile : Z;
  bank_asr : double;
  th_rest : option ThermalRest
}.

Definition dltb : double -> double -> bool := SFltb.
Definition dleb : double -> double -> bool := SFleb.

(** [static_cast<int>(ceil(x))]: undefined outside the range of [int]. *)
Definition ceil_int (x : double) : exc Z :=
  let int z := if (- 2 ^ 31 <=? z) && (z <? 2 ^ 31) then ok z else err UndefinedBehaviour in
  match x with
  | S754_zero _ => ok 0
  | S754_finite s m e =>
      let v := if s then Z.neg m else Z.pos m in
      int (if 0 <=? e then v * 2 ^ e else - (- v / 2 ^ (- e)))
  | _ => err UndefinedBehaviour
  end.

(** [while (row_tile * row_tile * 4 < bank_asr) row_tile *= 2]: the product is an [int],
    which overflows at [row_tile = 2^15]. *)
Fixpoint tile_loop (fuel : nat) (asr : double) (t : Z) : exc Z :=
  match fuel with
  | O => err UndefinedBehaviour
  | S fuel => if dltb (of_int (t * t * 4)) asr then tile_loop fuel asr (t * 2) else ok t
  end.

(** [Config::InitThermalParams()]. *)
Definition InitThermalParams (r : INIReader) (GetReal : string -> string -> double -> double)
    (d : DRAMParams) (t : TimingParams) (tck : double) : exc ThermalParams :=
  let sec := "thermal"%string in
  let power := GetReal sec "const_logic_power"%string (of_int 5) in
  let mx := GetInteger r sec "mat_dim_x"%string 512 in
  let my := GetInteger r sec "mat_dim_y"%string 512 in
  nx ← zquot (rows d) mx;
  ny ← zquot (columns d * device_width d) my;
  let asr := ddiv (of_int nx) (of_int ny) in
  if dltb (of_int 4) asr && (banks_per_group d =? 1) then
    tile ← tile_loop 15 asr 1;
    let nx' := Z.quot nx tile in
    let ny' := ny * tile in
    ok (MkThermal power mx my nx' ny' (Z.quot (rows d) tile) tile (ddiv (of_int nx') (of_int ny')) None)
  else
    nr ← ceil_int (ddiv (of_int (rows d)) (ddiv (of_int 64000000) (dmul (of_int (tREFI t)) tck)));
    ok (MkThermal power mx my nx ny (rows d) 1 asr
         (Some (MkRest (Get r sec "loc_mapping"%string EmptyString) (GetInteger r sec "bank_order"%string 1)
                 (GetInteger r sec "bank_layer_order"%string 0) nr
                 (GetReal sec "chip_dim_x"%string (lit 1 100)) (GetReal sec "chip_dim_y"%string (lit 1 100))
                 (GetReal sec "amb_temp"%string (of_int 40))))).

(** ** The location of an address *)

(** [std::stoi]: white space, a sign, then digits; the rest is ignored. *)
Definition is_space (c : ascii) : bool := bool_decide (nat_of_ascii c = 32%nat ∨ (9 ≤ nat_of_ascii c ≤ 13)%nat).
Definition digit_of (c : ascii) : option Z :=
  let n := Z.of_nat (nat_of_ascii c) - 48 in if (0 <=? n) && (n <=? 9) then Some n else None.
Fixpoint digits_value (s : list ascii) (acc : Z) : Z :=
  match s with
  | [] => acc
  | c :: s' => match digit_of c with Some d => digits_value s' (acc * 10 + d) | None => acc end
  end.
Fixpoint skip_space (s : list ascii) : list ascii :=
  match s with c :: s' => if is_space c then skip_space s' else s | [] => [] end.
Definition stoi (s : list ascii) : exc Z :=
  let s := skip_space s in
  let '(neg, s) := match s with
    | c :: s' => if bool_decide (c = "-"%char) then (true, s') else if bool_decide (c = "+"%char) then (false, s') else (false, s)
    | [] => (false, []) end in
  match s with
  | c :: _ =>
      if digit_of c then
        let v := if neg : bool then - digits_value s 0 else digits_value s 0 in
        if (- 2 ^ 31 <=? v) && (v <? 2 ^ 31) then ok v else err StdOutOfRange
      else err InvalidArgument
  | [] => err InvalidArgument
  end.

(** The characters before the first [c], and those behind it. *)
Fixpoint find_char (c : ascii) (s : list ascii) : option (list ascii * list ascii) :=
  match s with
  | [] => None
  | x :: s' => if decide (x = c) then Some ([], s') else p ← find_char c s'; Some (x :: p.1, p.2)
  end.

(** The positions a piece of a field stands for: one, or a range in either direction. *)
Definition bit_positions (s : list ascii) : exc (list Z) :=
  match find_char ":"%char s with
  | None => p ← stoi s; ok [p]
  | Some (a, b) =>
      start_pos ← stoi a;
      end_pos ← stoi b;
      ok (if end_pos <? start_pos then (fun k => start_pos - k) <$> zseq (start_pos - end_pos + 1)
          else (fun k => start_pos + k) <$> zseq (end_pos - start_pos + 1))
  end.
Definition field_positions (s : list ascii) : exc (list Z) :=
  l ← mapE bit_positions (StringSplit s "-"%char); ok (concat l).

(** [SetPhyAddressMapping()]: the positions of the six fields ([None]: the identity). *)
Definition SetPhyAddressMapping (s : string) : exc (option (list (list Z))) :=
  match list_ascii_of_string s with
  | [] => ok None
  | l =>
      let bit_fields := StringSplit l ","%char in
      if bool_decide (length bit_fields = 6%nat) then m ← mapE field_positions bit_fields; ok (Some m)
      else err AbruptExit
  end.

(** [GetPhyAddress]: the bits of the fields are put at their positions; the fields are
    read off the result, from [column_offset] on, the column lowest. A shift outside of
    the 64 bits is undefined. *)
Definition shift_ok (n : Z) : exc unit := if (0 <=? n) && (n <? 64) then ok tt else err UndefinedBehaviour.
(** [mapped_pos[i].size()]. *)
Definition width_of (pos : list Z) : Z := Z.of_nat (length pos).
Definition scatter (origin : Z) (pos : list Z) (hex : Z) : exc Z :=
  let w := width_of pos in
  foldE (fun j hex =>
    p ← vec_get pos j;
    _ ← shift_ok (w - j - 1);
    _ ← shift_ok p;
    ok (Z.lor hex (u64 (Z.shiftl (GetBitInPos (u64 origin) (w - j - 1)) p)))) (zseq w) hex.
Definition origin_fields (a : Address) : list Z := [channel a; rank a; bankgroup a; bank a; row a; column a].
(** The fields from the last to the first. *)
Fixpoint gather (widths : list Z) (hex pos : Z) : exc (list Z) :=
  match widths with
  | [] => ok []
  | w :: ws =>
      _ ← shift_ok pos;
      _ ← shift_ok w;
      l ← gather ws hex (pos + w);
      ok (l ++ [i32 (ModuloWidth hex w pos)])
  end.
Definition GetPhyAddress (mapping : option (list (list Z))) (column_offset : Z) (a : Address) : exc Address :=
  match mapping with
  | None => ok a
  | Some mapped_pos =>
      new_hex ← foldE (fun f hex => scatter f.1 f.2 hex) (zip (origin_fields a) mapped_pos) 0;
      new_pos ← gather (rev (width_of <$> mapped_pos)) new_hex column_offset;
      match new_pos with
      | [ch; ra; bg; ba; ro; co] => ok (MkAddress ch ra bg ba ro co)
      | _ => err UndefinedBehaviour
      end
  end.

(** ** The floor plan *)

(** [determineXY]: the width of the factorisation that is closest to a square. *)
Definition determineXY (xd yd : double) (total : Z) : Z :=
  (foldl (fun (s : Z * double) y =>
    let x := Z.quot total y in
    if x * y =? total then
      let dx := dmul (of_int x) xd in
      let dy := dmul (of_int y) yd in
      let asr := if dleb dy dx then ddiv (ddiv dx (of_int y)) yd else ddiv (ddiv dy (of_int x)) xd in
      if dltb asr s.2 then (Z.quot total y, asr) else s
    else s) (1, of_int 1000) ((fun k => k + 1) <$> zseq total)).1.

(** The dimensions the constructor computes; without dies on top of each other
    [vault_x] and [vault_y] are left unset, and only a log line reads them. *)
Record Plan := MkPlan {
  numP : Z; dimX : Z; dimY : Z;
  bank_x : Z; bank_y : Z; vault_x : Z; vault_y : Z;
  num_case : Z
}.

Section Thermal.
Context (config : Config) (th : ThermalParams) (rest : ThermalRest) (power : PowerParams).

Definition new_plan : exc Plan :=
  if IsHMC config then
    let bx := 1 in
    let by_ := 2 in
    let vx := determineXY (dmul (of_int bx) (bank_asr th)) (dmul (of_int by_) (of_int 1)) (channels config) in
    vy ← zquot (channels config) vx;
    ok (MkPlan (num_dies config + 1) (vx * bx * num_x_grids th) (vy * by_ * num_y_grids th) bx by_ vx vy 1)
  else if IsHBM config then
    ok (MkPlan (num_dies config + 1) (1 * 8 * num_x_grids th) (2 * 2 * num_y_grids th) 8 2 1 2 1)
  else
    let bx := determineXY (bank_asr th) (of_int 1) (banks config) in
    by_ ← zquot (banks config) bx;
    ok (MkPlan 1 (bx * num_x_grids th) (by_ * num_y_grids th) bx by_ 0 0 (ranks config * channels config)).

Context (plan : Plan) (mapping : option (list (list Z))) (column_offset : Z).

Definition MapToVault (channel_id : Z) : exc (Z * Z) :=
  if IsHMC config then
    let vault_factor := if bank_order rest =? 0 then vault_x plan else vault_y plan in
    x ← zquot channel_id vault_factor;
    let y := Z.rem channel_id vault_factor in
    ok (if bank_order rest =? 0 then (y, x) else (x, y))
  else if IsHBM config then ok (0, Z.rem channel_id 2)
  else ok (0, 0).

Definition swap_if (b : bool) (p : Z * Z) : Z * Z := if b then (p.2, p.1) else p.

Definition MapToBank (bankgroup_id bank_id : Z) : exc (Z * Z) :=
  let abs_bank_id := bankgroup_id * banks_per_group config + bank_id in
  let bank_factor := if bank_order rest =? 0 then bank_x plan else bank_y plan in
  if IsHMC config then
    num_bank_per_layer ← zquot (banks config) (num_dies config);
    _ ← zquot abs_bank_id num_bank_per_layer;
    let bank_same_layer := Z.rem abs_bank_id num_bank_per_layer in
    x ← zquot bank_same_layer bank_factor;
    ok (swap_if (bank_order rest =? 0) (x, Z.rem bank_same_layer bank_factor))
  else if IsHBM config then ok (bankgroup_id * 2 + Z.quot bank_id 2, Z.rem bank_id 2)
  else if 1 <? bankgroups config then
    let '(x, y) := swap_if (bank_order rest =? 0) (Z.quot bank_id 2, Z.rem bank_id 2) in
    ok (if bank_x plan <=? bank_y plan then (x, y + bankgroup_id * 2) else (x + bankgroup_id * 2, y))
  else
    x ← zquot abs_bank_id bank_factor;
    ok (swap_if (bank_order rest =? 0) (x, Z.rem abs_bank_id bank_factor)).

Definition MapToZ (channel_id bank_id : Z) : exc Z :=
  if IsHMC config then
    num_bank_per_layer ← zquot (banks config) (num_dies config);
    z ← zquot bank_id num_bank_per_layer;
    ok (if bank_layer_order rest =? 0 then z else numP plan - z - 2)
  else if IsHBM config then ok (Z.quot channel_id 2)
  else ok 0.

(** The column of the grid a row lies in, and the row of the grid of a column of bits. *)
Definition grid_id_x (row_id : Z) : exc Z := a ← zquot row_id (mat_dim_x th); zquot a (row_tile th).
Definition grid_id_y (row_id col_id : Z) : exc Z :=
  col_tile_id ← zquot row_id (tile_row_num th);
  a ← zquot col_id (mat_dim_y th);
  b ← zquot (num_y_grids th) (row_tile th);
  ok (a + col_tile_id * b).

(** [MapToXY]: one cell for each bit of the burst. *)
Definition with_column (c : Z) (a : Address) : Address :=
  MkAddress (channel a) (rank a) (bankgroup a) (bank a) (row a) c.
Definition MapToXY (cmd : Command) (vault bank : Z * Z) : exc (list (Z * Z)) :=
  gx ← grid_id_x (Row cmd);
  '(_, l) ← foldE (fun _ (s : Address * list (Z * Z)) =>
    let '(temp_addr, l) := s in
    phy_loc ← GetPhyAddress mapping column_offset temp_addr;
    cells ← mapE (fun j =>
      gy ← grid_id_y (Row cmd) (column phy_loc * device_width config + j);
      ok (vault.1 * (bank_x plan * num_x_grids th) + bank.1 * num_x_grids th + gx,
          vault.2 * (bank_y plan * num_y_grids th) + bank.2 * num_y_grids th + gy)) (zseq (device_width config));
    ok (with_column (column temp_addr + 1) temp_addr, l ++ cells)) (zseq (BL config)) (addr cmd, []);
  ok l.

(** ** State *)

(** The two maps, the counters of refreshes per bank, the background energy per rank; the
    results of the solvers; the rows of the CSV files. *)
Inductive csv_row :=
  | EpochMax (layer : Z) (max_temp ms : double)
  | EpochCell (id x y z : Z) (pw tm : double) (sample : Z)
  | FinalCell (id x y z : Z) (pw tm : double)
  | BankPos (vault bank start_x end_x start_y end_y z : Z).
Record Thermal := MkCalc {
  accu_Pmap : list (list double);
  cur_Pmap : list (list double);
  refresh_count : list (list Z);
  background_energy_ : list (list double);
  avg_logic_power_ : double;
  sample_id : Z;
  T_trans : list (list double);
  t_csv : list csv_row
}.
Definition t_maps (a c : list (list double)) (s : Thermal) : Thermal :=
  MkCalc a c (refresh_count s) (background_energy_ s) (avg_logic_power_ s) (sample_id s) (T_trans s) (t_csv s).
Definition t_refresh (r : list (list Z)) (s : Thermal) : Thermal :=
  MkCalc (accu_Pmap s) (cur_Pmap s) r (background_energy_ s) (avg_logic_power_ s) (sample_id s) (T_trans s) (t_csv s).
Definition t_background (b : list (list double)) (s : Thermal) : Thermal :=
  MkCalc (accu_Pmap s) (cur_Pmap s) (refresh_count s) b (avg_logic_power_ s) (sample_id s) (T_trans s) (t_csv s).
Definition t_logic (p : double) (s : Thermal) : Thermal :=
  MkCalc (accu_Pmap s) (cur_Pmap s) (refresh_count s) (background_energy_ s) p (sample_id s) (T_trans s) (t_csv s).
Definition t_temps (t : list (list double)) (s : Thermal) : Thermal :=
  MkCalc (accu_Pmap s) (cur_Pmap s) (refresh_count s) (background_energy_ s) (avg_logic_power_ s) (sample_id s) t (t_csv s).
Definition t_print (l : list csv_row) (s : Thermal) : Thermal :=
  MkCalc (accu_Pmap s) (cur_Pmap s) (refresh_count s) (background_energy_ s) (avg_logic_power_ s) (sample_id s) (T_trans s) (t_csv s ++ l).
Definition t_sample (s : Thermal) : Thermal :=
  MkCalc (accu_Pmap s) (cur_Pmap s) (refresh_count s) (background_energy_ s) (avg_logic_power_ s) (sample_id s + 1) (T_trans s) (t_csv s).

(** [v[i][j]] and [v[i][j] = f(v[i][j])]. *)
Definition get2 {A} (v : list (list A)) (i j : Z) : exc A := l ← vec_get v i; vec_get l j.
Definition upd2 {A} (f : A -> A) (v : list (list A)) (i j : Z) : exc (list (list A)) :=
  l ← vec_get v i; x ← vec_get l j; ok (zset v i (zset l j (f x))).

(** ** Commands *)

(** [accu_Pmap[case][idx] += energy; cur_Pmap[case][idx] += energy]. *)
Definition add_energy (case idx : Z) (energy : double) (s : Thermal) : exc Thermal :=
  a ← upd2 (fun x => dadd x energy) (accu_Pmap s) case idx;
  c ← upd2 (fun x => dadd x energy) (cur_Pmap s) case idx;
  ok (t_maps a c s).

Definition LocationMappingANDaddEnergy (chan : Z) (cmd : Command) (case : Z) (energy : double) (s : Thermal) : exc Thermal :=
  vault ← MapToVault chan;
  bank ← MapToBank (Bankgroup cmd) (Bank cmd);
  xy ← MapToXY cmd vault bank;
  z ← MapToZ chan (Bank cmd);
  let e := ddiv energy (of_int (device_width config)) in
  foldE (fun p s => add_energy case (z * dimX plan * dimY plan + p.2 * dimX plan + p.1) e s) xy s.

Definition LocationMappingANDaddEnergy_RF (chan : Z) (cmd : Command) (bank0 row0 case : Z) (energy : double) (s : Thermal) : exc Thermal :=
  bankgroup_id ← zquot bank0 (banks_per_group config);
  let bank_id := Z.rem bank0 (banks_per_group config) in
  let new_addr := MkAddress (channel (addr cmd)) (rank (addr cmd)) bankgroup_id bank_id row0 (column (addr cmd)) in
  vault ← MapToVault chan;
  bank ← MapToBank bankgroup_id bank_id;
  z ← MapToZ chan bank_id;
  phy_addr ← GetPhyAddress mapping column_offset new_addr;
  gx ← grid_id_x (row phy_addr);
  gy ← grid_id_y (row phy_addr) 0;
  let x := vault.1 * (bank_x plan * num_x_grids th) + bank.1 * num_x_grids th + gx in
  let y := vault.2 * (bank_y plan * num_y_grids th) + bank.2 * num_y_grids th + gy in
  foldE (fun i s => add_energy case (z * (dimX plan * dimY plan) + (y + i) * dimX plan + x) energy s) (zseq (num_y_grids th)) s.

(** The rows one refresh of bank [ib] covers. *)
Definition refresh_rows (chan : Z) (cmd : Command) (rank_idx ib case : Z) (energy : double) (s : Thermal) : exc Thermal :=
  n ← get2 (refresh_count s) rank_idx ib;
  let row_s := n * num_row_refresh rest in
  r ← upd2 (fun n => if (n + 1) * num_row_refresh rest =? rows config then 0 else n + 1) (refresh_count s) rank_idx ib;
  foldE (fun ir s => LocationMappingANDaddEnergy_RF chan cmd ib (row_s + ir) case energy s)
        (zseq (num_row_refresh rest)) (t_refresh r s).

Definition command_energy (t : CommandType) : double :=
  match t with
  | ACTIVATE => act_energy_inc power
  | READ | READ_PRECHARGE => read_energy_inc power
  | WRITE | WRITE_PRECHARGE => write_energy_inc power
  | _ => dzero
  end.

(** [UpdateCMDPower(channel, cmd, clk)]. *)
Definition UpdateCMDPower (chan : Z) (cmd : Command) (s : Thermal) : exc Thermal :=
  let stacked := IsHMC config || IsHBM config in
  let device_scale := if stacked then of_int 1 else of_int (devices_per_rank config) in
  let case := if stacked then 0 else chan * ranks config + Rank cmd in
  let rank_idx := chan * ranks config + Rank cmd in
  let scaled e := ddiv (ddiv e (of_int 1000)) device_scale in
  match cmd_type cmd with
  | REFRESH =>
      let e := ddiv (ddiv (ddiv (ref_energy_inc power) (of_int (num_row_refresh rest))) (of_int (banks config))) (of_int (num_y_grids th)) in
      foldE (fun ib s => refresh_rows chan cmd rank_idx ib case (scaled e) s) (zseq (banks config)) s
  | REFRESH_BANK =>
      let e := ddiv (ddiv (refb_energy_inc power) (of_int (num_row_refresh rest))) (of_int (num_y_grids th)) in
      refresh_rows chan cmd rank_idx (Bank cmd) case (scaled e) s
  | t =>
      if dltb dzero (command_energy t) then
        LocationMappingANDaddEnergy chan cmd case (scaled (ddiv (command_energy t) (of_int (BL config)))) s
      else ok s
  end.

(** [UpdateBackgroundEnergy], [SetLogicPower]. *)
Definition UpdateBackgroundEnergy (chan rank : Z) (energy : double) (s : Thermal) : exc Thermal :=
  b ← upd2 (fun _ => energy) (background_energy_ s) chan rank; ok (t_background b s).
Definition SetLogicPower (p : double) : Thermal -> Thermal := t_logic p.

(** ** Epochs and the final report *)

Definition cells : Z := dimX plan * dimY plan * numP plan.
Definition bg_cells : Z := dimX plan * dimY plan * (numP plan - 1).

(** [UpdatePowerMaps(add_energy, trans, clk)] on the map it is for. *)
Definition UpdatePowerMaps (bg period avg : double) (m : list (list double)) : exc (list (list double)) :=
  foldE (fun j m =>
    m ← foldE (fun i m => upd2 (fun x => dadd x bg) m j i) (zseq bg_cells) m;
    foldE (fun i m => upd2 (fun x => dadd x (dmul (ddiv (ddiv avg (of_int (dimX plan))) (of_int (dimY plan))) period)) m j i)
      ((fun k => bg_cells + k) <$> zseq (cells - bg_cells)) m)
  (zseq (num_case plan)) m.

Definition background_sum (s : Thermal) : double :=
  foldl (fun e l => foldl dadd e l) dzero (background_energy_ s).

(** The loops for memories without stacked dies. The innermost, [for (int k = 0; k < n;
    i++)], counts the channel [i] instead of its own [k]: it ends only when [i], an
    [int], overflows, or its access leaves the map; [fuel] bounds the iterations. *)
Fixpoint stray_loop (fuel : nat) (at_i : bool) (case : Z) (e : double) (i : Z) (m : list (list double)) : exc (Z * list (list double)) :=
  if 0 <? cells then
    match fuel with
    | O => err OutOfFuel
    | S fuel =>
        m ← upd2 (fun x => dadd x e) m case (if at_i then i else 0);
        if i =? 2 ^ 31 - 1 then err UndefinedBehaviour else stray_loop fuel at_i case e (i + 1) m
    end
  else ok (i, m).
Definition num_devices : double := of_int (devices_per_rank config).
(** [for (int j ...)], in which the channel may change. *)
Definition stray_ranks (fuel : nat) (at_i : bool) (bg : list (list double)) (i : Z) (m : list (list double)) : exc (Z * list (list double)) :=
  foldE (fun j (st : Z * list (list double)) =>
    let case_id := st.1 * ranks config + j in
    b ← get2 bg st.1 j;
    stray_loop fuel at_i case_id (ddiv (ddiv (ddiv b (of_int cells)) (of_int 1000)) num_devices) st.1 st.2) (zseq (ranks config)) (i, m).
(** [for (int i ...)]: [fuel] bounds its iterations too. *)
Fixpoint stray_channels (n fuel : nat) (at_i : bool) (bg : list (list double)) (i : Z) (m : list (list double)) : exc (list (list double)) :=
  if i <? channels config then
    match n with
    | O => err OutOfFuel
    | S n => st ← stray_ranks fuel at_i bg i m; stray_channels n fuel at_i bg (st.1 + 1) st.2
    end
  else ok m.

(** [UpdateEpoch(clk)]. *)
Definition UpdateEpoch (fuel : nat) (s : Thermal) : exc Thermal :=
  if IsHBM config || IsHMC config then
    let bg_energy := ddiv (background_sum s) (of_int bg_cells) in
    c ← UpdatePowerMaps (ddiv bg_energy (of_int 1000)) (of_int (epoch_period config)) (avg_logic_power_ s) (cur_Pmap s);
    ok (t_maps (accu_Pmap s) c s)
  else
    c ← stray_channels fuel fuel false (background_energy_ s) 0 (cur_Pmap s);
    ok (t_maps (accu_Pmap s) c s).

(** [InitPowerM(case_id, clk)]: the powers of one case, with a border of dummy cells. *)
Definition set3 (a : array3) (i j l : Z) (x : double) : exc array3 :=
  p ← vec_get a i; q ← vec_get p j; _ ← vec_get q l; ok (zset a i (zset p j (zset q l x))).
Definition InitPowerM (case_id clk : Z) (s : Thermal) : exc array3 :=
  let div := of_int (if clk =? 0 then epoch_period config else clk) in
  let power_map := if clk =? 0 then cur_Pmap s else accu_Pmap s in
  let zeros := replicate (Z.to_nat (dimX plan + 2)) (replicate (Z.to_nat (dimY plan + 2)) (replicate (Z.to_nat (numP plan)) dzero)) in
  foldE (fun p a => let '(i, j, l) := p in
    x ← get2 power_map case_id (l * (dimX plan * dimY plan) + j * dimX plan + i);
    set3 a (i + 1) (j + 1) l (ddiv x div)) (nodes3 (dimX plan) (dimY plan) (numP plan)) zeros.

(** The solver's view of the chip. *)
Definition calc_Midx : exc (list entry * Z) :=
  calculate_Midx_array (chip_dim_x rest) (chip_dim_y rest) (numP plan) (dimX plan + 2) (dimY plan + 2).
Definition calc_Cap : list double :=
  calculate_Cap_array (chip_dim_x rest) (chip_dim_y rest) (numP plan) (dimX plan + 2) (dimY plan + 2).
Definition Tamb : double := dadd (amb_temp rest) T0.
Definition epoch_time : double := dmul (dmul (of_int (epoch_period config)) (tCK power)) (lit 1 1000000000).

(** [calculate_time_step()]: the largest stable step, and the number of steps of an epoch;
    [fuel] bounds the search. *)
Definition max_dt (m : list entry) (cap : list double) : exc double :=
  foldE (fun e dt =>
    if e_row e =? e_col e then
      c ← vec_get cap (Z.quot (e_row e) ((dimX plan + 2) * (dimY plan + 2)));
      ok (if dltb (ddiv c (e_val e)) dt then ddiv c (e_val e) else dt)
    else ok dt) m (of_int 100).
Fixpoint time_iter_loop (fuel : nat) (dt : double) (n : Z) : exc Z :=
  if dleb dt (ddiv epoch_time (of_int n)) then
    match fuel with O => err OutOfFuel | S fuel => time_iter_loop fuel dt (n + 1) end
  else ok n.
Definition calculate_time_step (fuel : nat) (m : list entry) (cap : list double) : exc Z :=
  dt ← max_dt m cap; time_iter_loop fuel dt 10.

Context (pdgssv : Z -> list double -> list Z -> list (option Z) -> list double -> list double).
Context (m : list entry) (MidxSize : Z) (cap : list double) (time_iter : Z).

(** [GetTotalPower(powerM)], of the inner cells; the sum is only printed. *)
Definition GetTotalPower (powerM : array3) : exc double :=
  foldE (fun p total => let '(i, j, l) := p in
    x ← get3 powerM (i + 1) (j + 1) l; ok (dadd total x)) (nodes3 (dimX plan) (dimY plan) (numP plan)) dzero.

(** [CalcTransT(case_id)] and [CalcFinalT(case_id, clk)]. *)
Definition CalcTransT (case_id : Z) (s : Thermal) : exc Thermal :=
  powerM ← InitPowerM case_id 0 s;
  _ ← GetTotalPower powerM;
  T_old ← vec_get (T_trans s) case_id;
  T_new ← transient_thermal_solver (chip_dim_x rest) (chip_dim_y rest) (numP plan) (dimX plan + 2) (dimY plan + 2)
            powerM m MidxSize cap epoch_time time_iter T_old Tamb;
  ok (t_temps (zset (T_trans s) case_id T_new) s).
Definition CalcFinalT (case_id clk : Z) (s : Thermal) : exc (list double) :=
  powerM ← InitPowerM case_id clk s;
  _ ← GetTotalPower powerM;
  steady_thermal_solver (chip_dim_x rest) (chip_dim_y rest) (numP plan) (dimX plan + 2) (dimY plan + 2)
    pdgssv powerM m MidxSize Tamb.

(** Where the active layer of die [l] begins in a vector of temperatures. *)
Definition layer_offset (l : Z) : Z := (l * 3 + 1) * ((dimX plan + 2) * (dimY plan + 2)).
Definition max_double (a b : double) : double := if dltb b a then a else b.
Definition GetMaxTofCase (T : list double) : exc double :=
  foldE (fun i maxT => t ← vec_get T i; ok (if dltb maxT t then t else maxT))
    (zseq (T_nodes (numP plan) (dimX plan + 2) (dimY plan + 2))) dzero.
Definition GetMaxTofCaseLayer (T : list double) (l : Z) : exc double :=
  foldE (fun p maxT => let '(_, j, i) := p in
    t ← vec_get T (layer_offset l + (j + 1) * (dimX plan + 2) + (i + 1));
    ok (max_double maxT (dsub t T0))) (nodes3 1 (dimY plan) (dimX plan)) dzero.

(** The rows of [PrintCSV_trans] and [PrintCSV_final]: the latter takes the temperatures
    as the steady solver returns them. *)
Definition csv_cells (mk : Z -> Z -> Z -> double -> double -> csv_row) (P T : list double) (scale : Z)
    (celsius : double -> double) : exc (list csv_row) :=
  mapE (fun p => let '(l, j, i) := p in
    w ← vec_get P (l * (dimX plan * dimY plan) + j * dimX plan + i);
    t ← vec_get T (layer_offset l + (j + 1) * (dimX plan + 2) + (i + 1));
    ok (mk i j l (ddiv w (of_int scale)) (celsius t))) (nodes3 (numP plan) (dimY plan) (dimX plan)).

(** [PrintTransPT(clk)]. *)
Definition print_trans_case (ms : double) (ir : Z) (s : Thermal) : exc Thermal :=
  s ← CalcTransT ir s;
  T ← vec_get (T_trans s) ir;
  rows ← mapE (fun layer => x ← GetMaxTofCaseLayer T layer; ok (EpochMax layer x ms)) (zseq (numP plan));
  let s := if 0 <=? output_level config then t_print rows s else s in
  if 2 <=? output_level config then
    P ← vec_get (cur_Pmap s) ir;
    l ← csv_cells (fun x y z pw tm => EpochCell ir x y z pw tm (sample_id s)) P T (epoch_period config) (fun t => dsub t T0);
    ok (t_print l s)
  else ok s.
Definition PrintTransPT (fuel : nat) (clk : Z) (s : Thermal) : exc Thermal :=
  s ← UpdateEpoch fuel s;
  let ms := dmul (dmul (of_int clk) (tCK power)) (lit 1 1000000) in
  s ← foldE (print_trans_case ms) (zseq (num_case plan)) s;
  ok (t_sample (t_maps (accu_Pmap s) ((fun _ => replicate (Z.to_nat cells) dzero) <$> cur_Pmap s) s)).

(** [PrintFinalPT(clk)]. *)
Definition print_final_case (clk ir : Z) (s : Thermal) : exc Thermal :=
  T ← CalcFinalT ir clk s;
  _ ← GetMaxTofCase T;
  P ← vec_get (accu_Pmap s) ir;
  l ← csv_cells (fun x y z pw tm => FinalCell ir x y z pw tm) P T clk (fun t => t);
  ok (if 0 <=? output_level config then t_print l s else s).
Definition PrintFinalPT (fuel : nat) (clk : Z) (s : Thermal) : exc Thermal :=
  a ← (if IsHBM config || IsHMC config then
         let bg_energy := ddiv (background_sum s) (of_int bg_cells) in
         UpdatePowerMaps (ddiv bg_energy (of_int 1000)) (of_int clk) (avg_logic_power_ s) (accu_Pmap s)
       else stray_channels fuel fuel true (background_energy_ s) 0 (accu_Pmap s));
  foldE (print_final_case clk) (zseq (num_case plan)) (t_maps a (cur_Pmap s) s).

(** [PrintCSV_bank]. *)
Definition PrintCSV_bank : exc (list csv_row) :=
  mapE (fun p => let '(vault_id, bg, bank) := p in
    vault ← MapToVault vault_id;
    let abs_bank_id := bg * banks_per_group config + bank in
    z ← MapToZ vault_id abs_bank_id;
    b ← MapToBank bg bank;
    let ox := bank_x plan * num_x_grids th in
    let oy := bank_y plan * num_y_grids th in
    ok (BankPos vault_id abs_bank_id
          (vault.1 * ox + b.1 * num_x_grids th) (vault.1 * ox + (b.1 + 1) * num_x_grids th - 1)
          (vault.2 * oy + b.2 * num_y_grids th) (vault.2 * oy + (b.2 + 1) * num_y_grids th - 1) z))
    (nodes3 (channels config) (bankgroups config) (banks_per_group config)).

(** The vectors the constructor allocates. *)
Definition empty_calculator (csv : list csv_row) : Thermal :=
  let map := replicate (Z.to_nat (num_case plan)) (replicate (Z.to_nat cells) dzero) in
  MkCalc map map
    (replicate (Z.to_nat (channels config * ranks config)) (replicate (Z.to_nat (banks config)) 0))
    (replicate (Z.to_nat (channels config)) (replicate (Z.to_nat (ranks config)) dzero)) dzero 0
    (replicate (Z.to_nat (num_case plan)) (initialize_Temperature (numP plan) (dimX plan + 2) (dimY plan + 2) Tamb)) csv.
End Thermal.

(** ** The constructor *)

(** Everything a calculator is built from: the geometry, the location mapping, and what
    the solvers share. *)
Record Calculator := MkCalculator {
  c_rest : ThermalRest;
  c_plan : Plan;
  c_mapping : option (list (list Z));
  c_offset : Z;
  c_Midx : list entry;
  c_MidxSize : Z;
  c_Cap : list double;
  c_iter : Z;
  c_state : Thermal
}.
(** [ThermalCalculator(config)]: what [InitThermalParams] did not set is read, which is
    undefined. *)
Definition new_ThermalCalculator (fuel : nat) (config : Config) (th : ThermalParams) (power : PowerParams) : exc Calculator :=
  plan ← new_plan config th;
  rest ← opt_exc (th_rest th) UndefinedBehaviour;
  mapping ← SetPhyAddressMapping (loc_mapping rest);
  offset ← match mapping with Some _ => LogBase2 (BL config) | None => ok 0 end;
  '(m, size) ← calc_Midx rest plan;
  let cap := calc_Cap rest plan in
  iter ← calculate_time_step config power plan fuel m cap;
  csv ← (if 0 <=? output_level config then PrintCSV_bank config th rest plan else ok []);
  ok (MkCalculator rest plan mapping offset m size cap iter (empty_calculator config rest plan csv)).

(** ** Lemmas: locations *)

(** The bits of a value with their positions, highest first. *)
Fixpoint bits_of (v : Z) (pos : list Z) : list (Z * bool) :=
  match pos with [] => [] | p :: ps => (p, Z.testbit v (Z.of_nat (length ps))) :: bits_of v ps end.
Definition put_bits (l : list (Z * bool)) (hex : Z) : Z := foldl (fun h e => Z.lor h (Z.shiftl (Z.b2z e.2) e.1)) hex l.

Lemma bits_of_positions v pos : (bits_of v pos).*1 = pos.
Proof. induction pos as [|p ps IH]; [done|]. cbn [bits_of fmap list_fmap fst]. by f_equal. Qed.
Lemma length_bits_of v pos : length (bits_of v pos) = length pos.
Proof. by rewrite <- (length_fmap fst), bits_of_positions. Qed.

Lemma u64_b2z_shift (b : bool) p : 0 ≤ p < 64 → u64 (Z.shiftl (Z.b2z b) p) = Z.shiftl (Z.b2z b) p.
Proof.
  intros Hp. apply u64_small. rewrite Z.shiftl_mul_pow2 by lia. assert (0 < 2 ^ p) by (apply Z.pow_pos_nonneg; lia).
  assert (2 ^ p ≤ 2 ^ 63) by (apply Z.pow_le_mono_r; lia). unfold two64. change (2 ^ 64) with (2 * 2 ^ 63). destruct b; simpl Z.b2z; lia.
Qed.

Lemma shift_ok_in n : 0 ≤ n < 64 → shift_ok n = ok tt.
Proof. intros Hn. unfold shift_ok. destruct (Z.leb_spec 0 n), (Z.ltb_spec n 64); (done || lia). Qed.

Definition scatter_bit (v n j p hex : Z) : exc Z :=
  _ ← shift_ok (n - j - 1); _ ← shift_ok p; ok (Z.lor hex (u64 (Z.shiftl (GetBitInPos v (n - j - 1)) p))).
Lemma scatter_bits v n b pos hex :
  0 ≤ b → n = b + Z.of_nat (length pos) → n ≤ 64 → Forall (fun p => 0 ≤ p < 64) pos →
  foldE (fun e hex => scatter_bit v n e.1 e.2 hex) (enum b pos) hex = ok (put_bits (bits_of v pos) hex).
Proof.
  intros Hb Hn H64 Hp. revert b hex Hb Hn. induction Hp as [|p ps Hp Hps IH]; intros b hex Hb Hn; [done|]. cbn [length] in Hn.
  assert (scatter_bit v n b p hex = ok (Z.lor hex (Z.shiftl (Z.b2z (Z.testbit v (Z.of_nat (length ps)))) p))) as Hbit.
  { unfold scatter_bit. replace (n - b - 1) with (Z.of_nat (length ps)) by lia.
    rewrite (shift_ok_in p), (shift_ok_in (Z.of_nat (length ps))) by lia. cbn [mbind exc_bind]. by rewrite GetBitInPos_spec, u64_b2z_shift by lia. }
  cbn [enum foldE bits_of fst snd]. rewrite Hbit. cbn [mbind exc_bind]. apply IH; lia.
Qed.
Lemma scatter_ok v pos hex :
  0 ≤ v < two64 → (length pos ≤ 64)%nat → Forall (fun p => 0 ≤ p < 64) pos → scatter v pos hex = ok (put_bits (bits_of v pos) hex).
Proof.
  intros Hv Hl Hp. unfold scatter. cbv zeta. rewrite (u64_small v) by done.
  rewrite (foldE_entries (scatter_bit v (Z.of_nat (length pos)))). by apply scatter_bits; [|lia..|].
Qed.

Lemma testbit_b2z_out b k : k ≠ 0 → Z.testbit (Z.b2z b) k = false.
Proof.
  intros Hk. destruct (decide (k < 0)); [by apply Z.testbit_neg_r|]. destruct b; [|apply Z.testbit_0_l]. apply Z.bits_above_log2; simpl; lia.
Qed.
Lemma put_bits_out l hex n : 0 ≤ n → n ∉ l.*1 → Z.testbit (put_bits l hex) n = Z.testbit hex n.
Proof.
  intros Hn. revert hex. induction l as [|[p b] l IH]; intros hex Hno; [done|].
  cbn [fmap list_fmap fst] in Hno. apply not_elem_of_cons in Hno as [Hne Hno].
  change (Z.testbit (put_bits l (Z.lor hex (Z.shiftl (Z.b2z b) p))) n = Z.testbit hex n).
  rewrite IH by done. rewrite Z.lor_spec, Z.shiftl_spec by done. rewrite testbit_b2z_out by lia. apply orb_false_r.
Qed.
Lemma put_bits_in l hex p b :
  0 ≤ p → NoDup l.*1 → (p, b) ∈ l → Z.testbit hex p = false → Z.testbit (put_bits l hex) p = b.
Proof.
  intros Hp. revert hex. induction l as [|[p' b'] l IH]; intros hex Hnd Hin Hh; [by apply not_elem_of_nil in Hin|].
  cbn [fmap list_fmap fst] in Hnd. apply NoDup_cons in Hnd as [Hno Hnd].
  change (Z.testbit (put_bits l (Z.lor hex (Z.shiftl (Z.b2z b') p'))) p = b). apply elem_of_cons in Hin as [[= -> ->]|Hin].
  - rewrite put_bits_out by done. rewrite Z.lor_spec, Hh, Z.shiftl_spec, Z.sub_diag by done. apply Z.b2z_bit0.
  - assert (p ∈ l.*1) as Hpl by (by apply (list_elem_of_fmap_2 fst _ _ Hin)). assert (p ≠ p') by (intros ->; done).
    apply IH; [done|done|]. rewrite Z.lor_spec, Hh, Z.shiftl_spec by done. rewrite testbit_b2z_out by lia. done.
Qed.

(** *** All six fields *)

Definition all_bits (vs : list Z) (mp : list (list Z)) : list (Z * bool) := concat (zip_with bits_of vs mp).
Definition fits (v : Z) (pos : list Z) : Prop := 0 ≤ v < 2 ^ width_of pos.

Lemma all_bits_positions vs mp : length vs = length mp → (all_bits vs mp).*1 = concat mp.
Proof.
  revert mp. induction vs as [|v vs IH]; intros [|pos mp] Hl; try done. unfold all_bits. cbn [zip_with concat]. rewrite fmap_app, bits_of_positions. f_equal. apply IH. by injection Hl.
Qed.

Lemma put_bits_app l k hex : put_bits (l ++ k) hex = put_bits k (put_bits l hex).
Proof. apply foldl_app. Qed.

Lemma scatter_all vs mp hex :
  Forall2 fits vs mp → Forall (fun pos => (length pos < 32)%nat ∧ Forall (fun p => 0 ≤ p < 64) pos) mp →
  foldE (fun f hex => scatter f.1 f.2 hex) (zip vs mp) hex = ok (put_bits (all_bits vs mp) hex).
Proof.
  intros Hf. revert hex. induction Hf as [|v pos vs mp Hv Hf IH]; intros hex Hp; [done|]. apply Forall_cons in Hp as [[Hl Hp] Hps].
  cbn [zip zip_with foldE fst snd]. unfold fits, width_of in Hv. assert (2 ^ Z.of_nat (length pos) ≤ 2 ^ 32) by (apply Z.pow_le_mono_r; lia).
  rewrite scatter_ok; [|unfold two64; change (2 ^ 64) with (2 ^ 32 * 2 ^ 32); lia|lia|done]. cbn [mbind exc_bind]. unfold zip in IH. rewrite IH by done.
  unfold all_bits. cbn [zip_with concat]. by rewrite put_bits_app.
Qed.

Lemma lor_range a b n : 0 ≤ n → 0 ≤ a < 2 ^ n → 0 ≤ b < 2 ^ n → 0 ≤ Z.lor a b < 2 ^ n.
Proof.
  intros Hn Ha Hb. assert (0 ≤ Z.lor a b) by (apply Z.lor_nonneg; lia). split; [done|]. destruct (decide (Z.lor a b = 0)) as [->|]; [lia|].
  apply Z.log2_lt_pow2; [lia|]. rewrite Z.log2_lor by lia.
  destruct (decide (n = 0)) as [->|]; [simpl in *; assert (a = 0) as -> by lia; assert (b = 0) as -> by lia; done|].
  assert (∀ x, 0 ≤ x < 2 ^ n → Z.log2 x < n) as Hlog.
  { intros x Hx. destruct (decide (x = 0)) as [->|]; [simpl; lia|]. apply Z.log2_lt_pow2; lia. }
  pose proof (Hlog a Ha). pose proof (Hlog b Hb). lia.
Qed.
Lemma put_bits_range l hex : Forall (fun e => 0 ≤ e.1 < 64) l → 0 ≤ hex < two64 → 0 ≤ put_bits l hex < two64.
Proof.
  intros Hf. revert hex. induction Hf as [|[p b] l Hp Hf IH]; intros hex Hh; [done|]. apply (IH (Z.lor hex (Z.shiftl (Z.b2z b) p))). cbn [fst snd] in *.
  apply (lor_range _ _ 64); [done|done|]. rewrite <- (u64_b2z_shift b p Hp). apply u64_range.
Qed.

(** The fields that are read off. *)
Fixpoint gathered (ws : list Z) (hex pos : Z) : list Z :=
  match ws with [] => [] | w :: ws => gathered ws hex (pos + w) ++ [(hex / 2 ^ pos) mod 2 ^ w] end.
Definition zsum (l : list Z) : Z := foldr Z.add 0 l.

Lemma zsum_nonneg ws : Forall (fun w => 0 ≤ w < 32) ws → 0 ≤ zsum ws.
Proof. induction 1; simpl; lia. Qed.

Lemma gather_ok ws hex pos :
  Forall (fun w => 0 ≤ w < 32) ws → 0 ≤ hex < two64 → 0 ≤ pos → pos + zsum ws < 64 → gather ws hex pos = ok (gathered ws hex pos).
Proof.
  intros Hw Hh. revert pos. induction Hw as [|w ws Hw Hws IH]; intros pos Hp Hs; [done|]. cbn [gather gathered zsum foldr] in *.
  pose proof (zsum_nonneg ws Hws). unfold zsum in *. rewrite (shift_ok_in pos), (shift_ok_in w) by lia. cbn [mbind exc_bind].
  rewrite IH by lia. cbn [mbind exc_bind]. rewrite ModuloWidth_spec by lia. do 3 f_equal.
  pose proof (Z.mod_pos_bound (hex / 2 ^ pos) (2 ^ w) ltac:(apply Z.pow_pos_nonneg; lia)).
  assert (2 ^ w ≤ 2 ^ 31) by (apply Z.pow_le_mono_r; lia). unfold i32, two32. rewrite Z.mod_small by lia. lia.
Qed.

Lemma gathered_fits ws hex pos : Forall (fun w => 0 ≤ w < 32) ws → Forall2 (fun v w => 0 ≤ v < 2 ^ w) (gathered ws hex pos) (rev ws).
Proof.
  intros Hw. revert pos. induction Hw as [|w ws Hw Hws IH]; intros pos; [constructor|]. cbn [gathered rev]. apply Forall2_app; [apply IH|].
  constructor; [|constructor]. apply Z.mod_pos_bound, Z.pow_pos_nonneg; lia.
Qed.

Lemma gathered_inj ws hex hex' pos :
  Forall (fun w => 0 ≤ w < 32) ws → 0 ≤ pos → gathered ws hex pos = gathered ws hex' pos →
  ∀ n, pos ≤ n < pos + zsum ws → Z.testbit hex n = Z.testbit hex' n.
Proof.
  intros Hw. revert pos. induction Hw as [|w ws Hw Hws IH]; intros pos Hp He n Hn; cbn [gathered zsum foldr] in *; [lia|].
  apply app_inj_tail in He as [He Hd]. destruct (decide (n < pos + w)).
  - assert (∀ h, Z.testbit h n = Z.testbit ((h / 2 ^ pos) mod 2 ^ w) (n - pos)) as Hbit.
    { intros h. rewrite Z.mod_pow2_bits_low by lia. rewrite Z.div_pow2_bits by lia. f_equal. lia. }
    by rewrite (Hbit hex), (Hbit hex'), Hd.
  - apply (IH (pos + w)); [lia|done|unfold zsum; lia].
Qed.

(** A mapping that moves bits around: the positions are the [total] ones above the offset. *)
Record mapping_wf (mp : list (list Z)) (off : Z) : Prop := {
  mw_six : length mp = 6%nat;
  mw_width : Forall (fun pos => (length pos < 32)%nat) mp;
  mw_nodup : NoDup (concat mp);
  mw_range : ∀ p, p ∈ concat mp → off ≤ p < off + Z.of_nat (length (concat mp));
  mw_off : 0 ≤ off ∧ off + Z.of_nat (length (concat mp)) < 64
}.
Definition fields_fit (mp : list (list Z)) (a : Address) : Prop := Forall2 fits (origin_fields a) mp.

Lemma zsum_widths mp : zsum (rev (width_of <$> mp)) = Z.of_nat (length (concat mp)).
Proof.
  assert (∀ l k, zsum (l ++ k) = zsum l + zsum k) as Happ by (intros l k; induction l as [|x l IH]; simpl; [done|unfold zsum in *; lia]).
  induction mp as [|pos mp IH]; [done|]. cbn [fmap list_fmap rev concat]. rewrite Happ, length_app. unfold zsum, width_of in *. simpl. lia.
Qed.

Lemma bits_inj mp : ∀ vs vs', Forall2 fits vs mp → Forall2 fits vs' mp → all_bits vs mp = all_bits vs' mp → vs = vs'.
Proof.
  assert (∀ pos v v', bits_of v pos = bits_of v' pos → ∀ n, 0 ≤ n < width_of pos → Z.testbit v n = Z.testbit v' n) as Hone.
  { unfold width_of. induction pos as [|p ps IH]; intros v v' He n Hn; cbn [length] in Hn; [lia|]. cbn [bits_of] in He. injection He as He Hr.
    destruct (decide (n = Z.of_nat (length ps))) as [->|]; [done|]. apply (IH v v' Hr). lia. }
  induction mp as [|pos mp IH]; intros vs vs' Hf Hf'; [by inversion Hf; inversion Hf'|].
  apply Forall2_cons_inv_r in Hf as (v & vs1 & Hv & Hvs & ->). apply Forall2_cons_inv_r in Hf' as (v' & vs1' & Hv' & Hvs' & ->).
  unfold all_bits. cbn [zip_with concat]. intros He. apply app_inj_1 in He as [Hb Hr]; [|by rewrite !length_bits_of].
  f_equal; [|by apply IH]. apply Z.bits_inj'. intros n Hn. destruct (decide (n < width_of pos)); [by apply (Hone pos)|].
  unfold fits in *. rewrite <- (Z.mod_small v (2 ^ width_of pos)), <- (Z.mod_small v' (2 ^ width_of pos)) by done.
  by rewrite !Z.mod_pow2_bits_high by (unfold width_of in *; lia).
Qed.

Lemma GetPhyAddress_ok mp off a :
  mapping_wf mp off → fields_fit mp a →
  let hex := put_bits (all_bits (origin_fields a) mp) 0 in
  ∃ b, GetPhyAddress (Some mp) off a = ok b ∧ origin_fields b = gathered (rev (width_of <$> mp)) hex off ∧ fields_fit mp b.
Proof.
  intros [H6 Hw Hnd Hr [H0 H64]] Hf hex. unfold GetPhyAddress.
  assert (Forall (fun pos => (length pos < 32)%nat ∧ Forall (fun p => 0 ≤ p < 64) pos) mp) as Hpos.
  { rewrite Forall_forall in Hw |- *. intros pos Hin. split; [by apply Hw|]. apply Forall_forall. intros p Hp.
    specialize (Hr p ltac:(apply elem_of_concat; by exists pos)). lia. }
  rewrite scatter_all by done. cbn [mbind exc_bind]. fold hex.
  assert (Forall (fun w => 0 ≤ w < 32) (rev (width_of <$> mp))) as Hws.
  { apply Forall_rev, Forall_fmap. eapply Forall_impl; [exact Hw|]. unfold width_of. simpl. lia. }
  assert (0 ≤ hex < two64) as Hhex.
  { apply put_bits_range; [|done]. apply Forall_forall. intros [p b] Hin. apply (list_elem_of_fmap_2 fst) in Hin.
    rewrite all_bits_positions in Hin by by eapply Forall2_length. specialize (Hr p Hin). simpl. lia. }
  rewrite gather_ok by (try done; rewrite zsum_widths; lia). cbn [mbind exc_bind].
  pose proof (gathered_fits _ hex off Hws) as Hfit. rewrite rev_involutive in Hfit.
  destruct mp as [|p0 [|p1 [|p2 [|p3 [|p4 [|p5 [|]]]]]]]; try done. remember (gathered _ hex off) as l eqn:El. clear El.
  assert (length l = 6%nat) as Hl by (apply Forall2_length in Hfit; done).
  destruct l as [|ch [|ra [|bg [|ba [|ro [|co [|]]]]]]]; try done. eexists. split; [done|]. split; [done|].
  unfold fields_fit, origin_fields. cbn [channel rank bankgroup bank row column]. cbn [fmap list_fmap] in Hfit.
  do 6 (apply Forall2_cons in Hfit as [? Hfit]; constructor; [done|]). constructor.
Qed.

Lemma same_bits mp off vs vs' :
  length vs = length mp → length vs' = length mp → NoDup (concat mp) → (∀ p, p ∈ concat mp → 0 ≤ p) →
  (∀ p, p ∈ concat mp → Z.testbit (put_bits (all_bits vs mp) 0) p = Z.testbit (put_bits (all_bits vs' mp) 0) p) →
  0 ≤ off → all_bits vs mp = all_bits vs' mp.
Proof.
  intros Hl Hl' Hnd H0 Hb _. pose proof (all_bits_positions vs mp Hl) as Hp. pose proof (all_bits_positions vs' mp Hl') as Hp'.
  assert (∀ us, (all_bits us mp).*1 = concat mp → ∀ p b, (p, b) ∈ all_bits us mp → Z.testbit (put_bits (all_bits us mp) 0) p = b ∧ p ∈ concat mp) as Hbit.
  { intros us Hu p b Hin. assert (p ∈ concat mp) as Hpm by (rewrite <- Hu; by apply (list_elem_of_fmap_2 fst _ _ Hin)).
    split; [|done]. apply put_bits_in; [by apply H0|by rewrite Hu|done|apply Z.testbit_0_l]. }
  apply list_eq. intros i. assert ((all_bits vs mp).*1 !! i = (all_bits vs' mp).*1 !! i) as Hi by by rewrite Hp, Hp'.
  rewrite !list_lookup_fmap in Hi. destruct (all_bits vs mp !! i) as [[p b]|] eqn:E, (all_bits vs' mp !! i) as [[p' b']|] eqn:E'; try done.
  injection Hi as ->. apply list_elem_of_lookup_2 in E, E'. destruct (Hbit vs Hp p' b E) as [<- Hpm]. destruct (Hbit vs' Hp' p' b' E') as [<- _].
  by rewrite Hb.
Qed.

Lemma origin_fields_inj a a' : origin_fields a = origin_fields a' → a = a'.
Proof. destruct a, a'. unfold origin_fields. simpl. by intros [= -> -> -> -> -> ->]. Qed.

(** (C37) A location mapping whose positions are each used once and lie together above the
    column offset permutes the addresses: no two of them share a place in the memory. *)
Theorem location_bijection mp off a :
  mapping_wf mp off → fields_fit mp a →
  ∃ b, GetPhyAddress (Some mp) off a = ok b ∧ fields_fit mp b ∧
    ∀ a', fields_fit mp a' → GetPhyAddress (Some mp) off a' = ok b → a' = a.
Proof.
  intros Hwf Ha. destruct (GetPhyAddress_ok mp off a Hwf Ha) as (b & Hb & Hg & Hfit). exists b. split; [done|]. split; [done|].
  intros a' Ha' Hb'. destruct (GetPhyAddress_ok mp off a' Hwf Ha') as (b2 & Hb2 & Hg2 & _). rewrite Hb' in Hb2. injection Hb2 as <-.
  rewrite Hg in Hg2. destruct Hwf as [_ Hw Hnd Hr [H0 H64]]. apply origin_fields_inj, (bits_inj mp); [done|done|].
  apply (same_bits mp off); [by eapply Forall2_length|by eapply Forall2_length|done|intros p Hp; specialize (Hr p Hp); lia| |done].
  intros p Hp. symmetry. apply (gathered_inj (rev (width_of <$> mp)) _ _ off); [|done|done|rewrite zsum_widths; by apply Hr].
  apply Forall_rev, Forall_fmap. eapply Forall_impl; [exact Hw|]. unfold width_of. simpl. lia.
Qed.

(** *** Any address *)

Lemma bits_of_mod v pos : bits_of (v mod 2 ^ width_of pos) pos = bits_of v pos.
Proof.
  cut (∀ n, width_of pos ≤ n → bits_of (v mod 2 ^ n) pos = bits_of v pos); [intros H; by apply H|].
  unfold width_of. induction pos as [|p ps IH]; intros n Hn; [done|]. cbn [bits_of length] in *. rewrite IH by lia. do 2 f_equal. apply Z.mod_pow2_bits_low. lia.
Qed.

(** Whatever the fields of an address are, [-1] included, the location has fields of the
    widths of the mapping. *)
Lemma GetPhyAddress_total mp off a :
  mapping_wf mp off → ∃ b, GetPhyAddress (Some mp) off a = ok b ∧ fields_fit mp b.
Proof.
  intros Hwf. destruct mp as [|p0 [|p1 [|p2 [|p3 [|p4 [|p5 [|]]]]]]] eqn:Emp; try (by destruct Hwf).
  set (red := fun (v : Z) pos => u64 v mod 2 ^ width_of pos).
  set (a' := MkAddress (red (channel a) p0) (red (rank a) p1) (red (bankgroup a) p2) (red (bank a) p3) (red (row a) p4) (red (column a) p5)).
  rewrite <- Emp in *.
  assert (Forall (fun pos => (length pos < 32)%nat ∧ Forall (fun p => 0 ≤ p < 64) pos) mp) as Hpos.
  { destruct Hwf as [_ Hw _ Hr [H0 H64]]. rewrite Forall_forall in Hw |- *. intros pos Hin. split; [by apply Hw|]. apply Forall_forall. intros p Hp.
    specialize (Hr p ltac:(apply elem_of_concat; by exists pos)). lia. }
  assert (∀ v pos hex, pos ∈ mp → scatter v pos hex = scatter (red v pos) pos hex) as Hsc.
  { intros v pos hex Hin. rewrite Forall_forall in Hpos. destruct (Hpos pos Hin) as [Hl Hp].
    assert (0 ≤ red v pos < two64) as Hr.
    { unfold red. pose proof (u64_range v). pose proof (Z.mod_pos_bound (u64 v) (2 ^ width_of pos) ltac:(apply Z.pow_pos_nonneg; unfold width_of; lia)).
      pose proof (Z.mod_le (u64 v) (2 ^ width_of pos) ltac:(lia) ltac:(apply Z.pow_pos_nonneg; unfold width_of; lia)). lia. }
    rewrite (scatter_ok (red v pos)) by (done || lia). unfold red. rewrite bits_of_mod. rewrite <- (scatter_ok (u64 v)) by (apply u64_range || done || lia).
    unfold scatter. by rewrite (u64_small (u64 v)) by apply u64_range. }
  assert (fields_fit mp a') as Hfit.
  { rewrite Emp. unfold fields_fit, origin_fields, a'. cbn [channel rank bankgroup bank row column].
    repeat (constructor; [apply Z.mod_pos_bound, Z.pow_pos_nonneg; unfold width_of; lia|]). constructor. }
  destruct (GetPhyAddress_ok mp off a' Hwf Hfit) as (b & Hb & _ & Hfb). exists b. split; [|done]. rewrite <- Hb. unfold GetPhyAddress.
  clearbody red. rewrite Emp in Hsc |- *. unfold origin_fields, a'. cbn [zip zip_with foldE fst snd channel rank bankgroup bank row column].
  do 6 (rewrite <- Hsc by set_solver;
    match goal with |- context [scatter ?v ?pos ?h ≫= _] => destruct (scatter v pos h); cbn [mbind exc_bind]; [|done] end). done.
Qed.

(** ** Lemmas: arrays of arrays *)

Section Shape.
Context {A : Type}.
Implicit Types (v : list (list A)) (f : A -> A).

(** [n] rows of [k] elements, each of which satisfies [P]. *)
Definition shape (P : A -> Prop) (n k : Z) v : Prop :=
  Z.of_nat (length v) = n ∧ Forall (fun l => Z.of_nat (length l) = k ∧ Forall P l) v.

Lemma get2_ok P n k v i j : shape P n k v → 0 ≤ i < n → 0 ≤ j < k → ∃ x, get2 v i j = ok x ∧ P x.
Proof.
  intros [Hn Hv] Hi Hj. destruct (zget_is_Some v i) as [l Hl]; [lia|]. apply zget_elem in Hl as Hin. rewrite Forall_forall in Hv.
  destruct (Hv l Hin) as [Hk HP]. destruct (zget_is_Some l j) as [x Hx]; [lia|]. exists x. unfold get2. apply vec_get_ok in Hl. rewrite Hl. cbn [mbind exc_bind].
  split; [by apply vec_get_ok|]. apply zget_elem in Hx. rewrite Forall_forall in HP. by apply HP.
Qed.

Lemma upd2_ok P f n k v i j :
  shape P n k v → 0 ≤ i < n → 0 ≤ j < k → (∀ x, P x → P (f x)) →
  ∃ v', upd2 f v i j = ok v' ∧ shape P n k v' ∧ (∀ i' j', (i', j') ≠ (i, j) → get2 v' i' j' = get2 v i' j').
Proof.
  intros Hs Hi Hj Hf. destruct (get2_ok P n k v i j Hs Hi Hj) as (x & Hx & HP). unfold get2 in Hx. apply exc_bind_ok in Hx as (l & Hl & Hx).
  unfold upd2. rewrite Hl. cbn [mbind exc_bind]. rewrite Hx. cbn [mbind exc_bind]. eexists. split; [done|]. destruct Hs as [Hn Hv].
  apply vec_get_ok in Hl, Hx. apply zget_elem in Hl as Hin. rewrite Forall_forall in Hv. destruct (Hv l Hin) as [Hk HPl]. split; [split|].
  - by rewrite length_zset.
  - apply zset_Forall; [by apply Forall_forall|]. split; [by rewrite length_zset|]. apply zset_Forall; [done|by apply Hf].
  - intros i' j' Hne. unfold get2. destruct (decide (i' = i)) as [->|Hi'].
    + assert (vec_get (zset v i (zset l j (f x))) i = ok (zset l j (f x))) as -> by (apply vec_get_ok, zget_zset_eq; lia).
      assert (vec_get v i = ok l) as -> by by apply vec_get_ok. cbn [mbind exc_bind]. unfold vec_get. rewrite zget_zset_ne; [done|]. congruence.
    + unfold vec_get. by rewrite zget_zset_ne by done.
Qed.

Lemma shape_replicate (P : A -> Prop) n k x : 0 ≤ n → 0 ≤ k → P x → shape P n k (replicate (Z.to_nat n) (replicate (Z.to_nat k) x)).
Proof.
  intros Hn Hk Hx. split; [rewrite length_replicate; lia|]. apply Forall_replicate. split; [rewrite length_replicate; lia|]. by apply Forall_replicate.
Qed.
End Shape.

(** ** Sizes *)

Section Bounds.
Context (config : Config) (th : ThermalParams) (rest : ThermalRest) (power : PowerParams) (plan : Plan).
Context (mapping : option (list (list Z))) (off : Z).

(** The grid of a bank covers its rows and columns, and refreshes go round. *)
Record grid_ok : Prop := {
  gr_mats : 1 ≤ mat_dim_x th ∧ 1 ≤ mat_dim_y th;
  gr_grids : 1 ≤ num_x_grids th ∧ 1 ≤ num_y_grids th;
  gr_tile : row_tile th = 1 ∧ tile_row_num th = rows config;
  gr_rows : rows config = mat_dim_x th * num_x_grids th;
  gr_columns : columns config * device_width config = mat_dim_y th * num_y_grids th;
  gr_refresh : 1 ≤ num_row_refresh rest ∧ (num_row_refresh rest | rows config);
  gr_device : 1 ≤ device_width config;
  gr_banks : 1 ≤ bankgroups config ∧ 1 ≤ banks_per_group config ∧ banks config = bankgroups config * banks_per_group config;
  gr_ranks : 1 ≤ ranks config ∧ 1 ≤ channels config
}.

(** [VX] by [VY] vaults of [bank_x] by [bank_y] banks, and everything has its place. *)
Record floor_ok (VX VY : Z) : Prop := {
  fl_pos : 1 ≤ VX ∧ 1 ≤ VY ∧ 1 ≤ bank_x plan ∧ 1 ≤ bank_y plan ∧ 1 ≤ numP plan;
  fl_dims : dimX plan = VX * bank_x plan * num_x_grids th ∧ dimY plan = VY * bank_y plan * num_y_grids th;
  fl_cases : num_case plan = if IsHMC config || IsHBM config then 1 else ranks config * channels config;
  fl_vault : ∀ ch, 0 ≤ ch < channels config → ∃ v, MapToVault config rest plan ch = ok v ∧ 0 ≤ v.1 < VX ∧ 0 ≤ v.2 < VY;
  fl_bank : ∀ bg ba, 0 ≤ bg < bankgroups config → 0 ≤ ba < banks_per_group config →
    ∃ b, MapToBank config rest plan bg ba = ok b ∧ 0 ≤ b.1 < bank_x plan ∧ 0 ≤ b.2 < bank_y plan;
  fl_z : ∀ ch ba, 0 ≤ ch < channels config → 0 ≤ ba < banks_per_group config → ∃ z, MapToZ config rest plan ch ba = ok z ∧ 0 ≤ z < numP plan
}.

(** Locations keep rows and columns in range ([-1] is the column of a refresh). *)
Definition mapping_ok : Prop :=
  ∀ a, 0 ≤ row a < rows config → -1 ≤ column a < columns config →
    ∃ b, GetPhyAddress mapping off a = ok b ∧ 0 ≤ row b < rows config ∧ (0 ≤ column a → 0 ≤ column b < columns config).

(** A command: the column of a refresh, -1 in the controller, only has to be in range. *)
Definition cmd_in (ch : Z) (cmd : Command) : Prop :=
  0 ≤ ch < channels config ∧ 0 ≤ Rank cmd < ranks config ∧
  match cmd_type cmd with
  | REFRESH => -1 ≤ Column cmd < columns config
  | REFRESH_BANK => -1 ≤ Column cmd < columns config ∧ 0 ≤ Bankgroup cmd < bankgroups config ∧ 0 ≤ Bank cmd < banks_per_group config
  | ACTIVATE | READ | READ_PRECHARGE | WRITE | WRITE_PRECHARGE =>
      0 ≤ Bankgroup cmd < bankgroups config ∧ 0 ≤ Bank cmd < banks_per_group config ∧
      0 ≤ Row cmd < rows config ∧ 0 ≤ Column cmd ∧ Column cmd + BL config ≤ columns config
  | _ => True
  end.

(** The state: maps, counters and temperatures of the sizes the constructor gives them. *)
Definition any_double (_ : double) : Prop := True.
Definition refresh_count_ok (n : Z) : Prop := 0 ≤ n ∧ n * num_row_refresh rest < rows config.
Record calc_ok (s : Thermal) : Prop := {
  ca_accu : shape any_double (num_case plan) (cells plan) (accu_Pmap s);
  ca_cur : shape any_double (num_case plan) (cells plan) (cur_Pmap s);
  ca_refresh : shape refresh_count_ok (channels config * ranks config) (banks config) (refresh_count s);
  ca_background : shape any_double (channels config) (ranks config) (background_energy_ s);
  ca_temps : shape any_double (num_case plan) (T_nodes (numP plan) (dimX plan + 2) (dimY plan + 2)) (T_trans s)
}.

(** Only cells in [C] of one case have changed. *)
Definition heats (case : Z) (C : Z -> Prop) (s s' : Thermal) : Prop :=
  (∀ i j, i ≠ case ∨ ¬ C j → get2 (accu_Pmap s') i j = get2 (accu_Pmap s) i j ∧ get2 (cur_Pmap s') i j = get2 (cur_Pmap s) i j) ∧
  background_energy_ s' = background_energy_ s ∧ T_trans s' = T_trans s ∧ avg_logic_power_ s' = avg_logic_power_ s ∧
  sample_id s' = sample_id s ∧ t_csv s' = t_csv s.
Lemma heats_refl case C s : heats case C s s.
Proof. by repeat split. Qed.
Lemma heats_trans case (C : Z -> Prop) s1 s2 s3 : heats case C s1 s2 → heats case C s2 s3 → heats case C s1 s3.
Proof.
  intros (Ha & ? & ? & ? & ? & ?) (Hb & ? & ? & ? & ? & ?). split; [|split_and!; congruence]. intros i j Hn.
  destruct (Ha i j Hn) as [<- <-]. by apply Hb.
Qed.
Lemma heats_mono case (C D : Z -> Prop) s s' : (∀ j, C j → D j) → heats case C s s' → heats case D s s'.
Proof. intros HCD [H ?]. split; [|done]. intros i j Hn. apply H. destruct Hn as [?|Hn]; [by left|right]. intros Hj. by apply Hn, HCD. Qed.

Lemma add_energy_ok case idx e s :
  calc_ok s → 0 ≤ case < num_case plan → 0 ≤ idx < cells plan →
  ∃ s', add_energy case idx e s = ok s' ∧ calc_ok s' ∧ heats case (fun j => j = idx) s s'.
Proof.
  intros [Ha Hc Hr Hb Ht] Hcase Hidx.
  destruct (upd2_ok any_double (fun x => dadd x e) _ _ _ case idx Ha Hcase Hidx) as (a & Ea & Sa & Fa); [done|].
  destruct (upd2_ok any_double (fun x => dadd x e) _ _ _ case idx Hc Hcase Hidx) as (c & Ec & Sc & Fc); [done|].
  exists (t_maps a c s). unfold add_energy. rewrite Ea. cbn [mbind exc_bind]. rewrite Ec. split; [done|]. split; [by split|].
  split; [|done]. intros i j Hn. assert ((i, j) ≠ (case, idx)) as Hne by (intros [= -> ->]; naive_solver). split; [by apply Fa|by apply Fc].
Qed.

(** A loop that heats a cell per round. *)
Lemma heat_loop {B} (idx : B -> Z) case (C : Z -> Prop) e (l : list B) s :
  calc_ok s → 0 ≤ case < num_case plan → (∀ b, b ∈ l → 0 ≤ idx b < cells plan ∧ C (idx b)) →
  ∃ s', foldE (fun b s => add_energy case (idx b) e s) l s = ok s' ∧ calc_ok s' ∧ heats case C s s'.
Proof.
  intros Hs Hcase Hl. apply (foldE_total (fun s' => calc_ok s' ∧ heats case C s s')); [|split; [done|apply heats_refl]].
  intros b s1 Hb [H1 Hh]. destruct (Hl b Hb) as [Hi HC]. destruct (add_energy_ok case (idx b) e s1 H1 Hcase Hi) as (s2 & Eadd & Hok2 & Hh2).
  exists s2. split; [done|]. split; [done|]. eapply heats_trans; [done|]. eapply heats_mono; [|done]. by intros j ->.
Qed.

(** *** The cells of a bank *)

Definition bank_cell (ch bg ba idx : Z) : Prop :=
  ∃ v b z gx gy, MapToVault config rest plan ch = ok v ∧ MapToBank config rest plan bg ba = ok b ∧ MapToZ config rest plan ch ba = ok z ∧
    0 ≤ gx < num_x_grids th ∧ 0 ≤ gy < num_y_grids th ∧
    idx = z * dimX plan * dimY plan + (v.2 * (bank_y plan * num_y_grids th) + b.2 * num_y_grids th + gy) * dimX plan +
          (v.1 * (bank_x plan * num_x_grids th) + b.1 * num_x_grids th + gx).

Context (VX VY : Z) (Hgrid : grid_ok) (Hfloor : floor_ok VX VY) (Hmap : mapping_ok).

Lemma coordinate v b g V B n : 0 ≤ v < V → 0 ≤ b < B → 0 ≤ g < n → 0 ≤ v * (B * n) + b * n + g < V * B * n.
Proof using.
  intros Hv Hb Hg. assert (0 ≤ b * n + g < B * n) as Hi by by apply radix_range. pose proof (radix_range v (b * n + g) (B * n) V Hv Hi). lia.
Qed.

Lemma bank_cell_range ch bg ba idx :
  0 ≤ ch < channels config → 0 ≤ bg < bankgroups config → 0 ≤ ba < banks_per_group config → bank_cell ch bg ba idx → 0 ≤ idx < cells plan.
Proof using Hgrid Hfloor.
  clear Hmap. destruct Hfloor as [Hpos [HdX HdY] _ Hv Hb Hz]. intros Hch Hbg Hba (v & b & z & gx & gy & Ev & Eb & Ez & Hgx & Hgy & ->).
  destruct (Hv ch Hch) as (v' & Ev' & Hv1 & Hv2). destruct (Hb bg ba Hbg Hba) as (b' & Eb' & Hb1 & Hb2). destruct (Hz ch ba Hch Hba) as (z' & Ez' & Hz').
  rewrite Ev in Ev'. injection Ev' as <-. rewrite Eb in Eb'. injection Eb' as <-. rewrite Ez in Ez'. injection Ez' as <-.
  pose proof (coordinate v.1 b.1 gx VX (bank_x plan) (num_x_grids th) Hv1 Hb1 Hgx) as Hx. rewrite <- HdX in Hx.
  pose proof (coordinate v.2 b.2 gy VY (bank_y plan) (num_y_grids th) Hv2 Hb2 Hgy) as Hy. rewrite <- HdY in Hy.
  pose proof (radix_range _ _ _ _ Hy Hx) as Hyx. pose proof (radix_range z _ _ _ Hz' Hyx) as H. unfold cells. lia.
Qed.

Lemma grid_id_x_ok r : 0 ≤ r < rows config → ∃ gx, grid_id_x th r = ok gx ∧ 0 ≤ gx < num_x_grids th.
Proof using Hgrid.
  clear Hmap Hfloor. destruct Hgrid as [Hm Hn [Ht _] Hr _ _ _ _ _]. intros Hrow. unfold grid_id_x, zquot. rewrite Ht.
  destruct (Z.eqb_spec (mat_dim_x th) 0); [lia|]. cbn [mbind exc_bind Z.eqb]. eexists. split; [done|]. rewrite Z.quot_1_r, Z.quot_div_nonneg by lia.
  split; [apply Z.div_pos; lia|apply Z.div_lt_upper_bound; lia].
Qed.
Lemma grid_id_y_ok r c : 0 ≤ r < rows config → 0 ≤ c < columns config * device_width config → ∃ gy, grid_id_y th r c = ok gy ∧ 0 ≤ gy < num_y_grids th.
Proof using Hgrid.
  clear Hmap Hfloor. destruct Hgrid as [Hm Hn [Ht Htr] Hr Hc _ _ _ _]. intros Hrow Hcol. unfold grid_id_y, zquot. rewrite Ht, Htr.
  destruct (Z.eqb_spec (rows config) 0); [lia|]. cbn [mbind exc_bind]. destruct (Z.eqb_spec (mat_dim_y th) 0); [lia|]. cbn [mbind exc_bind Z.eqb].
  eexists. split; [done|]. rewrite (Z.quot_small r) by done. rewrite Z.mul_0_l, Z.add_0_r, Z.quot_div_nonneg by lia.
  split; [apply Z.div_pos; lia|apply Z.div_lt_upper_bound; lia].
Qed.

(** The places a command of the bank at [v], [b] heats. *)
Definition bank_place (v b p : Z * Z) : Prop :=
  ∃ gx gy, 0 ≤ gx < num_x_grids th ∧ 0 ≤ gy < num_y_grids th ∧
    p = (v.1 * (bank_x plan * num_x_grids th) + b.1 * num_x_grids th + gx, v.2 * (bank_y plan * num_y_grids th) + b.2 * num_y_grids th + gy).

Lemma MapToXY_ok cmd v b :
  0 ≤ Row cmd < rows config → 0 ≤ Column cmd → Column cmd + BL config ≤ columns config → 0 ≤ BL config →
  ∃ l, MapToXY config th plan mapping off cmd v b = ok l ∧ Forall (bank_place v b) l.
Proof using Hgrid Hmap.
  clear Hfloor. intros Hr Hc Hcb HB. destruct (grid_id_x_ok (Row cmd) Hr) as (gx & Egx & Hgx). unfold MapToXY. rewrite Egx. cbn [mbind exc_bind].
  set (I := fun i (s : Address * list (Z * Z)) => row s.1 = Row cmd ∧ column s.1 = Column cmd + i ∧ Forall (bank_place v b) s.2).
  match goal with |- ∃ _, foldE ?f _ _ ≫= _ = _ ∧ _ => assert (∃ s', foldE f (zseq (BL config)) (addr cmd, []) = ok s' ∧ I (BL config) s') as ([a l] & -> & _ & _ & Hl) end;
    [apply foldE_index|].
  - done.
  - intros i [a l] Hi (Hra & Hca & Hl). cbn [fst snd] in *. destruct (Hmap a) as (phy & Ephy & _ & Hpc); [lia|lia|]. rewrite Ephy. cbn [mbind exc_bind].
    destruct (mapE_total (fun _ p => bank_place v b p) (fun j => gy ← grid_id_y th (Row cmd) (column phy * device_width config + j);
      ok (v.1 * (bank_x plan * num_x_grids th) + b.1 * num_x_grids th + gx, v.2 * (bank_y plan * num_y_grids th) + b.2 * num_y_grids th + gy))
      (zseq (device_width config))) as (k & Ek & Hk).
    { intros j Hj%elem_of_zseq. destruct (grid_id_y_ok (Row cmd) (column phy * device_width config + j) Hr) as (gy & Egy & Hgy).
      { apply radix_range; [apply Hpc; lia|done]. }
      rewrite Egy. eexists. split; [done|]. by exists gx, gy. }
    rewrite Ek. eexists. split; [done|]. unfold I. cbn [fst snd with_column row column]. split; [done|]. split; [lia|]. apply Forall_app. split; [done|].
    clear -Hk. induction Hk; by constructor.
  - unfold I. cbn [fst snd]. split; [done|]. split; [unfold Column; lia|constructor].
  - by exists l.
Qed.

Lemma map_places ch bg ba :
  0 ≤ ch < channels config → 0 ≤ bg < bankgroups config → 0 ≤ ba < banks_per_group config →
  ∃ v b z, MapToVault config rest plan ch = ok v ∧ MapToBank config rest plan bg ba = ok b ∧ MapToZ config rest plan ch ba = ok z.
Proof using Hfloor.
  clear Hgrid Hmap. destruct Hfloor as [_ _ _ Hv Hb Hz]. intros Hch Hbg Hba.
  destruct (Hv ch Hch) as (v & ? & _), (Hb bg ba Hbg Hba) as (b & ? & _), (Hz ch ba Hch Hba) as (z & ? & _). by exists v, b, z.
Qed.

Lemma LocationMapping_ok ch cmd case e s :
  calc_ok s → 0 ≤ case < num_case plan → 0 ≤ ch < channels config → 0 ≤ BL config →
  0 ≤ Bankgroup cmd < bankgroups config → 0 ≤ Bank cmd < banks_per_group config → 0 ≤ Row cmd < rows config →
  0 ≤ Column cmd → Column cmd + BL config ≤ columns config →
  ∃ s', LocationMappingANDaddEnergy config th rest plan mapping off ch cmd case e s = ok s' ∧ calc_ok s' ∧
    heats case (bank_cell ch (Bankgroup cmd) (Bank cmd)) s s'.
Proof using Hgrid Hfloor Hmap.
  intros Hs Hcase Hch HB Hbg Hba Hr Hc Hcb. destruct (map_places ch _ _ Hch Hbg Hba) as (v & b & z & Ev & Eb & Ez).
  unfold LocationMappingANDaddEnergy. rewrite Ev. cbn [mbind exc_bind]. rewrite Eb. cbn [mbind exc_bind].
  destruct (MapToXY_ok cmd v b Hr Hc Hcb HB) as (l & El & Hl). rewrite El. cbn [mbind exc_bind]. rewrite Ez. cbn [mbind exc_bind]. cbv zeta.
  apply heat_loop; [done|done|]. intros p Hp. rewrite Forall_forall in Hl. destruct (Hl p Hp) as (gx & gy & Hgx & Hgy & ->). cbn [fst snd].
  assert (bank_cell ch (Bankgroup cmd) (Bank cmd) (z * dimX plan * dimY plan + (v.2 * (bank_y plan * num_y_grids th) + b.2 * num_y_grids th + gy) * dimX plan + (v.1 * (bank_x plan * num_x_grids th) + b.1 * num_x_grids th + gx))) as Hcell by by exists v, b, z, gx, gy.
  split; [by eapply bank_cell_range|done].
Qed.

Lemma bank_index ib : 0 ≤ ib < banks config → 0 ≤ ib / banks_per_group config < bankgroups config ∧ 0 ≤ ib mod banks_per_group config < banks_per_group config.
Proof using Hgrid.
  clear Hfloor Hmap. destruct Hgrid as [_ _ _ _ _ _ _ (? & ? & Hb) _]. intros Hi. split; [|apply Z.mod_pos_bound; lia].
  split; [apply Z.div_pos; lia|apply Z.div_lt_upper_bound; lia].
Qed.

Lemma LocationMapping_RF_ok ch cmd ib row0 case e s :
  calc_ok s → 0 ≤ case < num_case plan → 0 ≤ ch < channels config → 0 ≤ ib < banks config → 0 ≤ row0 < rows config → -1 ≤ Column cmd < columns config →
  ∃ s', LocationMappingANDaddEnergy_RF config th rest plan mapping off ch cmd ib row0 case e s = ok s' ∧ calc_ok s' ∧
    heats case (bank_cell ch (ib / banks_per_group config) (ib mod banks_per_group config)) s s'.
Proof using Hgrid Hfloor Hmap.
  intros Hs Hcase Hch Hib Hrow Hcol. destruct (bank_index ib Hib) as [Hbg Hba]. pose proof (gr_banks Hgrid) as (Hg1 & Hg2 & _).
  unfold LocationMappingANDaddEnergy_RF, zquot. destruct (Z.eqb_spec (banks_per_group config) 0); [lia|]. cbn [mbind exc_bind].
  rewrite Z.quot_div_nonneg, Z.rem_mod_nonneg by lia. destruct (map_places ch _ _ Hch Hbg Hba) as (v & b & z & Ev & Eb & Ez).
  cbv zeta. rewrite Ev. cbn [mbind exc_bind]. rewrite Eb. cbn [mbind exc_bind]. rewrite Ez. cbn [mbind exc_bind].
  destruct (Hmap (MkAddress (channel (addr cmd)) (rank (addr cmd)) (ib / banks_per_group config) (ib mod banks_per_group config) row0 (column (addr cmd))))
    as (phy & -> & Hpr & _); [done|exact Hcol|].
  cbn [mbind exc_bind]. destruct (grid_id_x_ok (row phy) Hpr) as (gx & Egx & Hgx). rewrite Egx. cbn [mbind exc_bind].
  unfold grid_id_y, zquot. destruct (gr_tile Hgrid) as [Ht Htr]. rewrite Ht, Htr. destruct (Z.eqb_spec (rows config) 0); [lia|].
  cbn [mbind exc_bind]. destruct (gr_mats Hgrid). destruct (Z.eqb_spec (mat_dim_y th) 0); [lia|]. cbn [mbind exc_bind Z.eqb].
  rewrite (Z.quot_small (row phy)), Z.quot_0_l by lia. apply heat_loop; [done|done|]. intros i Hi%elem_of_zseq.
  rewrite Z.mul_0_l, Z.add_0_r. set (idx := z * _ + _ + _).
  assert (bank_cell ch (ib / banks_per_group config) (ib mod banks_per_group config) idx) as Hcell.
  { exists v, b, z, gx, i. do 5 (split; [done|]). unfold idx. lia. }
  split; [by eapply bank_cell_range|done].
Qed.

(** *** Commands *)

Lemma refresh_next n : refresh_count_ok n → refresh_count_ok (if (n + 1) * num_row_refresh rest =? rows config then 0 else n + 1).
Proof using Hgrid.
  clear Hfloor Hmap. destruct (gr_refresh Hgrid) as [H1 [k Hk]]. unfold refresh_count_ok. intros [H0 Hn].
  assert (n < k) by nia. destruct (Z.eqb_spec ((n + 1) * num_row_refresh rest) (rows config)) as [He|Hne]; [nia|].
  assert (n + 1 ≠ k) by (intros <-; lia). nia.
Qed.

Lemma rank_index ch cmd : 0 ≤ ch < channels config → 0 ≤ Rank cmd < ranks config → 0 ≤ ch * ranks config + Rank cmd < channels config * ranks config.
Proof using. intros Hc Hr. by apply radix_range. Qed.

Lemma refresh_rows_ok ch cmd ib case e s :
  calc_ok s → 0 ≤ case < num_case plan → 0 ≤ ch < channels config → 0 ≤ Rank cmd < ranks config → 0 ≤ ib < banks config → -1 ≤ Column cmd < columns config →
  ∃ s', refresh_rows config th rest plan mapping off ch cmd (ch * ranks config + Rank cmd) ib case e s = ok s' ∧ calc_ok s' ∧
    heats case (bank_cell ch (ib / banks_per_group config) (ib mod banks_per_group config)) s s'.
Proof using Hgrid Hfloor Hmap.
  intros Hs Hcase Hch Hrank Hib Hcol. pose proof (rank_index ch cmd Hch Hrank) as Hri. unfold refresh_rows.
  destruct (get2_ok _ _ _ _ _ _ (ca_refresh _ Hs) Hri Hib) as (n & En & Hn0 & Hn). rewrite En. cbn [mbind exc_bind].
  destruct (upd2_ok _ (fun n => if (n + 1) * num_row_refresh rest =? rows config then 0 else n + 1) _ _ _ _ _ (ca_refresh _ Hs) Hri Hib) as (r & Er & Hr & _);
    [apply refresh_next|]. rewrite Er. cbn [mbind exc_bind].
  set (C := bank_cell ch _ _). apply (foldE_total (fun s' => calc_ok s' ∧ heats case C s s')).
  - intros ir s1 Hir%elem_of_zseq [Hok Hh]. destruct (gr_refresh Hgrid) as [H1 [k Hk]].
    destruct (LocationMapping_RF_ok ch cmd ib (n * num_row_refresh rest + ir) case e s1 Hok Hcase Hch Hib) as (s2 & E2 & Hok2 & Hh2); [rewrite Hk; apply radix_range; [nia|done]|done|].
    exists s2. split; [done|]. split; [done|]. by eapply heats_trans.
  - destruct Hs. split; [by split|by repeat split].
Qed.

(** The cells a command heats. A refresh of one bank takes the number of the bank in its
    group for its number in the rank, and heats group 0. *)
Definition cmd_cells (ch : Z) (cmd : Command) (idx : Z) : Prop :=
  match cmd_type cmd with
  | REFRESH => ∃ bg ba, 0 ≤ bg < bankgroups config ∧ 0 ≤ ba < banks_per_group config ∧ bank_cell ch bg ba idx
  | REFRESH_BANK => bank_cell ch 0 (Bank cmd) idx
  | _ => bank_cell ch (Bankgroup cmd) (Bank cmd) idx
  end.
Definition cmd_case (ch : Z) (cmd : Command) : Z := if IsHMC config || IsHBM config then 0 else ch * ranks config + Rank cmd.

Lemma cmd_case_ok ch cmd : 0 ≤ ch < channels config → 0 ≤ Rank cmd < ranks config → 0 ≤ cmd_case ch cmd < num_case plan.
Proof using Hfloor.
  clear Hgrid Hmap. intros Hc Hr. unfold cmd_case. rewrite (fl_cases _ _ Hfloor). destruct (IsHMC config || IsHBM config); [lia|].
  rewrite (Z.mul_comm (ranks config) (channels config)). by apply rank_index.
Qed.

Lemma burst_ok ch cmd e s :
  calc_ok s → 0 ≤ cmd_case ch cmd < num_case plan → 0 ≤ ch < channels config → 0 ≤ BL config →
  0 ≤ Bankgroup cmd < bankgroups config ∧ 0 ≤ Bank cmd < banks_per_group config ∧ 0 ≤ Row cmd < rows config ∧ 0 ≤ Column cmd ∧ Column cmd + BL config ≤ columns config →
  ∃ s', (if dltb dzero e then
      LocationMappingANDaddEnergy config th rest plan mapping off ch cmd (cmd_case ch cmd)
        (ddiv (ddiv (ddiv e (of_int (BL config))) (of_int 1000)) (if IsHMC config || IsHBM config then of_int 1 else of_int (devices_per_rank config))) s
    else ok s) = ok s' ∧ calc_ok s' ∧ heats (cmd_case ch cmd) (bank_cell ch (Bankgroup cmd) (Bank cmd)) s s'.
Proof using Hgrid Hfloor Hmap.
  intros Hs Hcase Hch HB (? & ? & ? & ? & ?). destruct (dltb dzero e); [by apply LocationMapping_ok|].
  exists s. split; [done|]. split; [done|apply heats_refl].
Qed.

Lemma UpdateCMDPower_ok ch cmd s :
  calc_ok s → cmd_in ch cmd → 0 ≤ BL config →
  ∃ s', UpdateCMDPower config th rest power plan mapping off ch cmd s = ok s' ∧ calc_ok s' ∧ heats (cmd_case ch cmd) (cmd_cells ch cmd) s s'.
Proof using Hgrid Hfloor Hmap.
  intros Hs (Hch & Hrank & Hcmd) HB. pose proof (cmd_case_ok ch cmd Hch Hrank) as Hcase. destruct (gr_banks Hgrid) as (Hg1 & Hg2 & Hg3).
  unfold UpdateCMDPower. cbv zeta. fold (cmd_case ch cmd). unfold cmd_cells. destruct (cmd_type cmd);
    try (by apply burst_ok); try (exists s; split; [done|split; [done|apply heats_refl]]).
  - destruct Hcmd as (Hcol & Hbg & Hba).
    match goal with |- context [refresh_rows _ _ _ _ _ _ _ _ _ _ _ ?e _] =>
      destruct (refresh_rows_ok ch cmd (Bank cmd) (cmd_case ch cmd) e s Hs Hcase Hch Hrank) as (s' & E & Hok & Hh); [nia|done|] end.
    rewrite (Z.div_small (Bank cmd)), (Z.mod_small (Bank cmd)) in Hh by done. by exists s'.
  - set (C := fun idx => ∃ bg ba, _). apply (foldE_total (fun s' => calc_ok s' ∧ heats (cmd_case ch cmd) C s s')); [|split; [done|apply heats_refl]].
    intros ib s1 Hib%elem_of_zseq [Hok Hh]. destruct (bank_index ib Hib) as [Hbg Hba].
    match goal with |- context [refresh_rows _ _ _ _ _ _ _ _ _ _ _ ?e _] =>
      destruct (refresh_rows_ok ch cmd ib (cmd_case ch cmd) e s1 Hok Hcase Hch Hrank Hib Hcmd) as (s2 & E2 & Hok2 & Hh2) end.
    exists s2. split; [done|]. split; [done|]. eapply heats_trans; [done|]. eapply heats_mono; [|done]. intros j Hj. by exists (ib / banks_per_group config), (ib mod banks_per_group config).
Qed.
(** *** The energy of a command, cell by cell *)

(** Where an address is stored. *)
Definition phy (a : Address) : Address := match GetPhyAddress mapping off a with ok b => b | err _ => a end.
(** The number of the cell [gx], [gy] of a bank. *)
Definition cell_at (ch bg ba gx gy : Z) : Z :=
  match MapToVault config rest plan ch, MapToBank config rest plan bg ba, MapToZ config rest plan ch ba with
  | ok v, ok b, ok z =>
      z * dimX plan * dimY plan + (v.2 * (bank_y plan * num_y_grids th) + b.2 * num_y_grids th + gy) * dimX plan +
        (v.1 * (bank_x plan * num_x_grids th) + b.1 * num_x_grids th + gx)
  | _, _, _ => -1
  end.
(** A burst: a cell for each of its bits, in the row's column of mats. *)
Definition burst_cells (ch : Z) (cmd : Command) : list Z :=
  zseq (BL config) ≫= fun k => (fun j =>
    cell_at ch (Bankgroup cmd) (Bank cmd) (Z.quot (Row cmd) (mat_dim_x th))
      (Z.quot (column (phy (with_column (Column cmd + k) (addr cmd))) * device_width config + j) (mat_dim_y th))) <$> zseq (device_width config).
(** A refresh of bank [ib], whose rows are those behind its counter [n]: all cells of the
    column of mats of each row. *)
Definition refreshed_cells (ch : Z) (cmd : Command) (ib n : Z) : list Z :=
  zseq (num_row_refresh rest) ≫= fun ir => (fun i =>
    cell_at ch (Z.quot ib (banks_per_group config)) (Z.rem ib (banks_per_group config))
      (Z.quot (row (phy (MkAddress (channel (addr cmd)) (rank (addr cmd)) (Z.quot ib (banks_per_group config))
        (Z.rem ib (banks_per_group config)) (n * num_row_refresh rest + ir) (column (addr cmd))))) (mat_dim_x th)) i) <$> zseq (num_y_grids th).
Definition count_of (s : Thermal) (r ib : Z) : Z := match get2 (refresh_count s) r ib with ok n => n | err _ => 0 end.
Definition next_count (n : Z) : Z := if (n + 1) * num_row_refresh rest =? rows config then 0 else n + 1.

Definition heated_cells (ch : Z) (cmd : Command) (s : Thermal) : list Z :=
  match cmd_type cmd with
  | ACTIVATE | READ | READ_PRECHARGE | WRITE | WRITE_PRECHARGE =>
      if dltb dzero (command_energy power (cmd_type cmd)) then burst_cells ch cmd else []
  | REFRESH => zseq (banks config) ≫= fun ib => refreshed_cells ch cmd ib (count_of s (ch * ranks config + Rank cmd) ib)
  | _ => []
  end.
(** The energy a cell gets each time, in nJ: that of the command, shared by the beats and
    bits of a burst, or by the rows, banks and cells of a refresh, and by the devices. *)
Definition heat_energy (cmd : Command) : double :=
  let devices := if IsHMC config || IsHBM config then of_int 1 else of_int (devices_per_rank config) in
  match cmd_type cmd with
  | REFRESH =>
      ddiv (ddiv (ddiv (ddiv (ddiv (ref_energy_inc power) (of_int (num_row_refresh rest))) (of_int (banks config))) (of_int (num_y_grids th)))
        (of_int 1000)) devices
  | t => ddiv (ddiv (ddiv (ddiv (command_energy power t) (of_int (BL config))) (of_int 1000)) devices) (of_int (device_width config))
  end.

(** [e] is added to the cells of [L], as often as they occur in it, in both maps, and
    nothing else but the refresh counters has changed. *)
Definition times (j : Z) (L : list Z) : nat := length (filter (fun k => k = j) L).
Definition warmed (case : Z) (e : double) (L : list Z) (m m' : list (list double)) : Prop :=
  ∀ i j, get2 m' i j = x ← get2 m i j; ok (if decide (i = case) then Nat.iter (times j L) (fun y => dadd y e) x else x).
Definition heated (case : Z) (e : double) (L : list Z) (s s' : Thermal) : Prop :=
  warmed case e L (accu_Pmap s) (accu_Pmap s') ∧ warmed case e L (cur_Pmap s) (cur_Pmap s') ∧
  background_energy_ s' = background_energy_ s ∧ T_trans s' = T_trans s ∧ avg_logic_power_ s' = avg_logic_power_ s ∧
  sample_id s' = sample_id s ∧ t_csv s' = t_csv s.

Lemma warmed_nil case e m : warmed case e [] m m.
Proof using. intros i j. destruct (get2 m i j) as [x|]; [|done]. simpl. by case_decide. Qed.
Lemma warmed_app case e L1 L2 m1 m2 m3 : warmed case e L1 m1 m2 → warmed case e L2 m2 m3 → warmed case e (L1 ++ L2) m1 m3.
Proof using.
  intros H1 H2 i j. rewrite H2, H1. destruct (get2 m1 i j) as [x|]; [|done]. cbn [mbind exc_bind]. case_decide; [|done].
  unfold times. by rewrite filter_app, length_app, Nat.add_comm, Nat.iter_add.
Qed.
Lemma heated_nil case e s s' :
  accu_Pmap s' = accu_Pmap s → cur_Pmap s' = cur_Pmap s → background_energy_ s' = background_energy_ s → T_trans s' = T_trans s →
  avg_logic_power_ s' = avg_logic_power_ s → sample_id s' = sample_id s → t_csv s' = t_csv s → heated case e [] s s'.
Proof using. intros Ha Hc ? ? ? ? ?. unfold heated. rewrite Ha, Hc. split_and!; try done; apply warmed_nil. Qed.
Lemma heated_app case e L1 L2 s1 s2 s3 : heated case e L1 s1 s2 → heated case e L2 s2 s3 → heated case e (L1 ++ L2) s1 s3.
Proof using.
  intros (Ha & Hc & ? & ? & ? & ? & ?) (Ha' & Hc' & ? & ? & ? & ? & ?). unfold heated. split_and!; try congruence; by eapply warmed_app.
Qed.

Lemma upd2_get {A} (f : A -> A) v i j v' :
  upd2 f v i j = ok v' → ∀ i' j', get2 v' i' j' = x ← get2 v i' j'; ok (if decide (i' = i ∧ j' = j) then f x else x).
Proof using.
  intros (l & Hl & (x & Hx & [= <-])%exc_bind_ok)%exc_bind_ok i' j'. apply vec_get_ok in Hl, Hx. unfold get2, vec_get.
  destruct (decide (i' = i)) as [->|Hi].
  - rewrite zget_zset_eq by (by eapply zget_lt). rewrite Hl. cbn [opt_exc mbind exc_bind]. destruct (decide (j' = j)) as [->|Hj].
    + rewrite zget_zset_eq by (by eapply zget_lt). rewrite Hx. cbn [opt_exc mbind exc_bind]. by rewrite decide_True.
    + rewrite zget_zset_ne by done. destruct (zget l j'); [|done]. cbn [opt_exc mbind exc_bind]. by rewrite decide_False by naive_solver.
  - rewrite zget_zset_ne by done. destruct (zget v i') as [l'|]; [|done]. cbn [opt_exc mbind exc_bind]. destruct (zget l' j'); [|done].
    cbn [opt_exc mbind exc_bind]. by rewrite decide_False by naive_solver.
Qed.

Lemma add_energy_heated case idx e s s' :
  add_energy case idx e s = ok s' → heated case e [idx] s s' ∧ refresh_count s' = refresh_count s.
Proof using.
  intros (a & Ha & (c & Hc & [= <-])%exc_bind_ok)%exc_bind_ok. split; [|done].
  assert (∀ m m', upd2 (fun x => dadd x e) m case idx = ok m' → warmed case e [idx] m m') as Hw.
  { intros m m' Hm i j. rewrite (upd2_get _ _ _ _ _ Hm). destruct (get2 m i j) as [x|]; [|done]. cbn [mbind exc_bind]. f_equal. unfold times.
    destruct (decide (i = case)) as [->|]; [|by rewrite decide_False by naive_solver].
    rewrite filter_cons. destruct (decide (idx = j)) as [->|]; [by rewrite decide_True|by rewrite decide_False by naive_solver]. }
  unfold heated. simpl. split_and!; [by apply Hw|by apply Hw|done..].
Qed.

(** A loop whose rounds heat. *)
Lemma heated_loop {B} (f : B -> Thermal -> exc Thermal) (g : B -> list Z) case e l s s' :
  (∀ b s1 s2, b ∈ l → f b s1 = ok s2 → heated case e (g b) s1 s2 ∧ refresh_count s2 = refresh_count s1) →
  foldE f l s = ok s' → heated case e (l ≫= g) s s' ∧ refresh_count s' = refresh_count s.
Proof using.
  revert s. induction l as [|b l IH]; intros s Hf; cbn [foldE]; [intros [= <-]; split; [by apply heated_nil|done]|].
  intros (s1 & H1 & H2)%exc_bind_ok. destruct (Hf b s s1) as [Hh Hr]; [left|done|].
  destruct (IH s1) as [Hh' Hr']; [intros; apply Hf; [by right|done]|done|]. rewrite bind_cons. split; [by eapply heated_app|congruence].
Qed.
Lemma bind_singleton {B} (f : B -> Z) (l : list B) : (l ≫= fun b => [f b]) = f <$> l.
Proof using. induction l as [|b l IH]; [done|]. rewrite bind_cons, IH. done. Qed.
Lemma energy_loop {B} (idx : B -> Z) case e (l : list B) s s' :
  foldE (fun b s => add_energy case (idx b) e s) l s = ok s' → heated case e (idx <$> l) s s' ∧ refresh_count s' = refresh_count s.
Proof using. intros H. rewrite <- bind_singleton. eapply heated_loop; [|exact H]. intros b s1 s2 _. apply add_energy_heated. Qed.

Lemma grid_id_x_quot r gx : grid_id_x th r = ok gx → gx = Z.quot r (mat_dim_x th).
Proof using Hgrid.
  clear Hmap Hfloor. destruct (gr_tile Hgrid) as [Ht _]. unfold grid_id_x, zquot. rewrite Ht.
  destruct (mat_dim_x th =? 0); [done|]. cbn [mbind exc_bind Z.eqb]. intros [= <-]. apply Z.quot_1_r.
Qed.
Lemma grid_id_y_quot r c gy : 0 ≤ r < rows config → grid_id_y th r c = ok gy → gy = Z.quot c (mat_dim_y th).
Proof using Hgrid.
  clear Hmap Hfloor. intros Hr. destruct (gr_tile Hgrid) as [Ht Htr]. unfold grid_id_y, zquot. rewrite Ht, Htr.
  destruct (rows config =? 0); [done|]. cbn [mbind exc_bind]. destruct (mat_dim_y th =? 0); [done|]. cbn [mbind exc_bind Z.eqb].
  intros [= <-]. by rewrite (Z.quot_small r), Z.mul_0_l, Z.add_0_r.
Qed.

Lemma mapE_fmap {A B} (f : A -> exc B) (g : A -> B) l l' :
  (∀ a b, a ∈ l → f a = ok b → b = g a) → mapE f l = ok l' → l' = g <$> l.
Proof using.
  revert l'. induction l as [|a l IH]; intros l' Hf; cbn [mapE]; [by intros [= <-]|].
  intros (b & Hb & (k & Hk & [= <-])%exc_bind_ok)%exc_bind_ok. cbn [fmap list_fmap].
  rewrite (Hf a b) by (left || done). f_equal. apply IH; [intros; apply Hf; [by right|done]|done].
Qed.

Lemma MapToXY_exact cmd v b l :
  0 ≤ Row cmd < rows config → MapToXY config th plan mapping off cmd v b = ok l →
  l = zseq (BL config) ≫= fun k => (fun j =>
    (v.1 * (bank_x plan * num_x_grids th) + b.1 * num_x_grids th + Z.quot (Row cmd) (mat_dim_x th),
     v.2 * (bank_y plan * num_y_grids th) + b.2 * num_y_grids th +
       Z.quot (column (phy (with_column (Column cmd + k) (addr cmd))) * device_width config + j) (mat_dim_y th))) <$> zseq (device_width config).
Proof using Hgrid.
  clear Hfloor Hmap. intros Hrow (gx & Hgx%grid_id_x_quot & Hl)%exc_bind_ok. apply exc_bind_ok in Hl as ([a l'] & Hf & [= <-]).
  set (g := fun k : Z => _ <$> zseq (device_width config)).
  match type of Hf with foldE ?f _ _ = _ => set (step := f) in Hf end.
  assert (∀ n, 0 ≤ n → ∀ a l, foldE step (zseq n) (addr cmd, []) = ok (a, l) → a = with_column (Column cmd + n) (addr cmd) ∧ l = zseq n ≫= g) as Hall.
  { apply (natlike_ind (fun n => ∀ a l, foldE step (zseq n) (addr cmd, []) = ok (a, l) → a = with_column (Column cmd + n) (addr cmd) ∧ l = zseq n ≫= g)).
    - intros a0 l0 [= <- <-]. split; [|done]. unfold with_column, Column. rewrite Z.add_0_r. by destruct (addr cmd).
    - intros n Hn IH a0 l0. unfold Z.succ. rewrite zseq_succ, foldE_app by done. intros ([a1 l1] & H1 & H2)%exc_bind_ok.
      destruct (IH a1 l1 H1) as [-> ->]. cbn [foldE] in H2. apply exc_bind_ok in H2 as ([a2 l2] & H2 & [= <- <-]).
      unfold step in H2. cbv beta iota in H2. apply exc_bind_ok in H2 as (ph & Hph & H2). apply exc_bind_ok in H2 as (k & Hk & [= <- <-]).
      split; [unfold with_column; simpl; f_equal; lia|]. rewrite bind_app, bind_cons, app_nil_r. f_equal.
      eapply mapE_fmap; [|exact Hk]. intros j p _ Hp. apply exc_bind_ok in Hp as (gy & Hgy & Hp). injection Hp as Hp. rewrite <- Hp.
      apply grid_id_y_quot in Hgy; [|done]. unfold phy. rewrite Hph. by rewrite Hgx, Hgy. }
  destruct (decide (BL config < 0)) as [Hneg|Hpos]; [|exact (proj2 (Hall (BL config) ltac:(lia) _ _ Hf))].
  assert (zseq (BL config) = []) as Hz by (unfold zseq; replace (Z.to_nat (BL config)) with O by lia; done).
  clearbody g. rewrite Hz in Hf |- *. cbn [foldE] in Hf. by injection Hf as _ Hf.
Qed.

Lemma burst_heated ch cmd case e s s' :
  0 ≤ Row cmd < rows config →
  LocationMappingANDaddEnergy config th rest plan mapping off ch cmd case e s = ok s' →
  heated case (ddiv e (of_int (device_width config))) (burst_cells ch cmd) s s' ∧ refresh_count s' = refresh_count s.
Proof using Hgrid.
  clear Hfloor Hmap. intros Hrow (v & Hv & (b & Hb & (xy & Hxy & (z & Hz & Hrun)%exc_bind_ok)%exc_bind_ok)%exc_bind_ok)%exc_bind_ok.
  apply MapToXY_exact in Hxy; [|done]. apply energy_loop in Hrun. rewrite Hxy in Hrun.
  assert (burst_cells ch cmd = (fun p : Z * Z => z * dimX plan * dimY plan + p.2 * dimX plan + p.1) <$>
    (zseq (BL config) ≫= fun k => (fun j =>
    (v.1 * (bank_x plan * num_x_grids th) + b.1 * num_x_grids th + Z.quot (Row cmd) (mat_dim_x th),
     v.2 * (bank_y plan * num_y_grids th) + b.2 * num_y_grids th +
       Z.quot (column (phy (with_column (Column cmd + k) (addr cmd))) * device_width config + j) (mat_dim_y th))) <$> zseq (device_width config))) as ->; [|exact Hrun].
  unfold burst_cells, cell_at. rewrite Hv, Hb, Hz. rewrite fmap_of_bind. apply list_bind_ext; [|done]. intros k. by rewrite <- list_fmap_compose.
Qed.

Lemma refresh_heated ch cmd ib row0 case e s s' :
  0 ≤ row0 < rows config → -1 ≤ Column cmd < columns config →
  LocationMappingANDaddEnergy_RF config th rest plan mapping off ch cmd ib row0 case e s = ok s' →
  let bg := Z.quot ib (banks_per_group config) in
  let ba := Z.rem ib (banks_per_group config) in
  heated case e ((fun i => cell_at ch bg ba
      (Z.quot (row (phy (MkAddress (channel (addr cmd)) (rank (addr cmd)) bg ba row0 (column (addr cmd))))) (mat_dim_x th)) i)
      <$> zseq (num_y_grids th)) s s' ∧ refresh_count s' = refresh_count s.
Proof using Hgrid Hmap.
  clear Hfloor. intros Hrow Hcol Hrun bg ba. unfold LocationMappingANDaddEnergy_RF in Hrun.
  apply exc_bind_ok in Hrun as (g & Hg & Hrun). unfold zquot in Hg. destruct (banks_per_group config =? 0); [done|]. injection Hg as <-.
  cbv zeta in Hrun. fold bg ba in Hrun.
  apply exc_bind_ok in Hrun as (v & Hv & (b & Hb & (z & Hz & Hrun)%exc_bind_ok)%exc_bind_ok).
  apply exc_bind_ok in Hrun as (ph & Hph & (gx & Hgx%grid_id_x_quot & (gy & Hgy & Hrun)%exc_bind_ok)%exc_bind_ok).
  destruct (Hmap (MkAddress (channel (addr cmd)) (rank (addr cmd)) bg ba row0 (column (addr cmd)))) as (ph' & Hph' & Hr & _); [done|exact Hcol|].
  rewrite Hph in Hph'. injection Hph' as <-. apply grid_id_y_quot in Hgy; [|done].
  destruct (gr_mats Hgrid) as [_ Hmy]. rewrite Z.quot_0_l in Hgy by lia. subst gx gy. apply energy_loop in Hrun.
  match type of Hrun with heated _ _ ?L _ _ ∧ _ => assert ((fun i => cell_at ch bg ba
      (Z.quot (row (phy (MkAddress (channel (addr cmd)) (rank (addr cmd)) bg ba row0 (column (addr cmd))))) (mat_dim_x th)) i)
      <$> zseq (num_y_grids th) = L) as -> end; [|exact Hrun].
  apply list_fmap_ext. intros _ i _. unfold cell_at, phy. rewrite Hv, Hb, Hz, Hph. lia.
Qed.
(** The counters of refreshes. *)
Definition counts_ok (s : Thermal) : Prop := ∀ r ib n, get2 (refresh_count s) r ib = ok n → refresh_count_ok n.
Lemma calc_counts s : calc_ok s → counts_ok s.
Proof using.
  intros [_ _ [_ Hv] _ _] r ib n (l & Hl & Hn)%exc_bind_ok. apply vec_get_ok, zget_elem in Hl. rewrite Forall_forall in Hv.
  destruct (Hv l Hl) as [_ HP]. apply vec_get_ok, zget_elem in Hn. rewrite Forall_forall in HP. by apply HP.
Qed.
Definition counted (P : Z -> Z -> Prop) `{∀ i j, Decision (P i j)} (s s' : Thermal) : Prop :=
  ∀ i j, get2 (refresh_count s') i j = n ← get2 (refresh_count s) i j; ok (if decide (P i j) then next_count n else n).
Lemma refresh_rows_heated ch cmd r ib case e s s' :
  -1 ≤ Column cmd < columns config → counts_ok s →
  refresh_rows config th rest plan mapping off ch cmd r ib case e s = ok s' →
  heated case e (refreshed_cells ch cmd ib (count_of s r ib)) s s' ∧ counted (fun i j => i = r ∧ j = ib) s s'.
Proof using Hgrid Hmap.
  clear Hfloor. intros Hcol Hok (n & Hn & (c & Hc & Hrun)%exc_bind_ok)%exc_bind_ok. destruct (Hok r ib n Hn) as [Hn0 Hnr].
  destruct (gr_refresh Hgrid) as [H1 [k Hk]].
  apply (heated_loop _ (fun ir => (fun i => cell_at ch (Z.quot ib (banks_per_group config)) (Z.rem ib (banks_per_group config))
      (Z.quot (row (phy (MkAddress (channel (addr cmd)) (rank (addr cmd)) (Z.quot ib (banks_per_group config))
        (Z.rem ib (banks_per_group config)) (n * num_row_refresh rest + ir) (column (addr cmd))))) (mat_dim_x th)) i) <$> zseq (num_y_grids th))
      case e) in Hrun.
  - destruct Hrun as [Hh Hr]. split.
    + unfold refreshed_cells, count_of. rewrite Hn. apply (heated_app case e [] _ s (t_refresh c s) s'); [by apply heated_nil|exact Hh].
    + intros i j. rewrite Hr. simpl. by rewrite (upd2_get _ _ _ _ _ Hc).
  - intros ir s1 s2 Hir%elem_of_zseq Hs2. eapply refresh_heated; [|done|exact Hs2]. rewrite Hk. apply radix_range; [nia|done].
Qed.

Lemma counted_ok (P : Z -> Z -> Prop) `{∀ i j, Decision (P i j)} s s' : counts_ok s → counted P s s' → counts_ok s'.
Proof using Hgrid.
  clear Hmap Hfloor. intros Hok Hc r ib n Hn. rewrite Hc in Hn. apply exc_bind_ok in Hn as (m & Hm & [= <-]). apply Hok in Hm.
  case_decide; [by apply refresh_next|done].
Qed.

Lemma bind_ext_in {A B} (f g : A -> list B) l : (∀ a, a ∈ l → f a = g a) → l ≫= f = l ≫= g.
Proof using.
  induction l as [|a l IH]; intros Hf; [done|]. rewrite !bind_cons. rewrite (Hf a) by left. f_equal. apply IH. intros; apply Hf; by right.
Qed.

Lemma refresh_all_heated ch cmd r case e l s s' :
  -1 ≤ Column cmd < columns config → counts_ok s → NoDup l →
  foldE (fun ib s => refresh_rows config th rest plan mapping off ch cmd r ib case e s) l s = ok s' →
  heated case e (l ≫= fun ib => refreshed_cells ch cmd ib (count_of s r ib)) s s' ∧ counted (fun i j => i = r ∧ j ∈ l) s s'.
Proof using Hgrid Hmap.
  clear Hfloor. intros Hcol. revert s. induction l as [|ib l IH]; intros s Hok Hnd; cbn [foldE].
  { intros [= <-]. split; [by apply heated_nil|]. intros i j. destruct (get2 _ _ _); [|done]. cbn [mbind exc_bind].
    rewrite decide_False; [done|]. by intros [_ ?%elem_of_nil]. }
  intros (s1 & H1 & H2)%exc_bind_ok. apply NoDup_cons in Hnd as [Hni Hnd].
  destruct (refresh_rows_heated ch cmd r ib case e s s1 Hcol Hok H1) as [Hh Hc].
  destruct (IH s1 (counted_ok _ s s1 Hok Hc) Hnd H2) as [Hh' Hc']. split.
  - rewrite bind_cons. eapply heated_app; [exact Hh|]. erewrite bind_ext_in; [exact Hh'|]. intros ib' Hin. cbv beta. f_equal.
    unfold count_of. rewrite Hc. destruct (get2 (refresh_count s) r ib') as [n|]; [|done]. cbn [mbind exc_bind].
    rewrite decide_False; [done|]. by intros [_ ->].
  - intros i j. rewrite Hc', Hc. destruct (get2 (refresh_count s) i j) as [n|]; [|done]. cbn [mbind exc_bind]. f_equal.
    destruct (decide (i = r ∧ j = ib)) as [[-> ->]|Hn1].
    + rewrite decide_False by (by intros [_ ?]). rewrite decide_True; [done|]. split; [done|left].
    + destruct (decide (i = r ∧ j ∈ l)) as [[-> Hin]|Hn2]; [rewrite decide_True; [done|]; split; [done|by right]|].
      rewrite decide_False; [done|]. intros [-> [->|Hin]%elem_of_cons]; [by apply Hn1|by apply Hn2].
Qed.

Lemma bank_cell_at ch bg ba gx gy :
  0 ≤ ch < channels config → 0 ≤ bg < bankgroups config → 0 ≤ ba < banks_per_group config →
  0 ≤ gx < num_x_grids th → 0 ≤ gy < num_y_grids th → bank_cell ch bg ba (cell_at ch bg ba gx gy).
Proof using Hfloor.
  clear Hgrid Hmap. intros Hch Hbg Hba Hgx Hgy. destruct (map_places ch bg ba Hch Hbg Hba) as (v & b & z & Hv & Hb & Hz).
  unfold cell_at. rewrite Hv, Hb, Hz. by exists v, b, z, gx, gy.
Qed.

Lemma burst_in_bank ch cmd :
  0 ≤ ch < channels config → 0 ≤ Bankgroup cmd < bankgroups config → 0 ≤ Bank cmd < banks_per_group config →
  0 ≤ Row cmd < rows config → 0 ≤ Column cmd → Column cmd + BL config ≤ columns config →
  Forall (bank_cell ch (Bankgroup cmd) (Bank cmd)) (burst_cells ch cmd).
Proof using Hgrid Hfloor Hmap.
  intros Hch Hbg Hba Hr Hc Hcb. apply Forall_forall. intros idx (k & (j & -> & Hj%elem_of_zseq)%list_elem_of_fmap & Hk%elem_of_zseq)%list_elem_of_bind.
  destruct (grid_id_x_ok (Row cmd) Hr) as (gx & Egx & Hgx). apply grid_id_x_quot in Egx as <-.
  unfold phy. destruct (Hmap (with_column (Column cmd + k) (addr cmd))) as (ph & -> & _ & Hpc); [exact Hr|simpl; lia|].
  specialize (Hpc ltac:(simpl; lia)).
  destruct (grid_id_y_ok (Row cmd) (column ph * device_width config + j) Hr) as (gy & Egy & Hgy); [by apply radix_range|].
  apply grid_id_y_quot in Egy as <-; [|done]. by apply bank_cell_at.
Qed.

Lemma refreshed_in_bank ch cmd ib n :
  0 ≤ ch < channels config → 0 ≤ ib < banks config → -1 ≤ Column cmd < columns config → refresh_count_ok n →
  Forall (bank_cell ch (ib / banks_per_group config) (ib mod banks_per_group config)) (refreshed_cells ch cmd ib n).
Proof using Hgrid Hfloor Hmap.
  intros Hch Hib Hcol [Hn0 Hnr]. apply Forall_forall. intros idx (ir & (i & -> & Hi%elem_of_zseq)%list_elem_of_fmap & Hir%elem_of_zseq)%list_elem_of_bind.
  destruct (gr_banks Hgrid) as (Hg1 & Hg2 & _). destruct (bank_index ib Hib) as [Hbg Hba]. rewrite Z.quot_div_nonneg, Z.rem_mod_nonneg by lia.
  destruct (gr_refresh Hgrid) as [H1 [k Hk]]. unfold phy.
  match goal with |- context [GetPhyAddress mapping off ?a] => destruct (Hmap a) as (ph & -> & Hr & _) end;
    [simpl; rewrite Hk; apply radix_range; [nia|done]|exact Hcol|].
  destruct (grid_id_x_ok (row ph) Hr) as (gx & Egx & Hgx). apply grid_id_x_quot in Egx as <-. by apply bank_cell_at.
Qed.

(** What a command other than the refresh of one bank does. *)
Lemma UpdateCMDPower_heated ch cmd s s' :
  calc_ok s → cmd_in ch cmd → cmd_type cmd ≠ REFRESH_BANK →
  UpdateCMDPower config th rest power plan mapping off ch cmd s = ok s' →
  heated (cmd_case ch cmd) (heat_energy cmd) (heated_cells ch cmd s) s s' ∧
  counted (fun i j => cmd_type cmd = REFRESH ∧ i = ch * ranks config + Rank cmd ∧ 0 ≤ j < banks config) s s' ∧
  Forall (cmd_cells ch cmd) (heated_cells ch cmd s).
Proof using Hgrid Hfloor Hmap.
  intros Hs (Hch & Hrank & Hcmd) Hne Hrun. unfold UpdateCMDPower in Hrun. cbv zeta in Hrun. fold (cmd_case ch cmd) in Hrun.
  unfold heated_cells, heat_energy, cmd_cells. pose proof (calc_counts s Hs) as Hcnt.
  assert (∀ t, cmd_type cmd = t → t ≠ REFRESH → refresh_count s' = refresh_count s →
    counted (fun i j => t = REFRESH ∧ i = ch * ranks config + Rank cmd ∧ 0 ≤ j < banks config) s s') as Hkeep.
  { intros t _ Ht E i j. rewrite E. destruct (get2 _ _ _); [|done]. cbn [mbind exc_bind]. by rewrite decide_False by naive_solver. }
  destruct (cmd_type cmd) eqn:Et; try done;
    try (destruct Hcmd as (Hbg & Hba & Hr & Hc & Hcb); destruct (dltb _ _);
         [apply burst_heated in Hrun as [Hh E]; [split; [exact Hh|split; [by apply Hkeep|by apply burst_in_bank]]|done]
         |injection Hrun as <-; split; [by apply heated_nil|split; [by apply Hkeep|by constructor]]]);
    try (simpl in Hrun; injection Hrun as <-; split; [by apply heated_nil|split; [by apply Hkeep|by constructor]]).
  apply refresh_all_heated in Hrun as [Hh Hc]; [|done|done|apply NoDup_zseq].
  split; [exact Hh|]. split.
  - intros i j. rewrite Hc. destruct (get2 _ _ _) as [n|]; [|done]. cbn [mbind exc_bind]. f_equal. apply decide_ext. rewrite elem_of_zseq. naive_solver.
  - apply Forall_forall. intros idx (ib & Hidx & Hib%elem_of_zseq)%list_elem_of_bind. destruct (bank_index ib Hib) as [Hbg Hba].
      assert (refresh_count_ok (count_of s (ch * ranks config + Rank cmd) ib)) as Hn.
      { unfold count_of. destruct (get2 _ _ _) as [n|] eqn:En; [by apply Hcnt in En|]. destruct (gr_refresh Hgrid) as [? [k Hk]].
        destruct (gr_mats Hgrid), (gr_grids Hgrid). pose proof (gr_rows Hgrid). split; nia. }
      pose proof (refreshed_in_bank ch cmd ib _ Hch Hib Hcmd Hn) as Hf. rewrite Forall_forall in Hf.
      exists (ib / banks_per_group config), (ib mod banks_per_group config). split_and!; try lia. by apply Hf.
Qed.
End Bounds.

(** ** The floor plan fits *)

Lemma determineXY_divides xd yd total : 1 ≤ total → ∃ k, total = determineXY xd yd total * k ∧ 1 ≤ determineXY xd yd total ∧ 1 ≤ k.
Proof.
  intros Ht. unfold determineXY. set (f := fun (s : Z * double) (y : Z) => _).
  cut (∀ l s, Forall (fun y => 1 ≤ y) l → (∃ k, total = s.1 * k ∧ 1 ≤ s.1 ∧ 1 ≤ k) → ∃ k, total = (foldl f s l).1 * k ∧ 1 ≤ (foldl f s l).1 ∧ 1 ≤ k).
  { intros Hcut. apply Hcut; [|exists total; simpl; lia]. apply Forall_fmap, Forall_forall. intros y Hy%elem_of_zseq. simpl. lia. }
  induction l as [|y l IH]; intros s Hl Hs; [done|]. apply Forall_cons in Hl as [Hy Hl]. cbn [foldl]. apply IH; [done|].
  unfold f. cbv zeta. destruct (Z.eqb_spec (Z.quot total y * y) total) as [He|]; [|done]. destruct (dltb _ s.2); [|done].
  exists y. cbn [fst]. split; [lia|]. split; [|done]. destruct (decide (Z.quot total y ≤ 0)); nia.
Qed.

(** What [InitThermalParams] gives when it sets everything. *)
Lemma InitThermalParams_tile r gr d t tck th rest :
  InitThermalParams r gr d t tck = ok th → th_rest th = Some rest → row_tile th = 1 ∧ tile_row_num th = rows d.
Proof.
  unfold InitThermalParams. cbv zeta. intros He Hr. apply exc_bind_ok in He as (nx & _ & He). apply exc_bind_ok in He as (ny & _ & He).
  destruct (_ && _).
  - apply exc_bind_ok in He as (tile & _ & [= <-]). discriminate.
  - apply exc_bind_ok in He as (nr & _ & [= <-]). done.
Qed.

Section Floor.
Context (config : Config) (th : ThermalParams) (rest : ThermalRest) (plan : Plan).

(** The memories whose banks fit their floor plan: HBM stacks of at most two channels per
    die, with groups of four banks; HMC with one or two banks per layer of a vault; other
    memories without bank groups, or with groups of four banks that fit the shorter and
    the longer side. *)
Inductive floor_shape : Prop :=
  | shape_hbm : IsHBM config = true → channels config ≤ 2 * num_dies config → bankgroups config ≤ 4 → banks_per_group config ≤ 4 → floor_shape
  | shape_hmc k : IsHMC config = true → bankgroups config = 1 → 1 ≤ num_dies config → 1 ≤ k ≤ 2 → banks config = num_dies config * k → floor_shape
  | shape_flat : IsHMC config = false → IsHBM config = false → bankgroups config = 1 → floor_shape
  | shape_groups : IsHMC config = false → IsHBM config = false → 1 < bankgroups config → banks_per_group config ≤ 4 →
      2 ≤ Z.min (bank_x plan) (bank_y plan) → 2 * bankgroups config ≤ Z.max (bank_x plan) (bank_y plan) → floor_shape.

Context (Hgrid : grid_ok config th rest) (Hplan : new_plan config th = ok plan).

Lemma hbm_not_hmc : IsHBM config = true → IsHMC config = false.
Proof using. unfold IsHBM, IsHMC. by destruct (protocol config). Qed.

Lemma half x : 0 ≤ x < 4 → 0 ≤ Z.quot x 2 < 2 ∧ 0 ≤ Z.rem x 2 < 2 ∧ x = 2 * Z.quot x 2 + Z.rem x 2.
Proof using. intros Hx. pose proof (Z.quot_rem x 2 ltac:(lia)). pose proof (Z.rem_bound_pos x 2 ltac:(lia) ltac:(lia)). lia. Qed.
Lemma split_id x a b : 1 ≤ b → 0 ≤ x < a * b → 0 ≤ Z.quot x b < a ∧ 0 ≤ Z.rem x b < b ∧ x = b * Z.quot x b + Z.rem x b.
Proof using.
  intros Hb Hx. pose proof (Z.quot_rem x b ltac:(lia)). pose proof (Z.rem_bound_pos x b ltac:(lia) ltac:(lia)).
  split; [|split; [lia|done]]. rewrite Z.quot_div_nonneg by lia. split; [apply Z.div_pos; lia|apply Z.div_lt_upper_bound; lia].
Qed.

Lemma zquot_pos a b : 1 ≤ b → zquot a b = ok (Z.quot a b).
Proof using. intros Hb. unfold zquot. destruct (Z.eqb_spec b 0); [lia|done]. Qed.

(** The place of a bank, and which bank is there. *)
Definition placed (ch bg ba : Z) (v b : Z * Z) (z : Z) : Prop :=
  MapToVault config rest plan ch = ok v ∧ MapToBank config rest plan bg ba = ok b ∧ MapToZ config rest plan ch ba = ok z.
Definition in_memory (ch bg ba : Z) : Prop :=
  0 ≤ ch < channels config ∧ 0 ≤ bg < bankgroups config ∧ 0 ≤ ba < banks_per_group config.
(** Every bank has a place on the floor, and no two have the same. *)
Record floor_plan (VX VY : Z) : Prop := {
  fp_floor : floor_ok config th rest plan VX VY;
  fp_inj : ∀ ch bg ba ch' bg' ba' v b z, in_memory ch bg ba → in_memory ch' bg' ba' → placed ch bg ba v b z → placed ch' bg' ba' v b z →
    bg = bg' ∧ ba = ba' ∧ (IsHMC config || IsHBM config = true → ch = ch')
}.

Lemma hbm_floor :
  IsHBM config = true → channels config ≤ 2 * num_dies config → bankgroups config ≤ 4 → banks_per_group config ≤ 4 → floor_plan 1 2.
Proof using Hgrid Hplan.
  intros Hb Hc Hg Hp. pose proof (hbm_not_hmc Hb) as Hm. destruct (gr_ranks _ _ _ Hgrid). destruct (gr_banks _ _ _ Hgrid) as (? & ? & _).
  pose proof Hplan as Ep. unfold new_plan in Ep. rewrite Hm, Hb in Ep. apply (f_equal (fun x => match x with ok p => p | err _ => plan end)) in Ep.
  cbn beta iota in Ep. split; [split|]; rewrite <- ?Ep; clear Ep.
  - cbn [bank_x bank_y numP]. lia.
  - cbn [dimX dimY bank_x bank_y]. lia.
  - rewrite Hm, Hb. done.
  - intros ch Hch. unfold MapToVault. rewrite Hm, Hb. eexists. split; [done|]. cbn [fst snd]. pose proof (Z.rem_bound_pos ch 2 ltac:(lia) ltac:(lia)). lia.
  - intros bg ba Hbg Hba. unfold MapToBank. rewrite Hm, Hb. eexists. split; [done|]. cbn [fst snd bank_x bank_y]. pose proof (half ba ltac:(lia)). lia.
  - intros ch ba Hch Hba. unfold MapToZ. rewrite Hm, Hb. eexists. split; [done|]. cbn [numP].
    destruct (split_id ch (num_dies config) 2) as [? _]; [lia|lia|]. lia.
  - intros ch bg ba ch' bg' ba' v b z (Hch & Hbg & Hba) (Hch' & Hbg' & Hba') (Hv & Hbk & Hz) (Hv' & Hbk' & Hz').
    unfold MapToVault, MapToBank, MapToZ in *. rewrite Hm, Hb in *. injection Hv as <-. injection Hv' as Hv'. injection Hbk as <-. injection Hbk' as Hq1 Hq2.
    injection Hz as <-. injection Hz' as Hz'. pose proof (half ba ltac:(lia)). pose proof (half ba' ltac:(lia)).
    pose proof (Z.quot_rem ch 2 ltac:(lia)). pose proof (Z.quot_rem ch' 2 ltac:(lia)). lia.
Qed.

(** Banks in rows or columns of a rectangle of [a] by [b]. *)
Lemma rectangle (order : bool) x a b :
  1 ≤ a → 1 ≤ b → 0 ≤ x < a * b →
  let p := swap_if order (Z.quot x (if order then a else b), Z.rem x (if order then a else b)) in
  0 ≤ p.1 < a ∧ 0 ≤ p.2 < b.
Proof using.
  intros Ha Hb Hx. destruct order; unfold swap_if; cbn [fst snd].
  - pose proof (split_id x b a Ha ltac:(lia)). lia.
  - pose proof (split_id x a b Hb ltac:(lia)). lia.
Qed.
Lemma rectangle_inj (order : bool) x y n : 1 ≤ n → swap_if order (Z.quot x n, Z.rem x n) = swap_if order (Z.quot y n, Z.rem y n) → x = y.
Proof using.
  intros Hn He. pose proof (Z.quot_rem x n ltac:(lia)). pose proof (Z.quot_rem y n ltac:(lia)).
  destruct order; unfold swap_if in He; cbn [fst snd] in He; injection He as He1 He2; congruence.
Qed.

Lemma hmc_floor k :
  IsHMC config = true → bankgroups config = 1 → 1 ≤ num_dies config → 1 ≤ k ≤ 2 → banks config = num_dies config * k →
  floor_plan (vault_x plan) (vault_y plan).
Proof using Hgrid Hplan.
  intros Hm Hg Hd Hk Hbk. destruct (gr_ranks _ _ _ Hgrid). destruct (gr_banks _ _ _ Hgrid) as (_ & Hb1 & Hb2).
  destruct (determineXY_divides (dmul (of_int 1) (bank_asr th)) (dmul (of_int 2) (of_int 1)) (channels config)) as (vy & Hc & Hx & Hy); [done|].
  pose proof Hplan as Ep. unfold new_plan in Ep. rewrite Hm in Ep. cbv zeta in Ep.
  set (vx := determineXY _ _ (channels config)) in *. rewrite zquot_pos in Ep by done. cbn [mbind exc_bind] in Ep.
  assert (Z.quot (channels config) vx = vy) as Hvy by (rewrite Hc, Z.mul_comm; apply Z.quot_mul; lia). rewrite Hvy in Ep.
  apply (f_equal (fun x => match x with ok p => p | err _ => plan end)) in Ep. cbn beta iota in Ep.
  assert (Z.quot (banks config) (num_dies config) = k) as Hq by (rewrite Hbk, Z.mul_comm; apply Z.quot_mul; lia).
  assert (vault_x plan = vx ∧ vault_y plan = vy ∧ bank_x plan = 1 ∧ bank_y plan = 2 ∧ numP plan = num_dies config + 1 ∧
    dimX plan = vx * 1 * num_x_grids th ∧ dimY plan = vy * 2 * num_y_grids th ∧ num_case plan = 1) as (Evx & Evy & Ebx & Eby & En & EdX & EdY & Ec) by (rewrite <- Ep; done).
  clear Ep Hvy. clearbody vx.
  assert (∀ ba, 0 ≤ ba < banks_per_group config → 0 ≤ Z.quot ba k < num_dies config ∧ 0 ≤ Z.rem ba k < k ∧ ba = k * Z.quot ba k + Z.rem ba k) as Hsplit.
  { intros ba Hba. apply split_id; [lia|]. rewrite <- Hbk, Hb2, Hg. lia. }
  assert (∀ ch, MapToVault config rest plan ch = ok (swap_if (bank_order rest =? 0) (Z.quot ch (if bank_order rest =? 0 then vx else vy), Z.rem ch (if bank_order rest =? 0 then vx else vy)))) as Ev.
  { intros ch. unfold MapToVault. rewrite Hm, Evx, Evy. cbv zeta. rewrite zquot_pos by (destruct (bank_order rest =? 0); lia). cbn [mbind exc_bind]. by destruct (bank_order rest =? 0). }
  assert (∀ bg ba, 0 ≤ bg < 1 → MapToBank config rest plan bg ba = ok (swap_if (bank_order rest =? 0)
    (Z.quot (Z.rem ba k) (if bank_order rest =? 0 then 1 else 2), Z.rem (Z.rem ba k) (if bank_order rest =? 0 then 1 else 2)))) as Eb.
  { intros bg ba Hbg. unfold MapToBank. assert (bg = 0) as -> by lia. rewrite Hm, Ebx, Eby, Z.mul_0_l, Z.add_0_l, (zquot_pos (banks config)), Hq by done. cbn [mbind exc_bind].
    rewrite (zquot_pos ba) by lia. cbn [mbind exc_bind]. rewrite zquot_pos by (destruct (bank_order rest =? 0); lia). done. }
  assert (∀ ch ba, MapToZ config rest plan ch ba = ok (if bank_layer_order rest =? 0 then Z.quot ba k else num_dies config + 1 - Z.quot ba k - 2)) as Ez.
  { intros ch ba. unfold MapToZ. rewrite Hm, En, (zquot_pos (banks config)), Hq by done. cbn [mbind exc_bind]. rewrite zquot_pos by lia. done. }
  split; [split|].
  - rewrite Evx, Evy, Ebx, Eby, En. lia.
  - rewrite EdX, EdY, Evx, Evy, Ebx, Eby. lia.
  - rewrite Hm, Ec. done.
  - intros ch Hch. rewrite Ev. eexists. split; [done|]. rewrite Evx, Evy. apply rectangle; [done|done|lia].
  - intros bg ba Hbg Hba. rewrite Eb by lia. eexists. split; [done|]. rewrite Ebx, Eby. destruct (Hsplit ba Hba) as (_ & Hr & _).
    apply rectangle; lia.
  - intros ch ba Hch Hba. rewrite Ez. eexists. split; [done|]. rewrite En. destruct (Hsplit ba Hba) as (Hr & _). destruct (bank_layer_order rest =? 0); lia.
  - intros ch bg ba ch' bg' ba' v b z (Hch & Hbg & Hba) (Hch' & Hbg' & Hba') (Hv & Hbk0 & Hz) (Hv' & Hbk' & Hz').
    rewrite Ev in Hv, Hv'. rewrite Eb in Hbk0, Hbk' by lia. rewrite Ez in Hz, Hz'. injection Hv as <-. injection Hv' as Hv'. injection Hbk0 as <-. injection Hbk' as Hbk'.
    split; [lia|]. split; [|intros _; symmetry; eapply (rectangle_inj (bank_order rest =? 0)); [|exact Hv']; destruct (bank_order rest =? 0); lia].
    assert (Z.rem ba' k = Z.rem ba k) as Hrem by (eapply (rectangle_inj (bank_order rest =? 0)); [|exact Hbk']; destruct (bank_order rest =? 0); lia).
    assert (Z.quot ba' k = Z.quot ba k) as Hquo by (injection Hz as <-; injection Hz' as Hz'; destruct (bank_layer_order rest =? 0); lia).
    pose proof (Hsplit ba Hba). pose proof (Hsplit ba' Hba'). lia.
Qed.

Lemma flat_dims :
  IsHMC config = false → IsHBM config = false →
  ∃ bx by_, banks config = bx * by_ ∧ 1 ≤ bx ∧ 1 ≤ by_ ∧ bank_x plan = bx ∧ bank_y plan = by_ ∧ numP plan = 1 ∧
    dimX plan = bx * num_x_grids th ∧ dimY plan = by_ * num_y_grids th ∧ num_case plan = ranks config * channels config.
Proof using Hgrid Hplan.
  intros Hm Hh. destruct (gr_banks _ _ _ Hgrid) as (Hb0 & Hb1 & Hb2).
  destruct (determineXY_divides (bank_asr th) (of_int 1) (banks config)) as (by_ & Hc & Hx & Hy); [nia|].
  pose proof Hplan as Ep. unfold new_plan in Ep. rewrite Hm, Hh in Ep. cbv zeta in Ep.
  set (bx := determineXY _ _ (banks config)) in *. rewrite zquot_pos in Ep by done. cbn [mbind exc_bind] in Ep.
  assert (Z.quot (banks config) bx = by_) as Hby by (rewrite Hc, Z.mul_comm; apply Z.quot_mul; lia). rewrite Hby in Ep.
  apply (f_equal (fun x => match x with ok p => p | err _ => plan end)) in Ep. cbn beta iota in Ep.
  exists bx, by_. rewrite <- Ep. by split_and!.
Qed.

Lemma flat_floor :
  IsHMC config = false → IsHBM config = false → bankgroups config = 1 → floor_plan 1 1.
Proof using Hgrid Hplan.
  intros Hm Hh Hg. destruct (gr_ranks _ _ _ Hgrid). destruct (gr_banks _ _ _ Hgrid) as (_ & Hb1 & Hb2).
  destruct (flat_dims Hm Hh) as (bx & by_ & Hc & Hx & Hy & Ebx & Eby & En & EdX & EdY & Ec).
  assert (1 <? bankgroups config = false) as Hone by (apply Z.ltb_ge; lia).
  assert (∀ bg ba, 0 ≤ bg < 1 → MapToBank config rest plan bg ba = ok (swap_if (bank_order rest =? 0)
    (Z.quot ba (if bank_order rest =? 0 then bx else by_), Z.rem ba (if bank_order rest =? 0 then bx else by_)))) as Eb.
  { intros bg ba Hbg. unfold MapToBank. assert (bg = 0) as -> by lia. rewrite Hm, Hh, Hone, Ebx, Eby, Z.mul_0_l, Z.add_0_l. rewrite zquot_pos by (destruct (bank_order rest =? 0); lia). done. }
  split; [split|].
  - rewrite Ebx, Eby, En. lia.
  - rewrite EdX, EdY, Ebx, Eby. lia.
  - rewrite Hm, Hh, Ec. done.
  - intros ch Hch. unfold MapToVault. rewrite Hm, Hh. by exists (0, 0).
  - intros bg ba Hbg Hba. rewrite Eb by lia. eexists. split; [done|]. rewrite Ebx, Eby. apply rectangle; lia.
  - intros ch ba Hch Hba. unfold MapToZ. rewrite Hm, Hh. exists 0. split; [done|lia].
  - intros ch bg ba ch' bg' ba' v b z (Hch & Hbg & Hba) (Hch' & Hbg' & Hba') (_ & Hbk0 & _) (_ & Hbk' & _).
    rewrite Eb in Hbk0, Hbk' by lia. injection Hbk0 as <-. injection Hbk' as Hbk'. split; [lia|]. split; [|by rewrite Hm, Hh].
    symmetry. eapply (rectangle_inj (bank_order rest =? 0)); [|exact Hbk']. destruct (bank_order rest =? 0); lia.
Qed.

Lemma groups_floor :
  IsHMC config = false → IsHBM config = false → 1 < bankgroups config → banks_per_group config ≤ 4 →
  2 ≤ Z.min (bank_x plan) (bank_y plan) → 2 * bankgroups config ≤ Z.max (bank_x plan) (bank_y plan) → floor_plan 1 1.
Proof using Hgrid Hplan.
  intros Hm Hh Hg H4 Hmin Hmax. destruct (gr_ranks _ _ _ Hgrid). destruct (gr_banks _ _ _ Hgrid) as (_ & Hb1 & Hb2).
  destruct (flat_dims Hm Hh) as (bx & by_ & Hc & Hx & Hy & Ebx & Eby & En & EdX & EdY & Ec).
  apply Z.ltb_lt in Hg as Hmany. rewrite Ebx, Eby in Hmin, Hmax.
  assert (∀ bg ba, MapToBank config rest plan bg ba = ok (let '(x, y) := swap_if (bank_order rest =? 0) (Z.quot ba 2, Z.rem ba 2) in
    if bx <=? by_ then (x, y + bg * 2) else (x + bg * 2, y))) as Eb.
  { intros bg ba. unfold MapToBank. cbv zeta. rewrite Hm, Hh, Hmany, Ebx, Eby. by destruct (swap_if _ _). }
  split; [split|].
  - rewrite Ebx, Eby, En. lia.
  - rewrite EdX, EdY, Ebx, Eby. lia.
  - rewrite Hm, Hh, Ec. done.
  - intros ch Hch. unfold MapToVault. rewrite Hm, Hh. by exists (0, 0).
  - intros bg ba Hbg Hba. rewrite Eb. eexists. split; [done|]. rewrite Ebx, Eby. pose proof (half ba ltac:(lia)).
    destruct (bank_order rest =? 0), (Z.leb_spec bx by_); cbn [swap_if fst snd]; lia.
  - intros ch ba Hch Hba. unfold MapToZ. rewrite Hm, Hh. exists 0. split; [done|lia].
  - intros ch bg ba ch' bg' ba' v b z (Hch & Hbg & Hba) (Hch' & Hbg' & Hba') (_ & Hbk0 & _) (_ & Hbk' & _).
    rewrite Eb in Hbk0, Hbk'. injection Hbk0 as <-. injection Hbk' as Hbk'. pose proof (half ba ltac:(lia)). pose proof (half ba' ltac:(lia)).
    destruct (bank_order rest =? 0), (bx <=? by_); cbn [swap_if fst snd] in Hbk'; injection Hbk' as Hq1 Hq2;
      (split; [lia|]; split; [lia|by rewrite Hm, Hh]).
Qed.

Lemma floor_ok_all : floor_shape → ∃ VX VY, floor_plan VX VY.
Proof using Hgrid Hplan.
  intros Hs. destruct Hs as [H1 H2 H3 H4|k H1 H2 H3 H4 H5|H1 H2 H3|H1 H2 H3 H4 H5 H6]; eexists _, _.
  - by apply hbm_floor.
  - by eapply hmc_floor.
  - by apply flat_floor.
  - by apply groups_floor.
Qed.
End Floor.

(** ** Banks do not share cells *)

Lemma mapping_ok_none (config : Config) off : mapping_ok config None off.
Proof. intros a Hr Hc. exists a. split; [done|]. split; [done|]. lia. Qed.

(** A mapping that has exactly the bits of a row and at most those of a column. *)
Lemma mapping_ok_some (config : Config) mp off :
  mapping_wf mp off → (∀ pos, mp !! 4%nat = Some pos → 2 ^ width_of pos ≤ rows config) →
  (∀ pos, mp !! 5%nat = Some pos → 2 ^ width_of pos ≤ columns config) → mapping_ok config (Some mp) off.
Proof.
  intros Hwf Hr Hc a _ _. destruct (GetPhyAddress_total mp off a Hwf) as (b & Hb & Hf). exists b. split; [done|].
  destruct mp as [|p0 [|p1 [|p2 [|p3 [|p4 [|p5 [|]]]]]]]; try (by destruct Hwf). unfold fields_fit, origin_fields in Hf.
  do 4 apply Forall2_cons in Hf as [_ Hf]. apply Forall2_cons in Hf as [H4 Hf]. apply Forall2_cons in Hf as [H5 _].
  specialize (Hr p4 eq_refl). specialize (Hc p5 eq_refl). unfold fits in *. split; [lia|]. intros _. lia.
Qed.

Lemma coordinate_inj v b g v' b' g' B n :
  0 ≤ b < B → 0 ≤ b' < B → 0 ≤ g < n → 0 ≤ g' < n → v * (B * n) + b * n + g = v' * (B * n) + b' * n + g' → v = v' ∧ b = b' ∧ g = g'.
Proof.
  intros Hb Hb' Hg Hg' He. destruct (radix_inj (v * B + b) (v' * B + b') g g' n) as [Hvb ->]; [done|done|lia|].
  destruct (radix_inj v v' b b' B) as [-> ->]; [done|done|lia|]. done.
Qed.

Lemma bank_cells_disjoint (config : Config) th rest plan VX VY ch bg ba ch' bg' ba' idx :
  floor_plan config th rest plan VX VY → in_memory config ch bg ba → in_memory config ch' bg' ba' →
  bank_cell config th rest plan ch bg ba idx → bank_cell config th rest plan ch' bg' ba' idx →
  bg = bg' ∧ ba = ba' ∧ (IsHMC config || IsHBM config = true → ch = ch').
Proof.
  intros [Hfl Hinj] Hin Hin' (v & b & z & gx & gy & Ev & Eb & Ez & Hgx & Hgy & Hidx) (v' & b' & z' & gx' & gy' & Ev' & Eb' & Ez' & Hgx' & Hgy' & Hidx').
  destruct Hin as (Hch & Hbg & Hba) eqn:E0, Hin' as (Hch' & Hbg' & Hba') eqn:E1. clear E0 E1. destruct Hfl as [Hpos [HdX HdY] _ Hv Hb Hz].
  destruct (Hv ch Hch) as (u & Eu & Hv1 & Hv2). rewrite Ev in Eu. injection Eu as <-.
  destruct (Hv ch' Hch') as (u & Eu & Hv1' & Hv2'). rewrite Ev' in Eu. injection Eu as <-.
  destruct (Hb bg ba Hbg Hba) as (u & Eu & Hb1 & Hb2). rewrite Eb in Eu. injection Eu as <-.
  destruct (Hb bg' ba' Hbg' Hba') as (u & Eu & Hb1' & Hb2'). rewrite Eb' in Eu. injection Eu as <-.
  pose proof (coordinate v.1 b.1 gx VX (bank_x plan) (num_x_grids th) Hv1 Hb1 Hgx) as Hx. rewrite <- HdX in Hx.
  pose proof (coordinate v'.1 b'.1 gx' VX (bank_x plan) (num_x_grids th) Hv1' Hb1' Hgx') as Hx'. rewrite <- HdX in Hx'.
  pose proof (coordinate v.2 b.2 gy VY (bank_y plan) (num_y_grids th) Hv2 Hb2 Hgy) as Hy. rewrite <- HdY in Hy.
  pose proof (coordinate v'.2 b'.2 gy' VY (bank_y plan) (num_y_grids th) Hv2' Hb2' Hgy') as Hy'. rewrite <- HdY in Hy'.
  rewrite Hidx in Hidx'. set (X := v.1 * _ + _ + _) in *. set (X' := v'.1 * _ + _ + _) in *. set (Y := v.2 * _ + _ + _) in *. set (Y' := v'.2 * _ + _ + _) in *.
  destruct (radix_inj (z * dimY plan + Y) (z' * dimY plan + Y') X X' (dimX plan)) as [HzY HX]; [done|done|lia|].
  destruct (radix_inj z z' Y Y' (dimY plan)) as [-> HY]; [done|done|done|].
  destruct (coordinate_inj _ _ _ _ _ _ _ _ Hb1 Hb1' Hgx Hgx' HX) as (Hq1 & Hq2 & _).
  destruct (coordinate_inj _ _ _ _ _ _ _ _ Hb2 Hb2' Hgy Hgy' HY) as (Hq3 & Hq4 & _).
  assert (v' = v) as -> by (destruct v, v'; simpl in *; congruence). assert (b' = b) as -> by (destruct b, b'; simpl in *; congruence).
  by apply (Hinj ch bg ba ch' bg' ba' v b z').
Qed.

(** ** Theorems: commands *)

(** (C38) The energy of a command, exactly, where the grid of a bank covers its rows and
    columns ([grid_ok]), the banks fit the floor plan ([floor_shape]) and locations keep
    addresses in range ([mapping_ok]). An activation, read or write adds its energy, if
    positive, shared by the beats, bits and devices, to the cell the code finds for each
    bit of its burst (it takes the column of an address, which counts bursts, for one that
    counts columns: [columns_count_bursts]); a refresh
    of a rank adds its share to the cells of every row it refreshes in every bank, and moves
    the counters of these banks on; other commands add nothing. Every addition goes to
    both maps, to a cell of the bank of the command (of a bank of its channel for the
    refresh), nothing else changes, no access leaves a map, and no two banks share a cell.
    (The refresh of one bank is apart: [bank_refresh_power].) *)
Theorem command_power (config : Config) th rest power plan mapping off ch cmd s :
  grid_ok config th rest → new_plan config th = ok plan → floor_shape config plan → mapping_ok config mapping off → 0 ≤ BL config →
  calc_ok config rest plan s → cmd_in config ch cmd → cmd_type cmd ≠ REFRESH_BANK →
  (∃ s', UpdateCMDPower config th rest power plan mapping off ch cmd s = ok s' ∧ calc_ok config rest plan s' ∧
    heated (cmd_case config ch cmd) (heat_energy config th rest power cmd)
      (heated_cells config th rest power plan mapping off ch cmd s) s s' ∧
    counted config rest (fun i j => cmd_type cmd = REFRESH ∧ i = ch * ranks config + Rank cmd ∧ 0 ≤ j < banks config) s s' ∧
    Forall (cmd_cells config th rest plan ch cmd) (heated_cells config th rest power plan mapping off ch cmd s)) ∧
  ∀ bg ba ch' bg' ba' idx, in_memory config ch bg ba → in_memory config ch' bg' ba' →
    bank_cell config th rest plan ch bg ba idx → bank_cell config th rest plan ch' bg' ba' idx →
    bg = bg' ∧ ba = ba' ∧ (IsHMC config || IsHBM config = true → ch = ch').
Proof.
  intros Hg Hp Hs Hm HB Hc Hcmd Hne. destruct (floor_ok_all config th rest plan Hg Hp Hs) as (VX & VY & Hfl). split.
  - pose proof (fp_floor _ _ _ _ _ _ Hfl) as Hfo.
    destruct (UpdateCMDPower_ok config th rest power plan mapping off VX VY Hg Hfo Hm ch cmd s Hc Hcmd HB) as (s' & Hr & Hok & _).
    exists s'. split; [done|]. split; [done|]. by apply (UpdateCMDPower_heated config th rest power plan mapping off VX VY Hg Hfo Hm).
  - intros. by eapply bank_cells_disjoint.
Qed.

(** The refresh of one bank passes the number of the bank in its group, where the comment
    at the location mapping says that it gets the number in the rank: it stays inside
    the maps, but heats the bank of group 0. *)
Lemma bank_refresh_power (config : Config) th rest power plan mapping off ch cmd s :
  grid_ok config th rest → new_plan config th = ok plan → floor_shape config plan → mapping_ok config mapping off → 0 ≤ BL config →
  calc_ok config rest plan s → cmd_in config ch cmd → cmd_type cmd = REFRESH_BANK →
  ∃ s', UpdateCMDPower config th rest power plan mapping off ch cmd s = ok s' ∧ calc_ok config rest plan s' ∧
    heats (cmd_case config ch cmd) (bank_cell config th rest plan ch 0 (Bank cmd)) s s'.
Proof.
  intros Hg Hp Hs Hm HB Hc Hcmd Ht. destruct (floor_ok_all config th rest plan Hg Hp Hs) as (VX & VY & Hfl).
  destruct (UpdateCMDPower_ok config th rest power plan mapping off VX VY Hg (fp_floor _ _ _ _ _ _ Hfl) Hm ch cmd s Hc Hcmd HB)
    as (s' & Hr & Hok & Hh).
  exists s'. split; [done|]. split; [done|]. eapply heats_mono; [|exact Hh]. intros j. unfold cmd_cells. by rewrite Ht.
Qed.

(** Without stacked dies the loop over the cells never ends: it counts the channel, not
    the cell, so neither an epoch nor the final report is ever finished. *)
Theorem epoch_never_ends (config : Config) rest power plan solve m size cap iter fuel clk s :
  IsHMC config = false → IsHBM config = false → 1 ≤ channels config → 1 ≤ ranks config → 1 ≤ cells plan →
  (∀ s', PrintTransPT config rest power plan m size cap iter fuel clk s ≠ ok s') ∧
  (∀ s', PrintFinalPT config rest plan solve m size fuel clk s ≠ ok s').
Proof.
  intros Hm Hh Hc Hr Hn.
  assert (∀ f at_i case e i map r, stray_loop plan f at_i case e i map ≠ ok r) as Hloop.
  { induction f as [|f IH]; intros at_i case e i map r; cbn [stray_loop];
      (assert (0 <? cells plan = true) as -> by (apply Z.ltb_lt; lia)); [done|].
    intros (m' & _ & He)%exc_bind_ok. destruct (i =? 2 ^ 31 - 1); [done|]. by apply IH in He. }
  assert (∀ n f at_i bg map r, stray_channels config plan n f at_i bg 0 map ≠ ok r) as Hstray.
  { intros n f at_i bg map r. destruct n as [|n]; cbn [stray_channels];
      (assert (0 <? channels config = true) as -> by (apply Z.ltb_lt; lia)); [done|].
    intros (st & He & _)%exc_bind_ok. unfold stray_ranks in He. replace (ranks config) with (ranks config - 1 + 1) in He by lia.
    rewrite zseq_cons in He by lia. cbn [foldE] in He. apply exc_bind_ok in He as (st' & He & _). apply exc_bind_ok in He as (b & _ & He).
    by apply Hloop in He. }
  split; intros s' Hrun.
  - unfold PrintTransPT in Hrun. apply exc_bind_ok in Hrun as (s1 & He & _). unfold UpdateEpoch in He. rewrite Hm, Hh in He. cbn [orb] in He.
    apply exc_bind_ok in He as (c & He & _). by apply Hstray in He.
  - unfold PrintFinalPT in Hrun. rewrite Hm, Hh in Hrun. cbn [orb] in Hrun. apply exc_bind_ok in Hrun as (a & He & _). by apply Hstray in He.
Qed.

(** ** Lemmas: epochs of stacked memories *)

Section Stacked.
Context (config : Config) (th : ThermalParams) (rest : ThermalRest) (power : PowerParams) (plan : Plan).
Context (solve : Z -> list double -> list Z -> list (option Z) -> list double -> list double).
Context (m : list entry) (size : Z) (iter : Z).
Context (Hstack : IsHMC config || IsHBM config = true) (HP : 1 ≤ numP plan) (HX : 1 ≤ dimX plan) (HY : 1 ≤ dimY plan).
Context (Hcases : num_case plan = 1) (Hmidx : calc_Midx rest plan = ok (m, size)).
Context (Hsolve : ∀ n a asub xa rhs, length (solve n a asub xa rhs) = length rhs).
Local Notation X := (dimX plan + 2).
Local Notation Y := (dimY plan + 2).
Local Notation cap := (calc_Cap rest plan).
Local Notation map_ok := (shape any_double (num_case plan) (cells plan)).

Lemma upd2_loop (f : double -> double) case (l : list Z) v :
  map_ok v → 0 ≤ case < num_case plan → (∀ i, i ∈ l → 0 ≤ i < cells plan) → ∃ v', foldE (fun i v => upd2 f v case i) l v = ok v' ∧ map_ok v'.
Proof using.
  intros Hv Hc Hl. apply (foldE_total map_ok); [|done]. intros i v1 Hi H1.
  destruct (upd2_ok any_double f _ _ v1 case i H1 Hc (Hl i Hi)) as (v2 & E & H2 & _); [done|]. by exists v2.
Qed.

Lemma bg_cells_range : 0 ≤ bg_cells plan ≤ cells plan.
Proof using HP HX HY. unfold bg_cells, cells. nia. Qed.

Lemma UpdatePowerMaps_ok bg period avg v : map_ok v → ∃ v', UpdatePowerMaps plan bg period avg v = ok v' ∧ map_ok v'.
Proof using HP HX HY.
  intros Hv. pose proof bg_cells_range. unfold UpdatePowerMaps. apply (foldE_total map_ok); [|done]. intros j v1 Hj%elem_of_zseq H1.
  destruct (upd2_loop (fun x => dadd x bg) j (zseq (bg_cells plan)) v1 H1 Hj) as (v2 & -> & H2); [intros i Hi%elem_of_zseq; lia|]. cbn [mbind exc_bind].
  apply upd2_loop; [done|done|]. intros i (k & -> & Hk%elem_of_zseq)%list_elem_of_fmap. lia.
Qed.

(** The powers of all nodes, the border included. *)
Definition shape3 (a : array3) : Prop :=
  Z.of_nat (length a) = X ∧ Forall (fun p => Z.of_nat (length p) = Y ∧ Forall (fun q => Z.of_nat (length q) = numP plan) p) a.
Definition read3 (a : array3) (i j l : Z) : double := match get3 a i j l with ok x => x | err _ => dzero end.

Lemma shape3_get a i j l :
  shape3 a → 0 ≤ i < X → 0 ≤ j < Y → 0 ≤ l < numP plan →
  ∃ p q x, vec_get a i = ok p ∧ vec_get p j = ok q ∧ vec_get q l = ok x ∧ Z.of_nat (length p) = Y ∧ Forall (fun q => Z.of_nat (length q) = numP plan) p ∧ Z.of_nat (length q) = numP plan.
Proof using.
  intros [Ha Hf] Hi Hj Hl. destruct (zget_is_Some a i) as [p Hp]; [lia|]. apply zget_elem in Hp as Hpin. rewrite Forall_forall in Hf. destruct (Hf p Hpin) as [Hpl Hpf].
  destruct (zget_is_Some p j) as [q Hq]; [lia|]. apply zget_elem in Hq as Hqin. pose proof Hpf as Hpf'. rewrite Forall_forall in Hpf. pose proof (Hpf q Hqin) as Hql.
  destruct (zget_is_Some q l) as [x Hx]; [lia|]. exists p, q, x. by split_and!; [apply vec_get_ok..| | |].
Qed.
Lemma shape3_powers a : shape3 a → powers a (numP plan) X Y (read3 a).
Proof using.
  intros Ha i j l Hi Hj Hl. destruct (shape3_get a i j l Ha Hi Hj Hl) as (p & q & x & Ep & Eq & Ex & _). unfold read3, get3. rewrite Ep. cbn [mbind exc_bind].
  rewrite Eq. cbn [mbind exc_bind]. by rewrite Ex.
Qed.
Lemma set3_ok a i j l x : shape3 a → 0 ≤ i < X → 0 ≤ j < Y → 0 ≤ l < numP plan → ∃ a', set3 a i j l x = ok a' ∧ shape3 a'.
Proof using.
  intros Ha Hi Hj Hl. destruct (shape3_get a i j l Ha Hi Hj Hl) as (p & q & y & Ep & Eq & Ex & Hpl & Hpf & Hql). unfold set3. rewrite Ep. cbn [mbind exc_bind].
  rewrite Eq. cbn [mbind exc_bind]. rewrite Ex. cbn [mbind exc_bind]. eexists. split; [done|]. destruct Ha as [Hn Hf]. split; [by rewrite length_zset|].
  apply zset_Forall; [done|]. split; [by rewrite length_zset|]. apply zset_Forall; [done|]. by rewrite length_zset.
Qed.

Lemma InitPowerM_ok case clk s : calc_ok config rest plan s → 0 ≤ case < num_case plan → ∃ a, InitPowerM config plan case clk s = ok a ∧ shape3 a.
Proof using HP HX HY.
  intros Hs Hc. unfold InitPowerM. cbv zeta. apply (foldE_total shape3).
  - intros [[i j] l] a (Hi & Hj & Hl)%elem_of_nodes3 Ha.
    assert (map_ok (if clk =? 0 then cur_Pmap s else accu_Pmap s)) as Hm by (destruct (clk =? 0); apply Hs).
    destruct (get2_ok _ _ _ _ case (l * (dimX plan * dimY plan) + j * dimX plan + i) Hm Hc) as (x & -> & _).
    { pose proof (radix_range j i (dimX plan) (dimY plan) Hj Hi) as H1. pose proof (radix_range l _ (dimY plan * dimX plan) (numP plan) Hl H1). unfold cells. lia. }
    cbn [mbind exc_bind]. apply set3_ok; [done|lia|lia|done].
  - split; [rewrite length_replicate; lia|]. apply Forall_replicate. split; [rewrite length_replicate; lia|]. apply Forall_replicate. rewrite length_replicate. lia.
Qed.

Lemma T_nodes_pos : 0 ≤ T_nodes (numP plan) X Y.
Proof using HP HX HY. unfold T_nodes, numLayer. nia. Qed.

Lemma GetTotalPower_ok a : shape3 a → ∃ x, GetTotalPower plan a = ok x.
Proof using HX HY.
  intros Ha. destruct (foldE_total (fun _ => True) (fun p total => let '(i, j, l) := p in
    x ← get3 a (i + 1) (j + 1) l; ok (dadd total x)) (nodes3 (dimX plan) (dimY plan) (numP plan)) dzero) as (x & Hx & _); [|done|by exists x].
  intros [[i j] l] total (Hi & Hj & Hl)%elem_of_nodes3 _. rewrite (shape3_powers a Ha) by lia. cbn [mbind exc_bind]. by eexists.
Qed.

Lemma CalcTransT_ok case s :
  calc_ok config rest plan s → 0 ≤ case < num_case plan →
  ∃ s', CalcTransT config rest power plan m size cap iter case s = ok s' ∧ calc_ok config rest plan s' ∧ sample_id s' = sample_id s.
Proof using HP HX HY Hmidx.
  intros Hs Hc. unfold CalcTransT. destruct (InitPowerM_ok case 0 s Hs Hc) as (a & -> & Ha). cbn [mbind exc_bind].
  destruct (GetTotalPower_ok a Ha) as [total ->]. cbn [mbind exc_bind].
  destruct (ca_temps _ _ _ _ Hs) as [Hn Hf]. destruct (zget_is_Some (T_trans s) case) as [T HT]; [lia|]. apply zget_elem in HT as Hin. rewrite Forall_forall in Hf.
  destruct (Hf T Hin) as [HTl _]. apply vec_get_ok in HT. rewrite HT. cbn [mbind exc_bind].
  destruct (Midx_ok (chip_dim_x rest) (chip_dim_y rest) (numP plan) X Y HP ltac:(lia) ltac:(lia)) as (rows & Em & Hok & _).
  unfold calc_Midx in Hmidx. rewrite Em in Hmidx. injection Hmidx as <- <-. unfold transient_thermal_solver.
  rewrite (transient_source_ok (chip_dim_x rest) (chip_dim_y rest) (numP plan) X Y a (read3 a) (Tamb rest) HP ltac:(lia) ltac:(lia) (shape3_powers a Ha)).
  cbn [mbind exc_bind]. pose proof T_nodes_pos. rewrite transient_iter; [|lia|lia|done|by apply length_Cap|rewrite length_fmap, length_zseq; lia|done|done].
  cbn [mbind exc_bind]. eexists. split; [done|]. split; [|done]. destruct Hs as [? ? ? ? Ht]. split; [done..|]. cbn [T_trans t_temps]. split; [by rewrite length_zset|].
  apply zset_Forall; [by apply Forall_forall|]. split; [|by apply Forall_true]. apply mx_rows in Hok.
  induction (length (zseq iter)) as [|n IH]; [exact HTl|]. rewrite Nat.iter_succ. unfold euler at 1. by rewrite length_fmap.
Qed.

Lemma layer_index l j i : 0 ≤ l < numP plan → 0 ≤ j < dimY plan → 0 ≤ i < dimX plan →
  0 ≤ layer_offset plan l + (j + 1) * X + (i + 1) < T_nodes (numP plan) X Y.
Proof using.
  intros Hl Hj Hi. unfold layer_offset, T_nodes, numLayer. assert (0 ≤ (j + 1) * X + (i + 1) < Y * X) as H1 by (apply radix_range; lia).
  pose proof (radix_range (l * 3 + 1) _ (Y * X) (numP plan * 3 + 1) ltac:(lia) H1). lia.
Qed.

Lemma GetMaxTofCase_ok T : Z.of_nat (length T) = T_nodes (numP plan) X Y → ∃ x, GetMaxTofCase plan T = ok x.
Proof using.
  intros HT. destruct (foldE_total (fun _ => True) (fun i maxT => t ← vec_get T i; ok (if dltb maxT t then t else maxT))
    (zseq (T_nodes (numP plan) X Y)) dzero) as (x & Hx & _); [|done|by exists x].
  intros i maxT Hi%elem_of_zseq _. rewrite vec_get_at by lia. cbn [mbind exc_bind]. by eexists.
Qed.

Lemma GetMax_ok T l : Z.of_nat (length T) = T_nodes (numP plan) X Y → 0 ≤ l < numP plan → ∃ x, GetMaxTofCaseLayer plan T l = ok x.
Proof using.
  intros HT Hl. unfold GetMaxTofCaseLayer. destruct (foldE_total (fun _ => True) (fun p maxT => let '(_, j, i) := p in
    t ← vec_get T (layer_offset plan l + (j + 1) * X + (i + 1)); ok (max_double maxT (dsub t T0))) (nodes3 1 (dimY plan) (dimX plan)) dzero) as (x & Hx & _); [|done|by exists x].
  intros [[k j] i] maxT (_ & Hj & Hi)%elem_of_nodes3 _. pose proof (layer_index l j i Hl Hj Hi). rewrite vec_get_at by lia. cbn [mbind exc_bind]. by eexists.
Qed.

Lemma csv_cells_ok mk P T scale cel :
  Z.of_nat (length P) = cells plan → Z.of_nat (length T) = T_nodes (numP plan) X Y → ∃ l, csv_cells plan mk P T scale cel = ok l.
Proof using.
  intros HPl HT. unfold csv_cells. destruct (mapE_total (fun _ _ => True) (fun p : Z * Z * Z => let '(l, j, i) := p in
    w ← vec_get P (l * (dimX plan * dimY plan) + j * dimX plan + i);
    t ← vec_get T (layer_offset plan l + (j + 1) * X + (i + 1));
    ok (mk i j l (ddiv w (of_int scale)) (cel t))) (nodes3 (numP plan) (dimY plan) (dimX plan))) as (l & Hl & _); [|by exists l].
  intros [[l j] i] (Hl & Hj & Hi)%elem_of_nodes3. rewrite (vec_get_at P).
  2:{ pose proof (radix_range j i (dimX plan) (dimY plan) Hj Hi) as H1. pose proof (radix_range l _ (dimY plan * dimX plan) (numP plan) Hl H1). unfold cells in HPl. lia. }
  cbn [mbind exc_bind]. pose proof (layer_index l j i Hl Hj Hi). rewrite vec_get_at by lia. cbn [mbind exc_bind]. by eexists.
Qed.

Lemma row_of_map v case : map_ok v → 0 ≤ case < num_case plan → ∃ P, vec_get v case = ok P ∧ Z.of_nat (length P) = cells plan.
Proof using.
  intros [Hn Hf] Hc. destruct (zget_is_Some v case) as [P HPg]; [lia|]. exists P. split; [by apply vec_get_ok|]. rewrite Forall_forall in Hf. by apply Hf, (zget_elem _ case).
Qed.

Lemma calc_print l s : calc_ok config rest plan s → calc_ok config rest plan (t_print l s).
Proof using. intros []. by split. Qed.

Lemma print_trans_ok ms case s :
  calc_ok config rest plan s → 0 ≤ case < num_case plan →
  ∃ s', print_trans_case config rest power plan m size cap iter ms case s = ok s' ∧ calc_ok config rest plan s' ∧ sample_id s' = sample_id s.
Proof using HP HX HY Hmidx.
  intros Hs Hc. unfold print_trans_case. destruct (CalcTransT_ok case s Hs Hc) as (s1 & -> & H1 & Hid). cbn [mbind exc_bind].
  destruct (ca_temps _ _ _ _ H1) as [Hn Hf]. destruct (zget_is_Some (T_trans s1) case) as [T HT]; [lia|]. apply zget_elem in HT as Hin. rewrite Forall_forall in Hf.
  destruct (Hf T Hin) as [HTl _]. apply vec_get_ok in HT. rewrite HT. cbn [mbind exc_bind].
  destruct (mapE_total (fun _ _ => True) (fun layer => x ← GetMaxTofCaseLayer plan T layer; ok (EpochMax layer x ms)) (zseq (numP plan))) as (l & -> & _).
  { intros l Hl%elem_of_zseq. destruct (GetMax_ok T l HTl Hl) as [x ->]. by eexists. }
  cbn [mbind exc_bind]. cbv zeta. set (s2 := if 0 <=? output_level config then t_print l s1 else s1).
  assert (calc_ok config rest plan s2 ∧ sample_id s2 = sample_id s1) as [H2 Hid2] by (unfold s2; destruct (0 <=? output_level config); [split; [by apply calc_print|done]|done]).
  destruct (2 <=? output_level config); [|exists s2; split; [done|split; [done|congruence]]].
  destruct (row_of_map _ case (ca_cur _ _ _ _ H2) Hc) as (P & -> & HPl). cbn [mbind exc_bind].
  match goal with |- context [csv_cells _ ?mk _ _ ?sc ?f] => destruct (csv_cells_ok mk P T sc f HPl HTl) as [k ->] end.
  cbn [mbind exc_bind]. eexists. split; [done|]. split; [by apply calc_print|]. simpl. congruence.
Qed.

Lemma PrintTransPT_ok fuel clk s :
  calc_ok config rest plan s →
  ∃ s', PrintTransPT config rest power plan m size cap iter fuel clk s = ok s' ∧ calc_ok config rest plan s' ∧ sample_id s' = sample_id s + 1.
Proof using HP HX HY Hmidx Hstack.
  intros Hs. unfold PrintTransPT, UpdateEpoch. rewrite orb_comm, Hstack. cbv zeta.
  match goal with |- context [UpdatePowerMaps _ ?b ?p ?g ?c] => destruct (UpdatePowerMaps_ok b p g c (ca_cur _ _ _ _ Hs)) as (c' & -> & Hc') end. cbn [mbind exc_bind].
  set (s1 := t_maps (accu_Pmap s) c' s). assert (calc_ok config rest plan s1) as H1 by (destruct Hs; by split).
  match goal with |- context [foldE ?f _ _] =>
    destruct (foldE_total (fun s' => calc_ok config rest plan s' ∧ sample_id s' = sample_id s) f (zseq (num_case plan)) s1) as (s2 & -> & H2 & Hid) end.
  { intros case s2 Hcase%elem_of_zseq [H2 Hid]. match goal with |- context [print_trans_case _ _ _ _ _ _ _ _ ?ms _ _] => destruct (print_trans_ok ms case s2 H2 Hcase) as (s3 & -> & H3 & Hid3) end.
    exists s3. split; [done|]. split; [done|congruence]. }
  { done. }
  cbn [mbind exc_bind]. eexists. split; [done|]. split; [|simpl; by rewrite Hid]. destruct H2 as [? Hcur ? ? ?]. split; try done. cbn [cur_Pmap t_sample t_maps].
  destruct Hcur as [Hn Hf]. split; [by rewrite length_fmap|]. apply Forall_fmap, Forall_forall. intros l Hl. split; [|by apply Forall_true].
  simpl. rewrite length_replicate. pose proof bg_cells_range. lia.
Qed.

Lemma PrintFinalPT_ok fuel clk s :
  calc_ok config rest plan s →
  ∃ s', PrintFinalPT config rest plan solve m size fuel clk s = ok s' ∧ calc_ok config rest plan s' ∧ sample_id s' = sample_id s.
Proof using HP HX HY Hmidx Hstack Hsolve.
  intros Hs. unfold PrintFinalPT. rewrite (orb_comm (IsHBM config)), Hstack. cbv zeta.
  match goal with |- context [UpdatePowerMaps _ ?b ?p ?g ?c] => destruct (UpdatePowerMaps_ok b p g c (ca_accu _ _ _ _ Hs)) as (c' & -> & Hc') end. cbn [mbind exc_bind].
  set (s1 := t_maps c' (cur_Pmap s) s). assert (calc_ok config rest plan s1) as H1 by (destruct Hs; by split).
  apply (foldE_total (fun s' => calc_ok config rest plan s' ∧ sample_id s' = sample_id s)); [|done].
  intros case s2 Hcase%elem_of_zseq [H2 Hid]. unfold print_final_case, CalcFinalT. destruct (InitPowerM_ok case clk s2 H2 Hcase) as (a & -> & Ha). cbn [mbind exc_bind].
  destruct (GetTotalPower_ok a Ha) as [total ->]. cbn [mbind exc_bind].
  destruct (Midx_ok (chip_dim_x rest) (chip_dim_y rest) (numP plan) X Y HP ltac:(lia) ltac:(lia)) as (rows & Em & Hok & _).
  unfold calc_Midx in Hmidx. rewrite Em in Hmidx. injection Hmidx as <- <-. unfold steady_thermal_solver.
  destruct (compress_ok (numP plan) X Y rows) as (xa & -> & _ & _); [unfold T_nodes, numLayer; nia|done|]. cbn [mbind exc_bind].
  rewrite (steady_rhs_ok (chip_dim_x rest) (chip_dim_y rest) (numP plan) X Y a (read3 a) (Tamb rest) HP ltac:(lia) ltac:(lia) (shape3_powers a Ha)). cbn [mbind exc_bind].
  match goal with |- context [GetMaxTofCase _ ?t] => set (T := t) end.
  assert (Z.of_nat (length T) = T_nodes (numP plan) X Y) as HTl.
  { unfold T. rewrite length_fmap, Hsolve, length_fmap, length_zseq. pose proof T_nodes_pos. lia. }
  destruct (GetMaxTofCase_ok T HTl) as [maxT ->]. cbn [mbind exc_bind].
  destruct (row_of_map _ case (ca_accu _ _ _ _ H2) Hcase) as (P & -> & HPl). cbn [mbind exc_bind].
  match goal with |- context [csv_cells _ ?mk _ _ ?sc ?f] => destruct (csv_cells_ok mk P T sc f HPl HTl) as [k ->] end.
  cbn [mbind exc_bind]. eexists. split; [done|]. destruct (0 <=? output_level config); [split; [by apply calc_print|done]|done].
Qed.

Lemma UpdateBackgroundEnergy_ok ch r e s :
  calc_ok config rest plan s → 0 ≤ ch < channels config → 0 ≤ r < ranks config →
  ∃ s', UpdateBackgroundEnergy ch r e s = ok s' ∧ calc_ok config rest plan s' ∧ sample_id s' = sample_id s.
Proof using.
  intros Hs Hc Hr. destruct (upd2_ok any_double (fun _ => e) _ _ _ ch r (ca_background _ _ _ _ Hs) Hc Hr) as (b & E & Hb & _); [done|].
  unfold UpdateBackgroundEnergy. rewrite E. eexists. split; [done|]. split; [|done]. destruct Hs. by split.
Qed.
End Stacked.

(** ** Theorems: a run *)

Inductive thermal_op :=
  | T_cmd (ch : Z) (cmd : Command)
  | T_background (ch r : Z) (e : double)
  | T_logic (p : double)
  | T_epoch (clk : Z)
  | T_final (clk : Z).
Definition thermal_step (config : Config) (th : ThermalParams) (power : PowerParams) (c : Calculator)
    (solve : Z -> list double -> list Z -> list (option Z) -> list double -> list double) (fuel : nat) (op : thermal_op) (s : Thermal) : exc Thermal :=
  match op with
  | T_cmd ch cmd => UpdateCMDPower config th (c_rest c) power (c_plan c) (c_mapping c) (c_offset c) ch cmd s
  | T_background ch r e => UpdateBackgroundEnergy ch r e s
  | T_logic p => ok (SetLogicPower p s)
  | T_epoch clk => PrintTransPT config (c_rest c) power (c_plan c) (c_Midx c) (c_MidxSize c) (c_Cap c) (c_iter c) fuel clk s
  | T_final clk => PrintFinalPT config (c_rest c) (c_plan c) solve (c_Midx c) (c_MidxSize c) fuel clk s
  end.
Definition thermal_op_in (config : Config) (op : thermal_op) : Prop :=
  match op with
  | T_cmd ch cmd => cmd_in config ch cmd
  | T_background ch r _ => 0 ≤ ch < channels config ∧ 0 ≤ r < ranks config
  | _ => True
  end.
Fixpoint epochs (ops : list thermal_op) : Z :=
  match ops with [] => 0 | T_epoch _ :: ops => 1 + epochs ops | _ :: ops => epochs ops end.

Lemma new_calculator_parts fuel config th power c :
  new_ThermalCalculator fuel config th power = ok c →
  new_plan config th = ok (c_plan c) ∧ th_rest th = Some (c_rest c) ∧ calc_Midx (c_rest c) (c_plan c) = ok (c_Midx c, c_MidxSize c) ∧
  c_Cap c = calc_Cap (c_rest c) (c_plan c) ∧ SetPhyAddressMapping (loc_mapping (c_rest c)) = ok (c_mapping c) ∧
  match c_mapping c with Some _ => LogBase2 (BL config) | None => ok 0 end = ok (c_offset c) ∧
  ∃ csv, c_state c = empty_calculator config (c_rest c) (c_plan c) csv.
Proof.
  unfold new_ThermalCalculator. intros (plan & Hp & Hr)%exc_bind_ok. apply exc_bind_ok in Hr as (rest & Hrest & Hr). apply exc_bind_ok in Hr as (mapping & Hm & Hr).
  apply exc_bind_ok in Hr as (off & Ho & Hr). apply exc_bind_ok in Hr as ([m size] & Hmi & Hr). cbv zeta in Hr. apply exc_bind_ok in Hr as (iter & _ & Hr).
  apply exc_bind_ok in Hr as (csv & _ & Hr). injection Hr as <-. cbn [c_plan c_rest c_Midx c_MidxSize c_Cap c_mapping c_offset c_state].
  apply opt_exc_ok in Hrest. split_and!; try done. by exists csv.
Qed.

Lemma floor_sizes config th rest plan VX VY : grid_ok config th rest → floor_ok config th rest plan VX VY → 1 ≤ numP plan ∧ 1 ≤ dimX plan ∧ 1 ≤ dimY plan.
Proof. intros Hg [(? & ? & ? & ? & ?) [HdX HdY] _ _ _ _]. destruct (gr_grids _ _ _ Hg). rewrite HdX, HdY. split; [done|]. split; nia. Qed.

Lemma empty_calculator_ok config th rest plan VX VY csv :
  grid_ok config th rest → floor_ok config th rest plan VX VY → calc_ok config rest plan (empty_calculator config rest plan csv).
Proof.
  intros Hg Hf. destruct (floor_sizes config th rest plan VX VY Hg Hf) as (HP & HX & HY). destruct (gr_ranks _ _ _ Hg) as [Hr Hc]. destruct (gr_banks _ _ _ Hg) as (? & ? & Hb).
  assert (0 ≤ num_case plan) by (rewrite (fl_cases _ _ _ _ _ _ Hf); destruct (IsHMC config || IsHBM config); nia).
  assert (0 ≤ cells plan) by (unfold cells; nia). assert (0 ≤ channels config * ranks config) by nia. assert (0 ≤ banks config) by nia.
  split; unfold empty_calculator; cbn [accu_Pmap cur_Pmap refresh_count background_energy_ T_trans].
  1, 2: by apply shape_replicate.
  - apply shape_replicate; [done|done|]. unfold refresh_count_ok. destruct (gr_mats _ _ _ Hg), (gr_grids _ _ _ Hg). rewrite (gr_rows _ _ _ Hg). nia.
  - apply shape_replicate; [lia|lia|done].
  - apply shape_replicate; [done| |done]. unfold T_nodes, numLayer. nia.
Qed.

(** (C33) The thermal model of a stacked memory never leaves its arrays: in any sequence of
    commands, background energies, epochs and final reports every power map, conductance
    row, temperature and CSV cell that is read or written exists, whatever the solver
    returns; and every epoch is counted. *)
Theorem thermal_run fuel (config : Config) th power c solve ops :
  new_ThermalCalculator fuel config th power = ok c → IsHMC config || IsHBM config = true → 0 ≤ BL config →
  grid_ok config th (c_rest c) → floor_shape config (c_plan c) → mapping_ok config (c_mapping c) (c_offset c) →
  (∀ n a asub xa rhs, length (solve n a asub xa rhs) = length rhs) → Forall (thermal_op_in config) ops →
  ∃ s, foldE (thermal_step config th power c solve fuel) ops (c_state c) = ok s ∧ calc_ok config (c_rest c) (c_plan c) s ∧ sample_id s = epochs ops.
Proof.
  intros Hnew Hst HB Hg Hsh Hm Hsolve Hops. destruct (new_calculator_parts fuel config th power c Hnew) as (Hp & _ & Hmi & Hcap & _ & _ & csv & Hs).
  destruct (floor_ok_all config th (c_rest c) (c_plan c) Hg Hp Hsh) as (VX & VY & [Hfl _]).
  destruct (floor_sizes _ _ _ _ _ _ Hg Hfl) as (HP & HX & HY). pose proof (empty_calculator_ok _ _ _ _ _ _ csv Hg Hfl) as H0. rewrite <- Hs in H0.
  assert (sample_id (c_state c) = 0) as Hid by by rewrite Hs. clear Hs. revert H0 Hid. generalize (c_state c) as s.
  cut (∀ s n, calc_ok config (c_rest c) (c_plan c) s → sample_id s = n →
    ∃ s', foldE (thermal_step config th power c solve fuel) ops s = ok s' ∧ calc_ok config (c_rest c) (c_plan c) s' ∧ sample_id s' = n + epochs ops).
  { intros Hcut s Hs Hid. by apply (Hcut s 0). }
  induction Hops as [|op ops Hop Hops IH]; intros s n Hs Hid; [exists s; split; [done|split; [done|simpl; lia]]|].
  assert (∃ s1, thermal_step config th power c solve fuel op s = ok s1 ∧ calc_ok config (c_rest c) (c_plan c) s1 ∧
    sample_id s1 = n + match op with T_epoch _ => 1 | _ => 0 end) as (s1 & E & H1 & Hid1).
  { destruct op; cbn [thermal_step thermal_op_in] in *.
    - destruct (UpdateCMDPower_ok config th (c_rest c) power (c_plan c) (c_mapping c) (c_offset c) VX VY Hg Hfl Hm ch cmd s Hs Hop HB) as (s1 & E & H1 & _ & _ & _ & _ & Hid1 & _).
      exists s1. split; [done|]. split; [done|]. rewrite Hid1. lia.
    - destruct Hop. destruct (UpdateBackgroundEnergy_ok config (c_rest c) (c_plan c) ch r e s) as (s1 & ? & ? & Hid1); [done..|]. exists s1. split; [done|]. split; [done|lia].
    - eexists. split; [done|]. split; [by destruct Hs|]. simpl. lia.
    - rewrite Hcap. destruct (PrintTransPT_ok config (c_rest c) power (c_plan c) (c_Midx c) (c_MidxSize c) (c_iter c) Hst HP HX HY Hmi fuel clk s Hs) as (s1 & ? & ? & Hid1).
      exists s1. split; [done|]. split; [done|lia].
    - destruct (PrintFinalPT_ok config (c_rest c) (c_plan c) solve (c_Midx c) (c_MidxSize c) Hst HP HX HY Hmi Hsolve fuel clk s Hs) as (s1 & ? & ? & Hid1).
      exists s1. split; [done|]. split; [done|lia]. }
  cbn [foldE]. rewrite E. cbn [mbind exc_bind]. destruct (IH s1 _ H1 Hid1) as (s' & E' & H' & Hid'). exists s'. split; [done|]. split; [done|].
  rewrite Hid'. destruct op; simpl; lia.
Qed.

(** ** Instances *)

(** The HBM2 stack of the simulator with the default thermal section: 32 by 32 cells a
    bank, so 256 by 128 cells a die. *)
Definition hbm2_thermal : ThermalParams :=
  match InitThermalParams hbm2_reader hbm2_reals hbm2 hbm2 (tCK hbm2_power) with ok t => t | err _ => MkThermal dzero 0 0 0 0 0 0 dzero None end.
Definition hbm2_rest : ThermalRest := MkRest EmptyString 1 0 1 (lit 1 100) (lit 1 100) (of_int 40).
Definition hbm2_plan : Plan := MkPlan 5 256 128 8 2 1 2 1.

Example hbm2_plan_new : th_rest hbm2_thermal = Some hbm2_rest ∧ new_plan hbm2 hbm2_thermal = ok hbm2_plan.
Proof. split; vm_compute; reflexivity. Qed.

Lemma hbm2_grid : grid_ok hbm2 hbm2_thermal hbm2_rest.
Proof. split; try (split; vm_compute; congruence); try (vm_compute; congruence). - split; [done|by exists 16384]. - by split_and!. Qed.

Lemma hbm2_floor_shape : floor_shape hbm2 hbm2_plan.
Proof. apply shape_hbm; done. Qed.

(** A read at row 77 of bank 2 of group 1 of channel 3, and the state it meets. *)
Definition some_read : Command := MkCommand READ (MkAddress 3 0 1 2 77 5) 0.
Lemma command_power_witness :
  cmd_in hbm2 3 some_read ∧ ∃ s', UpdateCMDPower hbm2 hbm2_thermal hbm2_rest hbm2_power hbm2_plan None 2 3 some_read
    (empty_calculator hbm2 hbm2_rest hbm2_plan []) = ok s' ∧ calc_ok hbm2 hbm2_rest hbm2_plan s' ∧
    Forall (bank_cell hbm2 hbm2_thermal hbm2_rest hbm2_plan 3 1 2)
      (heated_cells hbm2 hbm2_thermal hbm2_rest hbm2_power hbm2_plan None 2 3 some_read (empty_calculator hbm2 hbm2_rest hbm2_plan [])).
Proof.
  assert (cmd_in hbm2 3 some_read) as Hin by (repeat split; vm_compute; congruence). split; [exact Hin|].
  destruct (floor_ok_all hbm2 hbm2_thermal hbm2_rest hbm2_plan hbm2_grid (proj2 hbm2_plan_new) hbm2_floor_shape) as (VX & VY & [Hfl _]).
  destruct (command_power hbm2 hbm2_thermal hbm2_rest hbm2_power hbm2_plan None 2 3 some_read (empty_calculator hbm2 hbm2_rest hbm2_plan [])
    hbm2_grid (proj2 hbm2_plan_new) hbm2_floor_shape (mapping_ok_none hbm2 2) ltac:(vm_compute; congruence)
    (empty_calculator_ok _ _ _ _ _ _ [] hbm2_grid Hfl) Hin ltac:(discriminate)) as [(s' & Hs & Hok & _ & _ & Hcells) _].
  exists s'. split; [exact Hs|]. split; [exact Hok|exact Hcells].
Defined.

(** A burst of the 512 bits of a read: 512 cells, all with the energy of a beat's bit. *)
Example some_read_cells :
  length (heated_cells hbm2 hbm2_thermal hbm2_rest hbm2_power hbm2_plan None 2 3 some_read (empty_calculator hbm2 hbm2_rest hbm2_plan [])) = 512%nat.
Proof. vm_compute. reflexivity. Qed.

(** The column of an address counts bursts (its mask is 31), but the cells are found as if
    it counted columns: of the 32 rows of cells of a bank only the first nine are ever
    heated. *)
Lemma columns_count_bursts hex i j gy :
  0 ≤ i < BL hbm2 → 0 ≤ j < device_width hbm2 → 0 ≤ hex →
  grid_id_y hbm2_thermal 0 ((column (AddressMapping hbm2_map hex) + i) * device_width hbm2 + j) = ok gy → 0 ≤ gy ≤ 8.
Proof.
  change (BL hbm2) with 4. change (device_width hbm2) with 128. intros Hi Hj Hh. unfold AddressMapping. cbn [column co_pos co_mask shift_bits hbm2_map].
  change 31 with (Z.ones 5). rewrite Z.land_ones by lia.
  pose proof (Z.mod_pos_bound (Z.shiftr (Z.shiftr hex 6) 3) (2 ^ 5) ltac:(lia)) as Hm. remember (Z.shiftr (Z.shiftr hex 6) 3 mod 2 ^ 5) as c eqn:Ec. clear Ec.
  unfold grid_id_y. assert (tile_row_num hbm2_thermal = 16384 ∧ mat_dim_y hbm2_thermal = 512 ∧ num_y_grids hbm2_thermal = 32 ∧ row_tile hbm2_thermal = 1) as (-> & -> & -> & ->) by (vm_compute; done).
  unfold zquot. cbn [Z.eqb mbind exc_bind]. intros [= <-]. change (Z.quot 0 16384) with 0. rewrite Z.mul_0_l, Z.add_0_r, Z.quot_div_nonneg by lia.
  split; [apply Z.div_pos; lia|]. apply Z.lt_succ_r, Z.div_lt_upper_bound; lia.
Qed.

(** The location mapping of configs/DDR4_8Gb_x8_2400.ini puts the channel and the rank
    into the same bit; with a bit of its own for the channel it is a permutation. *)
Definition ddr4_location : string := "34,33,32-31,30-29,26:13-27-28,12:3"%string.
Definition ddr4_positions : list (list Z) :=
  [[34]; [33]; [32; 31]; [30; 29]; [26; 25; 24; 23; 22; 21; 20; 19; 18; 17; 16; 15; 14; 13; 27; 28]; [12; 11; 10; 9; 8; 7; 6; 5; 4; 3]].
Example ddr4_parsed : SetPhyAddressMapping ddr4_location = ok (Some ddr4_positions).
Proof. vm_compute. reflexivity. Qed.
Example ddr4_shared_bit :
  match SetPhyAddressMapping "33,33,32-31,30-29,26:13-27-28,12:3"%string with
  | ok mapping => GetPhyAddress mapping 3 (MkAddress 1 0 0 0 0 0) = GetPhyAddress mapping 3 (MkAddress 0 1 0 0 0 0)
  | err _ => False
  end.
Proof. vm_compute. reflexivity. Qed.

Lemma ddr4_wf : mapping_wf ddr4_positions 3.
Proof.
  split; [done|repeat constructor; simpl; lia| | |done].
  - apply (bool_decide_unpack _). vm_compute. exact I.
  - intros p Hp. assert (Forall (fun p => 3 ≤ p < 35) (concat ddr4_positions)) as Hf by (repeat constructor; lia).
    rewrite Forall_forall in Hf. by apply Hf.
Qed.

(** Row 1 moves to row 4 * 2^12: its lowest two bits become the highest. *)
Lemma location_bijection_witness :
  mapping_wf ddr4_positions 3 ∧ GetPhyAddress (Some ddr4_positions) 3 (MkAddress 0 1 2 3 1 700) = ok (MkAddress 0 1 2 3 32768 700) ∧
  ∀ a', fields_fit ddr4_positions a' → GetPhyAddress (Some ddr4_positions) 3 a' = ok (MkAddress 0 1 2 3 32768 700) → a' = MkAddress 0 1 2 3 1 700.
Proof.
  split; [exact ddr4_wf|]. assert (GetPhyAddress (Some ddr4_positions) 3 (MkAddress 0 1 2 3 1 700) = ok (MkAddress 0 1 2 3 32768 700)) as E by (vm_compute; reflexivity).
  split; [exact E|]. destruct (location_bijection ddr4_positions 3 (MkAddress 0 1 2 3 1 700) ddr4_wf) as (b & Hb & _ & Hinj).
  - repeat constructor; vm_compute; congruence.
  - rewrite E in Hb. injection Hb as <-. exact Hinj.
Defined.

(** A DDR3 memory of one channel and one rank; the solver, the matrix and the power
    figures do not matter. *)
Definition ddr3_dram : DRAMParams := MkDRAM DDR3 1 8 8 16384 1024 8 8 1 false 4 16 15000 64 16 4.
Definition ddr3 : Config := MkConfig hbm2_sys ddr3_dram (MkSize 8 1 512) hbm2_map (InitTimingParams hbm2_reader ddr3_dram) (InitOtherParams hbm2_reader "." true).
Definition ddr3_plan : Plan := MkPlan 1 128 64 4 2 0 0 8.
Lemma epoch_never_ends_witness :
  1 ≤ cells ddr3_plan ∧ ∀ fuel clk s', PrintTransPT ddr3 hbm2_rest hbm2_power ddr3_plan [] 0 [] 10 fuel clk (empty_calculator ddr3 hbm2_rest ddr3_plan []) ≠ ok s'.
Proof.
  split; [vm_compute; congruence|]. intros fuel clk.
  destruct (epoch_never_ends ddr3 hbm2_rest hbm2_power ddr3_plan (fun _ _ _ _ r => r) [] 0 [] 10 fuel clk (empty_calculator ddr3 hbm2_rest ddr3_plan [])) as [H _];
    [reflexivity|reflexivity|vm_compute; congruence|vm_compute; congruence|vm_compute; congruence|exact H].
Defined.

(** A cube of one vault and two banks on one die, with one cell a bank. *)
Definition cube_dram : DRAMParams := MkDRAM HMC 1 2 2 65536 64 32 16 1 false 4 16 10000 64 6 8.
Definition cube_sys : SystemParams := MkSystem 512 1 128 "rorabgbacoch" "PER_BANK" "OPEN_PAGE" 8 32 false 16 RANK_LEVEL_STAGGERED false 1000 false.
Definition cube : Config := MkConfig cube_sys cube_dram (MkSize 1 1 512) hbm2_map (InitTimingParams hbm2_reader cube_dram) (InitOtherParams hbm2_reader "." true).
Definition cube_reader : INIReader :=
  MkReader 0 (Get hbm2_reader) (ini_lookup [("thermal", "mat_dim_x", 65536); ("thermal", "mat_dim_y", 2048)]%string) (GetBoolean hbm2_reader).
Definition cube_thermal : ThermalParams :=
  match InitThermalParams cube_reader hbm2_reals cube cube (tCK hbm2_power) with ok t => t | err _ => hbm2_thermal end.
Definition cube_rest : ThermalRest := MkRest EmptyString 1 0 4 (lit 1 100) (lit 1 100) (of_int 40).
Definition cube_plan : Plan := MkPlan 2 1 2 1 2 1 1 1.

Lemma cube_grid : grid_ok cube cube_thermal cube_rest.
Proof. split; try (split; vm_compute; congruence); try (vm_compute; congruence). - split; [done|by exists 16384]. - by split_and!. Qed.
Lemma cube_shape : floor_shape cube cube_plan.
Proof. apply (shape_hmc cube cube_plan 2); (reflexivity || (vm_compute; congruence) || lia). Qed.
Example cube_built : exc_ok (new_ThermalCalculator 1000 cube cube_thermal hbm2_power) = true.
Proof. vm_compute. reflexivity. Qed.

(** An activation, an epoch and the end; the solver returns the sources. *)
Definition cube_ops : list thermal_op :=
  [T_cmd 0 (MkCommand ACTIVATE (MkAddress 0 0 0 1 77 5) 0); T_background 0 0 (of_int 9); T_epoch 1000000; T_final 1000000].
Lemma thermal_run_witness :
  Forall (thermal_op_in cube) cube_ops ∧ ∃ c s, new_ThermalCalculator 1000 cube cube_thermal hbm2_power = ok c ∧
    foldE (thermal_step cube cube_thermal hbm2_power c (fun _ _ _ _ r => r) 0) cube_ops (c_state c) = ok s ∧ sample_id s = 1.
Proof.
  assert (Forall (thermal_op_in cube) cube_ops) as Hops by (repeat constructor; vm_compute; congruence). split; [exact Hops|].
  destruct (new_ThermalCalculator 1000 cube cube_thermal hbm2_power) as [c|e] eqn:E; [|pose proof cube_built as Hb; rewrite E in Hb; discriminate Hb].
  destruct (new_calculator_parts _ _ _ _ _ E) as (Hp & Hr & _ & _ & Hl & _ & _).
  assert (c_plan c = cube_plan) as Ep by (assert (new_plan cube cube_thermal = ok cube_plan) as Hq by (vm_compute; reflexivity); rewrite Hq in Hp; by injection Hp).
  assert (c_rest c = cube_rest) as Er.
  { assert (th_rest cube_thermal = Some (MkRest EmptyString 1 0 4 (lit 1 100) (lit 1 100) (of_int 40))) as Hq by (vm_compute; reflexivity). rewrite Hq in Hr. by injection Hr. }
  rewrite Er in Hl. injection Hl as Em.
  exists c. destruct (thermal_run 1000 cube cube_thermal hbm2_power c (fun _ _ _ _ r => r) cube_ops E) as (s & Hs & _ & Hid).
  - reflexivity.
  - vm_compute. congruence.
  - rewrite Er. exact cube_grid.
  - rewrite Ep. exact cube_shape.
  - rewrite <- Em. apply mapping_ok_none.
  - reflexivity.
  - exact Hops.
  - exists s. split; [reflexivity|]. split; [exact Hs|exact Hid].
Defined.
