(* ===== verification/ThermalReplay.v ===== *)
(** * Replaying a command trace (DRAMsim3-master/src/thermal_replay.h, thermal_replay.cc)

    [ThermalReplay] reads a trace of DRAM commands, drives the statistics of the channels
    and a thermal calculator with it as often as asked, and prints the final reports. The
    lines of the trace file are a parameter, and so are the formatting functions of the
    reports and the linear solver. *)

From Stdlib Require Import ZArith Lia Ascii String SpecFloat.
From stdpp Require Import strings gmap numbers option list.
From S2P Require Import Prelude DramCommon Config Stats Power Report ThermalSolver Thermal.

(** ** Reading the trace *)

(** [std::stoull]: as [stoi], but a sign wraps around. *)
Definition stoull (s : list ascii) : exc Z :=
  let s := skip_space s in
  let '(neg, s) := match s with
    | c :: s' => if bool_decide (c = "-"%char) then (true, s') else if bool_decide (c = "+"%char) then (false, s') else (false, s)
    | [] => (false, []) end in
  match s with
  | c :: _ =>
      if digit_of c then
        let v := digits_value s 0 in
        if v <? two64 then ok (if neg : bool then u64 (- v) else v) else err StdOutOfRange
      else err InvalidArgument
  | [] => err InvalidArgument
  end.

(** [cmd_map[token]]: a missing key is inserted with the value 0, which is [READ]. *)
Definition cmd_names : list (string * CommandType) :=
  [("read", READ); ("read_p", READ_PRECHARGE); ("write", WRITE); ("write_p", WRITE_PRECHARGE); ("activate", ACTIVATE);
   ("precharge", PRECHARGE); ("refresh_bank", REFRESH_BANK); ("refresh", REFRESH); ("self_refresh_enter", SREF_ENTER);
   ("self_refresh_exit", SREF_EXIT)]%string.
Definition cmd_map (token : string) : CommandType :=
  match list_find (fun e => e.1 = token) cmd_names with Some (_, e) => e.2 | None => READ end.

(** [ParseLine(line, clk, cmd)]. *)
Definition ParseLine (line : string) : exc (Z * Command) :=
  match StringSplit (list_ascii_of_string line) " "%char with
  | [t0; t1; t2; t3; t4; t5; t6; t7] =>
      clk ← stoull t0;
      ch ← stoi t2; ra ← stoi t3; bg ← stoi t4; ba ← stoi t5; ro ← stoi t6; co ← stoi t7;
      ok (clk, MkCommand (cmd_map (string_of_list_ascii t1)) (MkAddress ch ra bg ba ro co) 0)
  | _ => err AbruptExit
  end.

(** ** State *)

Record ThermalReplay := MkReplay {
  timed_commands_ : list (Z * Command);
  thermal_calc_ : Thermal;
  last_clk_ : Z;
  channel_stats_ : list Reports;
  bank_active_ : list (list (list (list bool)));
  rp_out : outputs
}.
Definition r_stats (l : list Reports) (s : ThermalReplay) : ThermalReplay :=
  MkReplay (timed_commands_ s) (thermal_calc_ s) (last_clk_ s) l (bank_active_ s) (rp_out s).
Definition r_calc (t : Thermal) (s : ThermalReplay) : ThermalReplay :=
  MkReplay (timed_commands_ s) t (last_clk_ s) (channel_stats_ s) (bank_active_ s) (rp_out s).
Definition r_banks (b : list (list (list (list bool)))) (s : ThermalReplay) : ThermalReplay :=
  MkReplay (timed_commands_ s) (thermal_calc_ s) (last_clk_ s) (channel_stats_ s) b (rp_out s).
Definition r_outs (o : outputs) (s : ThermalReplay) : ThermalReplay :=
  MkReplay (timed_commands_ s) (thermal_calc_ s) (last_clk_ s) (channel_stats_ s) (bank_active_ s) o.
Definition r_clk (c : Z) (s : ThermalReplay) : ThermalReplay :=
  MkReplay (timed_commands_ s) (thermal_calc_ s) c (channel_stats_ s) (bank_active_ s) (rp_out s).

Section Replay.
Context (config : Config) (th : ThermalParams) (power : PowerParams) (c : Calculator).
Context (fmt_double : double -> string) (dump : gmap string jval -> string) (stat_text : string -> string -> string -> string).
Context (pdgssv : Z -> list double -> list Z -> list (option Z) -> list double -> list double).

Definition all_idle : list (list (list (list bool))) :=
  replicate (Z.to_nat (channels config)) (replicate (Z.to_nat (ranks config))
    (replicate (Z.to_nat (bankgroups config)) (replicate (Z.to_nat (banks_per_group config)) false))).

(** The constructor, given the lines of the trace file, if it can be opened. *)
Definition new_ThermalReplay (file : option (list string)) (o : outputs) : exc ThermalReplay :=
  lines ← opt_exc file AbruptExit;
  cmds ← mapE ParseLine lines;
  ok (MkReplay cmds (c_state c) 0 ((fun i => new_Reports (ranks config) i) <$> zseq (channels config)) all_idle o).

(** [IsRankActive(channel, rank)]. *)
Definition IsRankActive (chan rank : Z) (s : ThermalReplay) : exc bool :=
  rank_active ← get2 (bank_active_ s) chan rank;
  ok (existsb (existsb (fun b => b)) rank_active).

(** An update of the statistics of one channel. *)
Definition on_stats (i : Z) (f : SimpleStats -> SimpleStats) (s : ThermalReplay) : exc ThermalReplay :=
  r ← vec_get (channel_stats_ s) i; ok (r_stats (zset (channel_stats_ s) i (with_stats (f (rp_stats r)) r)) s).

(** The counter of a kind of command; [SIZE] is no command. *)
Definition counter_of (t : CommandType) : exc string :=
  match t with
  | READ | READ_PRECHARGE => ok "num_read_cmds"%string
  | WRITE | WRITE_PRECHARGE => ok "num_write_cmds"%string
  | ACTIVATE => ok "num_act_cmds"%string
  | PRECHARGE => ok "num_pre_cmds"%string
  | REFRESH => ok "num_ref_cmds"%string
  | REFRESH_BANK => ok "num_refb_cmds"%string
  | SREF_ENTER => ok "num_srefe_cmds"%string
  | SREF_EXIT => ok "num_srefx_cmds"%string
  | CT_SIZE => err AbruptExit
  end.

(** The banks are open or closed after a command. *)
Definition set_active (cmd : Command) (b : bool) (v : list (list (list (list bool)))) : exc (list (list (list (list bool)))) :=
  l1 ← vec_get v (Channel cmd); l2 ← vec_get l1 (Rank cmd); l3 ← vec_get l2 (Bankgroup cmd); _ ← vec_get l3 (Bank cmd);
  ok (zset v (Channel cmd) (zset l1 (Rank cmd) (zset l2 (Bankgroup cmd) (zset l3 (Bank cmd) b)))).
Definition bank_effect (cmd : Command) (s : ThermalReplay) : exc ThermalReplay :=
  match cmd_type cmd with
  | ACTIVATE => b ← set_active cmd true (bank_active_ s); ok (r_banks b s)
  | READ_PRECHARGE | WRITE_PRECHARGE | PRECHARGE => b ← set_active cmd false (bank_active_ s); ok (r_banks b s)
  | _ => ok s
  end.

(** The cycles since the last command, for each rank of each channel. *)
Definition count_cycles (past : Z) (s : ThermalReplay) : exc ThermalReplay :=
  foldE (fun i s => foldE (fun j s =>
    active ← IsRankActive i j s;
    on_stats i (IncrementVecBy (if active : bool then "rank_active_cycles" else "all_bank_idle_cycles")%string j past) s)
    (zseq (ranks config)) s) (zseq (channels config)) s.

(** The output that was meant for the end of an epoch. *)
Definition print_channel (i : Z) (s : ThermalReplay) : exc ThermalReplay :=
  r ← vec_get (channel_stats_ s) i;
  '(r, o) ← r_PrintEpochStats config power fmt_double dump stat_text r (rp_out s);
  t ← foldE (fun j t => e ← RankBackgroundEnergy r j; UpdateBackgroundEnergy i j e t) (zseq (ranks config)) (thermal_calc_ s);
  ok (r_calc t (r_outs o (r_stats (zset (channel_stats_ s) i r) s))).

(** [ProcessCMD(cmd, clk)]: the statistics are printed at every command whose cycle is not
    a multiple of the epoch. *)
Definition ProcessCMD (cmd : Command) (clk : Z) (s : ThermalReplay) : exc ThermalReplay :=
  s ← count_cycles (u64 (clk - last_clk_ s)) s;
  n ← counter_of (cmd_type cmd);
  s ← on_stats (Channel cmd) (Increment n) s;
  s ← bank_effect cmd s;
  if epoch_period config =? 0 then err UndefinedBehaviour
  else
    s ← (if clk mod u64 (epoch_period config) =? 0 then ok s else foldE print_channel (zseq (channels config)) s);
    ok (r_clk clk s).

(** [Run()]: every command heats channel 0. *)
Definition run_command (clk : Z) (e : Z * Command) (s : ThermalReplay) : exc ThermalReplay :=
  s ← ProcessCMD e.2 (u64 (clk + e.1)) s;
  t ← UpdateCMDPower config th (c_rest c) power (c_plan c) (c_mapping c) (c_offset c) 0 e.2 (thermal_calc_ s);
  ok (r_calc t s).
Definition run_round (cs : Z * ThermalReplay) : exc (Z * ThermalReplay) :=
  let '(clk, s) := cs in
  s' ← foldE (run_command clk) (timed_commands_ s) s;
  ok (u64 (clk + from_option fst 0 (last (timed_commands_ s))), r_banks all_idle s').
Definition run_rounds (repeat : Z) (s : ThermalReplay) : exc (Z * ThermalReplay) :=
  foldE (fun _ cs => run_round cs) (zseq repeat) (0, s).
Definition print_final_channel (i : Z) (s : ThermalReplay) : exc ThermalReplay :=
  r ← vec_get (channel_stats_ s) i;
  '(r, o) ← r_PrintFinalStats config power fmt_double dump stat_text r (rp_out s);
  ok (r_outs o (r_stats (zset (channel_stats_ s) i r) s)).
Definition Run (fuel : nat) (repeat : Z) (s : ThermalReplay) : exc ThermalReplay :=
  '(clk, s) ← run_rounds repeat s;
  s ← foldE print_final_channel (zseq (channels config)) s;
  t ← PrintFinalPT config (c_rest c) (c_plan c) pdgssv (c_Midx c) (c_MidxSize c) fuel clk (thermal_calc_ s);
  ok (r_calc t s).
End Replay.

(** ** Lemmas: the accounts of a channel *)

Section Accounts.
Context (config : Config) (power : PowerParams).
Context (fmt_double : double -> string) (dump : gmap string jval -> string) (stat_text : string -> string -> string -> string).
Implicit Types (r : Reports) (s : ThermalReplay) (l : list Reports) (K : string -> Z) (T : Z -> Z).

Definition active_name : string := "rank_active_cycles".
Definition idle_name : string := "all_bank_idle_cycles".
Definition covered (ops : list stat_op) (j : Z) : Z := vec_increments active_name j ops + vec_increments idle_name j ops.

(** The report of a channel that was told [K n] times of [n], and [T j] cycles of rank [j],
    epochs aside. *)
Definition accounts K T r : Prop :=
  rep_ok config r ∧ print_pairs_ r = [] ∧
  ∃ ops, Forall registered ops ∧ rp_stats r = foldl stat_step (new_stats (ranks config)) ops ∧
    (∀ n, increments n ops = K n) ∧ (∀ j, 0 ≤ j < ranks config → u64 (covered ops j) = u64 (T j)).

Lemma increments_snoc n ops o : increments n (ops ++ [o]) = increments n ops + increments n [o].
Proof. induction ops as [|p ops IH]; [done|]. destruct p; cbn [app increments] in *; rewrite IH; lia. Qed.
Lemma vec_increments_snoc n j ops o : vec_increments n j (ops ++ [o]) = vec_increments n j ops + vec_increments n j [o].
Proof. induction ops as [|p ops IH]; [done|]. destruct p; cbn [app vec_increments] in *; rewrite IH; lia. Qed.

Lemma accounts_new channel : 0 ≤ ranks config → accounts (fun _ => 0) (fun _ => 0) (new_Reports (ranks config) channel).
Proof. intros Hr. split; [by apply new_Reports_ok|]. split; [done|]. exists []. by repeat split. Qed.

Lemma accounts_op K T K' T' r r' o :
  accounts K T r → registered o → rep_ok config r' → print_pairs_ r' = [] → rp_stats r' = stat_step (rp_stats r) o →
  (∀ n, K' n = K n + increments n [o]) →
  (∀ j, 0 ≤ j < ranks config → u64 (T' j) = u64 (T j + (vec_increments active_name j [o] + vec_increments idle_name j [o]))) →
  accounts K' T' r'.
Proof.
  intros (_ & _ & ops & Hops & Hst & HK & HT) Ho Hr' Hp' Hst' HK' HT'. split; [done|]. split; [done|]. exists (ops ++ [o]). split_and!.
  - apply Forall_app. split; [done|]. constructor; [done|constructor].
  - by rewrite Hst', Hst, foldl_snoc.
  - intros n. by rewrite increments_snoc, HK, HK'.
  - intros j Hj. unfold covered. rewrite !vec_increments_snoc, HT' by done. rewrite <- (u64_add_l (T j)), <- HT, u64_add_l by done.
    unfold covered. f_equal. lia.
Qed.

Lemma accounts_stat K T K' T' r o :
  accounts K T r → registered o → (∀ n, K' n = K n + increments n [o]) →
  (∀ j, 0 ≤ j < ranks config → u64 (T' j) = u64 (T j + (vec_increments active_name j [o] + vec_increments idle_name j [o]))) →
  accounts K' T' (with_stats (stat_step (rp_stats r) o) r).
Proof.
  intros Ha Ho HK HT. pose proof Ha as (Hr & Hp & _). eapply (accounts_op K T K' T' r _ o); try done.
  apply with_stats_ok; [done|]. apply stat_step_ok; [apply Hr|done].
Qed.

(** What the final counters say. *)
Lemma accounts_final K T r :
  accounts K T r → (∀ n, n ∈ counter_names → counters_ (UpdateFinalStats (rp_stats r)) !! n = Some (u64 (K n))) ∧
  ∀ j, 0 ≤ j < ranks config → ∃ va vi a i, vec_counters_ (UpdateFinalStats (rp_stats r)) !! active_name = Some va ∧
    vec_counters_ (UpdateFinalStats (rp_stats r)) !! idle_name = Some vi ∧ zget va j = Some a ∧ zget vi j = Some i ∧ u64 (a + i) = u64 (T j).
Proof.
  intros (_ & _ & ops & _ & -> & HK & HT). split.
  - intros n Hn. by rewrite final_counter, HK.
  - intros j Hj. destruct (final_vec active_name (ranks config) j ops) as (va & Ha & _ & Hga); [right; left|done|].
    destruct (final_vec idle_name (ranks config) j ops) as (vi & Hi & _ & Hgi); [left|done|].
    exists va, vi, (u64 (vec_increments active_name j ops)), (u64 (vec_increments idle_name j ops)). split_and!; [done..|].
    rewrite u64_add_l, u64_add_r. by apply HT.
Qed.

(** All channels. *)
Definition ledger (KK : Z -> string -> Z) (TT : Z -> Z -> Z) l : Prop :=
  Z.of_nat (length l) = channels config ∧ ∀ i r, zget l i = Some r → accounts (KK i) (TT i) r.

Lemma ledger_get KK TT l i : ledger KK TT l → 0 ≤ i < channels config → ∃ r, zget l i = Some r ∧ accounts (KK i) (TT i) r.
Proof. intros [Hl Ha] Hi. destruct (zget_is_Some l i) as [r Hr]; [lia|]. exists r. split; [done|by apply Ha]. Qed.
Lemma ledger_ext KK TT KK' TT' l :
  ledger KK TT l → (∀ i n, 0 ≤ i < channels config → KK' i n = KK i n) →
  (∀ i j, 0 ≤ i < channels config → 0 ≤ j < ranks config → u64 (TT' i j) = u64 (TT i j)) → ledger KK' TT' l.
Proof.
  intros [Hl Ha] HK HT. split; [done|]. intros i r Hr. pose proof (zget_lt _ _ _ Hr) as Hi. rewrite Hl in Hi.
  destruct (Ha i r Hr) as (H1 & H2 & ops & H3 & H4 & H5 & H6). split; [done|]. split; [done|]. exists ops. split; [done|]. split; [done|].
  split; [intros n; rewrite H5; symmetry; by apply HK|]. intros j Hj. rewrite H6 by done. symmetry. by apply HT.
Qed.
Lemma ledger_set KK TT KK' TT' l i r :
  ledger KK TT l → 0 ≤ i < channels config → accounts (KK' i) (TT' i) r →
  (∀ i', i' ≠ i → (∀ n, KK' i' n = KK i' n) ∧ (∀ j, TT' i' j = TT i' j)) → ledger KK' TT' (zset l i r).
Proof.
  intros [Hl Ha] Hi Hr Hne. split; [by rewrite length_zset|]. intros i' r' Hr'. destruct (decide (i' = i)) as [->|Hn].
  - rewrite zget_zset_eq in Hr' by lia. by injection Hr' as <-.
  - rewrite zget_zset_ne in Hr' by done. destruct (Ha i' r' Hr') as (H1 & H2 & ops & H3 & H4 & H5 & H6). destruct (Hne i' Hn) as [HK HT].
    split; [done|]. split; [done|]. exists ops. split; [done|]. split; [done|]. split; [intros n; by rewrite H5, HK|intros j Hj; by rewrite H6, HT].
Qed.
End Accounts.

(** ** Lemmas: a replayed command *)

Section Replayed.
Context (config : Config) (th : ThermalParams) (power : PowerParams) (c : Calculator).
Context (fmt_double : double -> string) (dump : gmap string jval -> string) (stat_text : string -> string -> string -> string).
Context (VX VY : Z) (Hgrid : grid_ok config th (c_rest c)) (Hfloor : floor_ok config th (c_rest c) (c_plan c) VX VY).
Context (Hmap : mapping_ok config (c_mapping c) (c_offset c)) (HBL : 0 ≤ BL config) (Hperiod : epoch_period config ≠ 0).
Implicit Types (s : ThermalReplay) (KK : Z -> string -> Z) (TT : Z -> Z -> Z).

Definition any_bool (_ : bool) : Prop := True.
Definition banks_ok (v : list (list (list (list bool)))) : Prop :=
  shape (shape any_bool (bankgroups config) (banks_per_group config)) (channels config) (ranks config) v.
Record replay_ok KK TT s : Prop := {
  rk_ledger : ledger config KK TT (channel_stats_ s);
  rk_banks : banks_ok (bank_active_ s);
  rk_calc : calc_ok config (c_rest c) (c_plan c) (thermal_calc_ s)
}.
(** The trace and the cycle of the last command are as before. *)
Definition same_trace s s' : Prop := timed_commands_ s' = timed_commands_ s ∧ last_clk_ s' = last_clk_ s.

(** A command of a trace whose fields are those of the memory. *)
Definition replayable (cmd : Command) : Prop :=
  cmd_in config 0 cmd ∧ 0 ≤ Channel cmd < channels config ∧ exc_ok (counter_of (cmd_type cmd)) = true ∧
  (cmd_type cmd = PRECHARGE → 0 ≤ Bankgroup cmd < bankgroups config ∧ 0 ≤ Bank cmd < banks_per_group config).

Lemma all_idle_ok : banks_ok (all_idle config).
Proof using Hgrid. destruct (gr_ranks _ _ _ Hgrid), (gr_banks _ _ _ Hgrid) as (? & ? & _). by do 2 (apply shape_replicate; [lia|lia|]). Qed.

Lemma vec_get_all {A} (P : A -> Prop) (v : list A) i : Forall P v → 0 ≤ i < Z.of_nat (length v) → ∃ x, vec_get v i = ok x ∧ P x.
Proof.
  intros Hv Hi. destruct (zget_is_Some v i Hi) as [x Hx]. exists x. split; [by apply vec_get_ok|]. rewrite Forall_forall in Hv. by eapply Hv, zget_elem.
Qed.

Lemma set_active_ok cmd b v :
  banks_ok v → 0 ≤ Channel cmd < channels config → 0 ≤ Rank cmd < ranks config → 0 ≤ Bankgroup cmd < bankgroups config →
  0 ≤ Bank cmd < banks_per_group config → ∃ v', set_active cmd b v = ok v' ∧ banks_ok v'.
Proof using.
  intros [Hl Hv] H1 H2 H3 H4. unfold set_active. rewrite <- Hl in H1. destruct (vec_get_all _ _ _ Hv H1) as (l1 & -> & Hl1 & Hv1). cbn [mbind exc_bind].
  rewrite <- Hl1 in H2. destruct (vec_get_all _ _ _ Hv1 H2) as (l2 & -> & Hl2 & Hv2). cbn [mbind exc_bind].
  rewrite <- Hl2 in H3. destruct (vec_get_all _ _ _ Hv2 H3) as (l3 & -> & Hl3 & Hv3). cbn [mbind exc_bind].
  rewrite <- Hl3 in H4. destruct (vec_get_all _ _ _ Hv3 H4) as (x & -> & _). cbn [mbind exc_bind]. eexists. split; [done|].
  split; [by rewrite length_zset|]. apply zset_Forall; [done|]. split; [by rewrite length_zset|]. apply zset_Forall; [done|].
  split; [by rewrite length_zset|]. apply zset_Forall; [done|]. split; [by rewrite length_zset|]. by apply zset_Forall.
Qed.

Lemma bank_effect_ok KK TT cmd s :
  replay_ok KK TT s → replayable cmd → ∃ s', bank_effect cmd s = ok s' ∧ replay_ok KK TT s' ∧ same_trace s s'.
Proof using.
  intros [Hl Hb Hc] (Hin & Hch & _ & Hpre). destruct Hin as (_ & Hrk & Hin). unfold bank_effect.
  destruct (cmd_type cmd) eqn:E; try (exists s; split; [done|split; [by split|done]]).
  all: assert (0 ≤ Bankgroup cmd < bankgroups config ∧ 0 ≤ Bank cmd < banks_per_group config) as [Hg Hk] by (rewrite ?E in Hin; rewrite ?E in Hpre; tauto).
  1, 2, 4: destruct (set_active_ok cmd false (bank_active_ s) Hb Hch Hrk Hg Hk) as (v & -> & Hv).
  4: destruct (set_active_ok cmd true (bank_active_ s) Hb Hch Hrk Hg Hk) as (v & -> & Hv).
  all: eexists; (split; [done|]); by split.
Qed.

(** One entry in the books of a channel. *)
Lemma stat_ok KK TT KK' TT' i o s :
  replay_ok KK TT s → 0 ≤ i < channels config → registered o →
  (∀ i' n, 0 ≤ i' < channels config → KK' i' n = KK i' n + (if decide (i' = i) then increments n [o] else 0)) →
  (∀ i' j, 0 ≤ i' < channels config → 0 ≤ j < ranks config →
     u64 (TT' i' j) = u64 (TT i' j + (if decide (i' = i) then covered [o] j else 0))) →
  ∃ s', on_stats i (fun st => stat_step st o) s = ok s' ∧ replay_ok KK' TT' s' ∧ same_trace s s'.
Proof using.
  intros [Hl Hb Hc] Hi Ho HK HT. destruct (ledger_get config _ _ _ i Hl Hi) as (r & Hr & Ha). unfold on_stats.
  assert (vec_get (channel_stats_ s) i = ok r) as -> by by apply vec_get_ok. cbn [mbind exc_bind]. eexists. split; [done|]. split; [|done].
  split; [|done|done]. cbn [channel_stats_ r_stats].
  apply (ledger_ext config (fun i' n => KK i' n + (if decide (i' = i) then increments n [o] else 0))
    (fun i' j => TT i' j + (if decide (i' = i) then covered [o] j else 0))); [|done|done].
  eapply ledger_set; [exact Hl|exact Hi| |].
  - eapply (accounts_stat config (KK i) (TT i)); [done|done|intros n; by rewrite decide_True|intros j Hj; by rewrite decide_True].
  - intros i' Hne. split; intros; rewrite decide_False by done; lia.
Qed.
Lemma covered_one (active : bool) j k num :
  covered [St_vec (if active then active_name else idle_name) j num] k = if decide (j = k) then num else 0.
Proof using.
  unfold covered. cbn [vec_increments]. assert (active_name ≠ idle_name) by discriminate.
  destruct active; repeat case_decide; try lia; naive_solver.
Qed.

Lemma IsRankActive_ok KK TT i j s :
  replay_ok KK TT s → 0 ≤ i < channels config → 0 ≤ j < ranks config → ∃ b, IsRankActive i j s = ok b.
Proof using.
  intros [_ Hb _] Hi Hj. unfold IsRankActive. destruct (get2_ok _ _ _ _ i j Hb Hi Hj) as (x & -> & _). cbn [mbind exc_bind]. by eexists.
Qed.

(** Every rank of every channel gets the cycles since the last command. *)
Lemma count_cycles_ok KK TT past s :
  replay_ok KK TT s → ∃ s', count_cycles config past s = ok s' ∧ replay_ok KK (fun i j => TT i j + past) s' ∧ same_trace s s'.
Proof using Hgrid.
  clear - Hgrid. intros Hs. destruct (gr_ranks _ _ _ Hgrid) as [Hrk Hch]. unfold count_cycles.
  pose (done_ i j i' j' := if (i' <? i) || ((i' =? i) && (j' <? j)) then past else 0).
  destruct (foldE_index (fun i s' => replay_ok KK (fun i' j' => TT i' j' + done_ i 0 i' j') s' ∧ same_trace s s')
    (fun i s => foldE (fun j s => active ← IsRankActive i j s;
      on_stats i (IncrementVecBy (if active : bool then "rank_active_cycles" else "all_bank_idle_cycles")%string j past) s) (zseq (ranks config)) s)
    (channels config) s ltac:(lia)) as (s' & -> & Hs' & Ht).
  - intros i s1 Hi [H1 Ht1].
    destruct (foldE_index (fun j s' => replay_ok KK (fun i' j' => TT i' j' + done_ i j i' j') s' ∧ same_trace s s')
      (fun j s => active ← IsRankActive i j s;
        on_stats i (IncrementVecBy (if active : bool then "rank_active_cycles" else "all_bank_idle_cycles")%string j past) s)
      (ranks config) s1 ltac:(lia)) as (s2 & E2 & H2 & Ht2); [|done|].
    + intros j s2 Hj [H2 Ht2]. destruct (IsRankActive_ok _ _ i j s2 H2 Hi Hj) as [b ->]. cbn [mbind exc_bind].
      destruct (stat_ok _ _ KK (fun i' j' => TT i' j' + done_ i (j + 1) i' j') i (St_vec (if b then active_name else idle_name) j past) s2 H2 Hi)
        as (s3 & E3 & H3 & Ht3).
      * unfold registered. destruct b; [right; left|left].
      * intros i' n _. cbn [increments]. case_decide; lia.
      * intros i' j' _ _. rewrite covered_one. f_equal. unfold done_. repeat case_decide;
          destruct (Z.ltb_spec i' i), (Z.eqb_spec i' i), (Z.ltb_spec j' j), (Z.ltb_spec j' (j + 1)); simpl; lia.
      * exists s3. split; [by destruct b|]. split; [done|]. destruct Ht2, Ht3. split; congruence.
    + exists s2. split; [done|]. split; [|done]. destruct H2 as [Hl Hb Hc]. split; [|done|done].
      eapply ledger_ext; [exact Hl|done|]. intros i' j' _ Hj'. f_equal. unfold done_.
      destruct (Z.ltb_spec i' i), (Z.eqb_spec i' i), (Z.ltb_spec j' (ranks config)), (Z.ltb_spec i' (i + 1)), (Z.eqb_spec i' (i + 1)), (Z.ltb_spec j' 0); simpl; lia.
  - split; [|done]. destruct Hs as [Hl Hb Hc]. split; [|done|done]. eapply ledger_ext; [exact Hl|done|]. intros i' j' Hi' Hj'. f_equal. unfold done_.
    destruct (Z.ltb_spec i' 0), (Z.eqb_spec i' 0), (Z.ltb_spec j' 0); simpl; lia.
  - exists s'. split; [done|]. split; [|done]. destruct Hs' as [Hl Hb Hc]. split; [|done|done]. eapply ledger_ext; [exact Hl|done|].
    intros i' j' Hi' _. f_equal. unfold done_. destruct (Z.ltb_spec i' (channels config)); simpl; lia.
Qed.

(** The end of an epoch leaves the books as they are. *)
Lemma print_channel_ok KK TT i s :
  replay_ok KK TT s → 0 ≤ i < channels config →
  ∃ s', print_channel config power fmt_double dump stat_text i s = ok s' ∧ replay_ok KK TT s' ∧ same_trace s s'.
Proof using.
  intros [Hl Hb Hc] Hi. destruct (ledger_get config _ _ _ i Hl Hi) as (r & Hr & Ha). pose proof Ha as (Hrep & Hp & _). unfold print_channel.
  assert (vec_get (channel_stats_ s) i = ok r) as -> by by apply vec_get_ok. cbn [mbind exc_bind].
  destruct (PrintEpochStats_ok config power fmt_double dump stat_text r (rp_out s) Hrep Hp) as (r' & o' & -> & Hr' & Hp' & Hst & _).
  cbn [mbind exc_bind].
  destruct (foldE_total (calc_ok config (c_rest c) (c_plan c)) (fun j t => e ← RankBackgroundEnergy r' j; UpdateBackgroundEnergy i j e t)
    (zseq (ranks config)) (thermal_calc_ s)) as (t & -> & Ht); [|done|].
  - intros j t Hj%elem_of_zseq Ht. destruct (RankBackgroundEnergy_ok config r' j Hr' Hj) as [e ->]. cbn [mbind exc_bind].
    destruct (UpdateBackgroundEnergy_ok config (c_rest c) (c_plan c) i j e t Ht Hi Hj) as (t' & ? & ? & _). by exists t'.
  - cbn [mbind exc_bind]. eexists. split; [done|]. split; [|done]. split; [|done|done]. cbn [channel_stats_ r_calc r_outs r_stats].
    apply (ledger_set config KK TT KK TT); [done|done| |done].
    eapply (accounts_op config (KK i) (TT i) (KK i) (TT i) r r' St_epoch); try done; intros; [simpl; lia|].
    cbn [vec_increments]. f_equal. lia.
Qed.

(** How often a command adds to a counter of a channel. *)
Definition counted (i : Z) (n : string) (cmd : Command) : Z :=
  match counter_of (cmd_type cmd) with
  | ok m => if decide (Channel cmd = i ∧ m = n) then 1 else 0
  | err _ => 0
  end.
Definition counted_in (i : Z) (n : string) (cmds : list (Z * Command)) : Z := sum ((fun e => counted i n e.2) <$> cmds).

Lemma ProcessCMD_ok KK TT cmd clk s :
  replay_ok KK TT s → replayable cmd →
  ∃ s', ProcessCMD config power fmt_double dump stat_text cmd clk s = ok s' ∧
    replay_ok (fun i n => KK i n + counted i n cmd) (fun i j => TT i j + (clk - last_clk_ s)) s' ∧
    timed_commands_ s' = timed_commands_ s ∧ last_clk_ s' = clk.
Proof using Hgrid Hperiod.
  intros Hs Hcmd. destruct (count_cycles_ok KK TT (u64 (clk - last_clk_ s)) s Hs) as (s1 & E1 & H1 & Ht1).
  unfold ProcessCMD. rewrite E1. cbn [mbind exc_bind]. destruct Hcmd as (Hin & Hch & Hcnt & Hpre).
  destruct (counter_of (cmd_type cmd)) as [n|] eqn:En; [|done]. cbn [mbind exc_bind].
  destruct (stat_ok _ _ (fun i n => KK i n + counted i n cmd) (fun i j => TT i j + (clk - last_clk_ s)) (Channel cmd) (St_incr n) s1 H1 Hch)
    as (s2 & E2 & H2 & Ht2).
  { cbn [registered]. destruct (cmd_type cmd); cbn [counter_of] in En; try discriminate En; injection En as <-; apply (bool_decide_unpack _); vm_compute; exact I. }
  { intros i m _. unfold counted. rewrite En. cbn [increments]. repeat case_decide; try lia; naive_solver. }
  { intros i j _ _. assert ((if decide (i = Channel cmd) then covered [St_incr n] j else 0) = 0) as -> by (by case_decide). by rewrite Z.add_0_r, u64_add_r. }
  change (Increment n) with (fun st => stat_step st (St_incr n)). rewrite E2. cbn [mbind exc_bind].
  destruct (bank_effect_ok _ _ cmd s2 H2) as (s3 & E3 & H3 & Ht3); [by rewrite <- En in Hcnt|]. rewrite E3. cbn [mbind exc_bind].
  destruct (Z.eqb_spec (epoch_period config) 0); [done|].
  match goal with |- context [(if ?b then ok s3 else ?g) ≫= _] => assert (∃ s4, (if b then ok s3 else g) = ok s4 ∧
    replay_ok (fun i n => KK i n + counted i n cmd) (fun i j => TT i j + (clk - last_clk_ s)) s4 ∧ same_trace s3 s4) as (s4 & -> & [Hl4 Hb4 Hc4] & Ht4) end.
  { case_match; [by exists s3|]. apply (foldE_total (fun s4 => replay_ok (fun i n => KK i n + counted i n cmd) (fun i j => TT i j + (clk - last_clk_ s)) s4 ∧ same_trace s3 s4));
      [|done]. intros i s4 Hi%elem_of_zseq [H4 Ht4]. destruct (print_channel_ok _ _ i s4 H4 Hi) as (s5 & ? & ? & Ht5). exists s5. split; [done|]. split; [done|].
    destruct Ht4, Ht5. split; congruence. }
  cbn [mbind exc_bind]. exists (r_clk clk s4). split; [done|]. split; [by split|]. split; [|done].
  destruct Ht1, Ht2, Ht3, Ht4. simpl. congruence.
Qed.
(** *** Rounds *)

Lemma run_command_ok KK clk e s :
  replay_ok KK (fun _ _ => last_clk_ s) s → replayable e.2 →
  ∃ s', run_command config th power c fmt_double dump stat_text clk e s = ok s' ∧
    replay_ok (fun i n => KK i n + counted i n e.2) (fun _ _ => last_clk_ s') s' ∧
    timed_commands_ s' = timed_commands_ s ∧ last_clk_ s' = u64 (clk + e.1).
Proof using Hgrid Hfloor Hmap HBL Hperiod.
  intros Hs He. destruct (ProcessCMD_ok _ _ e.2 (u64 (clk + e.1)) s Hs He) as (s1 & E1 & [Hl Hb Hc] & Ht & Hclk).
  unfold run_command. rewrite E1. cbn [mbind exc_bind].
  destruct (UpdateCMDPower_ok config th (c_rest c) power (c_plan c) (c_mapping c) (c_offset c) VX VY Hgrid Hfloor Hmap 0 e.2 (thermal_calc_ s1) Hc
    (proj1 He) HBL) as (t & -> & Ht1 & _). cbn [mbind exc_bind]. exists (r_calc t s1). split; [done|]. split; [|done].
  split; [|done|done]. cbn [channel_stats_ r_calc last_clk_]. eapply ledger_ext; [exact Hl|done|]. intros i j _ _. rewrite Hclk. f_equal. lia.
Qed.

Lemma run_commands_ok KK clk cmds s :
  replay_ok KK (fun _ _ => last_clk_ s) s → Forall (fun e => replayable e.2) cmds →
  ∃ s', foldE (run_command config th power c fmt_double dump stat_text clk) cmds s = ok s' ∧
    replay_ok (fun i n => KK i n + counted_in i n cmds) (fun _ _ => last_clk_ s') s' ∧ timed_commands_ s' = timed_commands_ s ∧
    last_clk_ s' = match last cmds with Some e => u64 (clk + e.1) | None => last_clk_ s end.
Proof using Hgrid Hfloor Hmap HBL Hperiod.
  intros Hs Hcmds. revert KK s Hs. induction Hcmds as [|e cmds He Hcmds IH]; intros KK s Hs; cbn [foldE].
  - exists s. split; [done|]. split; [|done]. destruct Hs as [Hl Hb Hc]. split; [|done|done]. eapply ledger_ext; [exact Hl| |done].
    intros i n _. cbn beta. change (counted_in i n []) with 0. lia.
  - destruct (run_command_ok KK clk e s Hs He) as (s1 & -> & H1 & Ht1 & Hc1). cbn [mbind exc_bind].
    destruct (IH _ s1 H1) as (s' & -> & [Hl Hb Hc] & Ht & Hclk). exists s'. split; [done|]. split; [split; [|done|done]|split; [congruence|]].
    + eapply ledger_ext; [exact Hl| |done]. intros i n _. cbn beta. change (counted_in i n (e :: cmds)) with (counted i n e.2 + counted_in i n cmds). lia.
    + rewrite Hclk, last_cons. by destruct (last cmds).
Qed.

Lemma run_rounds_ok repeat s cmds :
  0 ≤ repeat → timed_commands_ s = cmds → Forall (fun e => replayable e.2) cmds →
  replay_ok (fun _ _ => 0) (fun _ _ => last_clk_ s) s → last_clk_ s = 0 →
  ∃ s', run_rounds config th power c fmt_double dump stat_text repeat s = ok (u64 (repeat * from_option fst 0 (last cmds)), s') ∧
    replay_ok (fun i n => repeat * counted_in i n cmds) (fun _ _ => repeat * from_option fst 0 (last cmds)) s'.
Proof using Hgrid Hfloor Hmap HBL Hperiod.
  intros Hrep Ht Hcmds Hs H0. set (T := from_option fst 0 (last cmds)). unfold run_rounds.
  destruct (foldE_index (fun k cs => cs.1 = u64 (k * T) ∧ last_clk_ cs.2 = cs.1 ∧ timed_commands_ cs.2 = cmds ∧
      replay_ok (fun i n => k * counted_in i n cmds) (fun _ _ => last_clk_ cs.2) cs.2)
    (fun _ cs => run_round config th power c fmt_double dump stat_text cs) repeat (0, s) Hrep) as ([clk s'] & -> & Hclk & Hl & _ & [H1 H2 H3]).
  - intros k [clk s1] _ (Hc & Hl & Ht1 & H1). cbn [fst snd] in *. unfold run_round. rewrite Ht1.
    destruct (run_commands_ok _ clk cmds s1 H1 Hcmds) as (s2 & -> & [HL HB HC] & Ht2 & Hc2). cbn [mbind exc_bind].
    eexists. split; [reflexivity|]. cbn [fst snd]. fold T.
    assert (u64 (clk + T) = u64 ((k + 1) * T)) as Enew by (rewrite Hc, u64_add_l; f_equal; lia).
    split; [exact Enew|]. split; [|split; [simpl; congruence|]].
    + change (last_clk_ (r_banks _ s2)) with (last_clk_ s2). rewrite Hc2. unfold T. destruct (last cmds) as [e|]; [done|].
      cbn [from_option]. by rewrite Hl, Hc, Z.add_0_r, u64_u64.
    + split; [|apply all_idle_ok|done]. cbn [channel_stats_ r_banks last_clk_]. eapply ledger_ext; [exact HL| |done]. intros i n _. cbn beta. lia.
  - cbn [fst snd]. split; [done|]. split; [done|]. split; [done|]. destruct Hs as [H1 H2 H3]. split; [|done|done].
    eapply ledger_ext; [exact H1| |done]. intros i n _. cbn beta. lia.
  - cbn [fst snd] in *. exists s'. split; [by rewrite Hclk|]. split; [|done|done]. eapply ledger_ext; [exact H1|done|].
    intros i j _ _. by rewrite Hl, Hclk, u64_u64.
Qed.
(** *** The final reports *)

Lemma compute_stats cnt vc hc r r' : compute config power cnt vc hc r = ok r' → rp_stats r' = rp_stats r.
Proof using.
  unfold compute. intros ([vd b] & _ & Hc)%exc_bind_ok. apply exc_bind_ok in Hc as (rl & _ & Hc).
  apply exc_bind_ok in Hc as (ia & _ & Hc). apply (f_equal (fun x => match x with ok q => rp_stats q | err _ => rp_stats r end)) in Hc. by symmetry.
Qed.
Lemma prints_stats b r r' : UpdatePrints fmt_double b r = ok r' → rp_stats r' = rp_stats r.
Proof using.
  unfold UpdatePrints. intros (bins & _ & Hc)%exc_bind_ok.
  apply (f_equal (fun x => match x with ok q => rp_stats q | err _ => rp_stats r end)) in Hc. by symmetry.
Qed.
Lemma final_stats r r' : r_UpdateFinalStats config power fmt_double r = ok r' → rp_stats r' = UpdateFinalStats (rp_stats r).
Proof using.
  unfold r_UpdateFinalStats. generalize (UpdateFinalStats (rp_stats r)). intros s. cbv zeta. intros (r1 & Hc & Hr)%exc_bind_ok.
  apply compute_stats in Hc. apply prints_stats in Hr. rewrite Hr. exact Hc.
Qed.

(** What is printed for a channel: the energies are those of its counts, and the cycles of
    every rank add up. *)
Definition reported (K : string -> Z) (T : Z) (r : Reports) : Prop :=
  (∀ n, n ∈ counter_names → counters_ (rp_stats r) !! n = Some (u64 (K n))) ∧
  (∀ n x, (n, x) ∈ energies power (fun n => u64 (K n)) → doubles_ r !! n = Some x) ∧
  ∀ j, 0 ≤ j < ranks config → ∃ va vi a i, vec_counters_ (rp_stats r) !! active_name = Some va ∧
    vec_counters_ (rp_stats r) !! idle_name = Some vi ∧ zget va j = Some a ∧ zget vi j = Some i ∧ u64 (a + i) = u64 T.

Lemma print_final_report K T r o :
  accounts config K (fun _ => T) r →
  ∃ r' o', r_PrintFinalStats config power fmt_double dump stat_text r o = ok (r', o') ∧ reported K T r'.
Proof using.
  intros Ha. destruct (accounts_final config K _ r Ha) as [HK HT]. destruct Ha as (Hr & Hp & _).
  destruct (final_ok config power fmt_double r Hr Hp) as (r1 & rl & ia & Hf & Hr1 & _ & _ & _ & _ & Hd & _).
  pose proof (final_stats r r1 Hf) as Hst. rewrite <- Hst in HK, HT, Hd.
  rewrite (energies_ext power _ (fun n => u64 (K n))) in Hd by (intros n Hn; unfold count; by rewrite HK).
  unfold r_PrintFinalStats. rewrite Hf. cbn [mbind exc_bind]. destruct (header_ok config true r1 Hr1) as [h ->].
  destruct (1 <=? output_level config); cbn [mbind exc_bind]; (eexists _, _; split; [reflexivity|]);
    (split; [exact HK|split; [|exact HT]]); intros n x Hin; cbn [doubles_ with_prints]; rewrite Hd;
    (apply inserts_lookup; [apply (bool_decide_unpack _); vm_compute; exact I|done]).
Qed.

Lemma print_finals_ok KK T s :
  replay_ok KK (fun _ _ => T) s → 0 ≤ channels config →
  ∃ s', foldE (print_final_channel config power fmt_double dump stat_text) (zseq (channels config)) s = ok s' ∧
    thermal_calc_ s' = thermal_calc_ s ∧
    ∀ i, 0 ≤ i < channels config → ∃ r, zget (channel_stats_ s') i = Some r ∧ reported (KK i) T r.
Proof using.
  intros [[Hlen Hl] _ _] Hch.
  destruct (foldE_index (fun k s' => Z.of_nat (length (channel_stats_ s')) = channels config ∧ thermal_calc_ s' = thermal_calc_ s ∧
      (∀ i, k ≤ i → zget (channel_stats_ s') i = zget (channel_stats_ s) i) ∧
      ∀ i, 0 ≤ i < k → ∃ r, zget (channel_stats_ s') i = Some r ∧ reported (KK i) T r)
    (print_final_channel config power fmt_double dump stat_text) (channels config) s Hch) as (s' & E & _ & Ht & _ & Hr).
  - intros k s1 Hk (Hn & Ht & Hold & Hnew). destruct (zget_is_Some (channel_stats_ s1) k) as [r Hr]; [lia|].
    pose proof (Hl k r) as Ha. rewrite <- Hold in Ha by lia. specialize (Ha Hr).
    destruct (print_final_report (KK k) T r (rp_out s1) Ha) as (r' & o' & E & Hrep).
    unfold print_final_channel. assert (vec_get (channel_stats_ s1) k = ok r) as -> by by apply vec_get_ok. cbn [mbind exc_bind]. rewrite E.
    cbn [mbind exc_bind]. eexists. split; [done|]. cbn [channel_stats_ r_outs r_stats thermal_calc_]. split; [by rewrite length_zset|]. split; [done|].
    split; [intros i Hi; rewrite zget_zset_ne by lia; apply Hold; lia|]. intros i Hi. destruct (decide (i = k)) as [->|Hne].
    + exists r'. split; [|done]. apply zget_zset_eq. lia.
    + rewrite zget_zset_ne by done. apply Hnew. lia.
  - split; [done|]. split; [done|]. split; [done|]. intros i Hi. lia.
  - by exists s'.
Qed.
End Replayed.

(** ** Theorems *)

(** (C34) A replay accounts for everything in its trace: for a stacked memory and a trace of
    commands that fit it, any number of rounds run to the end without leaving an array; the
    final counters and energies of every channel are those of its commands, as often as the
    trace was repeated, and for every rank the active and the idle cycles together are the
    length of the replay (all as 64-bit numbers). *)
Theorem replay_report fuel fuel' (config : Config) th power c fmt_double dump stat_text solve lines cmds o repeat :
  new_ThermalCalculator fuel config th power = ok c → IsHMC config || IsHBM config = true → 0 ≤ BL config → epoch_period config ≠ 0 →
  grid_ok config th (c_rest c) → floor_shape config (c_plan c) → mapping_ok config (c_mapping c) (c_offset c) →
  (∀ n a asub xa rhs, length (solve n a asub xa rhs) = length rhs) →
  mapE ParseLine lines = ok cmds → Forall (fun e => replayable config e.2) cmds → 0 ≤ repeat →
  ∃ s0 s, new_ThermalReplay config c (Some lines) o = ok s0 ∧
    Run config th power c fmt_double dump stat_text solve fuel' repeat s0 = ok s ∧
    calc_ok config (c_rest c) (c_plan c) (thermal_calc_ s) ∧
    ∀ i, 0 ≤ i < channels config → ∃ r, zget (channel_stats_ s) i = Some r ∧
      reported config power (fun n => repeat * counted_in i n cmds) (repeat * from_option fst 0 (last cmds)) r.
Proof.
  intros Hnew Hst HB Hper Hg Hsh Hm Hsolve Hparse Hcmds Hrep. destruct (new_calculator_parts fuel config th power c Hnew) as (Hp & _ & Hmi & Hcap & _ & _ & csv & Hs).
  destruct (floor_ok_all config th (c_rest c) (c_plan c) Hg Hp Hsh) as (VX & VY & [Hfl _]).
  destruct (floor_sizes _ _ _ _ _ _ Hg Hfl) as (HP & HX & HY). pose proof (empty_calculator_ok _ _ _ _ _ _ csv Hg Hfl) as H0. rewrite <- Hs in H0.
  destruct (gr_ranks _ _ _ Hg) as [Hrk Hch]. unfold new_ThermalReplay. cbn [opt_exc mbind exc_bind]. rewrite Hparse. cbn [mbind exc_bind].
  match goal with |- context [ok ?s = ok _] => set (s0 := s) end. exists s0.
  destruct (run_rounds_ok config th power c fmt_double dump stat_text VX VY Hg Hfl Hm HB Hper repeat s0 cmds Hrep eq_refl Hcmds) as (s1 & E1 & H1); [|done|].
  { split; [|by apply all_idle_ok with th c|exact H0]. split; [cbn; rewrite length_fmap, length_zseq; lia|]. intros i r Hr. cbn [channel_stats_ s0] in Hr.
    rewrite zget_fmap in Hr. destruct (zget (zseq (channels config)) i) as [k|]; [|discriminate]. cbn in Hr. injection Hr as <-. apply accounts_new. lia. }
  destruct (print_finals_ok config power c fmt_double dump stat_text _ _ s1 H1 ltac:(lia)) as (s2 & E2 & Ht2 & Hr2).
  pose proof (rk_calc _ _ _ _ _ H1) as Hc1. rewrite <- Ht2 in Hc1. clear H1.
  destruct (PrintFinalPT_ok config (c_rest c) (c_plan c) solve (c_Midx c) (c_MidxSize c) Hst HP HX HY Hmi Hsolve fuel'
    (u64 (repeat * from_option fst 0 (last cmds))) (thermal_calc_ s2) Hc1) as (t & E3 & Ht & _).
  exists (r_calc t s2). split; [reflexivity|]. split; [|split; [exact Ht|exact Hr2]].
  unfold Run. rewrite E1. cbn [mbind exc_bind]. rewrite E2. cbn [mbind exc_bind]. rewrite E3. reflexivity.
Qed.

(** Rows and columns of a command trace are lost: [operator<<] of common.cc prints them
    in hexadecimal with a prefix (its format ends in two fields of base 16), and [std::stoi]
    reads base 10, so stops at the [x]. Lines that differ only there are one command, at row
    0 and column 0. *)
Theorem hex_rows_lost line line' t0 t1 t2 t3 t4 t5 ro co ro' co' :
  StringSplit (list_ascii_of_string line) " "%char = [t0; t1; t2; t3; t4; t5; "0"%char :: "x"%char :: ro; "0"%char :: "x"%char :: co] →
  StringSplit (list_ascii_of_string line') " "%char = [t0; t1; t2; t3; t4; t5; "0"%char :: "x"%char :: ro'; "0"%char :: "x"%char :: co'] →
  ParseLine line = ParseLine line' ∧ ∀ clk cmd, ParseLine line = ok (clk, cmd) → Row cmd = 0 ∧ Column cmd = 0.
Proof.
  intros Hl Hl'. unfold ParseLine. rewrite Hl, Hl'.
  assert (∀ s, stoi ("0"%char :: "x"%char :: s) = ok 0) as Hhex by done. rewrite !Hhex. split; [done|].
  intros clk cmd H. do 5 apply exc_bind_ok in H as (? & _ & H). cbn [mbind exc_bind] in H. injection H as _ <-. done.
Qed.

(** ** Instances *)

(** Three rounds of an activation, a read and a precharge in the cube of [Thermal]. *)
Definition replay_trace : list string :=
  ["10 activate 0 0 0 1 77 5"; "40 read 0 0 0 1 77 5"; "50 precharge 0 0 0 1 77 5"]%string.
Definition replay_commands : list (Z * Command) :=
  [(10, MkCommand ACTIVATE (MkAddress 0 0 0 1 77 5) 0); (40, MkCommand READ (MkAddress 0 0 0 1 77 5) 0);
   (50, MkCommand PRECHARGE (MkAddress 0 0 0 1 77 5) 0)].
Example replay_parsed : mapE ParseLine replay_trace = ok replay_commands.
Proof. vm_compute. reflexivity. Qed.
Lemma replay_commands_ok : Forall (fun e => replayable cube e.2) replay_commands.
Proof. repeat constructor; vm_compute; congruence. Qed.

Lemma replay_report_witness :
  ∃ c s0 s r, new_ThermalCalculator 1000 cube cube_thermal hbm2_power = ok c ∧ new_ThermalReplay cube c (Some replay_trace) no_outputs = ok s0 ∧
    Run cube cube_thermal hbm2_power c plain_double plain_dump plain_text (fun _ _ _ _ r => r) 0 3 s0 = ok s ∧
    zget (channel_stats_ s) 0 = Some r ∧ counters_ (rp_stats r) !! "num_read_cmds"%string = Some 3 ∧
    ∃ va vi a i, vec_counters_ (rp_stats r) !! "rank_active_cycles"%string = Some va ∧
      vec_counters_ (rp_stats r) !! "all_bank_idle_cycles"%string = Some vi ∧ zget va 0 = Some a ∧ zget vi 0 = Some i ∧ u64 (a + i) = 150.
Proof.
  destruct (new_ThermalCalculator 1000 cube cube_thermal hbm2_power) as [c|e] eqn:E; [|pose proof cube_built as Hb; rewrite E in Hb; discriminate Hb].
  destruct (new_calculator_parts _ _ _ _ _ E) as (Hp & Hr & _ & _ & Hl & _ & _).
  assert (c_plan c = cube_plan) as Ep by (assert (new_plan cube cube_thermal = ok cube_plan) as Hq by (vm_compute; reflexivity); rewrite Hq in Hp; by injection Hp).
  assert (c_rest c = cube_rest) as Er.
  { assert (th_rest cube_thermal = Some (MkRest EmptyString 1 0 4 (lit 1 100) (lit 1 100) (of_int 40))) as Hq by (vm_compute; reflexivity). rewrite Hq in Hr. by injection Hr. }
  rewrite Er in Hl. injection Hl as Em.
  destruct (replay_report 1000 0 cube cube_thermal hbm2_power c plain_double plain_dump plain_text (fun _ _ _ _ r => r) replay_trace replay_commands no_outputs 3 E)
    as (s0 & s & H0 & Hs & _ & Hi).
  - reflexivity.
  - vm_compute. congruence.
  - vm_compute. congruence.
  - rewrite Er. exact cube_grid.
  - rewrite Ep. exact cube_shape.
  - rewrite <- Em. apply mapping_ok_none.
  - reflexivity.
  - exact replay_parsed.
  - exact replay_commands_ok.
  - lia.
  - destruct (Hi 0) as (r & Hr0 & HK & _ & HT); [vm_compute; split; congruence|]. exists c, s0, s, r. split; [reflexivity|]. split; [exact H0|]. split; [exact Hs|].
    split; [exact Hr0|]. split; [|apply (HT 0); vm_compute; split; congruence].
    rewrite (HK "num_read_cmds"%string) by (apply (bool_decide_unpack _); vm_compute; exact I). vm_compute. reflexivity.
Defined.

(** Rows 0x4d and 0x4e. *)
Lemma hex_rows_lost_witness :
  ParseLine "40                 read                   0   0   0   1     0x4d      0x5" =
    ParseLine "40                 read                   0   0   0   1     0x4e      0x6" ∧
  ∀ clk cmd, ParseLine "40                 read                   0   0   0   1     0x4d      0x5" = ok (clk, cmd) → Row cmd = 0 ∧ Column cmd = 0.
Proof.
  apply (hex_rows_lost "40                 read                   0   0   0   1     0x4d      0x5"
    "40                 read                   0   0   0   1     0x4e      0x6" (list_ascii_of_string "40") (list_ascii_of_string "read")
    ["0"%char] ["0"%char] ["0"%char] ["1"%char] (list_ascii_of_string "4d") (list_ascii_of_string "5") (list_ascii_of_string "4e") (list_ascii_of_string "6"));
    vm_compute; reflexivity.
Defined.
