(* ===== verification/CommandQueue.v ===== *)
(** * The command queues of a channel (DRAMsim3-master/src/command_queue.h, command_queue.cc)

    One queue per bank or per rank. The scheduler walks the queues round robin,
    takes the first command the channel can make progress on, and removes reads
    and writes when they are issued. The theorems: with the queues in their
    invariant the scheduler never fails (the "cannot find cmd!" exit is
    unreachable), what it returns is ready, and it removes exactly what it
    issues. *)

From Stdlib Require Import ZArith Lia String.
From stdpp Require Import strings sets gmap numbers option list.
From S2P Require Import Prelude DramCommon BankState Config Timing ChannelState Stats.

(** [enum class QueueStructure]. *)
Inductive QueueStructure := PER_RANK | PER_BANK.
#[global] Instance QueueStructure_eq_dec : EqDecision QueueStructure.
Proof. solve_decision. Defined.

(** [class CommandQueue]. *)
Record CommandQueue := MkCmdQ {
  rank_q_empty : list bool;
  queue_structure_ : QueueStructure;
  queues_ : list (list Command);
  ref_q_indices_ : gset Z;
  is_in_ref_ : bool;
  num_queues_ : Z;
  queue_size_ : Z;
  queue_idx_ : Z;
  cq_clk_ : Z
}.

Definition with_queues (l : list (list Command)) (q : CommandQueue) : CommandQueue :=
  MkCmdQ (rank_q_empty q) (queue_structure_ q) l (ref_q_indices_ q) (is_in_ref_ q)
         (num_queues_ q) (queue_size_ q) (queue_idx_ q) (cq_clk_ q).
Definition with_idx (i : Z) (q : CommandQueue) : CommandQueue :=
  MkCmdQ (rank_q_empty q) (queue_structure_ q) (queues_ q) (ref_q_indices_ q) (is_in_ref_ q)
         (num_queues_ q) (queue_size_ q) i (cq_clk_ q).
Definition with_ref (r : gset Z) (b : bool) (q : CommandQueue) : CommandQueue :=
  MkCmdQ (rank_q_empty q) (queue_structure_ q) (queues_ q) r b
         (num_queues_ q) (queue_size_ q) (queue_idx_ q) (cq_clk_ q).
Definition with_rank_empty (l : list bool) (q : CommandQueue) : CommandQueue :=
  MkCmdQ l (queue_structure_ q) (queues_ q) (ref_q_indices_ q) (is_in_ref_ q)
         (num_queues_ q) (queue_size_ q) (queue_idx_ q) (cq_clk_ q).

Section Queues.
Context (config : Config).

(** [CommandQueue::CommandQueue(...)]. *)
Definition new_cmd_queue : exc CommandQueue :=
  '(st, n) ← (if decide (queue_structure config = "PER_BANK"%string)
              then ok (PER_BANK, banks config * ranks config)
              else if decide (queue_structure config = "PER_RANK"%string)
              then ok (PER_RANK, ranks config)
              else err AbruptExit);
  ok (MkCmdQ (replicate (Z.to_nat (ranks config)) true) st (replicate (Z.to_nat n) []) ∅ false
             n (u64 (cmd_queue_size config)) 0 0).

(** [ClockTick()]. *)
Definition cq_ClockTick (q : CommandQueue) : CommandQueue :=
  MkCmdQ (rank_q_empty q) (queue_structure_ q) (queues_ q) (ref_q_indices_ q) (is_in_ref_ q)
         (num_queues_ q) (queue_size_ q) (queue_idx_ q) (u64 (cq_clk_ q + 1)).

(** [GetQueueIndex(rank, bankgroup, bank)]. *)
Definition GetQueueIndex (q : CommandQueue) (p : bplace) : Z :=
  let '(r, bg, ba) := p in
  match queue_structure_ q with
  | PER_RANK => r
  | PER_BANK => r * banks config + bg * banks_per_group config + ba
  end.

(** [GetQueue(rank, bankgroup, bank)]. *)
Definition GetQueue (q : CommandQueue) (p : bplace) : exc (list Command) :=
  vec_get (queues_ q) (GetQueueIndex q p).

(** [GetNextQueue()]: the queue and the advanced index. *)
Definition GetNextQueue (q : CommandQueue) : exc (list Command * CommandQueue) :=
  let i := queue_idx_ q + 1 in
  let i := if i =? num_queues_ q then 0 else i in
  l ← vec_get (queues_ q) i;
  ok (l, with_idx i q).

(** [WillAcceptCommand(rank, bankgroup, bank)]. *)
Definition WillAcceptCommand (q : CommandQueue) (p : bplace) : exc bool :=
  l ← GetQueue q p; ok (Z.of_nat (length l) <? queue_size_ q).

(** [QueueEmpty()], [QueueUsage()]. *)
Definition QueueEmpty (q : CommandQueue) : bool := forallb (fun l => bool_decide (l = [])) (queues_ q).
Definition QueueUsage (q : CommandQueue) : Z := foldr (fun l n => Z.of_nat (length l) + n) 0 (queues_ q).

(** [AddCommand(cmd)]. *)
Definition AddCommand (c : Command) (q : CommandQueue) : exc (bool * CommandQueue) :=
  l ← GetQueue q (cplace c);
  if Z.of_nat (length l) <? queue_size_ q then
    _ ← vec_get (rank_q_empty q) (Rank c);
    ok (true, with_rank_empty (zset (rank_q_empty q) (Rank c) false)
                (with_queues (zset (queues_ q) (GetQueueIndex q (cplace c)) (l ++ [c])) q))
  else ok (false, q).

(** [GetRefQIndices(ref)]. *)
Definition GetRefQIndices (ref : Command) (q : CommandQueue) : CommandQueue :=
  if decide (cmd_type ref = REFRESH) then
    match queue_structure_ q with
    | PER_BANK =>
        with_ref (list_to_set (filter (fun i => Z.quot i (banks config) = Rank ref) (zseq (num_queues_ q)))
                  ∪ ref_q_indices_ q) (is_in_ref_ q) q
    | PER_RANK => with_ref ({[Rank ref]} ∪ ref_q_indices_ q) (is_in_ref_ q) q
    end
  else with_ref ({[GetQueueIndex q (cplace ref)]} ∪ ref_q_indices_ q) (is_in_ref_ q) q.

(** [EraseRWCommand(cmd)]. *)
Definition same_rw (c c' : Command) : bool :=
  (hex_addr c =? hex_addr c') && bool_decide (cmd_type c = cmd_type c').
Definition EraseRWCommand (c : Command) (q : CommandQueue) : exc CommandQueue :=
  l ← GetQueue q (cplace c);
  if existsb (same_rw c) l then
    ok (with_queues (zset (queues_ q) (GetQueueIndex q (cplace c)) (erase_first (same_rw c) l)) q)
  else err AbruptExit.

(** Commands to the same bank. *)
Definition same_place (c c' : Command) : bool :=
  (Rank c =? Rank c') && (Bankgroup c =? Bankgroup c') && (Bank c =? Bank c').

(** [ArbitratePrecharge(cmd_it, queue)]: [pre] are the commands before [cmd_it],
    [c :: rest] those from it on. *)
Definition ArbitratePrecharge (chan : ChannelState) (pre : list Command) (c : Command)
    (rest : list Command) (st : SimpleStats) : exc (bool * SimpleStats) :=
  if existsb (same_place c) pre then ok (false, st)
  else
    open_row ← OpenRow chan (cplace c);
    let pending_row_hits_exist := existsb (fun c' => (Row c' =? open_row) && same_place c c') (c :: rest) in
    hits ← RowHitCount chan (cplace c);
    if negb pending_row_hits_exist || (4 <=? hits) then ok (true, Increment "num_ondemand_pres" st)
    else ok (false, st).

(** [HasRWDependency(cmd_it, queue)]. *)
Definition HasRWDependency (pre : list Command) (c : Command) : bool :=
  existsb (fun c' => IsRead c' && (Row c' =? Row c) && (Column c' =? Column c) &&
                     (Bank c' =? Bank c) && (Bankgroup c' =? Bankgroup c)) pre.

(** [GetFirstReadyInQueue(queue)], from the iterator on. *)
Fixpoint first_ready (chan : ChannelState) (clk : Z) (pre rest : list Command) (st : SimpleStats)
    : exc (Command * SimpleStats) :=
  match rest with
  | [] => ok (Command_default, st)
  | c :: rest' =>
      cmd ← GetReadyCommand config chan c clk;
      let continue st := first_ready chan clk (pre ++ [c]) rest' st in
      if IsValid cmd then
        if decide (cmd_type cmd = PRECHARGE) then
          '(b, st) ← ArbitratePrecharge chan pre c rest' st;
          if (b : bool) then ok (cmd, st) else continue st
        else if IsWrite cmd then
          if HasRWDependency pre c then continue st else ok (cmd, st)
        else ok (cmd, st)
      else continue st
  end.
Definition GetFirstReadyInQueue (chan : ChannelState) (clk : Z) (l : list Command) (st : SimpleStats)
    : exc (Command * SimpleStats) :=
  first_ready chan clk [] l st.

(** The loop of [GetCommandToIssue], [n] iterations left. *)
Fixpoint issue_loop (n : nat) (chan : ChannelState) (q : CommandQueue) (st : SimpleStats)
    : exc (Command * CommandQueue * SimpleStats) :=
  match n with
  | O => ok (Command_default, q, st)
  | S n' =>
      '(l, q) ← GetNextQueue q;
      if is_in_ref_ q && bool_decide (queue_idx_ q ∈ ref_q_indices_ q) then issue_loop n' chan q st
      else
        '(cmd, st) ← GetFirstReadyInQueue chan (cq_clk_ q) l st;
        if IsValid cmd then
          q' ← (if IsReadWrite cmd then EraseRWCommand cmd q else ok q);
          ok (cmd, q', st)
        else issue_loop n' chan q st
  end.

(** [GetCommandToIssue()]. *)
Definition GetCommandToIssue (chan : ChannelState) (q : CommandQueue) (st : SimpleStats)
    : exc (Command * CommandQueue * SimpleStats) :=
  issue_loop (Z.to_nat (num_queues_ q)) chan q st.

(** [FinishRefresh()]. *)
Definition FinishRefresh (chan : ChannelState) (q : CommandQueue) : exc (Command * CommandQueue) :=
  ref ← PendingRefCommand chan;
  let q := if is_in_ref_ q then q
           else let q' := GetRefQIndices ref q in with_ref (ref_q_indices_ q') true q' in
  cmd ← GetReadyCommand config chan ref (cq_clk_ q);
  if IsRefresh cmd then ok (cmd, with_ref ∅ false q) else ok (cmd, q).
End Queues.

Section Lemmas.
Context (config : Config).
Implicit Types (q : CommandQueue) (c : Command) (p : bplace) (chan : ChannelState) (st : SimpleStats).

(** Every queue has room for its commands, which are reads and writes to banks
    of the channel, each in the queue of its bank. *)
Record cq_wf q : Prop := {
  qw_num : num_queues_ q = match queue_structure_ q with
                           | PER_BANK => banks config * ranks config
                           | PER_RANK => ranks config
                           end;
  qw_len : length (queues_ q) = Z.to_nat (num_queues_ q);
  qw_idx : 0 ≤ queue_idx_ q < num_queues_ q;
  qw_size i l : zget (queues_ q) i = Some l → Z.of_nat (length l) ≤ queue_size_ q;
  qw_cmds i l c : zget (queues_ q) i = Some l → c ∈ l →
    IsReadWrite c = true ∧ request_ok config c ∧ GetQueueIndex config q (cplace c) = i;
  qw_rank : length (rank_q_empty q) = Z.to_nat (ranks config)
}.

Lemma GetQueueIndex_range q p :
  shape_ok config → cq_wf q → in_range config p → 0 ≤ GetQueueIndex config q p < num_queues_ q.
Proof.
  intros [Hbg Hbpg Hb Hr] Hq (Hi & Hj & Hk). destruct p as [[i j] k]. simpl in *.
  rewrite (qw_num _ Hq). destruct (queue_structure_ q); [done|]. rewrite Hb.
  pose proof (radix_range j k (banks_per_group config) (bankgroups config) Hj Hk) as Hjk.
  pose proof (radix_range i _ _ _ Hi Hjk). lia.
Qed.

(** Per bank, distinct banks have distinct queues. *)
Lemma GetQueueIndex_inj q p p' :
  shape_ok config → queue_structure_ q = PER_BANK → in_range config p → in_range config p' →
  GetQueueIndex config q p = GetQueueIndex config q p' → p = p'.
Proof.
  intros [Hbg Hbpg Hb Hr] Hs (Hi & Hj & Hk) (Hi' & Hj' & Hk').
  destruct p as [[i j] k], p' as [[i' j'] k']. simpl in *. rewrite Hs, Hb. intros Heq.
  destruct (radix_inj i i' (j * banks_per_group config + k) (j' * banks_per_group config + k')
    (bankgroups config * banks_per_group config)) as [-> He]; [by apply radix_range..|lia|].
  by destruct (radix_inj j j' k k' (banks_per_group config)) as [-> ->].
Qed.

Lemma rw_not_rank c : IsReadWrite c = true → IsRankCMD c = false.
Proof. unfold IsReadWrite, IsRead, IsWrite, IsRankCMD, ct_is. by destruct (cmd_type c). Qed.

Lemma request_range c : IsReadWrite c = true → request_ok config c → in_range config (cplace c).
Proof. intros Hrw [Hc _]. unfold cmd_ok in Hc. by rewrite (rw_not_rank c Hrw) in Hc. Qed.

Lemma wf_queue_get q p :
  shape_ok config → cq_wf q → in_range config p → ∃ l, zget (queues_ q) (GetQueueIndex config q p) = Some l.
Proof.
  intros Hsh Hq Hp. destruct (zget_is_Some (queues_ q) (GetQueueIndex config q p)) as [l Hl]; [|eauto].
  rewrite (qw_len _ Hq). pose proof (GetQueueIndex_range q p Hsh Hq Hp). lia.
Qed.

(** *** Readiness of a read or write *)

Lemma ActivationWindowOk_total chan r t :
  chan_wf config chan → 0 ≤ r < ranks config → ∃ b, ActivationWindowOk config chan r t = ok b.
Proof.
  intros Hw Hr. unfold ActivationWindowOk, vec_get.
  destruct (zget_is_Some (four_aw_ chan) r) as [a4 ->]; [rewrite (cw_aw4 _ _ Hw); lia|].
  destruct (zget_is_Some (thirty_two_aw_ chan) r) as [a32 ->]; [rewrite (cw_aw32 _ _ Hw); lia|].
  simpl. destruct (IsGDDR config); [destruct (window_ready 4 a4 t)|]; eauto.
Qed.

Lemma required_rw b c :
  bank_wf b → IsReadWrite c = true → ∃ rt, required_type b c = ok rt ∧
    (rt = cmd_type c ∨ rt = ACTIVATE ∨ rt = PRECHARGE ∨ rt = SREF_EXIT).
Proof.
  intros [_ Hst _ _ _] Hrw. unfold required_type, IsReadWrite, IsRead, IsWrite, ct_is in *.
  destruct Hst as [->|[->| ->]]; destruct (cmd_type c); try done;
    try (destruct (_ =? _)); eauto 10.
Qed.

Lemma rw_ready chan c clk :
  chan_ok config chan → IsReadWrite c = true → request_ok config c →
  ∃ rc, GetReadyCommand config chan c clk = ok rc ∧
    (IsValid rc = true → addr rc = addr c ∧ hex_addr rc = hex_addr c ∧
       (IsReadWrite rc = true → cmd_type rc = cmd_type c)).
Proof.
  intros Hk Hrw Hreq. pose proof (request_range c Hrw Hreq) as Hr.
  destruct (proj1 (cw_shape _ _ (ck_wf _ _ Hk) _) Hr) as [b Hb].
  pose proof (cw_banks _ _ (ck_wf _ _ Hk) _ _ Hb) as Hbw.
  destruct (required_rw b c Hbw Hrw) as (rt & Hrt & Hcase).
  unfold GetReadyCommand, get_bank. rewrite (rw_not_rank c Hrw), Hb. cbn [opt_exc mbind exc_bind].
  rewrite (b_GetReadyCommand_ok b c clk rt Hbw Hrt). cbn [mbind exc_bind].
  set (rc := if _ <=? clk then _ else _).
  assert (IsValid rc = true → addr rc = addr c ∧ hex_addr rc = hex_addr c ∧
    (IsReadWrite rc = true → cmd_type rc = cmd_type c)) as Hrc.
  { unfold rc. destruct (_ <=? clk); [|by rewrite IsValid_default]. intros _. simpl. split_and!; try done.
    unfold IsReadWrite, IsRead, IsWrite, ct_is. simpl. by destruct Hcase as [->|[->|[->| ->]]]. }
  assert (∀ r : exc Command, r = ok rc ∨ r = ok Command_default →
    ∃ rc, r = ok rc ∧ (IsValid rc = true → addr rc = addr c ∧ hex_addr rc = hex_addr c ∧
      (IsReadWrite rc = true → cmd_type rc = cmd_type c))) as Hres.
  { intros r [->| ->]; eexists; (split; [done|]); [done|by rewrite IsValid_default]. }
  destruct (IsValid rc) eqn:Hv; [|apply Hres; by right].
  destruct (Hrc eq_refl) as (Ha & _).
  case_decide; [|apply Hres; by left].
  destruct (ActivationWindowOk_total chan (Rank rc) clk (ck_wf _ _ Hk)) as [w ->].
  { unfold Rank. rewrite Ha. by destruct Hr. }
  cbn [mbind exc_bind]. apply Hres. destruct w; [by left|by right].
Qed.

(** *** The scan of one queue *)

Lemma ArbitratePrecharge_total chan pre c rest st :
  chan_wf config chan → in_range config (cplace c) → ∃ r, ArbitratePrecharge chan pre c rest st = ok r.
Proof.
  intros Hw Hr. unfold ArbitratePrecharge, OpenRow, RowHitCount, get_bank.
  destruct (existsb (same_place c) pre); [eauto|].
  destruct (proj1 (cw_shape _ _ Hw _) Hr) as [b ->]. simpl. destruct (_ || _); eauto.
Qed.

(** What the scan returns: nothing, or a command that serves an entry of the
    queue; a write has no earlier read of its location before it. *)
Lemma first_ready_spec chan clk pre rest st :
  chan_ok config chan → (∀ c, c ∈ rest → IsReadWrite c = true ∧ request_ok config c) →
  ∃ rc st', first_ready config chan clk pre rest st = ok (rc, st') ∧
    (IsValid rc = true → ∃ l1 c l2, rest = l1 ++ c :: l2 ∧
       GetReadyCommand config chan c clk = ok rc ∧
       (IsWrite rc = true → HasRWDependency (pre ++ l1) c = false)).
Proof.
  intros Hk. revert pre st. induction rest as [|c rest IH]; intros pre st Hall; cbn [first_ready].
  { exists Command_default, st. split; [done|]. by rewrite IsValid_default. }
  destruct (Hall c) as [Hrw Hreq]; [left|].
  destruct (rw_ready chan c clk Hk Hrw Hreq) as (rc & Hg & Hrc). rewrite Hg. cbn [mbind exc_bind].
  assert (∀ st, ∃ rc0 st', first_ready config chan clk (pre ++ [c]) rest st = ok (rc0, st') ∧
    (IsValid rc0 = true → ∃ l1 c' l2, c :: rest = l1 ++ c' :: l2 ∧
       GetReadyCommand config chan c' clk = ok rc0 ∧
       (IsWrite rc0 = true → HasRWDependency (pre ++ l1) c' = false))) as Hcont.
  { intros st0. destruct (IH (pre ++ [c]) st0) as (rc0 & st' & Hf & Hres); [intros; apply Hall; by right|].
    exists rc0, st'. split; [done|]. intros Hv. destruct (Hres Hv) as (l1 & c' & l2 & -> & ? & Hdep).
    exists (c :: l1), c', l2. split_and!; [done|done|]. by rewrite <- app_assoc in Hdep. }
  assert (∀ st0, (IsWrite rc = true → HasRWDependency pre c = false) →
    ∃ rc0 st', ok (rc, st0) = ok (rc0, st') ∧ (IsValid rc0 = true → ∃ l1 c' l2, c :: rest = l1 ++ c' :: l2 ∧
       GetReadyCommand config chan c' clk = ok rc0 ∧
       (IsWrite rc0 = true → HasRWDependency (pre ++ l1) c' = false))) as Hret.
  { intros st0 Hdep. exists rc, st0. split; [done|]. intros _. exists [], c, rest.
    rewrite app_nil_r. done. }
  destruct (IsValid rc) eqn:Hv; [|apply Hcont].
  case_decide as Hpre.
  - destruct (ArbitratePrecharge_total chan pre c rest st (ck_wf _ _ Hk) (request_range c Hrw Hreq)) as [[b st'] ->].
    cbn [mbind exc_bind]. destruct b; [|apply Hcont]. apply Hret.
    unfold IsWrite, ct_is. by rewrite Hpre.
  - destruct (IsWrite rc) eqn:Hwr; [|by apply Hret].
    destruct (HasRWDependency pre c) eqn:Hdep; [apply Hcont|by apply Hret].
Qed.

(** *** Removal *)

Lemma erase_first_perm (P : Command -> bool) l :
  existsb P l = true → ∃ c, P c = true ∧ l ≡ₚ c :: erase_first P l.
Proof.
  induction l as [|c l IH]; simpl; [done|]. destruct (P c) eqn:Hp; [eauto|]. simpl. intros Hex.
  destruct (IH Hex) as (c' & Hc' & Hl). exists c'. split; [done|]. rewrite Hl at 1. apply Permutation_swap.
Qed.

Lemma erase_first_sub (P : Command -> bool) l c : c ∈ erase_first P l → c ∈ l.
Proof. induction l as [|c' l IH]; simpl; [done|]. destruct (P c'); set_solver. Qed.

Lemma erase_first_length (P : Command -> bool) l : (length (erase_first P l) ≤ length l)%nat.
Proof. induction l as [|c' l IH]; simpl; [lia|]. destruct (P c'); simpl; lia. Qed.

Lemma same_rw_refl c rc :
  hex_addr rc = hex_addr c → cmd_type rc = cmd_type c → same_rw rc c = true.
Proof. intros Hh Ht. unfold same_rw. by rewrite Hh, Z.eqb_refl, bool_decide_true. Qed.

(** What the scheduling operations leave alone. *)
Definition same_setup q q' : Prop :=
  rank_q_empty q' = rank_q_empty q ∧ queue_structure_ q' = queue_structure_ q ∧
  num_queues_ q' = num_queues_ q ∧ queue_size_ q' = queue_size_ q ∧ cq_clk_ q' = cq_clk_ q ∧
  is_in_ref_ q' = is_in_ref_ q ∧ ref_q_indices_ q' = ref_q_indices_ q.

Lemma GetQueueIndex_setup q q' p :
  queue_structure_ q' = queue_structure_ q → GetQueueIndex config q' p = GetQueueIndex config q p.
Proof. unfold GetQueueIndex. by intros ->. Qed.

Lemma cq_wf_idx q i : cq_wf q → 0 ≤ i < num_queues_ q → cq_wf (with_idx i q).
Proof.
  intros [] Hi. by split.
Qed.

(** Replacing a queue by a shorter one with some of its commands. *)
Lemma cq_wf_shrink q i l l' :
  cq_wf q → zget (queues_ q) i = Some l → (length l' ≤ length l)%nat → (∀ c, c ∈ l' → c ∈ l) →
  cq_wf (with_queues (zset (queues_ q) i l') q).
Proof.
  intros [] Hl Hlen Hsub. split; try done;
    cbn [queues_ with_queues queue_size_ num_queues_ rank_q_empty].
  - by rewrite length_zset.
  - intros i' l0. destruct (decide (i' = i)) as [->|Hne].
    + rewrite zget_zset_eq by (by eapply zget_lt). intros [= <-]. etrans; [|by eapply qw_size0]. lia.
    + rewrite zget_zset_ne by done. apply qw_size0.
  - intros i' l0 c Hl0 Hc. rewrite (GetQueueIndex_setup q) by done. destruct (decide (i' = i)) as [->|Hne].
    + rewrite zget_zset_eq in Hl0 by (by eapply zget_lt). injection Hl0 as <-.
      eapply qw_cmds0; [exact Hl|]. by apply Hsub.
    + rewrite zget_zset_ne in Hl0 by done. by eapply qw_cmds0.
Qed.

Lemma GetNextQueue_ok q :
  cq_wf q → ∃ i l, GetNextQueue q = ok (l, with_idx i q) ∧ 0 ≤ i < num_queues_ q ∧
    zget (queues_ q) i = Some l.
Proof.
  intros Hq. unfold GetNextQueue. pose proof (qw_idx _ Hq).
  set (i := if _ =? _ then 0 else _).
  assert (0 ≤ i < num_queues_ q) as Hi by (unfold i; destruct (Z.eqb_spec (queue_idx_ q + 1) (num_queues_ q)); lia).
  destruct (zget_is_Some (queues_ q) i) as [l Hl]; [rewrite (qw_len _ Hq); lia|].
  exists i, l. unfold vec_get. by rewrite Hl.
Qed.

Lemma EraseRWCommand_ok q i l c rc :
  cq_wf q → zget (queues_ q) i = Some l → c ∈ l → addr rc = addr c → hex_addr rc = hex_addr c →
  cmd_type rc = cmd_type c →
  EraseRWCommand config rc q = ok (with_queues (zset (queues_ q) i (erase_first (same_rw rc) l)) q) ∧
  existsb (same_rw rc) l = true.
Proof.
  intros Hq Hl Hc Ha Hh Ht. destruct (qw_cmds _ Hq i l c Hl Hc) as (_ & _ & Hi).
  assert (cplace rc = cplace c) as Hp by (unfold cplace, Rank, Bankgroup, Bank; by rewrite Ha).
  assert (existsb (same_rw rc) l = true) as Hex.
  { apply existsb_exists. exists c. split; [by apply list_elem_of_In|by apply same_rw_refl]. }
  unfold EraseRWCommand, GetQueue, vec_get. rewrite Hp, Hi, Hl. simpl. by rewrite Hex.
Qed.

(** What a round of the scheduler does to the queues. *)
Definition issued chan q (cmd : Command) q' : Prop :=
  if IsValid cmd then
    ∃ i l c, zget (queues_ q) i = Some l ∧ c ∈ l ∧
      ¬ (is_in_ref_ q = true ∧ i ∈ ref_q_indices_ q) ∧
      GetReadyCommand config chan c (cq_clk_ q) = ok cmd ∧
      (if IsReadWrite cmd then
         existsb (same_rw cmd) l = true ∧ queues_ q' = zset (queues_ q) i (erase_first (same_rw cmd) l)
       else queues_ q' = queues_ q)
  else queues_ q' = queues_ q.

Lemma issue_loop_spec n chan q st :
  chan_ok config chan → cq_wf q →
  ∃ cmd q' st', issue_loop config n chan q st = ok (cmd, q', st') ∧ cq_wf q' ∧ same_setup q q' ∧
    issued chan q cmd q'.
Proof.
  intros Hk. revert q st. induction n as [|n IH]; intros q st Hq; cbn [issue_loop].
  { exists Command_default, q, st. split_and!; done. }
  destruct (GetNextQueue_ok q Hq) as (i & l & -> & Hi & Hl). cbn [mbind exc_bind].
  pose proof (cq_wf_idx q i Hq Hi) as Hq1.
  assert (∀ st, ∃ cmd q' st', issue_loop config n chan (with_idx i q) st = ok (cmd, q', st') ∧ cq_wf q' ∧
    same_setup q q' ∧ issued chan q cmd q') as Hcont.
  { intros st0. destruct (IH (with_idx i q) st0 Hq1) as (cmd & q' & st' & ? & ? & ? & ?).
    exists cmd, q', st'. done. }
  destruct (is_in_ref_ (with_idx i q) && _) eqn:Hblk; [apply Hcont|].
  destruct (first_ready_spec chan (cq_clk_ (with_idx i q)) [] l st Hk) as (cmd & st' & Hf & Hres).
  { intros c Hc. destruct (qw_cmds _ Hq i l c Hl Hc) as (? & ? & _). done. }
  unfold GetFirstReadyInQueue. rewrite Hf. cbn [mbind exc_bind].
  destruct (IsValid cmd) eqn:Hv; [|apply Hcont].
  destruct (Hres eq_refl) as (l1 & c & l2 & El & Hg & _).
  assert (c ∈ l) as Hc by (rewrite El; set_solver).
  assert (¬ (is_in_ref_ q = true ∧ i ∈ ref_q_indices_ q)) as Hnb.
  { intros [E1 E2]. simpl in Hblk. by rewrite E1, bool_decide_true in Hblk. }
  destruct (qw_cmds _ Hq i l c Hl Hc) as (Hrw & Hreq & _).
  destruct (rw_ready chan c (cq_clk_ q) Hk Hrw Hreq) as (rc & Hg' & Hrc).
  simpl in Hg. rewrite Hg in Hg'. injection Hg' as <-. destruct (Hrc Hv) as (Ha & Hh & Ht).
  destruct (IsReadWrite cmd) eqn:Hcrw.
  - destruct (EraseRWCommand_ok (with_idx i q) i l c cmd Hq1 Hl Hc Ha Hh (Ht eq_refl)) as [-> Hex].
    cbn [mbind exc_bind]. eexists cmd, _, st'. split_and!; [done| |done|].
    + eapply cq_wf_shrink; [done|exact Hl|apply erase_first_length|apply erase_first_sub].
    + unfold issued. rewrite Hv, Hcrw. exists i, l, c. split_and!; done.
  - cbn [mbind exc_bind]. eexists cmd, _, st'. split_and!; [done|done|done|].
    unfold issued. rewrite Hv, Hcrw. exists i, l, c. split_and!; done.
Qed.

(** A request for a bank with room goes to the end of its queue. *)
Lemma AddCommand_ok q c :
  shape_ok config → cq_wf q → IsReadWrite c = true → request_ok config c →
  ∃ l b q', zget (queues_ q) (GetQueueIndex config q (cplace c)) = Some l ∧
    WillAcceptCommand config q (cplace c) = ok b ∧ AddCommand config c q = ok (b, q') ∧ cq_wf q' ∧
    queues_ q' = (if b then zset (queues_ q) (GetQueueIndex config q (cplace c)) (l ++ [c])
                  else queues_ q).
Proof.
  intros Hsh Hq Hrw Hreq. pose proof (request_range c Hrw Hreq) as Hr.
  destruct (wf_queue_get q (cplace c) Hsh Hq Hr) as [l Hl].
  destruct (zget_is_Some (rank_q_empty q) (Rank c)) as [e He].
  { rewrite (qw_rank _ Hq). destruct Hr as [Hr _]. simpl in Hr. lia. }
  unfold WillAcceptCommand, AddCommand, GetQueue, vec_get. rewrite Hl, He. cbn [opt_exc mbind exc_bind].
  exists l, (Z.of_nat (length l) <? queue_size_ q).
  destruct (Z.ltb_spec (Z.of_nat (length l)) (queue_size_ q)); eexists; split_and!; try done.
  destruct Hq. split; cbn [queues_ with_queues with_rank_empty queue_size_ num_queues_ rank_q_empty];
    rewrite ?length_zset; try done.
  - intros i l0. destruct (decide (i = GetQueueIndex config q (cplace c))) as [->|Hne].
    + rewrite zget_zset_eq by (by eapply zget_lt). intros [= <-]. rewrite length_app. simpl. lia.
    + rewrite zget_zset_ne by done. apply qw_size0.
  - intros i l0 c0 Hl0 Hc0. rewrite (GetQueueIndex_setup q) by done.
    destruct (decide (i = GetQueueIndex config q (cplace c))) as [->|Hne].
    + rewrite zget_zset_eq in Hl0 by (by eapply zget_lt). injection Hl0 as <-.
      apply elem_of_app in Hc0 as [Hc0|Hc0]; [by eapply qw_cmds0|].
      by apply list_elem_of_singleton in Hc0 as ->.
    + rewrite zget_zset_ne in Hl0 by done. by eapply qw_cmds0.
Qed.

Lemma new_cmd_queue_wf q :
  shape_ok config → 0 ≤ cmd_queue_size config → new_cmd_queue config = ok q → cq_wf q.
Proof.
  intros [Hbg Hbpg Hb Hr] Hs. unfold new_cmd_queue. intros Hn.
  assert (∀ stc n, 0 < n → (n = match stc with PER_BANK => banks config * ranks config | PER_RANK => ranks config end) →
    cq_wf (MkCmdQ (replicate (Z.to_nat (ranks config)) true) stc (replicate (Z.to_nat n) []) ∅ false
             n (u64 (cmd_queue_size config)) 0 0)) as Hw.
  { intros stc n Hn0 Hn1. split; simpl; rewrite ?length_replicate; try done.
    - intros i l Hl%zget_elem. apply elem_of_replicate_inv in Hl as ->. simpl. apply u64_range.
    - intros i l c Hl%zget_elem Hc. apply elem_of_replicate_inv in Hl as ->. by apply elem_of_nil in Hc. }
  repeat case_decide; simpl in Hn; try done; injection Hn as <-; apply Hw; try done.
  rewrite Hb. apply Z.mul_pos_pos; [apply Z.mul_pos_pos|]; done.
Qed.

(** (C26) The scheduler always returns: on well-formed queues [GetCommandToIssue]
    never reaches its "cannot find cmd!" exit or an access out of range; the
    command it returns is what the channel needs for a queued request outside
    the queues blocked by a refresh, and a read or write that it issues, and
    nothing else, leaves its queue. *)
Theorem GetCommandToIssue_total chan q st :
  chan_ok config chan → cq_wf q →
  ∃ cmd q' st', GetCommandToIssue config chan q st = ok (cmd, q', st') ∧ cq_wf q' ∧ same_setup q q' ∧
    issued chan q cmd q'.
Proof. apply issue_loop_spec. Qed.

(** [AddCommand] takes a request exactly when [WillAcceptCommand] says so:
    it goes to the end of the queue of its bank, other queues are untouched,
    and the queues stay well formed and within [queue_size_]. *)
Theorem AddCommand_accepts q c :
  shape_ok config → cq_wf q → IsReadWrite c = true → request_ok config c →
  ∃ l b q', zget (queues_ q) (GetQueueIndex config q (cplace c)) = Some l ∧
    WillAcceptCommand config q (cplace c) = ok b ∧ AddCommand config c q = ok (b, q') ∧ cq_wf q' ∧
    queues_ q' = (if b then zset (queues_ q) (GetQueueIndex config q (cplace c)) (l ++ [c])
                  else queues_ q).
Proof. apply AddCommand_ok. Qed.
End Lemmas.

(** ** Instances *)

Section Demo.
Definition demo_queue : CommandQueue :=
  match new_cmd_queue hbm2 with
  | ok q => match AddCommand hbm2 (demo_cmd READ 5) q with ok (_, q') => q' | err _ => q end
  | err _ => MkCmdQ [] PER_BANK [] ∅ false 0 0 0 0
  end.

Lemma demo_queue_wf : cq_wf hbm2 demo_queue.
Proof.
  destruct (new_cmd_queue hbm2) as [q|] eqn:Hq; [|vm_compute in Hq; discriminate Hq].
  unfold demo_queue. rewrite Hq.
  destruct (AddCommand_ok hbm2 q (demo_cmd READ 5)) as (l & b & q' & _ & _ & Ha & Hw & _);
    [apply hbm2_shape| |reflexivity|by apply demo_request|].
  - apply (new_cmd_queue_wf hbm2 q hbm2_shape); [discriminate|exact Hq].
  - by rewrite Ha.
Qed.

Lemma GetCommandToIssue_total_witness :
  ∃ cmd q' st', GetCommandToIssue hbm2 (new_channel hbm2) demo_queue (new_stats 1) = ok (cmd, q', st') ∧
    cq_wf hbm2 q' ∧ same_setup demo_queue q' ∧ issued hbm2 (new_channel hbm2) demo_queue cmd q'.
Proof.
  exact (GetCommandToIssue_total hbm2 (new_channel hbm2) demo_queue (new_stats 1)
    (new_channel_ok hbm2) demo_queue_wf).
Defined.

Lemma AddCommand_accepts_witness :
  ∃ l b q', zget (queues_ demo_queue) (GetQueueIndex hbm2 demo_queue (0, 1, 2)) = Some l ∧
    WillAcceptCommand hbm2 demo_queue (0, 1, 2) = ok b ∧
    AddCommand hbm2 (demo_cmd WRITE 7) demo_queue = ok (b, q') ∧ cq_wf hbm2 q'.
Proof.
  destruct (AddCommand_accepts hbm2 demo_queue (demo_cmd WRITE 7) hbm2_shape demo_queue_wf eq_refl)
    as (l & b & q' & ? & ? & ? & ? & _); [apply demo_request; [discriminate|reflexivity]|].
  exists l, b, q'. split_and!; assumption.
Defined.
End Demo.
