(* ===== verification/Refresh.v ===== *)
(** * The refresh generator of a channel (DRAMsim3-master/src/refresh.h, refresh.cc)

    A counter that makes a refresh pending every [refresh_interval_] cycles, for
    the next rank or bank in turn. The theorems give the sequence of pending
    refreshes in closed form and show that the per-bank policy visits every
    bank once per round; the policy meant to refresh all ranks at once reaches
    only one. *)

From stdpp Require Import sets numbers option list.
From Stdlib Require Import ZArith Lia.
From S2P Require Import Prelude DramCommon Config Timing ChannelState.

(** [class Refresh]. *)
Record Refresh := MkRefresh {
  rf_clk_ : Z;
  refresh_interval_ : Z;
  next_rank_ : Z;
  next_bg_ : Z;
  next_bank_ : Z
}.

Section Refresh.
Context (config : Config).

(** [Refresh::Refresh(config, channel_state)]. *)
Definition new_Refresh : exc Refresh :=
  interval ← match refresh_policy config with
             | RANK_LEVEL_SIMULTANEOUS => ok (tREFI config)
             | BANK_LEVEL_STAGGERED => ok (tREFIb config)
             | RANK_LEVEL_STAGGERED => zquot (tREFI config) (ranks config)
             end;
  ok (MkRefresh 0 interval 0 0 0).

(** [a % b] on [int]s that are not negative. *)
Definition zrem (a b : Z) : exc Z := if b =? 0 then err UndefinedBehaviour else ok (Z.rem a b).

(** [Refresh::IterateNext()]. *)
Definition IterateNext (r : Refresh) : exc Refresh :=
  match refresh_policy config with
  | RANK_LEVEL_STAGGERED =>
      nr ← zrem (next_rank_ r + 1) (ranks config);
      ok (MkRefresh (rf_clk_ r) (refresh_interval_ r) nr (next_bg_ r) (next_bank_ r))
  | BANK_LEVEL_STAGGERED =>
      bg ← zrem (next_bg_ r + 1) (bankgroups config);
      if bg =? 0 then
        ba ← zrem (next_bank_ r + 1) (banks_per_group config);
        if ba =? 0 then
          nr ← zrem (next_rank_ r + 1) (ranks config);
          ok (MkRefresh (rf_clk_ r) (refresh_interval_ r) nr bg ba)
        else ok (MkRefresh (rf_clk_ r) (refresh_interval_ r) (next_rank_ r) bg ba)
      else ok (MkRefresh (rf_clk_ r) (refresh_interval_ r) (next_rank_ r) bg (next_bank_ r))
  | RANK_LEVEL_SIMULTANEOUS => err AbruptExit
  end.

(** The loop of the simultaneous policy: it stops at the first rank that is not
    in self refresh. *)
Fixpoint refresh_first (l : list Z) (s : ChannelState) : exc ChannelState :=
  match l with
  | [] => ok s
  | i :: l' =>
      sref ← IsRankSelfRefreshing s i;
      if (sref : bool) then refresh_first l' s else ok (RankNeedRefresh i true s)
  end.

(** [Refresh::InsertRefresh()]. *)
Definition InsertRefresh (r : Refresh) (s : ChannelState) : exc (Refresh * ChannelState) :=
  match refresh_policy config with
  | RANK_LEVEL_SIMULTANEOUS => s' ← refresh_first (zseq (ranks config)) s; ok (r, s')
  | RANK_LEVEL_STAGGERED =>
      sref ← IsRankSelfRefreshing s (next_rank_ r);
      let s' := if (sref : bool) then s else RankNeedRefresh (next_rank_ r) true s in
      r' ← IterateNext r; ok (r', s')
  | BANK_LEVEL_STAGGERED =>
      sref ← IsRankSelfRefreshing s (next_rank_ r);
      let s' := if (sref : bool) then s
                else BankNeedRefresh (next_rank_ r) (next_bg_ r) (next_bank_ r) true s in
      r' ← IterateNext r; ok (r', s')
  end.

(** [Refresh::ClockTick()]; the interval is converted to [uint64_t]. *)
Definition rf_ClockTick (r : Refresh) (s : ChannelState) : exc (Refresh * ChannelState) :=
  let i := u64 (refresh_interval_ r) in
  if i =? 0 then err UndefinedBehaviour
  else
    '(r, s) ← (if (rf_clk_ r mod i =? 0) && (0 <? rf_clk_ r) then InsertRefresh r s else ok (r, s));
    ok (MkRefresh (u64 (rf_clk_ r + 1)) (refresh_interval_ r) (next_rank_ r) (next_bg_ r) (next_bank_ r), s).

(** [n] clock ticks. *)
Fixpoint rf_ticks (n : nat) (r : Refresh) (s : ChannelState) : exc (Refresh * ChannelState) :=
  match n with
  | O => ok (r, s)
  | S n' => '(r, s) ← rf_ticks n' r s; rf_ClockTick r s
  end.
End Refresh.

Section Lemmas.
Context (config : Config).
Implicit Types (r : Refresh) (s : ChannelState).

(** No rank is in self refresh. *)
Definition no_sref s : Prop := ∀ i, 0 ≤ i < ranks config → zget (rank_is_sref_ s) i = Some false.

(** The counters after [k] refreshes. *)
Definition nth_next (k : Z) : Z * Z * Z :=
  match refresh_policy config with
  | RANK_LEVEL_STAGGERED => (k mod ranks config, 0, 0)
  | BANK_LEVEL_STAGGERED =>
      (k / (bankgroups config * banks_per_group config) mod ranks config,
       k mod bankgroups config, k / bankgroups config mod banks_per_group config)
  | RANK_LEVEL_SIMULTANEOUS => (0, 0, 0)
  end.

(** The refresh command of the [k]-th refresh. *)
Definition nth_refresh (k : Z) : Command :=
  let '(ra, bg, ba) := nth_next k in
  match refresh_policy config with
  | BANK_LEVEL_STAGGERED => MkCommand REFRESH_BANK (MkAddress (-1) ra bg ba (-1) (-1)) (u64 (-1))
  | _ => MkCommand REFRESH (MkAddress (-1) ra (-1) (-1) (-1) (-1)) (u64 (-1))
  end.

Lemma succ_mod k n : 0 < n → (k mod n + 1) mod n = (k + 1) mod n.
Proof. intros. by rewrite Zplus_mod_idemp_l. Qed.

(** Carrying: a digit wraps to 0 exactly when the quotient grows. *)
Lemma div_succ k n :
  0 < n → 0 ≤ k → (k + 1) / n = if (k + 1) mod n =? 0 then k / n + 1 else k / n.
Proof.
  intros Hn Hk. pose proof (Z.div_mod k n). pose proof (Z.mod_pos_bound k n Hn).
  pose proof (Z.div_mod (k + 1) n). pose proof (Z.mod_pos_bound (k + 1) n Hn).
  destruct (Z.eqb_spec ((k + 1) mod n) 0).
  - symmetry. apply (Z.div_unique _ _ _ 0); [lia|].
    assert (k mod n + 1 = n); [|nia].
    assert ((k mod n + 1) mod n = 0) as Hz by (rewrite succ_mod; lia).
    destruct (decide (k mod n + 1 = n)); [done|].
    rewrite (Z.mod_small (k mod n + 1)) in Hz by lia. lia.
  - symmetry. apply (Z.div_unique _ _ _ (k mod n + 1)); [|lia]. left.
    assert (k mod n + 1 ≠ n); [|lia]. intros He.
    apply n0. rewrite <- succ_mod, He by done. by apply Z.mod_same; lia.
Qed.

Lemma rem_mod a n : 0 ≤ a → 0 < n → zrem a n = ok (a mod n).
Proof.
  intros. unfold zrem. destruct (Z.eqb_spec n 0); [lia|]. by rewrite Z.rem_mod_nonneg by lia.
Qed.

Definition counters r : Z * Z * Z := (next_rank_ r, next_bg_ r, next_bank_ r).

Lemma IterateNext_nth r k :
  shape_ok config → 0 ≤ k → refresh_policy config ≠ RANK_LEVEL_SIMULTANEOUS → counters r = nth_next k →
  ∃ r', IterateNext config r = ok r' ∧ counters r' = nth_next (k + 1) ∧
    rf_clk_ r' = rf_clk_ r ∧ refresh_interval_ r' = refresh_interval_ r.
Proof.
  intros [Hbg Hbpg _ Hra] Hk Hp Hc. unfold counters, nth_next, IterateNext in *.
  destruct (refresh_policy config); [done| |]; injection Hc as Er Eb Ea.
  - rewrite Er, rem_mod by (pose proof (Z.mod_pos_bound k (ranks config)); lia). simpl.
    eexists. split; [done|]. simpl. by rewrite succ_mod, Eb, Ea.
  - pose proof (Z.mod_pos_bound k (bankgroups config) Hbg).
    pose proof (Z.div_pos k (bankgroups config) Hk Hbg).
    pose proof (Z.mod_pos_bound (k / bankgroups config) (banks_per_group config) Hbpg).
    assert (0 ≤ k / (bankgroups config * banks_per_group config)) by (apply Z.div_pos; nia).
    pose proof (Z.mod_pos_bound (k / (bankgroups config * banks_per_group config)) (ranks config) Hra).
    rewrite <- !Z.div_div in * by lia. rewrite Eb, Ea, Er.
    rewrite !rem_mod by lia. simpl. rewrite !succ_mod by done.
    rewrite (div_succ k (bankgroups config)) by done.
    destruct (Z.eqb_spec ((k + 1) mod bankgroups config) 0) as [E|E];
      [|eexists; split; [done|]; done].
    rewrite (div_succ (k / bankgroups config)) by done.
    destruct (Z.eqb_spec ((k / bankgroups config + 1) mod banks_per_group config) 0) as [E'|E'];
      eexists; (split; [done|]); done.
Qed.


(** The number of refreshes made pending in the first [n] cycles: the first
    comes in cycle [interval], not in cycle 0. *)
Definition refreshes (interval n : Z) : Z := Z.max 0 ((n - 1) / interval).

Lemma refreshes_succ interval n :
  0 < interval → 0 ≤ n →
  refreshes interval (n + 1) =
    if (n mod interval =? 0) && (0 <? n) then refreshes interval n + 1 else refreshes interval n.
Proof.
  intros Hi Hn. unfold refreshes. replace (n + 1 - 1) with n by lia.
  destruct (Z.ltb_spec 0 n).
  - pose proof (div_succ (n - 1) interval Hi ltac:(lia)) as Hd. replace (n - 1 + 1) with n in Hd by lia.
    assert (0 ≤ (n - 1) / interval) by (apply Z.div_pos; lia).
    rewrite Hd, andb_true_r. destruct (n mod interval =? 0); lia.
  - assert (n = 0) as -> by lia. rewrite andb_false_r, Z.div_0_l by lia.
    assert ((0 - 1) / interval ≤ 0) by (apply Z.div_le_upper_bound; lia). lia.
Qed.

Lemma refreshes_nonneg interval n : 0 ≤ refreshes interval n.
Proof. unfold refreshes. lia. Qed.

Lemma nth_next_rank k : shape_ok config → 0 ≤ (nth_next k).1.1 < ranks config.
Proof.
  intros [_ _ _ Hr]. unfold nth_next. destruct (refresh_policy config); simpl; [lia| |];
    apply Z.mod_pos_bound; done.
Qed.

(** One insertion, with no rank in self refresh. *)
Lemma InsertRefresh_nth r s k :
  shape_ok config → 0 ≤ k → refresh_policy config ≠ RANK_LEVEL_SIMULTANEOUS → counters r = nth_next k →
  no_sref s →
  ∃ r', InsertRefresh config r s = ok (r', with_refresh_q (refresh_q_ s ++ [nth_refresh k]) s) ∧
    counters r' = nth_next (k + 1) ∧ rf_clk_ r' = rf_clk_ r ∧ refresh_interval_ r' = refresh_interval_ r.
Proof.
  intros Hsh Hk Hp Hc Hs. pose proof (nth_next_rank k Hsh) as Hr. rewrite <- Hc in Hr. simpl in Hr.
  destruct (IterateNext_nth r k Hsh Hk Hp Hc) as (r' & Hi & Hc' & Hclk & Hint).
  exists r'. split; [|done]. unfold InsertRefresh, IsRankSelfRefreshing, vec_get.
  rewrite (Hs _ Hr), Hi. unfold nth_refresh. rewrite <- Hc.
  destruct (refresh_policy config); done.
Qed.

Lemma no_sref_queue s l : no_sref s → no_sref (with_refresh_q l s).
Proof. done. Qed.

(** The first rank ends the loop of the simultaneous policy. *)
Lemma refresh_first_one s :
  shape_ok config → no_sref s → refresh_first (zseq (ranks config)) s = ok (RankNeedRefresh 0 true s).
Proof.
  intros [_ _ _ Hr] Hs.
  assert (zseq (ranks config) = 0 :: tail (zseq (ranks config))) as ->.
  { unfold zseq. destruct (Z.to_nat (ranks config)) eqn:E; [lia|]. done. }
  cbn [refresh_first]. unfold IsRankSelfRefreshing, vec_get. by rewrite (Hs 0) by lia.
Qed.

(** The counters always name a bank. *)
Lemma IterateNext_range r :
  shape_ok config → refresh_policy config ≠ RANK_LEVEL_SIMULTANEOUS → in_range config (counters r) →
  ∃ r', IterateNext config r = ok r' ∧ in_range config (counters r') ∧
    refresh_interval_ r' = refresh_interval_ r.
Proof.
  intros [Hbg Hbpg _ Hra] Hp (Hi & Hj & Hk). simpl in Hi, Hj, Hk. unfold IterateNext.
  pose proof (fun z => Z.mod_pos_bound z (ranks config) Hra) as Mr.
  pose proof (fun z => Z.mod_pos_bound z (bankgroups config) Hbg) as Mg.
  pose proof (fun z => Z.mod_pos_bound z (banks_per_group config) Hbpg) as Mb.
  rewrite !rem_mod by lia. cbn [mbind exc_bind].
  destruct (refresh_policy config); [done| |]; [|destruct (_ =? 0); [destruct (_ =? 0)|]];
    (eexists; split; [reflexivity|]); (split; [|done]); split_and!; simpl; first [lia|apply Mr|apply Mg|apply Mb].
Qed.

(** An insertion makes one refresh of the channel pending. *)
Lemma InsertRefresh_total r s :
  shape_ok config → no_sref s → in_range config (counters r) →
  ∃ r' k, InsertRefresh config r s = ok (r', with_refresh_q (refresh_q_ s ++ [k]) s) ∧
    request_ok config k ∧ IsRefresh k = true ∧ in_range config (counters r') ∧
    refresh_interval_ r' = refresh_interval_ r.
Proof.
  intros Hsh Hs Hc. pose proof (sh_ranks _ Hsh). unfold InsertRefresh, IsRankSelfRefreshing, vec_get.
  destruct (decide (refresh_policy config = RANK_LEVEL_SIMULTANEOUS)) as [Hp|Hp].
  - rewrite Hp, refresh_first_one by done. eexists r, _. split; [reflexivity|]. split_and!; try done.
  - destruct (IterateNext_range r Hsh Hp Hc) as (r' & Hr & Hc' & Hi). pose proof Hc as (Hrk & _).
    rewrite (Hs (next_rank_ r) Hrk), Hr. cbn [opt_exc mbind exc_bind].
    destruct (refresh_policy config); [done| |]; (eexists r', _; split; [reflexivity|]); split_and!; try done;
      by split.
Qed.

Lemma rf_ClockTick_total r s :
  shape_ok config → no_sref s → in_range config (counters r) → 0 < refresh_interval_ r < 2 ^ 31 →
  ∃ r' l, rf_ClockTick config r s = ok (r', with_refresh_q (refresh_q_ s ++ l) s) ∧
    Forall (fun k => request_ok config k ∧ IsRefresh k = true) l ∧ in_range config (counters r') ∧
    refresh_interval_ r' = refresh_interval_ r.
Proof.
  intros Hsh Hs Hc Hi. unfold rf_ClockTick. rewrite u64_small by (unfold two64; lia).
  destruct (Z.eqb_spec (refresh_interval_ r) 0); [lia|]. destruct (_ && _).
  - destruct (InsertRefresh_total r s Hsh Hs Hc) as (r' & k & -> & Hk & Hr & Hc' & Hi').
    cbn [mbind exc_bind]. eexists _, [k]. split; [reflexivity|]. split_and!; [by apply Forall_singleton|done|done].
  - cbn [mbind exc_bind]. eexists _, []. rewrite app_nil_r. split; [destruct s; reflexivity|]. done.
Qed.

Lemma rf_ticks_queue r0 s n :
  shape_ok config → refresh_policy config ≠ RANK_LEVEL_SIMULTANEOUS →
  new_Refresh config = ok r0 → 0 < refresh_interval_ r0 < 2 ^ 31 → no_sref s → Z.of_nat n < two64 →
  ∃ r, rf_ticks config n r0 s =
    ok (r, with_refresh_q (refresh_q_ s ++ (nth_refresh <$> zseq (refreshes (refresh_interval_ r0) (Z.of_nat n)))) s)
    ∧ rf_clk_ r = Z.of_nat n.
Proof.
  intros Hsh Hp Hnew Hint Hs Hn.
  assert (rf_clk_ r0 = 0 ∧ counters r0 = nth_next 0) as [Hclk0 Hc0].
  { unfold new_Refresh in Hnew. inv_ok. split; [done|]. unfold counters, nth_next. simpl.
    destruct Hsh. destruct (refresh_policy config); [done| |];
      rewrite ?Z.div_0_l by nia; by rewrite !Z.mod_0_l by lia. }
  set (I := refresh_interval_ r0) in *.
  assert (∃ r, rf_ticks config n r0 s =
    ok (r, with_refresh_q (refresh_q_ s ++ (nth_refresh <$> zseq (refreshes I (Z.of_nat n)))) s)
    ∧ rf_clk_ r = Z.of_nat n ∧ counters r = nth_next (refreshes I (Z.of_nat n)) ∧
      refresh_interval_ r = I) as (r & ? & ? & _); [|eauto].
  induction n as [|n IH].
  { exists r0. assert (refreshes I (Z.of_nat 0) = 0) as ->.
    { unfold refreshes. assert ((Z.of_nat 0 - 1) / I ≤ 0) by (apply Z.div_le_upper_bound; lia). lia. }
    rewrite zseq_0. simpl. rewrite app_nil_r. split_and!; try done. f_equal. f_equal. by destruct s. }
  destruct IH as (r & Hr & Hclk & Hc & HI); [lia|]. cbn [rf_ticks]. rewrite Hr. cbn [mbind exc_bind].
  rewrite Nat2Z.inj_succ, <- Z.add_1_r. rewrite refreshes_succ by lia.
  pose proof (refreshes_nonneg I (Z.of_nat n)) as Hnn.
  unfold rf_ClockTick. rewrite HI, (u64_small I) by (unfold two64; lia).
  destruct (Z.eqb_spec I 0); [lia|]. rewrite Hclk.
  destruct ((Z.of_nat n mod I =? 0) && (0 <? Z.of_nat n)).
  - destruct (InsertRefresh_nth r (with_refresh_q (refresh_q_ s ++
      (nth_refresh <$> zseq (refreshes I (Z.of_nat n)))) s) _ Hsh Hnn Hp Hc (no_sref_queue _ _ Hs))
      as (r' & -> & Hc' & Hclk' & HI').
    cbn [mbind exc_bind]. eexists. split.
    { rewrite zseq_succ, fmap_app, app_assoc by done. reflexivity. }
    cbn [rf_clk_ refresh_interval_]. rewrite Hclk', Hclk, u64_small by lia.
    split_and!; [done|exact Hc'|congruence].
  - cbn [mbind exc_bind]. eexists. split; [reflexivity|].
    cbn [rf_clk_ refresh_interval_]. rewrite Hclk, u64_small by lia. done.
Qed.


(** *** Rounds of per-bank refreshes *)

Definition all_banks : Z := ranks config * (bankgroups config * banks_per_group config).

(** In a round of as many refreshes as there are banks the counters name each bank once. *)
Lemma nth_next_once m p :
  shape_ok config → refresh_policy config = BANK_LEVEL_STAGGERED → 0 ≤ m → in_range config p →
  ∃ k, m * all_banks ≤ k < (m + 1) * all_banks ∧ nth_next k = p ∧
    ∀ k', m * all_banks ≤ k' < (m + 1) * all_banks → nth_next k' = p → k' = k.
Proof.
  intros [Hbg Hbpg _ Hra] Hp Hm (Hi & Hj & Hk). set (total := all_banks). unfold all_banks in total. destruct p as [[i j] b]. simpl in Hi, Hj, Hk.
  unfold nth_next. rewrite Hp.
  set (G := bankgroups config) in *. set (B := banks_per_group config) in *. set (R := ranks config) in *.
  exists (((m * R + i) * B + b) * G + j). split_and!.
  - assert (m * R * B * G ≤ ((m * R + i) * B + b) * G + j); [|unfold total; lia].
    apply Z.le_trans with ((m * R + i) * B * G); [|nia]. rewrite !Z.mul_add_distr_r.
    assert (0 ≤ i * B * G) by (apply Z.mul_nonneg_nonneg; nia). lia.
  - pose proof (radix_range i b B R Hi Hk) as H1. pose proof (radix_range (i * B + b) j G (R * B) H1 Hj).
    unfold total. lia.
  - rewrite <- Z.div_div by lia. by rewrite !radix_div, !radix_mod.
  - intros k' Hk'. rewrite <- Z.div_div by lia. intros [= E1 E2 E3].
    assert (k' / G / B / R = m) as Eq.
    { rewrite !Z.div_div by lia. symmetry. apply (Z.div_unique _ _ _ (k' - m * total)); [|unfold total; lia].
      left. unfold total in *. lia. }
    pose proof (Z.div_mod k' G ltac:(lia)). pose proof (Z.div_mod (k' / G) B ltac:(lia)).
    pose proof (Z.div_mod (k' / G / B) R ltac:(lia)).
    rewrite E1, E2, E3, Eq in *. lia.
Qed.

(** The refresh of a bank. *)
Definition bank_refresh (p : bplace) : Command :=
  MkCommand REFRESH_BANK (MkAddress (-1) p.1.1 p.1.2 p.2 (-1) (-1)) (u64 (-1)).

Lemma nth_refresh_bank k : refresh_policy config = BANK_LEVEL_STAGGERED → nth_refresh k = bank_refresh (nth_next k).
Proof. intros Hp. unfold nth_refresh, nth_next. by rewrite Hp. Qed.

Lemma bank_refresh_inj p q : bank_refresh p = bank_refresh q → p = q.
Proof. destruct p as [[]], q as [[]]. intros E. apply (f_equal addr) in E. simpl in E. congruence. Qed.

Lemma nth_next_range k : shape_ok config → refresh_policy config = BANK_LEVEL_STAGGERED → in_range config (nth_next k).
Proof.
  intros [Hbg Hbpg _ Hra] Hp. unfold nth_next, in_range. rewrite Hp. simpl. split_and!; by apply Z.mod_pos_bound.
Qed.

Lemma zseq_app a b : 0 ≤ a → 0 ≤ b → zseq (a + b) = zseq a ++ (Z.add a <$> zseq b).
Proof.
  intros Ha Hb. unfold zseq. rewrite Z2Nat.inj_add, seq_app, fmap_app by done. f_equal.
  rewrite <- list_fmap_compose. simpl. replace (seq (Z.to_nat a) (Z.to_nat b)) with (Nat.add (Z.to_nat a) <$> seq 0 (Z.to_nat b))
    by (by rewrite fmap_add_seq, Nat.add_0_r).
  rewrite <- list_fmap_compose.
  apply list_fmap_ext. intros _ x _. simpl. lia.
Qed.

Lemma refreshes_multiple I k : 0 < I → 0 ≤ k → refreshes I (k * I + 1) = k.
Proof. intros. unfold refreshes. rewrite Z.add_simpl_r, Z.div_mul by lia. lia. Qed.

(** (C30) Per-bank refresh is fair: with no rank in self refresh, whatever was pending,
    the refreshes that the generator makes pending in each round of as many intervals
    as the channel has banks (up to 2^64 cycles) are those of all banks, each
    exactly once. *)
Theorem bank_refresh_fair r0 s m :
  shape_ok config → refresh_policy config = BANK_LEVEL_STAGGERED →
  new_Refresh config = ok r0 → 0 < refresh_interval_ r0 < 2 ^ 31 → no_sref s →
  0 ≤ m → (m + 1) * all_banks * refresh_interval_ r0 + 1 < two64 →
  ∃ r1 s1 r2 s2 round,
    rf_ticks config (Z.to_nat (m * all_banks * refresh_interval_ r0 + 1)) r0 s = ok (r1, s1) ∧
    rf_ticks config (Z.to_nat ((m + 1) * all_banks * refresh_interval_ r0 + 1)) r0 s = ok (r2, s2) ∧
    refresh_q_ s2 = refresh_q_ s1 ++ round ∧ NoDup round ∧
    ∀ c, c ∈ round ↔ ∃ p, in_range config p ∧ c = bank_refresh p.
Proof.
  intros Hsh Hp Hnew Hint Hs Hm Ht. pose proof Hsh as [Hbg Hbpg _ Hra].
  assert (0 < all_banks) as Hall by (unfold all_banks; apply Z.mul_pos_pos; [done|by apply Z.mul_pos_pos]).
  assert (refresh_policy config ≠ RANK_LEVEL_SIMULTANEOUS) as Hp' by by rewrite Hp.
  set (I := refresh_interval_ r0) in *. set (T := all_banks) in *.
  assert (0 ≤ m * T * I ≤ (m + 1) * T * I) as Hle by nia.
  destruct (rf_ticks_queue r0 s (Z.to_nat (m * T * I + 1)) Hsh Hp' Hnew Hint Hs) as (r1 & H1 & _); [lia|].
  destruct (rf_ticks_queue r0 s (Z.to_nat ((m + 1) * T * I + 1)) Hsh Hp' Hnew Hint Hs) as (r2 & H2 & _); [lia|].
  rewrite Z2Nat.id in H1, H2 by lia. fold I in H1, H2. rewrite refreshes_multiple in H1, H2 by nia.
  replace ((m + 1) * T) with (m * T + T) in H2 at 2 by lia. rewrite zseq_app, fmap_app, app_assoc in H2 by nia.
  eexists r1, _, r2, _, _. split; [exact H1|]. split; [exact H2|]. split; [reflexivity|].
  assert (∀ k, m * T + k = (Z.add (m * T)) k) as Ek by done.
  split.
  - apply NoDup_fmap_2_strong; [|apply NoDup_fmap_2; [intros ? ? ?; lia|apply zseq_NoDup]].
    intros k k' (i & -> & Hi)%list_elem_of_fmap (i' & -> & Hi')%list_elem_of_fmap. apply elem_of_zseq in Hi, Hi'.
    rewrite !nth_refresh_bank by done. intros E%bank_refresh_inj.
    destruct (nth_next_once m (nth_next (m * T + i)) Hsh Hp Hm (nth_next_range _ Hsh Hp)) as (k & _ & _ & Hu).
    fold T in Hu. rewrite (Hu (m * T + i)), (Hu (m * T + i')) by (done || lia). done.
  - intros c. rewrite list_elem_of_fmap. split.
    + intros (k & -> & _). rewrite nth_refresh_bank by done. eauto using nth_next_range.
    + intros (p & Hr & ->). destruct (nth_next_once m p Hsh Hp Hm Hr) as (k & Hk & <- & _). fold T in Hk.
      exists k. split; [by rewrite nth_refresh_bank|]. apply list_elem_of_fmap. exists (k - m * T).
      split; [lia|]. apply elem_of_zseq. lia.
Qed.

(** The policy for refreshing all ranks at once makes only the first rank's
    refresh pending: the loop over the ranks has a [break] behind its first
    insertion, so the other ranks are never refreshed. *)
Theorem simultaneous_refreshes_one r s :
  shape_ok config → refresh_policy config = RANK_LEVEL_SIMULTANEOUS → no_sref s →
  InsertRefresh config r s = ok (r, RankNeedRefresh 0 true s).
Proof.
  intros Hsh Hp Hs. unfold InsertRefresh. rewrite Hp. by rewrite refresh_first_one.
Qed.
End Lemmas.

(** ** Instances *)

Section Demo.

(** The HBM2 configuration under another refresh policy, or with more ranks. *)
Definition hbm2_policy (p : RefreshPolicy) (nranks : Z) : Config :=
  let s := hbm2_sys in
  MkConfig (MkSystem (sys_channel_size s) (channels s) (bus_width s) (address_mapping s) (queue_structure s)
              (row_buf_policy s) (cmd_queue_size s) (trans_queue_size s) (unified_queue s) (write_buf_size s)
              p (enable_self_refresh s) (sref_threshold s) (aggressive_precharging_enabled s))
           (p_dram hbm2) (MkSize 1 nranks 512) (p_map hbm2) (p_time hbm2) (p_other hbm2).

Lemma hbm2_policy_shape p n : 0 < n → shape_ok (hbm2_policy p n).
Proof. intros. split; done. Qed.

Lemma new_no_sref config : no_sref config (new_channel config).
Proof. intros i Hi. simpl. by rewrite zget_replicate, decide_True. Qed.


Lemma bank_refresh_fair_witness :
  let config := hbm2_policy BANK_LEVEL_STAGGERED 1 in
  ∃ r1 s1 r2 s2 round,
    rf_ticks config (Z.to_nat (2 * 16 * 128 + 1)) (MkRefresh 0 128 0 0 0) (new_channel config) = ok (r1, s1) ∧
    rf_ticks config (Z.to_nat (3 * 16 * 128 + 1)) (MkRefresh 0 128 0 0 0) (new_channel config) = ok (r2, s2) ∧
    refresh_q_ s2 = refresh_q_ s1 ++ round ∧ NoDup round ∧ bank_refresh (0, 3, 2) ∈ round.
Proof.
  destruct (bank_refresh_fair (hbm2_policy BANK_LEVEL_STAGGERED 1) (MkRefresh 0 128 0 0 0)
    (new_channel (hbm2_policy BANK_LEVEL_STAGGERED 1)) 2) as (r1 & s1 & r2 & s2 & round & H1 & H2 & Hq & Hnd & Hin);
    [by apply hbm2_policy_shape|reflexivity|vm_compute; reflexivity|split; reflexivity|apply new_no_sref|discriminate|reflexivity|].
  exists r1, s1, r2, s2, round. split; [exact H1|]. split; [exact H2|]. split; [exact Hq|]. split; [exact Hnd|].
  apply Hin. exists (0, 3, 2). split; [repeat split; discriminate || reflexivity|reflexivity].
Defined.

Lemma simultaneous_refreshes_one_witness :
  InsertRefresh (hbm2_policy RANK_LEVEL_SIMULTANEOUS 4) (MkRefresh 3900 3900 0 0 0)
      (new_channel (hbm2_policy RANK_LEVEL_SIMULTANEOUS 4)) =
    ok (MkRefresh 3900 3900 0 0 0,
        RankNeedRefresh 0 true (new_channel (hbm2_policy RANK_LEVEL_SIMULTANEOUS 4))).
Proof.
  apply (simultaneous_refreshes_one (hbm2_policy RANK_LEVEL_SIMULTANEOUS 4));
    [by apply hbm2_policy_shape|reflexivity|apply new_no_sref].
Defined.
End Demo.
