(* ===== verification/Controller.v ===== *)
(** * The memory controller of a channel (DRAMsim3-master/src/controller.h, controller.cc)

    Transactions wait in the read queue or write buffer (or one unified queue),
    become commands in the command queues, and are returned when their command
    has been issued. The pending maps are multimaps whose entries of one
    address keep their insertion order; they are lists here, looked up by
    address. The theorems: a clock tick never fails, the transactions the
    controller holds are exactly those added and not yet returned, and every
    read and write the scheduler issues was pending. *)

From Stdlib Require Import ZArith Lia String.
From stdpp Require Import strings sets gmap numbers option list.
From S2P Require Import Prelude DramCommon BankState Config Timing ChannelState Stats CommandQueue Refresh.

(** [enum class RowBufPolicy]. *)
Inductive RowBufPolicy := OPEN_PAGE | CLOSE_PAGE.

(** [class Controller]. *)
Record Controller := MkCtrl {
  channel_id_ : Z;
  ct_clk_ : Z;
  simple_stats_ : SimpleStats;
  channel_state_ : ChannelState;
  cmd_queue_ : CommandQueue;
  refresh_ : Refresh;
  is_unified_queue_ : bool;
  unified_queue_ : cvec Transaction;
  read_queue_ : cvec Transaction;
  write_buffer_ : cvec Transaction;
  pending_rd_q_ : list Transaction;
  pending_wr_q_ : list Transaction;
  return_queue_ : list Transaction;
  row_buf_policy_ : RowBufPolicy;
  last_trans_clk_ : Z;
  write_draining_ : Z
}.

Definition c_stats (f : SimpleStats -> SimpleStats) (c : Controller) : Controller :=
  MkCtrl (channel_id_ c) (ct_clk_ c) (f (simple_stats_ c)) (channel_state_ c) (cmd_queue_ c) (refresh_ c)
    (is_unified_queue_ c) (unified_queue_ c) (read_queue_ c) (write_buffer_ c) (pending_rd_q_ c)
    (pending_wr_q_ c) (return_queue_ c) (row_buf_policy_ c) (last_trans_clk_ c) (write_draining_ c).
Definition c_chan (s : ChannelState) (c : Controller) : Controller :=
  MkCtrl (channel_id_ c) (ct_clk_ c) (simple_stats_ c) s (cmd_queue_ c) (refresh_ c)
    (is_unified_queue_ c) (unified_queue_ c) (read_queue_ c) (write_buffer_ c) (pending_rd_q_ c)
    (pending_wr_q_ c) (return_queue_ c) (row_buf_policy_ c) (last_trans_clk_ c) (write_draining_ c).
Definition c_cmdq (q : CommandQueue) (c : Controller) : Controller :=
  MkCtrl (channel_id_ c) (ct_clk_ c) (simple_stats_ c) (channel_state_ c) q (refresh_ c)
    (is_unified_queue_ c) (unified_queue_ c) (read_queue_ c) (write_buffer_ c) (pending_rd_q_ c)
    (pending_wr_q_ c) (return_queue_ c) (row_buf_policy_ c) (last_trans_clk_ c) (write_draining_ c).
Definition c_refresh (r : Refresh) (c : Controller) : Controller :=
  MkCtrl (channel_id_ c) (ct_clk_ c) (simple_stats_ c) (channel_state_ c) (cmd_queue_ c) r
    (is_unified_queue_ c) (unified_queue_ c) (read_queue_ c) (write_buffer_ c) (pending_rd_q_ c)
    (pending_wr_q_ c) (return_queue_ c) (row_buf_policy_ c) (last_trans_clk_ c) (write_draining_ c).
Definition c_queues (u r w : cvec Transaction) (c : Controller) : Controller :=
  MkCtrl (channel_id_ c) (ct_clk_ c) (simple_stats_ c) (channel_state_ c) (cmd_queue_ c) (refresh_ c)
    (is_unified_queue_ c) u r w (pending_rd_q_ c)
    (pending_wr_q_ c) (return_queue_ c) (row_buf_policy_ c) (last_trans_clk_ c) (write_draining_ c).
Definition c_pending (rd wr ret : list Transaction) (c : Controller) : Controller :=
  MkCtrl (channel_id_ c) (ct_clk_ c) (simple_stats_ c) (channel_state_ c) (cmd_queue_ c) (refresh_ c)
    (is_unified_queue_ c) (unified_queue_ c) (read_queue_ c) (write_buffer_ c) rd wr ret
    (row_buf_policy_ c) (last_trans_clk_ c) (write_draining_ c).
Definition c_draining (n : Z) (c : Controller) : Controller :=
  MkCtrl (channel_id_ c) (ct_clk_ c) (simple_stats_ c) (channel_state_ c) (cmd_queue_ c) (refresh_ c)
    (is_unified_queue_ c) (unified_queue_ c) (read_queue_ c) (write_buffer_ c) (pending_rd_q_ c)
    (pending_wr_q_ c) (return_queue_ c) (row_buf_policy_ c) (last_trans_clk_ c) n.
Definition c_times (clk last : Z) (c : Controller) : Controller :=
  MkCtrl (channel_id_ c) clk (simple_stats_ c) (channel_state_ c) (cmd_queue_ c) (refresh_ c)
    (is_unified_queue_ c) (unified_queue_ c) (read_queue_ c) (write_buffer_ c) (pending_rd_q_ c)
    (pending_wr_q_ c) (return_queue_ c) (row_buf_policy_ c) last (write_draining_ c).

Section Controller.
Context (config : Config).

(** [Controller::Controller(channel, config, timing)]. *)
Definition new_Controller (ch : Z) : exc Controller :=
  q ← new_cmd_queue config;
  r ← new_Refresh config;
  let none := CVec [] 0 in
  let room := cv_reserve (Z.to_nat (trans_queue_size config)) none in
  let u := unified_queue config in
  ok (MkCtrl ch 0 (new_stats (ranks config)) (new_channel config) q r u
        (if u then room else none) (if u then none else room) (if u then none else room)
        [] [] []
        (if decide (row_buf_policy config = "CLOSE_PAGE"%string) then CLOSE_PAGE else OPEN_PAGE) 0 0).

(** [ReturnDoneTrans(clk)]: the first completed transaction leaves the return
    queue; [None] is the pair (-1, -1). *)
Fixpoint take_done (clk : Z) (l : list Transaction) : option (Transaction * list Transaction) :=
  match l with
  | [] => None
  | t :: l' =>
      if complete_cycle t <=? clk then Some (t, l')
      else '(d, r) ← take_done clk l'; Some (d, t :: r)
  end.
Definition ReturnDoneTrans (clk : Z) (c : Controller) : option (Z * bool) * Controller :=
  match take_done clk (return_queue_ c) with
  | None => (None, c)
  | Some (t, rest) =>
      let c' := c_pending (pending_rd_q_ c) (pending_wr_q_ c) rest c in
      (Some (t_addr t, is_write t),
       if is_write t then c_stats (Increment "num_writes_done") c'
       else c_stats (fun s => AddValue "read_latency" (ct_clk_ c - added_cycle t)
                                (Increment "num_reads_done" s)) c')
  end.

(** [WillAcceptTransaction(hex_addr, is_write)]. *)
Definition has_room {A} (v : cvec A) : bool := (length (elts v) <? cap v)%nat.
Definition WillAcceptTransaction (c : Controller) (w : bool) : bool :=
  if is_unified_queue_ c then has_room (unified_queue_ c)
  else if negb w then has_room (read_queue_ c)
  else has_room (write_buffer_ c).

(** [pending.count(addr)]. *)
Definition count_addr (a : Z) (l : list Transaction) : nat := length (filter (fun t => t_addr t = a) l).

(** Pushing a transaction on the queue of its kind. *)
Definition enqueue (t : Transaction) (c : Controller) : Controller :=
  if is_unified_queue_ c then
    c_queues (cv_push t (unified_queue_ c)) (read_queue_ c) (write_buffer_ c) c
  else if is_write t then
    c_queues (unified_queue_ c) (read_queue_ c) (cv_push t (write_buffer_ c)) c
  else c_queues (unified_queue_ c) (cv_push t (read_queue_ c)) (write_buffer_ c) c.

(** [AddTransaction(trans)]; it always returns true. *)
Definition AddTransaction (t : Transaction) (c : Controller) : Controller :=
  let t := with_added (ct_clk_ c) t in
  let c := c_times (ct_clk_ c) (ct_clk_ c)
             (c_stats (AddValue "interarrival_latency" (ct_clk_ c - last_trans_clk_ c)) c) in
  let now := with_complete (u64 (ct_clk_ c + 1)) t in
  if is_write t then
    let c := if decide (count_addr (t_addr t) (pending_wr_q_ c) = 0%nat) then
               enqueue t (c_pending (pending_rd_q_ c) (pending_wr_q_ c ++ [t]) (return_queue_ c) c)
             else c in
    c_pending (pending_rd_q_ c) (pending_wr_q_ c) (return_queue_ c ++ [now]) c
  else if decide (0 < count_addr (t_addr t) (pending_wr_q_ c))%nat then
    c_pending (pending_rd_q_ c) (pending_wr_q_ c) (return_queue_ c ++ [now]) c
  else
    let c := c_pending (pending_rd_q_ c ++ [t]) (pending_wr_q_ c) (return_queue_ c) c in
    if decide (count_addr (t_addr t) (pending_rd_q_ c) = 1%nat) then enqueue t c else c.

(** [TransToCommand(trans)]. *)
Definition TransToCommand (pol : RowBufPolicy) (t : Transaction) : Command :=
  MkCommand match pol with
            | OPEN_PAGE => if is_write t then WRITE else READ
            | CLOSE_PAGE => if is_write t then WRITE_PRECHARGE else READ_PRECHARGE
            end
            (AddressMapping config (t_addr t)) (t_addr t).

(** [find(addr)] and [erase(it)] of a pending map. *)
Fixpoint take_addr (a : Z) (l : list Transaction) : option (Transaction * list Transaction) :=
  match l with
  | [] => None
  | t :: l' =>
      if decide (t_addr t = a) then Some (t, l')
      else '(d, r) ← take_addr a l'; Some (d, t :: r)
  end.

(** The loop that returns every pending read of an address. *)
Fixpoint return_reads (n : nat) (a done : Z) (pend ret : list Transaction)
    : exc (list Transaction * list Transaction) :=
  match n with
  | O => ok (pend, ret)
  | S n' =>
      '(t, pend') ← opt_exc (take_addr a pend) UndefinedBehaviour;
      return_reads n' a done pend' (ret ++ [with_complete done t])
  end.

(** [UpdateCommandStats(cmd)]. *)
Definition UpdateCommandStats (cmd : Command) (c : Controller) : exc Controller :=
  let rw total hits :=
    n ← RowHitCount (channel_state_ c) (cplace cmd);
    ok (c_stats (fun s => let s := Increment total s in
                          if negb (n =? 0) then Increment hits s else s) c) in
  match cmd_type cmd with
  | READ | READ_PRECHARGE => rw "num_read_cmds"%string "num_read_row_hits"%string
  | WRITE | WRITE_PRECHARGE => rw "num_write_cmds"%string "num_write_row_hits"%string
  | ACTIVATE => ok (c_stats (Increment "num_act_cmds") c)
  | PRECHARGE => ok (c_stats (Increment "num_pre_cmds") c)
  | REFRESH => ok (c_stats (Increment "num_ref_cmds") c)
  | REFRESH_BANK => ok (c_stats (Increment "num_refb_cmds") c)
  | SREF_ENTER => ok (c_stats (Increment "num_srefe_cmds") c)
  | SREF_EXIT => ok (c_stats (Increment "num_srefx_cmds") c)
  | CT_SIZE => err AbruptExit
  end.

(** [IssueCommand(cmd)]: first its transactions leave the pending maps. *)
Definition issue_pending (cmd : Command) (c : Controller) : exc Controller :=
  if IsRead cmd then
    let num_reads := count_addr (hex_addr cmd) (pending_rd_q_ c) in
    if decide (num_reads = 0%nat) then err AbruptExit
    else
      '(pend, ret) ← return_reads num_reads (hex_addr cmd) (u64 (ct_clk_ c + read_delay config))
                       (pending_rd_q_ c) (return_queue_ c);
      ok (c_pending pend (pending_wr_q_ c) ret c)
  else if IsWrite cmd then
    '(t, pend) ← opt_exc (take_addr (hex_addr cmd) (pending_wr_q_ c)) AbruptExit;
    let wr_lat := ct_clk_ c - added_cycle t + write_delay config in
    ok (c_stats (AddValue "write_latency" wr_lat)
          (c_pending (pending_rd_q_ c) pend (return_queue_ c) c))
  else ok c.
Definition IssueCommand (cmd : Command) (c : Controller) : exc Controller :=
  c ← issue_pending cmd c;
  c ← UpdateCommandStats cmd c;
  s ← UpdateTimingAndStates config cmd (ct_clk_ c) (channel_state_ c);
  ok (c_chan s c).

(** The queue [ScheduleTransaction] serves: unified, write or read. *)
Inductive served := S_unified | S_write | S_read.
Definition served_elts (w : served) (c : Controller) : list Transaction :=
  match w with
  | S_unified => elts (unified_queue_ c)
  | S_write => elts (write_buffer_ c)
  | S_read => elts (read_queue_ c)
  end.
Definition set_served (w : served) (l : list Transaction) (c : Controller) : Controller :=
  let set (v : cvec Transaction) := CVec l (cap v) in
  match w with
  | S_unified => c_queues (set (unified_queue_ c)) (read_queue_ c) (write_buffer_ c) c
  | S_write => c_queues (unified_queue_ c) (read_queue_ c) (set (write_buffer_ c)) c
  | S_read => c_queues (unified_queue_ c) (set (read_queue_ c)) (write_buffer_ c) c
  end.

(** The loop of [ScheduleTransaction]: [pre] are the transactions passed over. *)
Fixpoint schedule_loop (w : served) (pre rest : list Transaction) (c : Controller) : exc Controller :=
  match rest with
  | [] => ok c
  | t :: rest' =>
      let cmd := TransToCommand (row_buf_policy_ c) t in
      accept ← WillAcceptCommand config (cmd_queue_ c) (cplace cmd);
      if (accept : bool) then
        if negb (is_unified_queue_ c) && IsWrite cmd &&
           bool_decide (0 < count_addr (t_addr t) (pending_rd_q_ c))%nat
        then ok (c_draining 0 c)
        else
          let c := if negb (is_unified_queue_ c) && IsWrite cmd
                   then c_draining (write_draining_ c - 1) c else c in
          '(_, q) ← AddCommand config cmd (cmd_queue_ c);
          ok (set_served w (pre ++ rest') (c_cmdq q c))
      else schedule_loop w (pre ++ [t]) rest' c
  end.

(** [ScheduleTransaction()]. *)
Definition ScheduleTransaction (c : Controller) : exc Controller :=
  let wb := write_buffer_ c in
  let c := if (write_draining_ c =? 0) && negb (is_unified_queue_ c) then
             if (cap wb <=? length (elts wb))%nat || ((8 <? length (elts wb))%nat && QueueEmpty (cmd_queue_ c))
             then c_draining (Z.of_nat (length (elts wb))) c else c
           else c in
  let w := if is_unified_queue_ c then S_unified
           else if 0 <? write_draining_ c then S_write else S_read in
  schedule_loop w [] (served_elts w c) c.

(** "Power updates pt 1": idle and active cycles of one rank. *)
Definition rank_power (i : Z) (c : Controller) : exc Controller :=
  sref ← IsRankSelfRefreshing (channel_state_ c) i;
  if (sref : bool) then ok (c_stats (IncrementVec "sref_cycles" i) c)
  else
    idle ← IsAllBankIdleInRank config (channel_state_ c) i;
    v ← vec_get (rank_idle_cycles (channel_state_ c)) i;
    let set x := c_chan (with_idle (zset (rank_idle_cycles (channel_state_ c)) i x) (channel_state_ c)) in
    if (idle : bool) then ok (set (v + 1) (c_stats (IncrementVec "all_bank_idle_cycles" i) c))
    else ok (set 0 (c_stats (IncrementVec "rank_active_cycles" i) c)).

(** "Power updates pt 2": the loop that moves ranks in and out of self refresh,
    up to its [break]. *)
Definition sref_cmd (ct : CommandType) (i : Z) : Command :=
  MkCommand ct (MkAddress (-1) i (-1) (-1) (-1) (-1)) (u64 (-1)).
Fixpoint sref_loop (l : list Z) (c : Controller) : exc Controller :=
  match l with
  | [] => ok c
  | i :: l' =>
      sref ← IsRankSelfRefreshing (channel_state_ c) i;
      empty ← vec_get (rank_q_empty (cmd_queue_ c)) i;
      idle ← vec_get (rank_idle_cycles (channel_state_ c)) i;
      let try ct :=
        cmd ← GetReadyCommand config (channel_state_ c) (sref_cmd ct i) (ct_clk_ c);
        if IsValid cmd then IssueCommand cmd c else sref_loop l' c in
      if (sref : bool) then (if (empty : bool) then sref_loop l' c else try SREF_EXIT)
      else if (empty : bool) && (sref_threshold config <=? idle) then try SREF_ENTER
      else sref_loop l' c
  end.

(** The command of this cycle: a step of a pending refresh, else a queued one. *)
Definition pick_command (c : Controller) : exc (Command * Controller) :=
  '(cmd, c) ← (if IsRefreshWaiting (channel_state_ c) then
                 '(cmd, q) ← FinishRefresh config (channel_state_ c) (cmd_queue_ c);
                 ok (cmd, c_cmdq q c)
               else ok (Command_default, c));
  if IsValid cmd then ok (cmd, c)
  else
    '(cmd, q, st) ← GetCommandToIssue config (channel_state_ c) (cmd_queue_ c) (simple_stats_ c);
    ok (cmd, c_stats (fun _ => st) (c_cmdq q c)).

(** Issuing it, and with dual commands a second one of the other kind. *)
Definition issue_commands (cmd : Command) (c : Controller) : exc Controller :=
  c ← IssueCommand cmd c;
  if enable_hbm_dual_cmd config then
    '(second, q, st) ← GetCommandToIssue config (channel_state_ c) (cmd_queue_ c) (simple_stats_ c);
    let c := c_stats (fun _ => st) (c_cmdq q c) in
    if IsValid second && negb (Bool.eqb (IsReadWrite second) (IsReadWrite cmd)) then
      c ← IssueCommand second c; ok (c_stats (Increment "hbm_dual_cmds") c)
    else ok c
  else ok c.

(** [Controller::ClockTick()]. *)
Definition ctrl_ClockTick (c : Controller) : exc Controller :=
  '(r, s) ← rf_ClockTick config (refresh_ c) (channel_state_ c);
  let c := c_chan s (c_refresh r c) in
  '(cmd, c) ← pick_command c;
  c ← (if IsValid cmd then issue_commands cmd c else ok c);
  c ← foldE rank_power (zseq (ranks config)) c;
  c ← (if enable_self_refresh config && negb (IsValid cmd) then sref_loop (zseq (ranks config)) c else ok c);
  c ← ScheduleTransaction c;
  let c := c_times (u64 (ct_clk_ c + 1)) (last_trans_clk_ c) c in
  ok (c_stats (Increment "num_cycles") (c_cmdq (cq_ClockTick (cmd_queue_ c)) c)).

(** [Controller::QueueUsage()] and [ResetStats()]. *)
Definition ctrl_QueueUsage (c : Controller) : Z := QueueUsage (cmd_queue_ c).
Definition ResetStats : Controller -> Controller := c_stats Reset.
End Controller.

(** ** The transactions a controller holds *)

Section Holdings.
Implicit Types (c : Controller) (w : bool).

(** The transactions waiting to become commands, and the commands queued. *)
Definition all_trans c : list Transaction :=
  elts (unified_queue_ c) ++ elts (read_queue_ c) ++ elts (write_buffer_ c).
Definition queued c : list Command := concat (queues_ (cmd_queue_ c)).

(** Commands of a kind: writes ([w = true]) or reads. *)
Definition is_kind w (k : Command) : bool := if w then IsWrite k else IsRead k.

(** The addresses waiting for service, and those of the pending map. *)
Definition waiting w c : list Z :=
  (t_addr <$> filter (fun t => is_write t = w) (all_trans c)) ++
  (hex_addr <$> filter (fun k => is_kind w k = true) (queued c)).
Definition pending w c : list Transaction := if w then pending_wr_q_ c else pending_rd_q_ c.

(** The address of a command taken off its queue and not yet issued. *)
Definition inflight (cmd : Command) w : list Z := if is_kind w cmd then [hex_addr cmd] else [].

(** Each pending address is waiting (or in flight) exactly once, and vice versa. *)
Record balanced (extra : bool -> list Z) c : Prop := {
  ba_nodup w : NoDup (extra w ++ waiting w c);
  ba_iff w a : a ∈ extra w ++ waiting w c ↔ a ∈ t_addr <$> pending w c;
  ba_wr : NoDup (t_addr <$> pending true c)
}.
Definition none w : list Z := [].

(** The requests accepted and not yet answered. *)
Definition request_of (t : Transaction) : Z * bool := (t_addr t, is_write t).
Definition outstanding c : list (Z * bool) := request_of <$> (pending_rd_q_ c ++ return_queue_ c).

Lemma balanced_perm extra extra' c c' :
  balanced extra c → (∀ w, extra w ++ waiting w c ≡ₚ extra' w ++ waiting w c') →
  (∀ w, pending w c' = pending w c) → balanced extra' c'.
Proof.
  intros [Hn Hi Hw] Hp He. split.
  - intros w. rewrite <- Hp. apply Hn.
  - intros w a. rewrite <- Hp, He. apply Hi.
  - by rewrite He.
Qed.

(** ** The multimaps *)

Lemma take_addr_Some a l t l' :
  take_addr a l = Some (t, l') →
  ∃ l1 l2, l = l1 ++ t :: l2 ∧ l' = l1 ++ l2 ∧ t_addr t = a ∧ Forall (fun x => t_addr x ≠ a) l1.
Proof.
  revert l'. induction l as [|x l IH]; intros l' Ht; simpl in Ht; [done|]. case_decide as Hx.
  - injection Ht as <- <-. exists [], l. done.
  - apply bind_Some in Ht as ([t' r] & Ht & [= -> <-]).
    destruct (IH r Ht) as (l1 & l2 & -> & -> & ? & ?). exists (x :: l1), l2.
    split_and!; [done|done|done|by constructor].
Qed.

Lemma take_addr_is_Some a l : a ∈ t_addr <$> l → is_Some (take_addr a l).
Proof.
  induction l as [|x l IH]; [by intros ?%elem_of_nil|]. simpl. case_decide; [by eexists|].
  intros [?|Hin]%elem_of_cons; [congruence|]. destruct (IH Hin) as [[t r] ->]. by eexists.
Qed.

Lemma count_addr_cons a t l :
  count_addr a (t :: l) = ((if decide (t_addr t = a) then 1 else 0) + count_addr a l)%nat.
Proof. unfold count_addr. rewrite filter_cons. by case_decide. Qed.
Lemma count_addr_app a l1 l2 : count_addr a (l1 ++ l2) = (count_addr a l1 + count_addr a l2)%nat.
Proof. unfold count_addr. by rewrite filter_app, length_app. Qed.

Lemma count_addr_0 a l : count_addr a l = 0%nat ↔ a ∉ t_addr <$> l.
Proof.
  induction l as [|t l IH]; [split; [intros _; apply not_elem_of_nil|done]|].
  rewrite count_addr_cons, fmap_cons, not_elem_of_cons. case_decide; [naive_solver lia|].
  simpl. rewrite IH. naive_solver.
Qed.

Lemma filter_none {A} (P : A -> Prop) `{∀ x, Decision (P x)} l : Forall (fun x => ¬ P x) l → filter P l = [].
Proof. induction 1 as [|x l Hx Hl IH]; [done|]. by rewrite filter_cons, decide_False. Qed.

(** The loop of [IssueCommand] returns all pending reads of the address, in
    their order, and no other. *)
Lemma return_reads_ok n a d pend ret :
  n = count_addr a pend →
  return_reads n a d pend ret =
    ok (filter (fun t => t_addr t ≠ a) pend, ret ++ (with_complete d <$> filter (fun t => t_addr t = a) pend)).
Proof.
  revert pend ret. induction n as [|n IH]; intros pend ret Hn; simpl.
  - symmetry in Hn. apply count_addr_0 in Hn.
    assert (Forall (fun t => t_addr t ≠ a) pend) as Hall.
    { apply Forall_forall. intros t Ht <-. apply Hn. by apply list_elem_of_fmap_2. }
    rewrite (filter_none (fun t => t_addr t = a)) by done. rewrite app_nil_r. do 2 f_equal.
    clear Hn. induction Hall as [|t l Ht Hl IH]; [done|]. by rewrite filter_cons, decide_True, <- IH.
  - destruct (take_addr_is_Some a pend) as [[t pend'] Ht].
    { destruct (decide (a ∈ t_addr <$> pend)) as [|Hni]; [done|]. apply count_addr_0 in Hni. lia. }
    rewrite Ht. simpl. destruct (take_addr_Some _ _ _ _ Ht) as (l1 & l2 & -> & -> & Ha & Hall).
    rewrite IH; [|rewrite !count_addr_app, count_addr_cons, decide_True in Hn by done; rewrite count_addr_app; lia].
    rewrite !filter_app, !filter_cons.
    rewrite (decide_False (P := t_addr t ≠ a)), (decide_True (P := t_addr t = a)) by naive_solver.
    rewrite (filter_none (fun t => t_addr t = a) l1) by done. simpl. by rewrite <- app_assoc.
Qed.

Lemma elem_of_filter_addr a x (l : list Transaction) :
  x ∈ t_addr <$> filter (fun t => t_addr t ≠ a) l ↔ x ≠ a ∧ x ∈ t_addr <$> l.
Proof.
  rewrite !list_elem_of_fmap. split.
  - intros (t & -> & [? ?]%list_elem_of_filter). split; [done|]. eauto.
  - intros (Hx & t & -> & ?). exists t. split; [done|]. by apply list_elem_of_filter.
Qed.

Lemma filter_split_perm a (l : list Transaction) :
  filter (fun t => t_addr t ≠ a) l ++ filter (fun t => t_addr t = a) l ≡ₚ l.
Proof.
  induction l as [|t l IH]; [done|]. rewrite !filter_cons.
  destruct (decide (t_addr t = a)).
  - rewrite decide_False by naive_solver. rewrite <- IH at 3. symmetry. apply Permutation_middle.
  - rewrite decide_True by done. simpl. by rewrite IH.
Qed.

(** *** Issuing from the pending maps *)

(** Removing the address in flight from the pending map restores the balance. *)
Lemma bal_issue (W P P' : list Z) a :
  NoDup (a :: W) → (∀ x, x ∈ a :: W ↔ x ∈ P) → (∀ x, x ∈ P' ↔ x ≠ a ∧ x ∈ P) →
  NoDup W ∧ (∀ x, x ∈ W ↔ x ∈ P').
Proof.
  intros [Ha HW]%NoDup_cons Hi HP. split; [done|]. intros x. rewrite HP, <- Hi, elem_of_cons.
  split; [intros; split; [intros ->; done|by right]|intros [? [?|?]]; done].
Qed.

Lemma kind_exclusive cmd : IsRead cmd = true → IsWrite cmd = false.
Proof. unfold IsRead, IsWrite, ct_is. by destruct (cmd_type cmd). Qed.

Lemma issue_pending_ok config cmd c :
  balanced (inflight cmd) c →
  ∃ st rd wr ret, issue_pending config cmd c = ok (c_stats st (c_pending rd wr ret c)) ∧
    balanced none (c_pending rd wr ret c) ∧ outstanding (c_pending rd wr ret c) ≡ₚ outstanding c.
Proof.
  intros [Hn Hi Hw]. unfold issue_pending. destruct (IsRead cmd) eqn:Hrd.
  - pose proof (kind_exclusive cmd Hrd) as Hwr.
    pose proof (Hn false) as Hn0. pose proof (Hi false) as Hi0. pose proof (Hn true) as Hn1. pose proof (Hi true) as Hi1.
    unfold inflight, is_kind in *. rewrite Hrd in Hn0, Hi0. rewrite Hwr in Hn1, Hi1. simpl in *.
    rewrite decide_False.
    2:{ intros E%count_addr_0. apply E. apply Hi0. set_solver. }
    rewrite return_reads_ok by done. cbn [mbind exc_bind].
    exists id, (filter (fun t => t_addr t ≠ hex_addr cmd) (pending_rd_q_ c)), (pending_wr_q_ c),
      (return_queue_ c ++ (with_complete (u64 (ct_clk_ c + read_delay config)) <$>
         filter (fun t => t_addr t = hex_addr cmd) (pending_rd_q_ c))).
    split; [reflexivity|]. split.
    + destruct (bal_issue _ _ (t_addr <$> filter (fun t => t_addr t ≠ hex_addr cmd) (pending_rd_q_ c)) _ Hn0 Hi0)
        as [? ?]; [intros; apply elem_of_filter_addr|].
      split; [intros [|]; done|intros [|]; done|done].
    + unfold outstanding, c_pending, pending_rd_q_, return_queue_. rewrite !fmap_app.
      rewrite <- list_fmap_compose.
      change (request_of ∘ with_complete _) with request_of.
      rewrite (Permutation_app_comm (request_of <$> return_queue_ c)), app_assoc, <- fmap_app.
      by rewrite filter_split_perm.
  - destruct (IsWrite cmd) eqn:Hwr.
    + pose proof (Hn false) as Hn0. pose proof (Hi false) as Hi0. pose proof (Hn true) as Hn1. pose proof (Hi true) as Hi1.
      unfold inflight, is_kind in *. rewrite Hrd in Hn0, Hi0. rewrite Hwr in Hn1, Hi1. simpl in *.
      destruct (take_addr_is_Some (hex_addr cmd) (pending_wr_q_ c)) as [[t pend] Ht].
      { apply Hi1. set_solver. }
      rewrite Ht. simpl. eexists _, _, _, _. split; [reflexivity|]. split; [|done].
      destruct (take_addr_Some _ _ _ _ Ht) as (l1 & l2 & E & -> & Ha & _). rewrite E in Hw, Hi1.
      rewrite fmap_app, fmap_cons in Hw, Hi1. rewrite Ha in Hw, Hi1.
      assert (NoDup (hex_addr cmd :: (t_addr <$> l1 ++ l2))) as [Hni Hnd]%NoDup_cons.
      { rewrite fmap_app. by rewrite Permutation_middle. }
      destruct (bal_issue _ _ (t_addr <$> l1 ++ l2) _ Hn1 Hi1) as [? ?].
      { intros x. rewrite fmap_app in *. set_solver. }
      split; [intros [|]; done|intros [|]; done|done].
    + exists id, (pending_rd_q_ c), (pending_wr_q_ c), (return_queue_ c).
      assert (c_pending (pending_rd_q_ c) (pending_wr_q_ c) (return_queue_ c) c = c) as E by by destruct c.
      split; [by destruct c|]. rewrite E. split; [|done].
      eapply balanced_perm; [split; [exact Hn|exact Hi|exact Hw]| |done].
      intros w. unfold inflight, is_kind. destruct w; [by rewrite Hwr|by rewrite Hrd].
Qed.
End Holdings.

(** ** The invariant of a controller *)

Section Invariant.
Context (config : Config).
Implicit Types (c : Controller) (cmd k : Command) (s : ChannelState).

(** Two column commands cannot be ready in the same cycle: each of the delays
    between them is positive. *)
Definition rw_spaced : Prop :=
  ∀ k p ct, (cmd_type k = READ ∨ cmd_type k = WRITE) → cmd_ok config k → in_range config p →
    (ct = READ ∨ ct = WRITE) → ∃ d, (ct, d) ∈ delays_for config k p ∧ 1 ≤ d < 2 ^ 31.

(** What the theorems assume of the configuration: a consistent shape, a mapping
    onto its banks, no self refresh, and when two commands may be issued per
    cycle, the open page policy and spaced column commands. *)
Record ctrl_cfg : Prop := {
  gc_shape : shape_ok config;
  gc_map a : 0 ≤ a → let A := AddressMapping config a in
    in_range config (rank A, bankgroup A, bank A) ∧ 0 ≤ row A;
  gc_sref : enable_self_refresh config = false;
  gc_dual : enable_hbm_dual_cmd config = true →
    row_buf_policy config ≠ "CLOSE_PAGE"%string ∧ rw_spaced
}.

(** The transaction queues in use hold at most [trans_queue_size] entries, the
    read queue only reads; the capacity that [WillAcceptTransaction] reads is
    never changed. *)
Definition fits (on : bool) (v : cvec Transaction) : Prop :=
  cap v = (if on then Z.to_nat (trans_queue_size config) else 0%nat) ∧ (length (elts v) ≤ cap v)%nat.
Definition room c : Prop :=
  is_unified_queue_ c = unified_queue config ∧ fits (unified_queue config) (unified_queue_ c) ∧
  fits (negb (unified_queue config)) (read_queue_ c) ∧ fits (negb (unified_queue config)) (write_buffer_ c) ∧
  Forall (fun t => is_write t = false) (elts (read_queue_ c)).

Record ctrl_core c : Prop := {
  cc_chan : chan_ok config (channel_state_ c);
  cc_sref : no_sref config (channel_state_ c);
  cc_idle : length (rank_idle_cycles (channel_state_ c)) = Z.to_nat (ranks config);
  cc_q : cq_wf config (cmd_queue_ c);
  cc_clk : cq_clk_ (cmd_queue_ c) = ct_clk_ c;
  cc_refq : Forall (fun r => request_ok config r ∧ IsRefresh r = true) (refresh_q_ (channel_state_ c));
  cc_rf : 0 < refresh_interval_ (refresh_ c) < 2 ^ 31;
  cc_next : in_range config (counters (refresh_ c));
  cc_addr : Forall (fun t => 0 ≤ t_addr t) (all_trans c);
  cc_pol : row_buf_policy_ c =
    if decide (row_buf_policy config = "CLOSE_PAGE"%string) then CLOSE_PAGE else OPEN_PAGE;
  cc_types k : row_buf_policy_ c = OPEN_PAGE → k ∈ queued c → cmd_type k = READ ∨ cmd_type k = WRITE;
  cc_room : room c
}.

(** The whole invariant. *)
Record ctrl_inv c : Prop := {
  iv_core : ctrl_core c;
  iv_bal : balanced none c
}.

(** *** Ready commands *)

Lemma no_sref_state s p b :
  chan_ok config s → no_sref config s → bank_at s p = Some b → state_ b = B_OPEN ∨ state_ b = B_CLOSED.
Proof.
  intros Hk Hs Hb. destruct (bw_state _ (cw_banks _ _ (ck_wf _ _ Hk) _ _ Hb)) as [?|[?|Hsr]]; auto.
  apply (ck_sref _ _ Hk p b Hb) in Hsr.
  assert (in_range config p) as [Hr _] by (apply (cw_shape _ _ (ck_wf _ _ Hk)); by eexists).
  rewrite (Hs _ Hr) in Hsr. done.
Qed.

Lemma required_ref b r :
  state_ b = B_OPEN ∨ state_ b = B_CLOSED → IsRefresh r = true →
  ∃ rt, required_type b r = ok rt ∧ (rt = cmd_type r ∨ rt = PRECHARGE).
Proof.
  unfold required_type, IsRefresh, ct_is. intros [->| ->]; destruct (cmd_type r); simpl; try done; eauto.
Qed.

(** The steps of a refresh: the refresh itself or a precharge. *)
Definition ref_step (r rc : Command) : Prop :=
  IsValid rc = true → cmd_type rc = cmd_type r ∨ cmd_type rc = PRECHARGE.

Lemma b_ref_ready s p b r clk :
  chan_ok config s → no_sref config s → bank_at s p = Some b → IsRefresh r = true →
  ∃ rc, b_GetReadyCommand b r clk = ok rc ∧ ref_step r rc.
Proof.
  intros Hk Hs Hb Hr. destruct (required_ref b r (no_sref_state s p b Hk Hs Hb) Hr) as (rt & Hrt & Hor).
  rewrite (b_GetReadyCommand_ok b r clk rt (cw_banks _ _ (ck_wf _ _ Hk) _ _ Hb) Hrt).
  eexists. split; [done|]. unfold ref_step. destruct (_ <=? clk); [done|by rewrite IsValid_default].
Qed.

Lemma rank_ready_total s r clk l rc0 n :
  chan_ok config s → no_sref config s → IsRefresh r = true → 0 ≤ Rank r < ranks config →
  (∀ jk, jk ∈ l → jk ∈ bank_idx config) → ref_step r rc0 →
  ∃ x, rank_ready s r clk l rc0 n = ok x ∧
    match x with inl rc => ref_step r rc | inr (rc, _) => ref_step r rc end.
Proof.
  intros Hk Hs Hr Hrk. revert rc0 n. induction l as [|[j b0] l IH]; intros rc0 n Hl H0; [by eexists|].
  destruct (proj1 (cw_shape _ _ (ck_wf _ _ Hk) (Rank r, j, b0))) as [b Hb].
  { destruct (proj1 (elem_of_bank_idx config j b0)) as [? ?]; [apply Hl; left|]. done. }
  destruct (b_ref_ready s _ b r clk Hk Hs Hb Hr) as (rc & Hrc & Hst).
  cbn [rank_ready]. unfold get_bank. rewrite Hb. cbn [opt_exc mbind exc_bind]. rewrite Hrc. cbn [mbind exc_bind].
  destruct (IsValid rc) eqn:Hv; [case_decide|].
  - eexists. split; [done|]. intros _. simpl. by apply Hst.
  - apply IH; [intros; apply Hl; by right|done].
  - apply IH; [intros; apply Hl; by right|done].
Qed.

Lemma ref_step_default r : ref_step r Command_default.
Proof. unfold ref_step. by rewrite IsValid_default. Qed.

(** A pending refresh can always be worked on. *)
Lemma ref_ready s r clk :
  chan_ok config s → no_sref config s → request_ok config r → IsRefresh r = true →
  ∃ rc, GetReadyCommand config s r clk = ok rc ∧ ref_step r rc.
Proof.
  intros Hk Hs [Hc _] Hr. unfold cmd_ok in Hc. unfold GetReadyCommand.
  pose proof (ref_step_default r) as Hdef.
  destruct (IsRankCMD r) eqn:Hrk.
  - destruct (rank_ready_total s r clk (bank_idx config) Command_default 0) as (x & Hx & Hst); [done..|].
    rewrite Hx. cbn [mbind exc_bind]. destruct x as [rc|[rc n]]; [eauto|]. destruct (_ =? _); eauto.
  - destruct (proj1 (cw_shape _ _ (ck_wf _ _ Hk) (cplace r)) Hc) as [b Hb].
    destruct (b_ref_ready s _ b r clk Hk Hs Hb Hr) as (rc & Hrc & Hst).
    unfold get_bank. rewrite Hb. cbn [opt_exc mbind exc_bind]. rewrite Hrc. cbn [mbind exc_bind].
    destruct (IsValid rc) eqn:Hv; [|eauto]. case_decide as Ha; [|eauto].
    destruct (Hst Hv) as [E|E]; rewrite Ha in E; [|done].
    unfold IsRefresh, ct_is in Hr. by rewrite <- E in Hr.
Qed.

(** Queued requests are never answered with a command of self refresh. *)
Lemma rw_ready_type s k clk rc :
  chan_ok config s → no_sref config s → IsReadWrite k = true → request_ok config k →
  GetReadyCommand config s k clk = ok rc → IsValid rc = true →
  cmd_type rc = cmd_type k ∨ cmd_type rc = ACTIVATE ∨ cmd_type rc = PRECHARGE.
Proof.
  intros Hk Hs Hrw Hreq Hg Hv. pose proof (request_range config k Hrw Hreq) as Hr.
  destruct (proj1 (cw_shape _ _ (ck_wf _ _ Hk) (cplace k)) Hr) as [b Hb].
  unfold GetReadyCommand, get_bank in Hg. rewrite (rw_not_rank k Hrw), Hb in Hg.
  cbn [opt_exc mbind exc_bind] in Hg. apply exc_bind_ok in Hg as (rcb & Hrb & Hg).
  destruct (IsValid rcb) eqn:Hvb; [|injection Hg as <-; by rewrite IsValid_default in Hv].
  destruct (b_GetReadyCommand_valid b k clk rcb) as (Hrt & _);
    [exact (cw_banks _ _ (ck_wf _ _ Hk) _ _ Hb)|done|done|].
  assert (rc = rcb) as ->.
  { case_decide; [|by injection Hg]. inv_ok. destruct x; injection Hg as <-; [done|by rewrite IsValid_default in Hv]. }
  unfold required_type, IsReadWrite, IsRead, IsWrite, ct_is in *.
  destruct (no_sref_state s _ b Hk Hs Hb) as [Ho|Ho]; rewrite Ho in Hrt;
    destruct (cmd_type k); try done; try (destruct (_ =? _)); injection Hrt as <-; auto.
Qed.

(** *** Steps that keep the invariant *)

Lemma core_chan s c :
  ctrl_core c → chan_ok config s → rank_is_sref_ s = rank_is_sref_ (channel_state_ c) →
  length (rank_idle_cycles s) = length (rank_idle_cycles (channel_state_ c)) →
  Forall (fun r => request_ok config r ∧ IsRefresh r = true) (refresh_q_ s) → ctrl_core (c_chan s c).
Proof.
  intros [] Hk Hs Hi Hr. split; try done; cbn [channel_state_ c_chan].
  - intros i. rewrite Hs. by apply cc_sref0.
  - by rewrite Hi.
Qed.

Lemma core_stats f c : ctrl_core c → ctrl_core (c_stats f c).
Proof. intros []. by split. Qed.
Lemma core_pending rd wr ret c : ctrl_core c → ctrl_core (c_pending rd wr ret c).
Proof. intros []. by split. Qed.

Lemma UpdateCommandStats_ok cmd c :
  chan_ok config (channel_state_ c) → IsValid cmd = true → cmd_ok config cmd →
  ∃ st, UpdateCommandStats cmd c = ok (c_stats st c).
Proof.
  intros Hk Hv Hc. unfold UpdateCommandStats, RowHitCount, get_bank, IsValid, ct_is, cmd_ok, IsRankCMD, ct_is in *.
  destruct (cmd_type cmd); try done; try (by eexists); simpl in Hc;
    destruct (proj1 (cw_shape _ _ (ck_wf _ _ Hk) (cplace cmd)) Hc) as [b ->]; simpl; by eexists.
Qed.

(** [IssueCommand] on a command that is ready and whose transaction is pending. *)
Lemma IssueCommand_ok cmd c :
  ctrl_core c → balanced (inflight cmd) c → issuable config (channel_state_ c) cmd (ct_clk_ c) →
  IsValid cmd = true → cmd_type cmd ≠ SREF_ENTER → cmd_type cmd ≠ SREF_EXIT →
  ∃ s st rd wr ret, let c' := c_chan s (c_stats st (c_pending rd wr ret c)) in
    IssueCommand config cmd c = ok c' ∧ ctrl_core c' ∧ balanced none c' ∧
    outstanding c' ≡ₚ outstanding c ∧
    deadlines_grow (delays_for config cmd) (ct_clk_ c) (channel_state_ c) s.
Proof.
  intros Hcc Hb His Hv He Hx. destruct (issue_pending_ok config cmd c Hb) as (st & rd & wr & ret & Hp & Hb' & Ho).
  set (c1 := c_stats st (c_pending rd wr ret c)) in *.
  destruct (UpdateCommandStats_ok cmd c1 (cc_chan _ Hcc) Hv (is_ok _ _ _ _ His)) as [st' Hst].
  destruct (UpdateTimingAndStates_ok config (channel_state_ c) cmd (ct_clk_ c) (cc_chan _ Hcc) His Hv)
    as (s & Hs & Hk & Hg & _).
  destruct (UpdateTimingAndStates_frame config cmd (ct_clk_ c) (channel_state_ c) s Hs) as (Fi & Fq & Fs).
  exists s, (fun x => st' (st x)), rd, wr, ret. cbn zeta. split_and!; [| |destruct Hb'; by split|exact Ho|exact Hg].
  - unfold IssueCommand. rewrite Hp. cbn [mbind exc_bind]. rewrite Hst. cbn [mbind exc_bind].
    change (ct_clk_ (c_stats st' c1)) with (ct_clk_ c).
    change (channel_state_ (c_stats st' c1)) with (channel_state_ c). by rewrite Hs.
  - apply core_chan; [by apply core_stats, core_pending|done|by apply Fs|by rewrite Fi|].
    pose proof (cc_refq _ Hcc) as Hq. rewrite Forall_forall in Hq |- *. auto.
Qed.

(** *** Taking a command from the queues *)

Lemma kind_of_rw w k : IsReadWrite k = false → is_kind w k = false.
Proof. unfold IsReadWrite, is_kind. destruct w; by intros [? ?]%orb_false_iff. Qed.

Lemma inflight_nil cmd w : IsReadWrite cmd = false → inflight cmd w = [].
Proof. intros H. unfold inflight. by rewrite kind_of_rw. Qed.

Lemma invalid_not_rw cmd : IsValid cmd = false → IsReadWrite cmd = false.
Proof. unfold IsValid, IsReadWrite, IsRead, IsWrite, ct_is. by destruct (cmd_type cmd). Qed.

(** Moving the command [k] off the queues keeps the balance, with [k] in flight. *)
Lemma waiting_take c q k cmd w :
  queued c ≡ₚ k :: concat (queues_ q) → hex_addr cmd = hex_addr k → cmd_type cmd = cmd_type k →
  inflight cmd w ++ waiting w (c_cmdq q c) ≡ₚ waiting w c.
Proof.
  intros Hp Hh Ht. unfold waiting. unfold queued at 2. rewrite Hp, filter_cons.
  assert (is_kind w cmd = is_kind w k) as Hk by (unfold is_kind, IsRead, IsWrite, ct_is; by rewrite Ht).
  change (all_trans (c_cmdq q c)) with (all_trans c). change (queued (c_cmdq q c)) with (concat (queues_ q)).
  unfold inflight. rewrite Hk, Hh. destruct (is_kind w k); simpl; [|done].
  by rewrite Permutation_middle.
Qed.

Lemma elem_of_queued c k : k ∈ queued c ↔ ∃ i l, zget (queues_ (cmd_queue_ c)) i = Some l ∧ k ∈ l.
Proof.
  unfold queued. rewrite list_elem_of_In, in_concat. split.
  - intros (l & Hl & Hk). apply list_elem_of_In, list_elem_of_lookup in Hl as [n Hn].
    exists (Z.of_nat n), l. rewrite zget_Some, Nat2Z.id, list_elem_of_In. split; [split; [lia|done]|done].
  - intros (i & l & Hl%zget_elem & Hk). exists l. by rewrite <- !list_elem_of_In.
Qed.

Lemma same_rw_eq cmd k : same_rw cmd k = true → hex_addr cmd = hex_addr k ∧ cmd_type cmd = cmd_type k.
Proof. unfold same_rw. intros [?%Z.eqb_eq ?%bool_decide_eq_true]%andb_true_iff. done. Qed.

(** Replacing the queues by ones with no other commands. *)
Lemma core_cmdq q c :
  ctrl_core c → cq_wf config q → cq_clk_ q = cq_clk_ (cmd_queue_ c) →
  (∀ k, k ∈ concat (queues_ q) → k ∈ queued c) → ctrl_core (c_cmdq q c).
Proof. intros [] Hq Hc Hk. split; try done; simpl; [by rewrite Hc|]. intros k Hp ?%Hk. by apply cc_types0. Qed.

(** What the scheduler hands out: nothing, or a command ready at this cycle for
    a queued request, whose transaction is pending. *)
Record fetched (c : Controller) (cmd : Command) : Prop := {
  fe_issue : issuable config (channel_state_ c) cmd (ct_clk_ c);
  fe_enter : cmd_type cmd ≠ SREF_ENTER;
  fe_exit : cmd_type cmd ≠ SREF_EXIT;
  fe_type : row_buf_policy_ c = OPEN_PAGE → IsReadWrite cmd = true → cmd_type cmd = READ ∨ cmd_type cmd = WRITE
}.

Lemma fetch_ok c :
  ctrl_cfg → ctrl_core c → balanced none c →
  ∃ cmd q st, GetCommandToIssue config (channel_state_ c) (cmd_queue_ c) (simple_stats_ c) = ok (cmd, q, st) ∧
    ctrl_core (c_stats (fun _ => st) (c_cmdq q c)) ∧ balanced (inflight cmd) (c_stats (fun _ => st) (c_cmdq q c)) ∧
    (IsValid cmd = true → fetched c cmd).
Proof.
  intros Hg Hcc Hb. pose proof (cc_chan _ Hcc) as Hk. pose proof (cc_q _ Hcc) as Hq.
  destruct (issue_loop_spec config (Z.to_nat (num_queues_ (cmd_queue_ c))) (channel_state_ c) (cmd_queue_ c)
    (simple_stats_ c) Hk Hq) as (cmd & q & st & Hrun & Hw & (_ & _ & _ & _ & Hclk & _) & His).
  exists cmd, q, st. unfold GetCommandToIssue. split; [done|]. unfold issued in His.
  destruct (IsValid cmd) eqn:Hv.
  2:{ assert (∀ w, inflight cmd w = []) as Hn by (intros; by apply inflight_nil, invalid_not_rw).
      split_and!; [apply core_stats, core_cmdq; try done; by rewrite His| |done].
      eapply balanced_perm; [exact Hb| |done]. intros w. rewrite Hn. unfold waiting, queued. simpl. by rewrite His. }
  destruct His as (i & l & k & Hl & Hin & _ & Hready & His).
  assert (k ∈ queued c) as Hkq by (apply elem_of_queued; eauto).
  destruct (qw_cmds _ _ Hq i l k Hl Hin) as (Hrw & Hreq & _). rewrite (cc_clk _ Hcc) in Hready.
  pose proof (rw_ready_type _ _ _ _ Hk (cc_sref _ Hcc) Hrw Hreq Hready Hv) as Hty.
  destruct (rw_ready config (channel_state_ c) k (ct_clk_ c) Hk Hrw Hreq) as (rc & Hr' & Hrc). rewrite Hready in Hr'. injection Hr' as <-.
  assert (fetched c cmd) as Hf.
  { split.
    - by eapply GetReadyCommand_issuable; [apply Hg|..].
    - intros E. rewrite E in Hty. unfold IsReadWrite, IsRead, IsWrite, ct_is in Hrw.
      destruct Hty as [E'|[E'|E']]; try done. by rewrite <- E' in Hrw.
    - intros E. rewrite E in Hty. unfold IsReadWrite, IsRead, IsWrite, ct_is in Hrw.
      destruct Hty as [E'|[E'|E']]; try done. by rewrite <- E' in Hrw.
    - intros Hp Hcrw. destruct (Hrc Hv) as (_ & _ & Ht). rewrite (Ht Hcrw). by eapply cc_types. }
  destruct (IsReadWrite cmd) eqn:Hcrw.
  - destruct His as [Hex Hqs]. destruct (erase_first_perm _ _ Hex) as (k' & Hk' & Hp).
    apply same_rw_eq in Hk' as [Hh Ht].
    pose proof (concat_zset_perm (queues_ (cmd_queue_ c)) i l _ k' Hl Hp) as Hperm. rewrite <- Hqs in Hperm.
    split_and!; [| |done].
    + apply core_stats, core_cmdq; [done..|]. intros k0 Hk0. unfold queued. rewrite Hperm. by right.
    + eapply balanced_perm; [exact Hb| |done]. intros w. symmetry. exact (waiting_take c q k' cmd w Hperm Hh Ht).
  - assert (∀ w, inflight cmd w = []) as Hn by (intros; by apply inflight_nil).
    split_and!; [apply core_stats, core_cmdq; try done; by rewrite His| |done].
    eapply balanced_perm; [exact Hb| |done]. intros w. rewrite Hn. unfold waiting, queued. simpl. by rewrite His.
Qed.

(** *** The command of a cycle *)

Lemma FinishRefresh_ok c :
  ctrl_cfg → ctrl_core c → IsRefreshWaiting (channel_state_ c) = true →
  ∃ cmd q, FinishRefresh config (channel_state_ c) (cmd_queue_ c) = ok (cmd, q) ∧
    ctrl_core (c_cmdq q c) ∧ queues_ q = queues_ (cmd_queue_ c) ∧
    (IsValid cmd = true → IsReadWrite cmd = false ∧ fetched c cmd).
Proof.
  intros Hg Hcc Hw. unfold IsRefreshWaiting in Hw. unfold FinishRefresh, PendingRefCommand.
  pose proof (cc_refq _ Hcc) as Hrq. destruct (refresh_q_ (channel_state_ c)) as [|r rest] eqn:Er; [done|].
  apply Forall_cons in Hrq as [[Hreq Hr] _]. cbn [head hd_error opt_exc mbind exc_bind].
  set (q1 := if is_in_ref_ (cmd_queue_ c) then _ else _).
  assert (∃ ids b, q1 = with_ref ids b (cmd_queue_ c)) as (ids & b & Eq1).
  { unfold q1, GetRefQIndices. destruct (is_in_ref_ (cmd_queue_ c)) eqn:E.
    - exists (ref_q_indices_ (cmd_queue_ c)), true. destruct (cmd_queue_ c). simpl in E. by subst.
    - case_decide; [destruct (queue_structure_ (cmd_queue_ c))|]; by eexists _, _. }
  assert (∀ ids b, ctrl_core (c_cmdq (with_ref ids b (cmd_queue_ c)) c)) as Hcore.
  { intros ids' b'. apply core_cmdq; try done. destruct (cc_q _ Hcc). by split. }
  rewrite Eq1. cbn [cq_clk_ with_ref]. rewrite (cc_clk _ Hcc).
  destruct (ref_ready (channel_state_ c) r (ct_clk_ c) (cc_chan _ Hcc) (cc_sref _ Hcc) Hreq Hr) as (rc & Hrc & Hst).
  rewrite Hrc. cbn [mbind exc_bind].
  assert (IsValid rc = true → IsReadWrite rc = false ∧ fetched c rc) as Hres.
  { intros Hv. assert (cmd_type rc = REFRESH ∨ cmd_type rc = REFRESH_BANK ∨ cmd_type rc = PRECHARGE) as Hty.
    { destruct (Hst Hv) as [->| ->]; [|auto]. unfold IsRefresh, ct_is in Hr. destruct (cmd_type r); try done; auto. }
    assert (IsReadWrite rc = false) as Hrw.
    { unfold IsReadWrite, IsRead, IsWrite, ct_is. by destruct Hty as [->|[->| ->]]. }
    split; [done|]. split.
    - by eapply GetReadyCommand_issuable; [apply Hg|apply Hcc|..].
    - by destruct Hty as [->|[->| ->]].
    - by destruct Hty as [->|[->| ->]].
    - by rewrite Hrw. }
  destruct (IsRefresh rc).
  - exists rc, (with_ref ∅ false (cmd_queue_ c)). split; [done|]. split; [apply Hcore|done].
  - exists rc, (with_ref ids b (cmd_queue_ c)). split; [done|]. split; [apply Hcore|done].
Qed.

Lemma pick_command_ok c :
  ctrl_cfg → ctrl_core c → balanced none c →
  ∃ cmd st q, let c' := c_stats st (c_cmdq q c) in
    pick_command config c = ok (cmd, c') ∧ ctrl_core c' ∧ balanced (inflight cmd) c' ∧
    (IsValid cmd = true → fetched c cmd).
Proof.
  intros Hg Hcc Hb. unfold pick_command.
  assert (∀ c1 q1, c1 = c_cmdq q1 c → ctrl_core c1 → balanced none c1 →
    ∃ cmd st q, let c' := c_stats st (c_cmdq q c) in
    ('(cmd, q, st) ← GetCommandToIssue config (channel_state_ c1) (cmd_queue_ c1) (simple_stats_ c1);
     ok (cmd, c_stats (fun _ => st) (c_cmdq q c1))) = ok (cmd, c') ∧ ctrl_core c' ∧ balanced (inflight cmd) c' ∧
    (IsValid cmd = true → fetched c cmd)) as Hfetch.
  { intros c1 q1 -> Hc1 Hb1. destruct (fetch_ok _ Hg Hc1 Hb1) as (cmd & q & st & Hf & Hc2 & Hb2 & Hfe).
    exists cmd, (fun _ => st), q. cbn zeta. rewrite Hf. cbn [mbind exc_bind].
    split_and!; [done|done|done|]. intros Hv. destruct (Hfe Hv). by split. }
  assert (c_cmdq (cmd_queue_ c) c = c) as Eid by by destruct c.
  destruct (IsRefreshWaiting (channel_state_ c)) eqn:Hw.
  - destruct (FinishRefresh_ok c Hg Hcc Hw) as (cmd & q & Hf & Hc1 & Hqs & Hres). rewrite Hf. cbn [mbind exc_bind].
    assert (balanced none (c_cmdq q c)) as Hb1.
    { eapply balanced_perm; [exact Hb| |done]. intros w. unfold waiting, queued. simpl. by rewrite Hqs. }
    destruct (IsValid cmd) eqn:Hv; [|by eapply Hfetch].
    destruct (Hres eq_refl) as [Hrw Hfe]. exists cmd, id, q. cbn zeta. split_and!; [done| | |done].
    + by apply core_stats.
    + eapply balanced_perm; [exact Hb1| |done]. intros w. by rewrite (inflight_nil cmd w Hrw).
  - cbn [mbind exc_bind]. rewrite IsValid_default.
    by apply (Hfetch c (cmd_queue_ c)).
Qed.

(** *** Issuing one or two commands *)

(** What a stage of a cycle keeps. *)
Record stage (c c' : Controller) : Prop := {
  st_core : ctrl_core c';
  st_bal : balanced none c';
  st_out : outstanding c' ≡ₚ outstanding c;
  st_clk : ct_clk_ c' = ct_clk_ c
}.

Lemma stage_trans c1 c2 c3 : stage c1 c2 → stage c2 c3 → stage c1 c3.
Proof. intros [] []. split; try done; [etrans; eassumption|congruence]. Qed.
Lemma stage_stats f c c' : stage c c' → stage c (c_stats f c').
Proof. intros [? [] ? ?]. split; [by apply core_stats|by split|done|done]. Qed.

(** After a column command no second one is ready in the same cycle. *)
Lemma no_second_rw s s' clk cmd second :
  rw_spaced → 0 ≤ clk < 2 ^ 63 →
  cmd_type cmd = READ ∨ cmd_type cmd = WRITE → cmd_ok config cmd →
  deadlines_grow (delays_for config cmd) clk s s' →
  chan_ok config s' → issuable config s' second clk →
  ¬ (cmd_type second = READ ∨ cmd_type second = WRITE).
Proof.
  intros Hsp Hclk Hty Hok Hgrow Hk His Hty2.
  assert (IsRankCMD second = false) as Hnr by (unfold IsRankCMD, ct_is; by destruct Hty2 as [->| ->]).
  pose proof (is_ok _ _ _ _ His) as Hok2. unfold cmd_ok in Hok2. rewrite Hnr in Hok2.
  destruct (Hsp cmd (cplace second) (cmd_type second) Hty Hok Hok2 Hty2) as (d & Hd & Hd1).
  destruct (proj1 (cw_shape _ _ (ck_wf _ _ Hk) (cplace second)) Hok2) as [b Hb].
  destruct (Hgrow _ _ Hb) as (b0 & _ & _ & Hdl). specialize (Hdl _ _ Hd).
  assert (deadline b (cmd_type second) ≤ clk) as Hdue.
  { eapply (is_due _ _ _ _ His); [|exact Hb]. unfold checked, targets. rewrite Hnr.
    rewrite decide_False by (by destruct Hty2 as [->| ->]). by apply list_elem_of_singleton. }
  rewrite u64_delay in Hdl by lia. lia.
Qed.

Lemma balanced_inflight cmd c : IsReadWrite cmd = false → balanced (inflight cmd) c → balanced none c.
Proof.
  intros Hrw Hb. eapply balanced_perm; [exact Hb| |done]. intros w. by rewrite (inflight_nil cmd w Hrw).
Qed.

Lemma issue_commands_ok cmd c c0 :
  ctrl_cfg → ctrl_core c → balanced (inflight cmd) c → 0 ≤ ct_clk_ c < 2 ^ 63 → IsValid cmd = true →
  channel_state_ c = channel_state_ c0 → ct_clk_ c = ct_clk_ c0 → row_buf_policy_ c = row_buf_policy_ c0 →
  fetched c0 cmd → ∃ c', issue_commands config cmd c = ok c' ∧ stage c c'.
Proof.
  intros Hg Hcc Hb Hclk Hv E1 E2 E3 [His He Hx Hty]. rewrite <- E1, <- E2, <- E3 in *.
  destruct (IssueCommand_ok cmd c Hcc Hb His Hv He Hx) as (s & st & rd & wr & ret & Hrun & Hc1 & Hb1 & Ho1 & Hgrow).
  set (c1 := c_chan s (c_stats st (c_pending rd wr ret c))) in *.
  assert (stage c c1) as Hs1 by by split.
  unfold issue_commands. rewrite Hrun. cbn [mbind exc_bind].
  destruct (enable_hbm_dual_cmd config) eqn:Hdual; [|by exists c1].
  destruct (gc_dual Hg Hdual) as [Hpol Hsp].
  destruct (fetch_ok c1 Hg Hc1 Hb1) as (second & q & st2 & Hf & Hc2 & Hb2 & Hfe).
  rewrite Hf. cbn [mbind exc_bind]. set (c2 := c_stats (fun _ => st2) (c_cmdq q c1)) in *.
  assert (IsReadWrite second = false → stage c c2) as Hkeep.
  { intros Hrw. eapply stage_trans; [exact Hs1|]. split; [done|by eapply balanced_inflight|done|done]. }
  destruct (IsValid second) eqn:Hv2; [|exists c2; split; [done|by apply Hkeep, invalid_not_rw]].
  destruct (Hfe eq_refl) as [His2 He2 Hx2 Hty2]. cbn [andb].
  assert (row_buf_policy_ c = OPEN_PAGE) as Hop by (by rewrite (cc_pol _ Hcc), decide_False).
  destruct (Bool.eqb (IsReadWrite second) (IsReadWrite cmd)) eqn:Heq; cbn [negb].
  - apply Bool.eqb_prop in Heq. exists c2. split; [done|]. apply Hkeep.
    destruct (IsReadWrite second) eqn:Hrw2; [|done]. exfalso. symmetry in Heq.
    eapply (no_second_rw (channel_state_ c) s (ct_clk_ c) cmd second); try done.
    + by apply Hty.
    + apply His.
    + apply Hc1.
    + by apply Hty2.
  - destruct (IssueCommand_ok second c2 Hc2 Hb2 His2 Hv2 He2 Hx2) as (s3 & st3 & rd3 & wr3 & ret3 & Hr3 & Hc3 & Hb3 & Ho3 & _).
    rewrite Hr3. cbn [mbind exc_bind]. eexists. split; [reflexivity|]. apply stage_stats.
    eapply stage_trans; [exact Hs1|]. split; [done|done| |done]. exact Ho3.
Qed.

(** *** Power accounting *)

Lemma all_idle_total s r l :
  chan_ok config s → 0 ≤ r < ranks config → (∀ jk, jk ∈ l → jk ∈ bank_idx config) → ∃ b, all_idle s r l = ok b.
Proof.
  intros Hk Hr. induction l as [|[j k] l IH]; intros Hl; cbn [all_idle]; [eauto|].
  destruct (proj1 (cw_shape _ _ (ck_wf _ _ Hk) (r, j, k))) as [b Hb].
  { destruct (proj1 (elem_of_bank_idx config j k)) as [? ?]; [apply Hl; left|done]. }
  unfold IsRowOpen, get_bank. rewrite Hb. cbn [opt_exc mbind exc_bind].
  destruct (b_IsRowOpen b); [eauto|]. apply IH. intros. apply Hl. by right.
Qed.

Lemma rank_power_ok i c :
  ctrl_core c → balanced none c → 0 ≤ i < ranks config →
  ∃ c', rank_power config i c = ok c' ∧ stage c c'.
Proof.
  intros Hcc Hb Hi. unfold rank_power, IsRankSelfRefreshing, IsAllBankIdleInRank, vec_get.
  rewrite (cc_sref _ Hcc i Hi). cbn [opt_exc mbind exc_bind].
  destruct (all_idle_total (channel_state_ c) i (bank_idx config) (cc_chan _ Hcc) Hi) as [b ->]; [done|].
  destruct (zget_is_Some (rank_idle_cycles (channel_state_ c)) i) as [v ->]; [rewrite (cc_idle _ Hcc); lia|].
  cbn [opt_exc mbind exc_bind].
  assert (∀ x f, stage c (c_chan (with_idle (zset (rank_idle_cycles (channel_state_ c)) i x) (channel_state_ c))
    (c_stats f c))) as Hst.
  { intros x f. split; [|destruct Hb; by split|done|done].
    apply core_chan; [by apply core_stats| |done|apply length_zset|apply Hcc].
    destruct (cc_chan _ Hcc) as [[] ?]. split; [by split|done]. }
  destruct b; (eexists; split; [reflexivity|apply Hst]).
Qed.

Lemma power_loop_ok c :
  ctrl_core c → balanced none c → ∃ c', foldE (rank_power config) (zseq (ranks config)) c = ok c' ∧ stage c c'.
Proof.
  intros Hcc Hb. apply (foldE_total (stage c)).
  - intros i c1 Hi%elem_of_zseq Hs. destruct (rank_power_ok i c1 (st_core _ _ Hs) (st_bal _ _ Hs) Hi) as (c2 & ? & ?).
    exists c2. split; [done|by eapply stage_trans].
  - by split.
Qed.

(** *** Scheduling a transaction *)

Lemma TransToCommand_ok pol t :
  ctrl_cfg → 0 ≤ t_addr t → let cmd := TransToCommand config pol t in
  IsReadWrite cmd = true ∧ request_ok config cmd ∧ hex_addr cmd = t_addr t ∧
  (∀ w, is_kind w cmd = bool_decide (is_write t = w)) ∧
  (pol = OPEN_PAGE → cmd_type cmd = READ ∨ cmd_type cmd = WRITE).
Proof.
  intros Hg Ha cmd. destruct (gc_map Hg (t_addr t) Ha) as [Hr Hrow].
  assert (IsReadWrite cmd = true) as Hrw.
  { unfold cmd, TransToCommand, IsReadWrite, IsRead, IsWrite, ct_is. by destruct pol, (is_write t). }
  split_and!; [done| |done| |].
  - split; [|done]. unfold cmd_ok. by rewrite (rw_not_rank cmd Hrw).
  - intros w. unfold cmd, TransToCommand, is_kind, IsRead, IsWrite, ct_is. by destruct pol, w, (is_write t).
  - intros ->. unfold cmd, TransToCommand. simpl. destruct (is_write t); auto.
Qed.

Lemma AddCommand_clk cmd q b q' : AddCommand config cmd q = ok (b, q') → cq_clk_ q' = cq_clk_ q.
Proof. unfold AddCommand. intros H. inv_ok. destruct (_ <? _); inv_ok; done. Qed.

Lemma served_perm sv pre t rest c q :
  served_elts sv c = pre ++ t :: rest → all_trans c ≡ₚ t :: all_trans (set_served sv (pre ++ rest) (c_cmdq q c)).
Proof.
  unfold all_trans. destruct sv; simpl; intros ->; rewrite <- ?app_assoc; simpl;
    rewrite <- ?Permutation_middle; try done.
Qed.

Lemma served_room sv pre t rest c q n :
  room c → served_elts sv c = pre ++ t :: rest → room (set_served sv (pre ++ rest) (c_cmdq q (c_draining n c))).
Proof.
  unfold room, fits. destruct sv; simpl; intros (Hu & [Hc1 H1] & [Hc2 H2] & [Hc3 H3] & Hk) E; rewrite E in *;
    rewrite length_app in *; simpl in *; split_and!; try done; try lia.
  apply Forall_app in Hk as [? [_ ?]%Forall_cons]. by apply Forall_app.
Qed.

Lemma waiting_move sv pre t rest c q cmd w :
  served_elts sv c = pre ++ t :: rest → hex_addr cmd = t_addr t →
  (∀ w, is_kind w cmd = bool_decide (is_write t = w)) → concat (queues_ q) ≡ₚ cmd :: queued c →
  waiting w (set_served sv (pre ++ rest) (c_cmdq q c)) ≡ₚ waiting w c.
Proof.
  intros Hsv Hh Hw Hq. unfold waiting. rewrite (served_perm sv pre t rest c q Hsv).
  assert (queued (set_served sv (pre ++ rest) (c_cmdq q c)) = concat (queues_ q)) as -> by by destruct sv.
  rewrite Hq, !filter_cons, Hw. case_bool_decide as Hd.
  - rewrite (decide_True (P := is_write t = w)) by done. simpl. rewrite Hh. by rewrite <- Permutation_middle.
  - by rewrite (decide_False (P := is_write t = w)) by done.
Qed.

(** The accepted transaction becomes a command at the end of its queue. *)
Lemma schedule_add_ok sv pre t rest c n :
  ctrl_cfg → ctrl_core c → balanced none c → served_elts sv c = pre ++ t :: rest →
  let cmd := TransToCommand config (row_buf_policy_ c) t in
  WillAcceptCommand config (cmd_queue_ c) (cplace cmd) = ok true →
  ∃ b q, AddCommand config cmd (cmd_queue_ c) = ok (b, q) ∧
    stage c (set_served sv (pre ++ rest) (c_cmdq q (c_draining n c))).
Proof.
  intros Hg Hcc Hb Hsv cmd Hacc.
  assert (0 ≤ t_addr t ∧ ∀ q, Forall (fun t => 0 ≤ t_addr t) (all_trans (set_served sv (pre ++ rest) (c_cmdq q c)))) as [Ha Hrest].
  { pose proof (cc_addr _ Hcc) as Hf. split; [|intros q];
      rewrite (served_perm sv pre t rest c (cmd_queue_ c) Hsv) in Hf; apply Forall_cons in Hf as [? Hf]; [done|].
    by destruct sv. }
  destruct (TransToCommand_ok (row_buf_policy_ c) t Hg Ha) as (Hrw & Hreq & Hh & Hkind & Hpol). fold cmd in Hrw, Hreq, Hh, Hkind, Hpol.
  destruct (AddCommand_ok config (cmd_queue_ c) cmd (gc_shape Hg) (cc_q _ Hcc) Hrw Hreq) as (l & b & q & Hl & Hb' & Hadd & Hw & Hqs).
  assert (b = true) as -> by congruence. exists true, q. split; [done|].
  assert (concat (queues_ q) ≡ₚ cmd :: queued c) as Hperm by (rewrite Hqs; eapply concat_zset_cons; [done|]; symmetry; apply Permutation_cons_append).
  pose proof (AddCommand_clk _ _ _ _ Hadd) as Hclk. split.
  - destruct Hcc. split; try (by destruct sv); [| | |by apply (served_room sv pre t rest c)].
    + replace (cmd_queue_ _) with q by (by destruct sv). replace (ct_clk_ _) with (ct_clk_ c) by (by destruct sv). congruence.
    + specialize (Hrest q). by destruct sv.
    + intros k Hp Hk. replace (queued _) with (concat (queues_ q)) in Hk by (by destruct sv).
      replace (row_buf_policy_ _) with (row_buf_policy_ c) in Hp by (by destruct sv).
      rewrite Hperm in Hk. apply elem_of_cons in Hk as [->|Hk]; [by apply Hpol|by apply cc_types0].
  - eapply balanced_perm; [exact Hb| |intros w; by destruct sv]. intros w. unfold none. simpl.
    rewrite <- (waiting_move sv pre t rest c q cmd w Hsv Hh Hkind Hperm). by destruct sv.
  - by destruct sv.
  - by destruct sv.
Qed.

Lemma stage_draining n c c' : stage c c' → stage c (c_draining n c').
Proof. intros [[] [] ? ?]. split; [by split|by split|done|done]. Qed.

Lemma schedule_loop_ok sv pre rest c :
  ctrl_cfg → ctrl_core c → balanced none c → served_elts sv c = pre ++ rest →
  ∃ c', schedule_loop config sv pre rest c = ok c' ∧ stage c c'.
Proof.
  intros Hg Hcc Hb. revert pre. induction rest as [|t rest IH]; intros pre Hsv; cbn [schedule_loop].
  { exists c. split; [done|by split]. }
  assert (0 ≤ t_addr t) as Ha.
  { pose proof (cc_addr _ Hcc) as Hf. rewrite (served_perm sv pre t rest c (cmd_queue_ c) Hsv) in Hf.
    by apply Forall_cons in Hf as [? _]. }
  destruct (TransToCommand_ok (row_buf_policy_ c) t Hg Ha) as (Hrw & Hreq & _).
  destruct (AddCommand_ok config (cmd_queue_ c) _ (gc_shape Hg) (cc_q _ Hcc) Hrw Hreq) as (l & b & q & Hl & Hacc & _).
  rewrite Hacc. cbn [mbind exc_bind]. destruct b.
  2:{ apply IH. by rewrite <- app_assoc. }
  destruct (_ && bool_decide _); [exists (c_draining 0 c); split; [done|by apply stage_draining; split]|].
  assert (c_draining (write_draining_ c) c = c) as Eid by by destruct c.
  destruct (negb _ && IsWrite _).
  - destruct (schedule_add_ok sv pre t rest c (write_draining_ c - 1) Hg Hcc Hb Hsv Hacc) as (b & q' & Hadd & Hst).
    cbn [cmd_queue_ c_draining row_buf_policy_]. rewrite Hadd. cbn [mbind exc_bind]. eauto.
  - destruct (schedule_add_ok sv pre t rest c (write_draining_ c) Hg Hcc Hb Hsv Hacc) as (b & q' & Hadd & Hst).
    rewrite Eid in Hst. rewrite Hadd. cbn [mbind exc_bind]. eauto.
Qed.

Lemma ScheduleTransaction_ok c :
  ctrl_cfg → ctrl_core c → balanced none c → ∃ c', ScheduleTransaction config c = ok c' ∧ stage c c'.
Proof.
  intros Hg Hcc Hb. unfold ScheduleTransaction. cbn zeta. set (c1 := if _ && _ then _ else c).
  assert (stage c c1) as Hs.
  { assert (stage c c) as Hr by by split. unfold c1. repeat case_match; try done; by apply stage_draining. }
  destruct (schedule_loop_ok (if is_unified_queue_ c1 then S_unified else if 0 <? write_draining_ c1 then S_write else S_read)
    [] _ c1 Hg (st_core _ _ Hs) (st_bal _ _ Hs) eq_refl) as (c' & Hl & Hst).
  exists c'. split; [exact Hl|by eapply stage_trans].
Qed.

(** *** The clock tick *)

Lemma refresh_stage c :
  ctrl_cfg → ctrl_core c → balanced none c →
  ∃ r s, rf_ClockTick config (refresh_ c) (channel_state_ c) = ok (r, s) ∧ stage c (c_chan s (c_refresh r c)).
Proof.
  intros Hg Hcc Hb.
  destruct (rf_ClockTick_total config (refresh_ c) (channel_state_ c) (gc_shape Hg) (cc_sref _ Hcc) (cc_next _ Hcc)
    (cc_rf _ Hcc)) as (r & l & Hr & Hl & Hc & Hi).
  eexists r, _. split; [exact Hr|]. split; [|destruct Hb; by split|done|done].
  apply core_chan.
  - destruct Hcc. split; try done. by rewrite <- Hi in cc_rf0.
  - destruct (cc_chan _ Hcc) as [[] ?]. by split.
  - done.
  - done.
  - apply Forall_app. split; [apply Hcc|done].
Qed.

Lemma tick_stage c :
  ctrl_cfg → ctrl_core c → balanced none c → 0 ≤ ct_clk_ c < 2 ^ 63 →
  ∃ c1, ctrl_ClockTick config c =
      ok (c_stats (Increment "num_cycles")
            (c_cmdq (cq_ClockTick (cmd_queue_ c1)) (c_times (u64 (ct_clk_ c1 + 1)) (last_trans_clk_ c1) c1))) ∧
    stage c c1.
Proof.
  intros Hg Hcc Hb Hclk. unfold ctrl_ClockTick.
  destruct (refresh_stage c Hg Hcc Hb) as (r & s & Hr & S1). rewrite Hr. cbn [mbind exc_bind].
  set (c1 := c_chan s (c_refresh r c)) in *.
  destruct (pick_command_ok c1 Hg (st_core _ _ S1) (st_bal _ _ S1)) as (cmd & st & q & Hp & Hc2 & Hb2 & Hf).
  rewrite Hp. cbn [mbind exc_bind]. set (c2 := c_stats st (c_cmdq q c1)) in *.
  assert (∃ c3, (if IsValid cmd then issue_commands config cmd c2 else ok c2) = ok c3 ∧ stage c2 c3) as (c3 & Hi & S3).
  { destruct (IsValid cmd) eqn:Hv.
    - eapply (issue_commands_ok cmd c2 c1); try done. by apply Hf.
    - exists c2. split; [done|]. split; [done|by eapply balanced_inflight, Hb2; apply invalid_not_rw|done|done]. }
  rewrite Hi. cbn [mbind exc_bind].
  destruct (power_loop_ok c3 (st_core _ _ S3) (st_bal _ _ S3)) as (c4 & Hpow & S4). rewrite Hpow. cbn [mbind exc_bind].
  rewrite (gc_sref Hg). cbn [andb mbind exc_bind].
  destruct (ScheduleTransaction_ok c4 Hg (st_core _ _ S4) (st_bal _ _ S4)) as (c5 & Hs & S5). rewrite Hs. cbn [mbind exc_bind].
  exists c5. split; [reflexivity|].
  assert (stage c c3) as S13 by (destruct S3; split; done).
  eapply stage_trans; [exact S13|]. by eapply stage_trans.
Qed.

Lemma ClockTick_ok c :
  ctrl_cfg → ctrl_inv c → 0 ≤ ct_clk_ c < 2 ^ 63 →
  ∃ c', ctrl_ClockTick config c = ok c' ∧ ctrl_inv c' ∧ ct_clk_ c' = ct_clk_ c + 1 ∧
    outstanding c' ≡ₚ outstanding c.
Proof.
  intros Hg [Hcc Hb] Hclk. destruct (tick_stage c Hg Hcc Hb Hclk) as (c1 & Hr & [Hc1 Hb1 Ho1 Hk1]).
  eexists. split; [exact Hr|]. split_and!; [|simpl; rewrite Hk1; apply u64_small; unfold two64; lia|exact Ho1].
  split; [|destruct Hb1; by split]. apply core_stats. destruct Hc1. split; try done.
  - destruct cc_q0. by split.
  - simpl. by rewrite cc_clk0.
Qed.

(** *** Accepting and returning *)

Lemma enqueue_perm t c : all_trans (enqueue t c) ≡ₚ t :: all_trans c.
Proof.
  unfold enqueue, all_trans. destruct (is_unified_queue_ c), (is_write t); simpl; rewrite <- ?app_assoc; simpl;
    rewrite <- ?Permutation_middle, ?app_nil_r; try done; by rewrite (Permutation_app_comm _ [t]).
Qed.

Lemma enqueue_waiting t c w :
  waiting w (enqueue t c) ≡ₚ (if decide (is_write t = w) then [t_addr t] else []) ++ waiting w c.
Proof.
  unfold waiting. rewrite enqueue_perm, filter_cons.
  assert (queued (enqueue t c) = queued c) as -> by (unfold enqueue; by repeat case_match).
  by case_decide.
Qed.

Lemma enqueue_room t c : room c → WillAcceptTransaction c (is_write t) = true → room (enqueue t c).
Proof.
  unfold room, WillAcceptTransaction, has_room, enqueue. intros (Hu & [Hc1 H1] & [Hc2 H2] & [Hc3 H3] & Hk) Ha.
  rewrite Hu in *. unfold fits.
  destruct (unified_queue config), (is_write t) eqn:Hw; simpl in *; apply Nat.ltb_lt in Ha; split_and!; try done;
    try (by apply Forall_app; split; [|apply Forall_singleton]);
    try (apply cv_push_room in Ha as [-> ->]; rewrite ?length_app; simpl; lia);
    rewrite decide_False by lia; rewrite ?length_app; simpl; lia.
Qed.

Lemma core_enqueue t c :
  ctrl_core c → 0 ≤ t_addr t → WillAcceptTransaction c (is_write t) = true → ctrl_core (enqueue t c).
Proof.
  intros Hcc Ha Hw. pose proof (enqueue_room t c (cc_room _ Hcc) Hw) as Hroom.
  assert (Forall (fun t => 0 ≤ t_addr t) (all_trans (enqueue t c))) as Hall.
  { rewrite enqueue_perm. constructor; [done|apply Hcc]. }
  revert Hroom Hall. unfold enqueue. destruct Hcc. destruct (is_unified_queue_ c), (is_write t);
    intros; by split.
Qed.

(** A new address joins the waiting and the pending of its kind. *)
Lemma balanced_enqueue t c c' :
  balanced none c → t_addr t ∉ t_addr <$> pending (is_write t) c →
  (∀ w, waiting w c' = waiting w c) →
  (∀ w, pending w c' = pending w c ++ (if decide (is_write t = w) then [t] else [])) →
  balanced none (enqueue t c').
Proof.
  intros [Hn Hi Hw] Hni Ew Ep.
  assert (∀ w, pending w (enqueue t c') = pending w c') as Epe by (intros [|]; unfold enqueue; by repeat case_match).
  assert (∀ w a, a ∈ none w ++ waiting w (enqueue t c') ↔ a ∈ t_addr <$> pending w (enqueue t c')) as Hiff.
  { intros w a. rewrite Epe, Ep, enqueue_waiting, Ew. unfold none. simpl.
    rewrite fmap_app, elem_of_app, elem_of_app, <- Hi. unfold none. simpl. case_decide; simpl; set_solver. }
  split; [|done|].
  - intros w. unfold none. simpl. rewrite enqueue_waiting, Ew. specialize (Hn w). unfold none in Hn. simpl in Hn.
    case_decide as Hd; [|done]. subst w. simpl. apply NoDup_cons. split; [|done]. intros Hin. by apply Hni, Hi.
  - rewrite Epe, Ep, fmap_app. apply NoDup_app. split_and!; [done| |].
    + case_decide as Hd; [|set_solver]. rewrite Hd in Hni. intros a Ha Ha'. set_solver.
    + case_decide; [apply NoDup_singleton|constructor].
Qed.

Lemma balanced_frame c c' :
  balanced none c → (∀ w, waiting w c' = waiting w c) → (∀ w, pending w c' = pending w c) → balanced none c'.
Proof. intros Hb Ew Ep. eapply balanced_perm; [exact Hb| |done]. intros w. by rewrite Ew. Qed.

(** A further read of a pending address. *)
Lemma balanced_again t c c' :
  balanced none c → is_write t = false → t_addr t ∈ t_addr <$> pending false c →
  (∀ w, waiting w c' = waiting w c) → pending true c' = pending true c →
  pending false c' = pending false c ++ [t] → balanced none c'.
Proof.
  intros [Hn Hi Hw] Ht Hin Ew E1 E0. split.
  - intros w. rewrite Ew. apply Hn.
  - intros w a. rewrite Ew, Hi. destruct w; [by rewrite E1|]. rewrite E0, fmap_app. set_solver.
  - by rewrite E1.
Qed.

Lemma outstanding_enqueue t c : outstanding (enqueue t c) = outstanding c.
Proof. unfold enqueue. by repeat case_match. Qed.

Lemma AddTransaction_ok t c :
  ctrl_inv c → 0 ≤ t_addr t → WillAcceptTransaction c (is_write t) = true →
  ctrl_inv (AddTransaction t c) ∧ outstanding (AddTransaction t c) ≡ₚ request_of t :: outstanding c ∧
  ct_clk_ (AddTransaction t c) = ct_clk_ c.
Proof.
  intros [Hcc Hb] Ha Hw. unfold AddTransaction.
  set (t1 := with_added (ct_clk_ c) t). set (c1 := c_times _ _ _).
  assert (ctrl_core c1) as Hc1 by (destruct Hcc; by split).
  assert (is_write t1 = is_write t ∧ t_addr t1 = t_addr t) as [Ewr Ead] by done. cbn zeta.
  assert (∀ ret c2, outstanding (c_pending (pending_rd_q_ c2) (pending_wr_q_ c2) (ret ++ [with_complete (u64 (ct_clk_ c1 + 1)) t1]) c2)
    ≡ₚ request_of t :: (request_of <$> pending_rd_q_ c2 ++ ret)) as Hout.
  { intros ret c2. unfold outstanding. simpl. rewrite app_assoc, fmap_app. simpl.
    change (request_of (with_complete _ t1)) with (request_of t). by rewrite Permutation_app_comm. }
  destruct (is_write t1) eqn:Hwr; [case_decide as Hcnt|case_decide as Hcnt; [|case_decide as Hcnt1]].
  - apply count_addr_0 in Hcnt. set (c2 := enqueue _ _).
    assert (ct_clk_ c2 = ct_clk_ c) as Eclk by (unfold c2, enqueue; by repeat case_match).
    assert (pending_rd_q_ c2 ++ return_queue_ c2 = pending_rd_q_ c ++ return_queue_ c) as Eo
      by (unfold c2, enqueue; by repeat case_match).
    split_and!; [|rewrite Hout, Eo; done|exact Eclk]. split.
    + apply core_pending, core_enqueue; [by apply core_pending|done|]. rewrite Hwr. by rewrite <- Ewr in Hw.
    + apply (balanced_frame c2); [|done|done]. apply (balanced_enqueue t1 c); [exact Hb|by rewrite Hwr|done|].
      intros [|]; rewrite Hwr; simpl; [done|by rewrite app_nil_r].
  - split_and!; [|by rewrite Hout|done]. split; [by apply core_pending|]. by eapply balanced_frame.
  - split_and!; [|by rewrite Hout|done]. split; [by apply core_pending|]. by eapply balanced_frame.
  - cbn [pending_rd_q_ c_pending] in Hcnt1. rewrite count_addr_app, count_addr_cons, decide_True in Hcnt1 by done.
    assert (count_addr (t_addr t1) (pending_rd_q_ c1) = 0%nat) as Hz by lia. apply count_addr_0 in Hz.
    split_and!.
    + split; [apply core_enqueue; [by apply core_pending|done|by rewrite Hwr, Ewr]|].
      apply (balanced_enqueue t1 c); [exact Hb|by rewrite Hwr|done|].
      intros [|]; rewrite Hwr; simpl; [by rewrite app_nil_r|done].
    + rewrite outstanding_enqueue. unfold outstanding. simpl. rewrite <- app_assoc, !fmap_app. simpl.
      by rewrite <- Permutation_middle.
    + unfold enqueue. by repeat case_match.
  - split_and!.
    + split; [by apply core_pending|]. eapply (balanced_again t1 c); try done.
      destruct (decide (t_addr t1 ∈ t_addr <$> pending false c)) as [|Hni]; [done|].
      apply count_addr_0 in Hni. exfalso. apply Hcnt1. cbn [pending_rd_q_ c_pending].
      rewrite count_addr_app, count_addr_cons, decide_True by done. simpl in Hni. simpl. by rewrite Hni.
    + unfold outstanding. simpl. rewrite <- app_assoc, !fmap_app. simpl. by rewrite <- Permutation_middle.
    + done.
Qed.

Lemma take_done_Some clk l t rest :
  take_done clk l = Some (t, rest) →
  ∃ l1 l2, l = l1 ++ t :: l2 ∧ rest = l1 ++ l2 ∧ complete_cycle t ≤ clk ∧
    Forall (fun x => clk < complete_cycle x) l1.
Proof.
  revert rest. induction l as [|x l IH]; intros rest Ht; simpl in Ht; [done|].
  destruct (Z.leb_spec (complete_cycle x) clk).
  - injection Ht as <- <-. by exists [], l.
  - apply bind_Some in Ht as ([t' r] & Ht & [= -> <-]).
    destruct (IH r Ht) as (l1 & l2 & -> & -> & ? & ?). exists (x :: l1), l2.
    split_and!; [done|done|done|by constructor].
Qed.

Lemma take_done_None clk l : take_done clk l = None → Forall (fun x => clk < complete_cycle x) l.
Proof.
  induction l as [|x l IH]; simpl; [constructor|]. destruct (Z.leb_spec (complete_cycle x) clk); [done|].
  intros Ht. apply bind_None in Ht as [Ht|([t r] & _ & ?)]; [|done]. constructor; [done|by apply IH].
Qed.

Lemma ReturnDoneTrans_ok clk c r c' :
  ctrl_inv c → ReturnDoneTrans clk c = (r, c') →
  ctrl_inv c' ∧ ct_clk_ c' = ct_clk_ c ∧
  match r with
  | Some req => outstanding c ≡ₚ req :: outstanding c'
  | None => c' = c ∧ Forall (fun x => clk < complete_cycle x) (return_queue_ c)
  end.
Proof.
  intros [Hcc Hb]. unfold ReturnDoneTrans. destruct (take_done clk (return_queue_ c)) as [[t rest]|] eqn:Ht.
  - intros [= <- <-]. destruct (take_done_Some _ _ _ _ Ht) as (l1 & l2 & E & -> & _).
    set (c1 := c_pending (pending_rd_q_ c) (pending_wr_q_ c) (l1 ++ l2) c).
    assert (ctrl_inv c1) as [Hc1 Hb1] by (split; [by apply core_pending|by destruct Hb; split]).
    assert (outstanding c ≡ₚ request_of t :: outstanding c1) as Ho.
    { unfold outstanding. simpl. rewrite E, app_assoc. rewrite <- Permutation_middle, <- app_assoc. done. }
    destruct (is_write t) eqn:Hw; split_and!; try done.
    + split; [by apply core_stats|by destruct Hb1; split].
    + unfold request_of in Ho. by rewrite Hw in Ho.
    + split; [by apply core_stats|by destruct Hb1; split].
    + unfold request_of in Ho. by rewrite Hw in Ho.
  - intros [= <- <-]. split_and!; [by split|done|done|by apply take_done_None].
Qed.

Lemma new_Controller_inv ch c :
  ctrl_cfg → 0 ≤ cmd_queue_size config → new_Controller config ch = ok c →
  0 < refresh_interval_ (refresh_ c) < 2 ^ 31 →
  ctrl_inv c ∧ outstanding c = [] ∧ ct_clk_ c = 0.
Proof.
  intros Hg Hsz Hn Hi. unfold new_Controller in Hn. apply exc_bind_ok in Hn as (q & Hq & Hn).
  apply exc_bind_ok in Hn as (r & Hr & Hn). injection Hn as <-.
  pose proof (new_cmd_queue_wf config q (gc_shape Hg) Hsz Hq) as Hw.
  assert (concat (queues_ q) = [] ∧ cq_clk_ q = 0) as [Eq Eclk].
  { unfold new_cmd_queue in Hq. assert (∀ n, concat (replicate n (@nil Command)) = []) as Hrep by (by induction n).
    repeat case_decide; simpl in Hq; try done; injection Hq as <-; simpl; by rewrite Hrep. }
  assert (in_range config (counters r)) as Hc.
  { unfold new_Refresh in Hr. inv_ok. destruct (gc_shape Hg). unfold in_range, counters. simpl. lia. }
  assert (∀ u : bool, fits u (if u then cv_reserve (Z.to_nat (trans_queue_size config)) (CVec [] 0) else CVec [] 0)) as Hf.
  { intros [|]; [rewrite cv_reserve_nil|]; split; simpl; lia. }
  set (c0 := MkCtrl _ _ _ _ _ _ _ _ _ _ _ _ _ _ _ _).
  assert (∀ w, waiting w c0 = []) as Ew.
  { intros w. unfold waiting, all_trans, queued. simpl. rewrite Eq. by destruct (unified_queue config). }
  split_and!; [|done|done]. split.
  - split; try done; simpl.
    + apply new_channel_ok.
    + apply new_no_sref.
    + by rewrite length_replicate.
    + unfold all_trans. simpl. destruct (unified_queue config); simpl; constructor.
    + unfold queued. simpl. rewrite Eq. by intros k _ ?%elem_of_nil.
    + split; [done|]. split; [apply (Hf (unified_queue config))|].
      pose proof (Hf (negb (unified_queue config))) as Hneg. simpl. by destruct (unified_queue config); split_and!.
  - split; intros; unfold none; simpl; rewrite ?Ew; [apply NoDup_nil_2| |apply NoDup_nil_2].
    destruct w; simpl; by rewrite elem_of_nil.
Qed.

(** A controller with separate queues takes every read as long as fewer requests
    than the queue's size are without an answer. *)
Lemma accepts_reads c :
  ctrl_inv c → unified_queue config = false →
  Z.of_nat (length (outstanding c)) < trans_queue_size config →
  WillAcceptTransaction c false = true.
Proof.
  intros [Hcc [Hn Hi Hw]] Hu Hl. destruct (cc_room _ Hcc) as (Hu' & _ & [Hcap _] & _ & Hk).
  unfold WillAcceptTransaction, has_room. rewrite Hu', Hu. simpl. apply Nat.ltb_lt. rewrite Hcap, Hu. simpl.
  assert (length (elts (read_queue_ c)) ≤ length (pending false c))%nat as Hle.
  { rewrite <- (length_fmap t_addr (elts (read_queue_ c))), <- (length_fmap t_addr (pending false c)).
    assert (filter (fun t => is_write t = false) (elts (read_queue_ c)) = elts (read_queue_ c)) as Hf.
    { clear -Hk. induction Hk as [|t l Ht Hl IH]; [done|]. by rewrite filter_cons, decide_True, IH. }
    specialize (Hn false). specialize (Hi false). unfold none, waiting, all_trans in Hn, Hi. simpl in Hn, Hi.
    rewrite !filter_app, !fmap_app, Hf in Hn, Hi. apply submseteq_length, NoDup_submseteq.
    - apply NoDup_app in Hn as (Hn & _ & _). apply NoDup_app in Hn as (_ & _ & Hn). by apply NoDup_app in Hn as (Hn & _ & _).
    - intros a Ha. apply Hi. set_solver. }
  unfold outstanding in Hl. rewrite length_fmap, length_app in Hl. simpl in Hle. lia.
Qed.

(** ** Runs *)

(** What a memory system does with a controller: offer a request (it is added
    when [WillAcceptTransaction] allows it), ask for a completed one, tick. *)
Inductive ctrl_op := OpAdd (a : Z) (w : bool) | OpReturn | OpTick.

(** The state of a run: the controller, the requests accepted and those
    returned. *)
Definition ctrl_step (o : ctrl_op) (x : Controller * list (Z * bool) * list (Z * bool))
    : exc (Controller * list (Z * bool) * list (Z * bool)) :=
  let '(c, acc, ret) := x in
  match o with
  | OpAdd a w => if WillAcceptTransaction c w then ok (AddTransaction (new_transaction a w) c, (a, w) :: acc, ret)
                 else ok (c, acc, ret)
  | OpReturn => match ReturnDoneTrans (ct_clk_ c) c with
                | (Some r, c') => ok (c', acc, r :: ret)
                | (None, c') => ok (c', acc, ret)
                end
  | OpTick => c' ← ctrl_ClockTick config c; ok (c', acc, ret)
  end.

(** The cycles a run takes, and its addresses. *)
Fixpoint ticks (ops : list ctrl_op) : Z :=
  match ops with
  | [] => 0
  | OpTick :: ops' => 1 + ticks ops'
  | _ :: ops' => ticks ops'
  end.
Definition op_ok (o : ctrl_op) : Prop := match o with OpAdd a _ => 0 ≤ a | _ => True end.

Lemma ticks_nonneg ops : 0 ≤ ticks ops.
Proof. induction ops as [|[] ops IH]; simpl; lia. Qed.

(** Accepted requests are those returned and those still outstanding. *)
Definition run_inv (x : Controller * list (Z * bool) * list (Z * bool)) : Prop :=
  let '(c, acc, ret) := x in ctrl_inv c ∧ acc ≡ₚ ret ++ outstanding c.

Lemma ctrl_step_ok o x :
  ctrl_cfg → run_inv x → op_ok o → 0 ≤ ct_clk_ x.1.1 < 2 ^ 63 →
  ∃ y, ctrl_step o x = ok y ∧ run_inv y ∧ ct_clk_ y.1.1 = ct_clk_ x.1.1 + ticks [o].
Proof.
  destruct x as [[c acc] ret]. intros Hg [Hi Hacc] Ho Hclk. simpl in Hclk. destruct o as [a w| |]; simpl.
  - destruct (WillAcceptTransaction c w) eqn:Hw; (eexists; split; [reflexivity|]); simpl; [|split; [done|lia]].
    destruct (AddTransaction_ok (new_transaction a w) c Hi Ho Hw) as (Hi' & Hout & Hk).
    rewrite Hk. split; [split; [done|]|lia]. rewrite Hout, Hacc. apply Permutation_middle.
  - destruct (ReturnDoneTrans (ct_clk_ c) c) as [r c'] eqn:Hr.
    destruct (ReturnDoneTrans_ok _ _ _ _ Hi Hr) as (Hi' & Hk & Hm).
    destruct r as [req|]; (eexists; split; [reflexivity|]); simpl; rewrite Hk; (split; [split; [done|]|lia]).
    + rewrite Hacc, Hm. symmetry. apply Permutation_middle.
    + destruct Hm as [-> _]. done.
  - destruct (ClockTick_ok c Hg Hi Hclk) as (c' & -> & Hi' & Hk & Hout). cbn [mbind exc_bind].
    eexists. split; [reflexivity|]. simpl. split; [split; [done|]|lia]. by rewrite Hout.
Qed.

Lemma ctrl_run_ok ops x :
  ctrl_cfg → Forall op_ok ops → run_inv x → 0 ≤ ct_clk_ x.1.1 → ct_clk_ x.1.1 + ticks ops < 2 ^ 63 →
  ∃ y, foldE ctrl_step ops x = ok y ∧ run_inv y ∧ ct_clk_ y.1.1 = ct_clk_ x.1.1 + ticks ops.
Proof.
  intros Hg Hops. revert x. induction Hops as [|o ops Ho Hops IH]; intros x Hi H0 Ht; simpl.
  { exists x. split_and!; [done|done|lia]. }
  assert (ticks (o :: ops) = ticks [o] + ticks ops) as Et by (destruct o; simpl; lia).
  pose proof (ticks_nonneg [o]). pose proof (ticks_nonneg ops).
  destruct (ctrl_step_ok o x Hg Hi Ho) as (y & Hy & Hyi & Hyc); [lia|]. rewrite Hy. cbn [mbind exc_bind].
  destruct (IH y Hyi) as (z & ? & ? & ?); [lia..|]. exists z. split_and!; [done|done|].
  change (ct_clk_ z.1.1 = ct_clk_ x.1.1 + ticks (o :: ops)). lia.
Qed.

(** (C3) A clock tick of a controller never fails, for the configurations of
    [ctrl_cfg]: self refresh is disabled (with it a tick can abort,
    [sref_wakeup_aborts]), dual commands go with open pages and spaced column
    commands only, and addresses are mapped onto the banks there are. With the
    clock below 2^63 and the queues, the refresh generator and the pending maps
    in their invariant, whatever refresh or request is at work, [ClockTick]
    neither aborts nor leaves an array, keeps the invariant and the outstanding
    requests, and advances the clock by one. *)
Theorem controller_tick_total c :
  ctrl_cfg → ctrl_inv c → 0 ≤ ct_clk_ c < 2 ^ 63 →
  ∃ c', ctrl_ClockTick config c = ok c' ∧ ctrl_inv c' ∧ ct_clk_ c' = ct_clk_ c + 1 ∧
    outstanding c' ≡ₚ outstanding c.
Proof. apply ClockTick_ok. Qed.

(** (C4) Conservation of requests: in every run of a new controller, of offers,
    returns and clock ticks in any order, nothing fails, and the requests
    accepted are exactly those returned and those outstanding, each as often as
    it was accepted: none is lost, invented or answered twice. *)
Theorem controller_conservation ch c0 ops :
  ctrl_cfg → 0 ≤ cmd_queue_size config → new_Controller config ch = ok c0 →
  0 < refresh_interval_ (refresh_ c0) < 2 ^ 31 → Forall op_ok ops → ticks ops < 2 ^ 63 →
  ∃ c acc ret, foldE ctrl_step ops (c0, [], []) = ok (c, acc, ret) ∧ ctrl_inv c ∧ ct_clk_ c = ticks ops ∧
    acc ≡ₚ ret ++ outstanding c.
Proof.
  intros Hg Hsz Hn Hi Hops Ht. destruct (new_Controller_inv ch c0 Hg Hsz Hn Hi) as (Hinv & Hout & Hclk).
  destruct (ctrl_run_ok ops (c0, [], []) Hg Hops) as ([[c acc] ret] & Hr & [Hi' Ha] & Hk).
  - split; [done|]. by rewrite Hout.
  - simpl. lia.
  - simpl. lia.
  - exists c, acc, ret. simpl in Hk. split_and!; [done|done|lia|done].
Qed.

(** The wake-up of a rank in self refresh aborts the simulation: no state
    of a bank accepts a request for SREF_EXIT, so the branch of [ClockTick]
    that wakes a rank with a non-empty queue ends in [AbruptExit]. *)
Theorem sref_wakeup_aborts i l c :
  shape_ok config → chan_ok config (channel_state_ c) → 0 ≤ i < ranks config →
  IsRankSelfRefreshing (channel_state_ c) i = ok true → zget (rank_q_empty (cmd_queue_ c)) i = Some false →
  is_Some (zget (rank_idle_cycles (channel_state_ c)) i) →
  sref_loop config (i :: l) c = err AbruptExit.
Proof.
  intros Hsh Hk Hi Hs He [v Hv]. cbn [sref_loop]. rewrite Hs. unfold vec_get. rewrite He, Hv.
  cbn [opt_exc mbind exc_bind]. unfold GetReadyCommand. change (IsRankCMD (sref_cmd SREF_EXIT i)) with true. cbn iota.
  assert (∃ l', bank_idx config = (0, 0) :: l') as [l' ->].
  { destruct (bank_idx config) as [|[j k] l'] eqn:E.
    - pose proof (length_bank_idx config) as Hl. rewrite E in Hl. destruct Hsh. simpl in Hl. nia.
    - exists l'. f_equal. unfold bank_idx in E. destruct Hsh as [Hbg Hbpg _ _]. unfold zseq in E.
      destruct (Z.to_nat (bankgroups config)) eqn:E1; [lia|]. destruct (Z.to_nat (banks_per_group config)) eqn:E2; [lia|].
      by injection E as <- <- _. }
  cbn [rank_ready]. unfold get_bank. change (Rank (sref_cmd SREF_EXIT i)) with i.
  destruct (proj1 (cw_shape _ _ (ck_wf _ _ Hk) (i, 0, 0))) as [b ->]; [destruct Hsh; repeat split; simpl; lia|].
  cbn [opt_exc mbind exc_bind]. unfold b_GetReadyCommand, required_type. by destruct (state_ b).
Qed.
End Invariant.

(** ** Instances *)

Section Demo.

Lemma hbm2_spaced : rw_spaced hbm2.
Proof.
  intros k [[i j] b] ct Hk Hok (Hi & _) Hct. unfold cmd_ok, in_range in Hok.
  assert (IsRankCMD k = false) as Hr by (unfold IsRankCMD, ct_is; by destruct Hk as [->| ->]).
  rewrite Hr in Hok. destruct Hok as (Hrk & _). assert (ranks hbm2 = 1) as E by reflexivity. rewrite E in Hi, Hrk.
  simpl in Hi, Hrk. unfold delays_for. rewrite Hr.
  destruct (Z.eqb_spec i (Rank k)) as [_|]; [|lia]. simpl negb. cbn iota.
  assert (∀ l, bool_decide (Exists (fun x => x.1 = ct ∧ 1 ≤ x.2 < 2 ^ 31) l) = true →
    ∃ d, (ct, d) ∈ l ∧ 1 ≤ d < 2 ^ 31) as Hex.
  { intros l (x & Hx & <- & Hd)%bool_decide_eq_true%Exists_exists. exists x.2. by destruct x. }
  destruct (negb (j =? Bankgroup k)); [|destruct (negb (b =? Bank k))]; apply Hex;
    destruct Hk as [->| ->], Hct as [->| ->]; vm_compute; reflexivity.
Qed.

Lemma hbm2_ctrl : ctrl_cfg hbm2.
Proof.
  split; [apply hbm2_shape| |done|].
  - intros a Ha A.
    assert (map_wf hbm2_map) as Hm by (apply (SetAddressMapping_wf hbm2_sys hbm2_dram hbm2_size); vm_compute; reflexivity).
    destruct (compose_AddressMapping hbm2_map a Hm Ha) as [Hok _].
    assert (∀ t, t ∈ six → 0 ≤ field_of A t < field_size hbm2_map t) as Hf by exact Hok.
    pose proof (Hf "ra"%string ltac:(set_solver)) as Hra. pose proof (Hf "bg"%string ltac:(set_solver)) as Hbg.
    pose proof (Hf "ba"%string ltac:(set_solver)) as Hba. pose proof (Hf "ro"%string ltac:(set_solver)) as [Hro _].
    exact (conj (conj Hra (conj Hbg Hba)) Hro).
  - intros _. split; [discriminate|apply hbm2_spaced].
Qed.

(** A new HBM2 controller. *)
Definition hbm2_controller : Controller :=
  match new_Controller hbm2 0 with
  | ok c => c
  | err _ => MkCtrl 0 0 (new_stats 1) (new_channel hbm2) demo_queue (MkRefresh 0 1 0 0 0) false
               (CVec [] 0) (CVec [] 0) (CVec [] 0) [] [] [] OPEN_PAGE 0 0
  end.
Lemma hbm2_controller_new : new_Controller hbm2 0 = ok hbm2_controller.
Proof.
  assert (exc_ok (new_Controller hbm2 0) = true) as Hok by (vm_compute; reflexivity).
  unfold hbm2_controller. by destruct (new_Controller hbm2 0).
Qed.

Lemma hbm2_controller_inv : ctrl_inv hbm2 hbm2_controller.
Proof.
  apply (new_Controller_inv hbm2 0 hbm2_controller hbm2_ctrl ltac:(done) hbm2_controller_new). by vm_compute.
Qed.

Lemma controller_tick_total_witness :
  ∃ c', ctrl_ClockTick hbm2 (AddTransaction (new_transaction 4096 false) hbm2_controller) = ok c' ∧
    outstanding c' ≡ₚ [(4096, false)].
Proof.
  destruct (AddTransaction_ok hbm2 (new_transaction 4096 false) hbm2_controller hbm2_controller_inv)
    as (Hi & Ho & Hc); [done|reflexivity|].
  destruct (controller_tick_total hbm2 _ hbm2_ctrl Hi) as (c' & Hr & _ & _ & Hp).
  - rewrite Hc. by vm_compute.
  - exists c'. split; [exact Hr|]. rewrite Hp, Ho. reflexivity.
Defined.

(** A read and a write to another row, run until both are returned. *)
Definition demo_ops : list ctrl_op :=
  [OpAdd 4096 false; OpAdd 8392704 true; OpTick; OpReturn] ++ replicate 60 OpTick ++ [OpReturn; OpReturn].

Example demo_ops_run :
  match foldE (ctrl_step hbm2) demo_ops (hbm2_controller, [], []) with
  | ok (c, acc, ret) => (acc, ret, outstanding c) =
      ([(8392704, true); (4096, false)], [(4096, false); (8392704, true)], [])
  | err _ => False
  end.
Proof. vm_compute. reflexivity. Qed.

Lemma controller_conservation_witness :
  ∃ c acc ret, foldE (ctrl_step hbm2) demo_ops (hbm2_controller, [], []) = ok (c, acc, ret) ∧
    ct_clk_ c = 61 ∧ acc ≡ₚ ret ++ outstanding c.
Proof.
  destruct (controller_conservation hbm2 0 hbm2_controller demo_ops hbm2_ctrl ltac:(discriminate) hbm2_controller_new)
    as (c & acc & ret & Hr & _ & Hk & Hp).
  - split; reflexivity.
  - repeat constructor; discriminate.
  - reflexivity.
  - exists c, acc, ret. split; [exact Hr|]. split; [exact Hk|exact Hp].
Defined.

(** A controller whose only rank is in self refresh with a request waiting. *)
Definition sleeping_chan : ChannelState :=
  match UpdateState hbm2 (sref_cmd SREF_ENTER 0) (new_channel hbm2) with ok s => s | err _ => new_channel hbm2 end.
Definition sleeping : Controller := c_chan sleeping_chan (c_cmdq demo_queue hbm2_controller).

Lemma sleeping_ok : chan_ok hbm2 sleeping_chan.
Proof.
  assert (issuable hbm2 (new_channel hbm2) (sref_cmd SREF_ENTER 0) 0) as His.
  { eapply (GetReadyCommand_issuable hbm2 _ (sref_cmd SREF_ENTER 0)); [apply hbm2_shape|apply new_channel_ok| |vm_compute; reflexivity|done].
    split; [done|done]. }
  destruct (UpdateState_ok hbm2 (new_channel hbm2) (sref_cmd SREF_ENTER 0) 0 (new_channel_ok hbm2) His) as (s & Hs & Hk & _).
  unfold sleeping_chan. by rewrite Hs.
Qed.

Lemma sref_wakeup_aborts_witness : sref_loop hbm2 [0] sleeping = err AbruptExit.
Proof.
  apply (sref_wakeup_aborts hbm2 0 [] sleeping hbm2_shape sleeping_ok); try reflexivity.
  - split; [discriminate|reflexivity].
  - eexists. vm_compute. reflexivity.
Defined.
End Demo.
