(* ===== verification/Schedule.v ===== *)
(** * The write drain of a controller (DRAMsim3-master/src/controller.cc)

    [ScheduleTransaction] serves reads until the write buffer is full, or more than
    eight writes wait and no command is queued; then it drains the writes it holds. A
    write of an address that a read is waiting for has to let the read go first, and
    stops the drain. The theorems: the scheduler moves the first transaction of the
    served queue whose command queue has room, and nothing else; and when the first
    write waits for a read that has not become a command yet, the two rules block each
    other for ever: the drain starts and stops on every cycle, and no read is served. *)

From Stdlib Require Import ZArith Lia String.
From stdpp Require Import strings sets gmap numbers option list.
From S2P Require Import Prelude DramCommon BankState Config Timing ChannelState Stats CommandQueue Refresh Controller.

Section Drain.
Context (config : Config).
Implicit Types (c : Controller) (q : CommandQueue).

(** The first write waits for a read of its address, there are enough writes for a
    drain, and no command is queued. *)
Record stuck c : Prop := {
  sk_sep : is_unified_queue_ c = false;
  sk_empty : Forall (fun l => l = []) (queues_ (cmd_queue_ c));
  sk_size : 0 < queue_size_ (cmd_queue_ c);
  sk_drain : write_draining_ c = 0;
  sk_many : (8 < length (elts (write_buffer_ c)))%nat;
  sk_front : ∃ t, head (elts (write_buffer_ c)) = Some t ∧ is_write t = true ∧
    (0 < count_addr (t_addr t) (pending_rd_q_ c))%nat
}.

(** What the part of a cycle before the scheduler leaves alone. *)
Record calm c c' : Prop := {
  cm_reads : read_queue_ c' = read_queue_ c;
  cm_writes : write_buffer_ c' = write_buffer_ c;
  cm_pend : pending_rd_q_ c' = pending_rd_q_ c ∧ pending_wr_q_ c' = pending_wr_q_ c;
  cm_sep : is_unified_queue_ c' = is_unified_queue_ c;
  cm_drain : write_draining_ c' = write_draining_ c;
  cm_queues : queues_ (cmd_queue_ c') = queues_ (cmd_queue_ c);
  cm_size : queue_size_ (cmd_queue_ c') = queue_size_ (cmd_queue_ c)
}.
Lemma calm_refl c : calm c c.
Proof. by split. Qed.
Lemma calm_trans c1 c2 c3 : calm c1 c2 → calm c2 c3 → calm c1 c3.
Proof. intros [? ? [? ?] ? ? ? ?] [? ? [? ?] ? ? ? ?]. split; try congruence. split; congruence. Qed.
Lemma calm_stuck c c' : calm c c' → stuck c → stuck c'.
Proof.
  intros [Hr Hw [Hp _] Hs Hd Hq Hz] [Hsep Hem Hsz Hdr Hm Hf]. split; [congruence|by rewrite Hq|by rewrite Hz|congruence|by rewrite Hw|].
  by rewrite Hw, Hp.
Qed.
Lemma calm_stats f c : calm c (c_stats f c).
Proof. by split. Qed.
Lemma calm_chan s c : calm c (c_chan s c).
Proof. by split. Qed.

(** Without queued commands the command scheduler has nothing to issue. *)
Lemma issue_loop_empty n chan q st cmd q' st' :
  Forall (fun l => l = []) (queues_ q) → issue_loop config n chan q st = ok (cmd, q', st') →
  IsValid cmd = false ∧ queues_ q' = queues_ q ∧ queue_size_ q' = queue_size_ q.
Proof.
  revert q. induction n as [|n IH]; intros q Hq Hrun; cbn [issue_loop] in Hrun; [by injection Hrun as <- <- _|].
  apply exc_bind_ok in Hrun as ([l q1] & Hnext & Hrun). unfold GetNextQueue in Hnext.
  apply exc_bind_ok in Hnext as (l' & Hl & [= <- <-]). apply vec_get_ok, zget_elem in Hl.
  rewrite Forall_forall in Hq. rewrite (Hq _ Hl) in Hrun. rewrite <- Forall_forall in Hq.
  destruct (_ && bool_decide _); [apply IH in Hrun; done|]. cbn [GetFirstReadyInQueue first_ready mbind exc_bind] in Hrun.
  rewrite IsValid_default in Hrun. apply IH in Hrun; done.
Qed.

Lemma IssueCommand_calm cmd c c' :
  IsReadWrite cmd = false → IssueCommand config cmd c = ok c' → calm c c'.
Proof.
  intros Hrw Hi. unfold IssueCommand, issue_pending in Hi. unfold IsReadWrite in Hrw. apply orb_false_iff in Hrw as [Hrd Hwr].
  rewrite Hrd, Hwr in Hi. cbn [mbind exc_bind] in Hi. apply exc_bind_ok in Hi as (c1 & Hu & Hi). apply exc_bind_ok in Hi as (s & _ & [= <-]).
  apply (calm_trans _ c1); [|apply calm_chan]. unfold UpdateCommandStats in Hu.
  destruct (cmd_type cmd); try discriminate Hu; try (injection Hu as <-; apply calm_stats);
    apply exc_bind_ok in Hu as (n & _ & [= <-]); apply calm_stats.
Qed.

(** The stages of a cycle before the scheduler. *)
Lemma fetch_calm c cmd q st :
  Forall (fun l => l = []) (queues_ (cmd_queue_ c)) →
  GetCommandToIssue config (channel_state_ c) (cmd_queue_ c) (simple_stats_ c) = ok (cmd, q, st) →
  IsValid cmd = false ∧ calm c (c_stats (fun _ => st) (c_cmdq q c)).
Proof. intros He Hg. destruct (issue_loop_empty _ _ _ _ _ _ _ He Hg) as (Hv & Hq & Hz). split; [done|by split]. Qed.

Lemma pick_calm c cmd c' :
  ctrl_cfg config → ctrl_core config c → Forall (fun l => l = []) (queues_ (cmd_queue_ c)) →
  pick_command config c = ok (cmd, c') → (IsValid cmd = true → IsReadWrite cmd = false) ∧ calm c c'.
Proof.
  intros Hg Hcc He Hp. unfold pick_command in Hp. destruct (IsRefreshWaiting (channel_state_ c)) eqn:Hw.
  - destruct (FinishRefresh_ok config c Hg Hcc Hw) as (rc & q & Hf & _ & Hq & Hrw). rewrite Hf in Hp. cbn [mbind exc_bind] in Hp.
    assert (queue_size_ q = queue_size_ (cmd_queue_ c)) as Hz.
    { unfold FinishRefresh in Hf. apply exc_bind_ok in Hf as (ref & _ & Hf). apply exc_bind_ok in Hf as (k & _ & Hf).
      unfold GetRefQIndices in Hf. destruct (IsRefresh k); injection Hf as _ <-; simpl; by repeat case_match. }
    assert (calm c (c_cmdq q c)) as Hc1 by by split.
    destruct (IsValid rc) eqn:Hv; [injection Hp as <- <-; split; [intros _; by apply Hrw|done]|].
    apply exc_bind_ok in Hp as ([[k q2] st] & Hgc & [= <- <-]).
    destruct (fetch_calm (c_cmdq q c) k q2 st) as [Hk Hc2]; [simpl; by rewrite Hq|exact Hgc|].
    split; [by rewrite Hk|]. by apply (calm_trans _ (c_cmdq q c)).
  - cbn [mbind exc_bind] in Hp. rewrite IsValid_default in Hp. apply exc_bind_ok in Hp as ([[k q2] st] & Hgc & [= <- <-]).
    destruct (fetch_calm c k q2 st He Hgc) as [Hk Hc2]. split; [by rewrite Hk|done].
Qed.

Lemma issue_calm cmd c c' :
  Forall (fun l => l = []) (queues_ (cmd_queue_ c)) → IsReadWrite cmd = false → issue_commands config cmd c = ok c' → calm c c'.
Proof.
  intros He Hrw Hi. unfold issue_commands in Hi. apply exc_bind_ok in Hi as (c1 & H1 & Hi).
  pose proof (IssueCommand_calm cmd c c1 Hrw H1) as Hc1. destruct (enable_hbm_dual_cmd config); [|by injection Hi as <-].
  apply exc_bind_ok in Hi as ([[k q] st] & Hgc & Hi).
  destruct (fetch_calm c1 k q st) as [Hk Hc2]; [by rewrite (cm_queues _ _ Hc1)|exact Hgc|].
  cbv zeta in Hi. rewrite Hk in Hi. injection Hi as <-. by apply (calm_trans _ c1).
Qed.

Lemma power_calm c c' : foldE (rank_power config) (zseq (ranks config)) c = ok c' → calm c c'.
Proof.
  apply (foldE_inv (calm c)); [|apply calm_refl]. intros i c1 c2 _ Hc Hp. apply (calm_trans _ c1); [done|]. unfold rank_power in Hp.
  apply exc_bind_ok in Hp as (sref & _ & Hp). destruct sref; [injection Hp as <-; apply calm_stats|].
  apply exc_bind_ok in Hp as (idle & _ & Hp). apply exc_bind_ok in Hp as (v & _ & Hp).
  destruct idle; injection Hp as <-; (eapply calm_trans; [apply calm_stats|apply calm_chan]).
Qed.

(** The scheduler starts the drain and stops it at the first write. *)
Lemma schedule_stuck c c' : stuck c → ScheduleTransaction config c = ok c' → c' = c.
Proof.
  intros [Hsep He Hz Hd Hm (t & Ht & Hw & Hp)] Hs. unfold ScheduleTransaction in Hs. rewrite Hd, Hsep in Hs. cbn [Z.eqb negb andb] in Hs.
  assert (QueueEmpty (cmd_queue_ c) = true) as Hqe.
  { unfold QueueEmpty. apply forallb_forall. intros l Hl%list_elem_of_In. rewrite Forall_forall in He. by apply bool_decide_eq_true, He. }
  assert ((8 <? length (elts (write_buffer_ c)))%nat = true) as H8 by by apply Nat.ltb_lt.
  rewrite Hqe, H8, orb_true_r in Hs. cbn [is_unified_queue_ c_draining write_draining_] in Hs. rewrite Hsep in Hs.
  assert ((0 <? Z.of_nat (length (elts (write_buffer_ c)))) = true) as Hpos by (apply Z.ltb_lt; lia).
  rewrite Hpos in Hs. cbn [served_elts write_buffer_ c_draining] in Hs.
  destruct (elts (write_buffer_ c)) as [|t' l]; [done|]. injection Ht as ->. cbn [schedule_loop cmd_queue_ c_draining row_buf_policy_] in Hs.
  apply exc_bind_ok in Hs as (accept & Ha & Hs). unfold WillAcceptCommand, GetQueue in Ha. apply exc_bind_ok in Ha as (lq & Hlq & [= <-]).
  apply vec_get_ok, zget_elem in Hlq. rewrite Forall_forall in He. rewrite (He _ Hlq) in Hs.
  assert ((Z.of_nat (length (@nil Command)) <? queue_size_ (cmd_queue_ c)) = true) as Hroom by by apply Z.ltb_lt.
  rewrite Hroom in Hs. cbn [is_unified_queue_ c_draining pending_rd_q_] in Hs. rewrite Hsep in Hs.
  assert (IsWrite (TransToCommand config (row_buf_policy_ c) t) = true) as Hwc by (unfold TransToCommand, IsWrite, ct_is; simpl; rewrite Hw; by destruct (row_buf_policy_ c)).
  rewrite Hwc, bool_decide_true in Hs by done. injection Hs as <-. destruct c. simpl in Hd. by subst.
Qed.

(** A clock tick issues no request of a stuck controller. *)
Lemma tick_stuck c c' :
  ctrl_cfg config → ctrl_inv config c → stuck c → ctrl_ClockTick config c = ok c' → calm c c'.
Proof.
  intros Hg [Hcc Hb] Hst Ht. unfold ctrl_ClockTick in Ht. destruct (refresh_stage config c Hg Hcc Hb) as (r & s & Hr & S1).
  rewrite Hr in Ht. cbn [mbind exc_bind] in Ht. set (c1 := c_chan s (c_refresh r c)) in *. assert (calm c c1) as K1 by by split.
  apply exc_bind_ok in Ht as ([cmd c2] & Hp & Ht).
  destruct (pick_calm c1 cmd c2 Hg (st_core _ _ _ S1)) as [Hrw K2]; [exact (sk_empty _ Hst)|exact Hp|].
  apply exc_bind_ok in Ht as (c3 & Hi & Ht). assert (calm c2 c3) as K3.
  { destruct (IsValid cmd); [|injection Hi as <-; apply calm_refl]. apply (issue_calm cmd); [|by apply Hrw|done].
    rewrite (cm_queues _ _ K2), (cm_queues _ _ K1). apply Hst. }
  apply exc_bind_ok in Ht as (c4 & Hpow & Ht). apply power_calm in Hpow as K4. rewrite (gc_sref _ Hg) in Ht. cbn [andb mbind exc_bind] in Ht.
  assert (calm c c4) as K by (eapply calm_trans; [exact K1|]; eapply calm_trans; [exact K2|]; by eapply calm_trans).
  apply exc_bind_ok in Ht as (c5 & Hs & [= <-]). apply (schedule_stuck c4 c5 (calm_stuck _ _ K Hst)) in Hs as ->.
  eapply calm_trans; [exact K|by split].
Qed.

(** What a client and the clock do to it. *)
Definition frozen c c' : Prop :=
  elts (read_queue_ c) `prefix_of` elts (read_queue_ c') ∧ elts (write_buffer_ c) `prefix_of` elts (write_buffer_ c') ∧
  pending_rd_q_ c `prefix_of` pending_rd_q_ c' ∧ pending_wr_q_ c `prefix_of` pending_wr_q_ c'.
Lemma frozen_trans c1 c2 c3 : frozen c1 c2 → frozen c2 c3 → frozen c1 c3.
Proof. intros (? & ? & ? & ?) (? & ? & ? & ?). split_and!; by etrans. Qed.
Lemma calm_frozen c c' : calm c c' → frozen c c'.
Proof. intros [Hr Hw [Hp Hp'] _ _ _ _]. unfold frozen. by rewrite Hr, Hw, Hp, Hp'. Qed.

Lemma count_addr_prefix a l l' : l `prefix_of` l' → (count_addr a l ≤ count_addr a l')%nat.
Proof. intros [k ->]. rewrite count_addr_app. lia. Qed.

(** Everything but the queues of waiting requests is as it was. *)
Lemma frozen_stuck c c' :
  frozen c c' → is_unified_queue_ c' = is_unified_queue_ c → cmd_queue_ c' = cmd_queue_ c → write_draining_ c' = write_draining_ c →
  stuck c → stuck c'.
Proof.
  intros (_ & [wl Hw] & Hp & _) Hu Hq Hd [Hsep He Hz Hdr Hm (t & Ht & Hwr & Hc)]. split; [congruence|by rewrite Hq|by rewrite Hq|congruence| |].
  - rewrite Hw, length_app. lia.
  - exists t. split; [rewrite Hw; by destruct (elts (write_buffer_ c))|]. split; [done|]. pose proof (count_addr_prefix (t_addr t) _ _ Hp). lia.
Qed.
Lemma enqueue_frozen t c : frozen c (enqueue t c).
Proof. unfold enqueue, frozen. repeat case_match; simpl; split_and!; try done; by apply prefix_app_r. Qed.
Lemma AddTransaction_frozen t c :
  let c' := AddTransaction t c in frozen c c' ∧ is_unified_queue_ c' = is_unified_queue_ c ∧ cmd_queue_ c' = cmd_queue_ c ∧
    write_draining_ c' = write_draining_ c.
Proof.
  unfold AddTransaction. cbn zeta. unfold enqueue. repeat case_match; unfold frozen; simpl; split_and!; try done; by apply prefix_app_r.
Qed.

(** (C40) Whatever a client does, a stuck controller stays stuck: the reads and writes it
    holds, and those it accepts later, are never served. *)
Theorem drain_deadlock c ops :
  ctrl_cfg config → ctrl_inv config c → stuck c → Forall op_ok ops → 0 ≤ ct_clk_ c → ct_clk_ c + ticks ops < 2 ^ 63 →
  ∃ c' acc ret, foldE (ctrl_step config) ops (c, outstanding c, []) = ok (c', acc, ret) ∧ stuck c' ∧ frozen c c' ∧
    ct_clk_ c' = ct_clk_ c + ticks ops ∧ acc ≡ₚ ret ++ outstanding c'.
Proof.
  intros Hg Hi Hst Hops H0 Ht.
  destruct (ctrl_run_ok config ops (c, outstanding c, []) Hg Hops ltac:(done) H0 Ht) as ([[c' acc] ret] & Hr & [Hi' Ha] & Hk).
  exists c', acc, ret. assert (stuck c' ∧ frozen c c') as [Hs Hf]; [|by split_and!].
  clear Ha Hk Hi'. assert (run_inv config (c, outstanding c, [])) as Hinv by done. revert Hinv H0 Ht Hr. generalize (outstanding c), (@nil (Z * bool)).
  revert c Hi Hst. induction Hops as [|o ops Ho Hops IH]; intros c Hi Hst acc0 ret0 Hinv H0 Ht Hr.
  { simpl in Hr. injection Hr as <- _ _. split; [done|]. by split_and!. }
  assert (ticks (o :: ops) = ticks [o] + ticks ops) as Et by (destruct o; simpl; lia). pose proof (ticks_nonneg ops). pose proof (ticks_nonneg [o]).
  cbn [foldE] in Hr. destruct (ctrl_step_ok config o (c, acc0, ret0) Hg Hinv Ho) as ([[c1 acc1] ret1] & Hstep & Hi1 & Hk1); [simpl; lia|].
  rewrite Hstep in Hr. cbn [mbind exc_bind] in Hr. change (ct_clk_ c1 = ct_clk_ c + ticks [o]) in Hk1.
  assert (stuck c1 ∧ frozen c c1) as [Hst1 Hf1].
  { destruct o as [a w| |]; cbn [ctrl_step] in Hstep.
    - destruct (WillAcceptTransaction c w); injection Hstep as <- _ _; [|by split].
      destruct (AddTransaction_frozen (new_transaction a w) c) as (Hf & Hu & Hq & Hd). split; [by apply (frozen_stuck c)|done].
    - unfold ReturnDoneTrans in Hstep. destruct (take_done (ct_clk_ c) (return_queue_ c)) as [[t rest]|]; [|injection Hstep as <- _ _; by split].
      assert (∀ f, stuck (c_stats f (c_pending (pending_rd_q_ c) (pending_wr_q_ c) rest c)) ∧
        frozen c (c_stats f (c_pending (pending_rd_q_ c) (pending_wr_q_ c) rest c))) as Hret.
      { intros f. assert (frozen c (c_stats f (c_pending (pending_rd_q_ c) (pending_wr_q_ c) rest c))) as Hf by done.
        split; [by apply (frozen_stuck c)|done]. }
      destruct (is_write t); injection Hstep as <- _ _; apply Hret.
    - apply exc_bind_ok in Hstep as (c2 & Htick & [= <- _ _]). pose proof (tick_stuck c c2 Hg Hi Hst Htick) as K.
      split; [by apply (calm_stuck c)|by apply calm_frozen]. }
  destruct (IH c1 (proj1 Hi1) Hst1 acc1 ret1 Hi1) as [? Hf2]; [lia|lia|exact Hr|]. split; [done|by eapply frozen_trans].
Qed.

(** ** What the scheduler does *)

(** The command queue of a transaction, and whether it has room. *)
Definition cmd_of c (t : Transaction) : Command := TransToCommand config (row_buf_policy_ c) t.
Definition has_room c (t : Transaction) : Prop :=
  ∃ l, GetQueue config (cmd_queue_ c) (cplace (cmd_of c t)) = ok l ∧ Z.of_nat (length l) < queue_size_ (cmd_queue_ c).
Definition no_room c (t : Transaction) : Prop :=
  ∃ l, GetQueue config (cmd_queue_ c) (cplace (cmd_of c t)) = ok l ∧ queue_size_ (cmd_queue_ c) ≤ Z.of_nat (length l).

(** When the drain of the writes starts, and the queue that is served then. *)
Definition drain_starts c : Prop :=
  write_draining_ c = 0 ∧ is_unified_queue_ c = false ∧
  ((cap (write_buffer_ c) ≤ length (elts (write_buffer_ c)))%nat ∨
   (8 < length (elts (write_buffer_ c)))%nat ∧ Forall (fun l => l = []) (queues_ (cmd_queue_ c))).
Definition serves c (w : served) : Prop :=
  match w with
  | S_unified => is_unified_queue_ c = true
  | S_write => is_unified_queue_ c = false ∧ 0 < write_draining_ c
  | S_read => is_unified_queue_ c = false ∧ write_draining_ c ≤ 0
  end.
(** A write has to wait for the reads of its address. *)
Definition must_wait c (t : Transaction) : Prop :=
  is_unified_queue_ c = false ∧ is_write t = true ∧ (0 < count_addr (t_addr t) (pending_rd_q_ c))%nat.

(** What one pass over the served queue does. *)
Record moved w pre t post c c' : Prop := {
  mv_first : served_elts w c = pre ++ t :: post;
  mv_passed : Forall (no_room c) pre;
  mv_room : has_room c t;
  mv_left : served_elts w c' = pre ++ post;
  mv_wait : ¬ must_wait c t;
  mv_queue : ∃ l, GetQueue config (cmd_queue_ c) (cplace (cmd_of c t)) = ok l ∧
    queues_ (cmd_queue_ c') = zset (queues_ (cmd_queue_ c)) (GetQueueIndex config (cmd_queue_ c) (cplace (cmd_of c t))) (l ++ [cmd_of c t]);
  mv_drain : write_draining_ c' = if negb (is_unified_queue_ c) && is_write t then write_draining_ c - 1 else write_draining_ c;
  mv_pend : pending_rd_q_ c' = pending_rd_q_ c ∧ pending_wr_q_ c' = pending_wr_q_ c ∧ return_queue_ c' = return_queue_ c
}.
Inductive scheduled w c c' : Prop :=
  | sched_none : Forall (no_room c) (served_elts w c) → c' = c → scheduled w c c'
  | sched_wait pre t post : served_elts w c = pre ++ t :: post → Forall (no_room c) pre → has_room c t →
      must_wait c t → c' = c_draining 0 c → scheduled w c c'
  | sched_move pre t post : moved w pre t post c c' → scheduled w c c'.

Lemma cmd_of_write c t : IsWrite (cmd_of c t) = is_write t.
Proof. unfold cmd_of, TransToCommand, IsWrite, ct_is. simpl. by destruct (row_buf_policy_ c), (is_write t). Qed.

Lemma accept_room c t b :
  WillAcceptCommand config (cmd_queue_ c) (cplace (cmd_of c t)) = ok b → if b then has_room c t else no_room c t.
Proof.
  intros Ha. unfold WillAcceptCommand in Ha. apply exc_bind_ok in Ha as (l & Hl & [= <-]).
  destruct (Z.ltb_spec (Z.of_nat (length l)) (queue_size_ (cmd_queue_ c))); by exists l.
Qed.

Lemma AddCommand_queues k q b q' l :
  AddCommand config k q = ok (b, q') → GetQueue config q (cplace k) = ok l → Z.of_nat (length l) < queue_size_ q →
  queues_ q' = zset (queues_ q) (GetQueueIndex config q (cplace k)) (l ++ [k]).
Proof.
  intros Ha Hl Hz. unfold AddCommand in Ha. rewrite Hl in Ha. cbn [mbind exc_bind] in Ha. apply Z.ltb_lt in Hz. rewrite Hz in Ha.
  apply exc_bind_ok in Ha as (e & _ & [= _ <-]). done.
Qed.

Lemma schedule_loop_spec w pre rest c c' :
  served_elts w c = pre ++ rest → Forall (no_room c) pre → schedule_loop config w pre rest c = ok c' → scheduled w c c'.
Proof.
  revert pre. induction rest as [|t rest IH]; intros pre Hs Hpre Hrun; cbn [schedule_loop] in Hrun.
  { injection Hrun as <-. rewrite app_nil_r in Hs. apply sched_none; [by rewrite Hs|done]. }
  fold (cmd_of c t) in Hrun. apply exc_bind_ok in Hrun as (b & Hb & Hrun). apply accept_room in Hb as Hroom. destruct b.
  2:{ apply (IH (pre ++ [t])); [by rewrite <- app_assoc|by apply Forall_app; split; [|constructor]|done]. }
  rewrite cmd_of_write in Hrun. destruct (negb (is_unified_queue_ c) && is_write t && _) eqn:Hw.
  { rewrite !andb_true_iff, negb_true_iff, bool_decide_eq_true in Hw. destruct Hw as [[? ?] ?]. injection Hrun as <-.
    by apply (sched_wait w c _ pre t rest). }
  apply (sched_move w c _ pre t rest). destruct Hroom as (l & Hl & Hz).
  assert (¬ must_wait c t) as Hnw.
  { intros (Hu & Ht & Hc). rewrite Hu, Ht, bool_decide_true in Hw by done. discriminate. }
  apply exc_bind_ok in Hrun as ([b q] & Hadd & [= <-]).
  assert (AddCommand config (cmd_of c t) (cmd_queue_ c) = ok (b, q)) as Hadd' by (rewrite <- Hadd; by case_match).
  pose proof (AddCommand_queues _ _ _ _ _ Hadd' Hl Hz) as Hq.
  split; [done|done|by exists l|by destruct w|done|exists l; split; [done|by destruct w]| |].
  - by destruct w, (negb (is_unified_queue_ c) && is_write t).
  - by destruct w, (negb (is_unified_queue_ c) && is_write t).
Qed.

(** (C39) The scheduler starts the drain exactly by its two thresholds, and then makes a
    command of the first transaction of the served queue that has room, which goes to
    the end of its command queue; a write that must wait for a read stops the drain
    instead, and nothing else changes. *)
Theorem schedule_first c :
  ctrl_cfg config → ctrl_inv config c →
  ∃ c0 w c', (c0 = c ∧ ¬ drain_starts c ∨ drain_starts c ∧ c0 = c_draining (Z.of_nat (length (elts (write_buffer_ c)))) c) ∧
    serves c0 w ∧ ScheduleTransaction config c = ok c' ∧ scheduled w c0 c'.
Proof.
  intros Hg [Hcc Hb]. destruct (ScheduleTransaction_ok config c Hg Hcc Hb) as (c' & Hs & _).
  pose proof Hs as Hrun. unfold ScheduleTransaction in Hrun. cbn zeta in Hrun. set (c0 := if _ && _ then _ else c) in Hrun.
  set (w := if is_unified_queue_ c0 then _ else _) in Hrun. exists c0, w, c'. split_and!; [| |done|].
  - clearbody w. clear Hrun. unfold c0, drain_starts. clear c0.
    assert (QueueEmpty (cmd_queue_ c) = true ↔ Forall (fun l => l = []) (queues_ (cmd_queue_ c))) as Hqe.
    { unfold QueueEmpty. rewrite forallb_forall, Forall_forall. setoid_rewrite <- list_elem_of_In.
      setoid_rewrite bool_decide_eq_true. done. }
    destruct (Z.eqb_spec (write_draining_ c) 0), (is_unified_queue_ c); cbn [andb negb]; try (left; naive_solver).
    destruct (_ || _) eqn:E; [right|left; split; [done|intros (_ & _ & Hor)]].
    + rewrite orb_true_iff, andb_true_iff, Nat.leb_le, Nat.ltb_lt, Hqe in E. by split_and!.
    + apply not_true_iff_false in E. apply E. by rewrite orb_true_iff, andb_true_iff, Nat.leb_le, Nat.ltb_lt, Hqe.
  - unfold w. destruct (is_unified_queue_ c0) eqn:Hu; [done|]. destruct (Z.ltb_spec 0 (write_draining_ c0)); by split.
  - by apply (schedule_loop_spec w [] (served_elts w c0) c0 c').
Qed.
End Drain.

(** ** Instances *)

(** A read and a write of the same address, and eight more writes, offered before the
    next tick. *)
Definition stuck_ops : list ctrl_op :=
  OpAdd 0 false :: OpAdd 0 true :: ((fun i => OpAdd (4096 * i) true) <$> [1; 2; 3; 4; 5; 6; 7; 8]).
Definition stuck_controller : Controller :=
  match foldE (ctrl_step hbm2) stuck_ops (hbm2_controller, [], []) with ok (c, _, _) => c | err _ => hbm2_controller end.

Lemma stuck_reached : ctrl_inv hbm2 stuck_controller ∧ stuck stuck_controller ∧ ct_clk_ stuck_controller = 0.
Proof.
  destruct (ctrl_run_ok hbm2 stuck_ops (hbm2_controller, [], []) hbm2_ctrl) as ([[c acc] ret] & Hr & [Hi _] & Hk);
    [repeat constructor; discriminate|split; [exact hbm2_controller_inv|done]|done|done|].
  unfold stuck_controller. rewrite Hr. split; [exact Hi|]. split; [|exact Hk].
  assert (c = stuck_controller) as -> by (unfold stuck_controller; by rewrite Hr).
  split; try (vm_compute; reflexivity).
  - apply (bool_decide_unpack _). vm_compute. exact I.
  - eexists. split; [vm_compute; reflexivity|]. split; [reflexivity|]. vm_compute. lia.
Qed.

(** After a hundred thousand cycles the read of address 0 is still waiting, and so is a read that
    comes later. *)
Lemma drain_deadlock_witness :
  stuck stuck_controller ∧ ∃ c' acc ret,
    foldE (ctrl_step hbm2) (OpAdd 262144 false :: replicate 100000 OpTick) (stuck_controller, outstanding stuck_controller, []) = ok (c', acc, ret) ∧
    stuck c' ∧ frozen stuck_controller c'.
Proof.
  destruct stuck_reached as (Hi & Hs & Hk). split; [exact Hs|].
  destruct (drain_deadlock hbm2 stuck_controller (OpAdd 262144 false :: replicate 100000 OpTick) hbm2_ctrl Hi Hs) as (c' & acc & ret & Hr & Hs' & Hf & _).
  - constructor; [discriminate|]. apply Forall_replicate. exact I.
  - rewrite Hk. discriminate.
  - rewrite Hk. vm_compute. reflexivity.
  - exists c', acc, ret. split; [exact Hr|]. by split.
Defined.

(** In that state the drain is the one branch that matters. *)
Lemma schedule_first_witness :
  drain_starts stuck_controller ∧ ∃ c0 w c', serves c0 w ∧ ScheduleTransaction hbm2 stuck_controller = ok c' ∧ scheduled hbm2 w c0 c'.
Proof.
  destruct stuck_reached as (Hi & [Hsep He _ Hd Hm _] & _). split; [exact (conj Hd (conj Hsep (or_intror (conj Hm He))))|].
  destruct (schedule_first hbm2 stuck_controller hbm2_ctrl Hi) as (c0 & w & c' & _ & Hw & Hs & Hsc).
  exists c0, w, c'. exact (conj Hw (conj Hs Hsc)).
Defined.
