(* ===== verification/DramSystem.v ===== *)
(** * DRAM systems (DRAMsim3-master/src/dram_system.h, dram_system.cc)

    A system of several channels behind one address space. The virtual
    functions of [BaseDRAMSystem] are the class [DRAMSystem], and what their
    client may rely on the class [DRAMSystemOk]: requests that were accepted
    are completed exactly once. The JEDEC system implements it; the ideal system
    with fixed latency does too, but answers late, since its loop skips the
    entry behind each one it removes. The completion callbacks are returned, in
    the order of the calls: they run in the client and do not come back to the
    system before the tick is over. *)

From Stdlib Require Import ZArith Lia String.
From stdpp Require Import strings sets gmap numbers option list.
From S2P Require Import Prelude DramCommon Config Timing ChannelState Stats CommandQueue Refresh Controller.

(** ** The interface *)

(** The virtual functions of [BaseDRAMSystem]; [ds_tick] returns the completed
    requests, writes marked [true]. *)
Class DRAMSystem (S : Type) := {
  ds_will_accept : S -> Z -> bool -> exc bool;
  ds_add : Z -> bool -> S -> exc (bool * S);
  ds_tick : S -> exc (list (Z * bool) * S);
  ds_channel : S -> Z -> Z
}.

(** The promise to a client: no operation fails, the requests accepted are the
    requests completed and those outstanding, and a read is accepted as long as
    its channel has fewer requests outstanding than [ds_capacity]. The promise
    holds up to tick [ds_limit], where a counter of the system might overflow. *)
Class DRAMSystemOk (S : Type) `{DRAMSystem S} := {
  ds_inv : S -> Prop;
  ds_now : S -> Z;
  ds_out : S -> list (Z * bool);
  ds_capacity : S -> Z;
  ds_limit : Z;
  ds_room s a : ds_inv s → 0 ≤ a →
    Z.of_nat (length (filter (fun r => ds_channel s r.1 = ds_channel s a) (ds_out s))) < ds_capacity s →
    ds_will_accept s a false = ok true;
  ds_will_total s a w : ds_inv s → 0 ≤ a → ∃ b, ds_will_accept s a w = ok b;
  ds_add_ok s a w : ds_inv s → 0 ≤ a → ds_will_accept s a w = ok true →
    ∃ s', ds_add a w s = ok (true, s') ∧ ds_inv s' ∧ ds_now s' = ds_now s ∧ ds_out s' ≡ₚ (a, w) :: ds_out s ∧
      ds_channel s' = ds_channel s ∧ ds_capacity s' = ds_capacity s;
  ds_tick_ok s : ds_inv s → 0 ≤ ds_now s < ds_limit →
    ∃ l s', ds_tick s = ok (l, s') ∧ ds_inv s' ∧ ds_now s' = ds_now s + 1 ∧ ds_out s ≡ₚ l ++ ds_out s' ∧
      ds_channel s' = ds_channel s ∧ ds_capacity s' = ds_capacity s
}.
#[global] Arguments ds_limit S {_ _}.

(** ** The JEDEC system *)

(** [class JedecDRAMSystem], with the members of [BaseDRAMSystem] it uses. *)
Record JedecDRAMSystem := MkJedec {
  js_config : Config;
  js_clk_ : Z;
  last_req_clk_ : Z;
  ctrls_ : list Controller
}.

Definition j_ctrls (l : list Controller) (s : JedecDRAMSystem) : JedecDRAMSystem :=
  MkJedec (js_config s) (js_clk_ s) (last_req_clk_ s) l.

(** [JedecDRAMSystem::JedecDRAMSystem(config, ...)]. *)
Definition new_Jedec (config : Config) : exc JedecDRAMSystem :=
  if IsHMC config then err AbruptExit
  else l ← mapE (new_Controller config) (zseq (channels config)); ok (MkJedec config 0 0 l).

(** [BaseDRAMSystem::GetChannel(hex_addr)]. *)
Definition GetChannel (config : Config) (hex : Z) : Z :=
  Z.land (Z.shiftr (Z.shiftr hex (shift_bits config)) (ch_pos config)) (ch_mask config).

(** [JedecDRAMSystem::WillAcceptTransaction(hex_addr, is_write)]. *)
Definition j_WillAccept (s : JedecDRAMSystem) (hex : Z) (w : bool) : exc bool :=
  c ← vec_get (ctrls_ s) (GetChannel (js_config s) hex); ok (WillAcceptTransaction c w).

(** [JedecDRAMSystem::AddTransaction(hex_addr, is_write)]. *)
Definition j_Add (hex : Z) (w : bool) (s : JedecDRAMSystem) : exc (bool * JedecDRAMSystem) :=
  let ch := GetChannel (js_config s) hex in
  c ← vec_get (ctrls_ s) ch;
  if WillAcceptTransaction c w then
    ok (true, MkJedec (js_config s) (js_clk_ s) (js_clk_ s)
                (zset (ctrls_ s) ch (AddTransaction (new_transaction hex w) c)))
  else err AssertionFailed.

(** The loop that returns a controller's completed transactions; each iteration
    removes one. *)
Fixpoint drain_done (fuel : nat) (clk : Z) (c : Controller) : exc (list (Z * bool) * Controller) :=
  match ReturnDoneTrans clk c with
  | (None, c') => ok ([], c')
  | (Some r, c') =>
      match fuel with
      | O => err OutOfFuel
      | S fuel' => '(l, c'') ← drain_done fuel' clk c'; ok (r :: l, c'')
      end
  end.
Definition return_done (clk : Z) (c : Controller) : exc (list (Z * bool) * Controller) :=
  drain_done (length (return_queue_ c)) clk c.

(** [Controller::PrintEpochStats()] and [BaseDRAMSystem::PrintEpochStats()], on
    the counters. *)
Definition ctrl_PrintEpochStats : Controller -> Controller :=
  c_stats (fun s => UpdateEpochStats (Increment "epoch_num" s)).
Definition PrintEpochStats (s : JedecDRAMSystem) : JedecDRAMSystem :=
  j_ctrls (ctrl_PrintEpochStats <$> ctrls_ s) s.

(** [Controller::PrintFinalStats()] and [BaseDRAMSystem::PrintStats()], on the counters. *)
Definition ctrl_PrintFinalStats : Controller -> Controller := c_stats UpdateFinalStats.
Definition j_PrintStats (s : JedecDRAMSystem) : JedecDRAMSystem := j_ctrls (ctrl_PrintFinalStats <$> ctrls_ s) s.

(** [BaseDRAMSystem::ResetStats()]. *)
Definition j_ResetStats (s : JedecDRAMSystem) : JedecDRAMSystem := j_ctrls (ResetStats <$> ctrls_ s) s.

(** [JedecDRAMSystem::ClockTick()]. *)
Definition j_ClockTick (s : JedecDRAMSystem) : exc (list (Z * bool) * JedecDRAMSystem) :=
  done ← mapE (return_done (js_clk_ s)) (ctrls_ s);
  cs ← mapE (ctrl_ClockTick (js_config s)) done.*2;
  let clk := u64 (js_clk_ s + 1) in
  let s := MkJedec (js_config s) clk (last_req_clk_ s) cs in
  let p := u64 (epoch_period (js_config s)) in
  if p =? 0 then err UndefinedBehaviour
  else ok (concat done.*1, if clk mod p =? 0 then PrintEpochStats s else s).

#[global] Instance Jedec_system : DRAMSystem JedecDRAMSystem := {
  ds_will_accept := j_WillAccept;
  ds_add := j_Add;
  ds_tick := j_ClockTick;
  ds_channel s := GetChannel (js_config s)
}.

(** ** The ideal system *)

(** [class IdealDRAMSystem]. *)
Record IdealDRAMSystem := MkIdeal {
  id_config : Config;
  id_clk_ : Z;
  latency_ : Z;
  infinite_buffer_q_ : list Transaction
}.

Definition new_Ideal (config : Config) : IdealDRAMSystem := MkIdeal config 0 (ideal_memory_latency config) [].

(** [IdealDRAMSystem::AddTransaction(hex_addr, is_write)]. *)
Definition i_Add (hex : Z) (w : bool) (s : IdealDRAMSystem) : exc (bool * IdealDRAMSystem) :=
  ok (true, MkIdeal (id_config s) (id_clk_ s) (latency_ s)
              (infinite_buffer_q_ s ++ [with_added (id_clk_ s) (new_transaction hex w)])).

(** The loop of [ClockTick]: [erase] moves the iterator to the next entry, and
    the increment behind it passes over that entry. *)
Definition ideal_due (clk latency : Z) (t : Transaction) : bool := u64 latency <=? u64 (clk - added_cycle t).
Fixpoint ideal_loop (clk latency : Z) (q : list Transaction) : list (Z * bool) * list Transaction :=
  match q with
  | [] => ([], [])
  | t :: q' =>
      if ideal_due clk latency t then
        match q' with
        | [] => ([request_of t], [])
        | u :: q'' => let '(l, r) := ideal_loop clk latency q'' in (request_of t :: l, u :: r)
        end
      else let '(l, r) := ideal_loop clk latency q' in (l, t :: r)
  end.

(** [IdealDRAMSystem::ClockTick()]. *)
Definition i_ClockTick (s : IdealDRAMSystem) : exc (list (Z * bool) * IdealDRAMSystem) :=
  let '(l, q) := ideal_loop (id_clk_ s) (latency_ s) (infinite_buffer_q_ s) in
  ok (l, MkIdeal (id_config s) (u64 (id_clk_ s + 1)) (latency_ s) q).

#[global] Instance Ideal_system : DRAMSystem IdealDRAMSystem := {
  ds_will_accept _ _ _ := ok true;
  ds_add := i_Add;
  ds_tick := i_ClockTick;
  ds_channel s := GetChannel (id_config s)
}.

(** ** The JEDEC system keeps the promise *)

Section Jedec.
Implicit Types (s : JedecDRAMSystem) (c : Controller).

(** The configurations for which it does. *)
Record jedec_cfg (config : Config) : Prop := {
  jc_ctrl : ctrl_cfg config;
  jc_chan a : 0 ≤ a → 0 ≤ GetChannel config a < channels config;
  jc_epoch : 0 < epoch_period config < 2 ^ 31
}.

(** Every controller is in its invariant and in step with the system. *)
Record jedec_inv s : Prop := {
  ji_cfg : jedec_cfg (js_config s);
  ji_len : length (ctrls_ s) = Z.to_nat (channels (js_config s));
  ji_ctrl c : c ∈ ctrls_ s → ctrl_inv (js_config s) c ∧ ct_clk_ c = js_clk_ s;
  ji_home i c : ctrls_ s !! i = Some c → Forall (fun r => GetChannel (js_config s) r.1 = Z.of_nat i) (outstanding c)
}.

Definition jedec_out s : list (Z * bool) := concat (outstanding <$> ctrls_ s).
(** The reads a channel takes for sure: with one queue for reads and writes, none. *)
Definition jedec_capacity s : Z := if unified_queue (js_config s) then 0 else trans_queue_size (js_config s).

Lemma PrintStats_out s : jedec_out (j_PrintStats s) = jedec_out s.
Proof. unfold jedec_out. simpl. by rewrite <- list_fmap_compose. Qed.

Lemma jedec_get s a :
  jedec_inv s → 0 ≤ a → ∃ c, zget (ctrls_ s) (GetChannel (js_config s) a) = Some c ∧ c ∈ ctrls_ s.
Proof.
  intros Hi Ha. pose proof (jc_chan _ (ji_cfg _ Hi) a Ha).
  destruct (zget_is_Some (ctrls_ s) (GetChannel (js_config s) a)) as [c Hc]; [rewrite (ji_len _ Hi); lia|].
  exists c. split; [done|by eapply zget_elem].
Qed.

Lemma j_Add_ok s a w :
  jedec_inv s → 0 ≤ a → j_WillAccept s a w = ok true →
  ∃ s', j_Add a w s = ok (true, s') ∧ jedec_inv s' ∧ js_clk_ s' = js_clk_ s ∧ jedec_out s' ≡ₚ (a, w) :: jedec_out s ∧
    js_config s' = js_config s.
Proof.
  intros Hi Ha Hw. destruct (jedec_get s a Hi Ha) as (c & Hc & Hin). unfold j_WillAccept, j_Add, vec_get in *.
  rewrite Hc in *. cbn [opt_exc mbind exc_bind] in *. injection Hw as Hw. rewrite Hw.
  destruct (ji_ctrl _ Hi c Hin) as [Hci Hclk].
  destruct (AddTransaction_ok _ (new_transaction a w) c Hci Ha Hw) as (Hci' & Hout & Hclk').
  eexists. split; [reflexivity|]. split; [|split_and!; [done| |done]]; [split; simpl|].
  - apply Hi.
  - rewrite length_zset. apply Hi.
  - destruct Hi. intros c' Hc'.
    assert (c' = AddTransaction (new_transaction a w) c ∨ c' ∈ ctrls_ s) as [->|?]; [|split; [done|congruence]|by apply ji_ctrl0].
    apply list_elem_of_lookup in Hc' as [n Hn]. unfold zset in Hn. destruct (_ <? 0); [right; by eapply list_elem_of_lookup_2|].
    apply list_lookup_insert_Some in Hn as [(_ & <- & _)|[_ Hn]]; [by left|right; by eapply list_elem_of_lookup_2].
  - destruct Hi. simpl. intros i c' Hc'. apply zget_Some in Hc as [Hge Hc]. unfold zset in Hc'.
    destruct (Z.ltb_spec (GetChannel (js_config s) a) 0); [lia|].
    apply list_lookup_insert_Some in Hc' as [(<- & <- & _)|[_ Hc']]; [|by apply ji_home0].
    rewrite Hout. constructor; [simpl; lia|]. by apply ji_home0.
  - unfold jedec_out. cbn [ctrls_]. rewrite fmap_zset. eapply concat_zset_cons; [|exact Hout].
    by rewrite zget_fmap, Hc.
Qed.

(** The loop over a controller's return queue always ends, and returns all that
    is complete. *)
Lemma drain_done_ok config n clk c :
  (length (return_queue_ c) ≤ n)%nat → ctrl_inv config c →
  ∃ l c', drain_done n clk c = ok (l, c') ∧ ctrl_inv config c' ∧ ct_clk_ c' = ct_clk_ c ∧
    outstanding c ≡ₚ l ++ outstanding c' ∧ Forall (fun t => clk < complete_cycle t) (return_queue_ c').
Proof.
  revert c. induction n as [|n IH]; intros c Hn Hi; cbn [drain_done];
    destruct (ReturnDoneTrans clk c) as [r c'] eqn:Hr;
    destruct (ReturnDoneTrans_ok _ _ _ _ _ Hi Hr) as (Hi' & Hclk & Hm).
  - destruct r as [r|]; [|destruct Hm as [-> Hd]; exists [], c; by split_and!].
    unfold ReturnDoneTrans in Hr. destruct (return_queue_ c); simpl in Hn; [done|lia].
  - destruct r as [r|]; [|destruct Hm as [-> Hd]; exists [], c; by split_and!].
    destruct (IH c') as (l & c'' & Hd & Hi'' & Hclk' & Hp & Hf); [|done|].
    { unfold ReturnDoneTrans in Hr. destruct (take_done clk (return_queue_ c)) as [[t rest]|] eqn:Ht; [|done].
      destruct (take_done_Some _ _ _ _ Ht) as (l1 & l2 & E & -> & _). rewrite E, length_app in Hn. simpl in Hn.
      destruct (is_write t); injection Hr as _ <-; simpl; rewrite length_app; lia. }
    rewrite Hd. cbn [mbind exc_bind]. exists (r :: l), c''. split_and!; [done|done|congruence| |done].
    rewrite Hm, Hp. done.
Qed.

Lemma Forall2_elem_r {A B} (R : A -> B -> Prop) l l' b :
  Forall2 R l l' → b ∈ l' → ∃ a, a ∈ l ∧ R a b.
Proof.
  induction 1 as [|a b' l l' Hab Hl IH]; [by intros ?%elem_of_nil|].
  intros [->|Hb]%elem_of_cons; [exists a; split; [left|done]|]. destruct (IH Hb) as (a' & ? & ?).
  exists a'. split; [by right|done].
Qed.

Lemma concat_split {A B} (R : A -> list B * A -> Prop) (f : A -> list B) (l : list A) l' :
  Forall2 R l l' → (∀ a b, R a b → f a ≡ₚ b.1 ++ f b.2) →
  concat (f <$> l) ≡ₚ concat l'.*1 ++ concat (f <$> l'.*2).
Proof.
  intros Hl Hf. induction Hl as [|a b l l' Hab Hl IH]; [done|]. simpl. rewrite (Hf _ _ Hab), IH.
  rewrite <- !app_assoc. apply Permutation_app_head. rewrite !app_assoc. apply Permutation_app_tail, Permutation_app_comm.
Qed.

Lemma concat_same {A B} (R : A -> A -> Prop) (f : A -> list B) l l' :
  Forall2 R l l' → (∀ a b, R a b → f b ≡ₚ f a) → concat (f <$> l') ≡ₚ concat (f <$> l).
Proof. intros Hl Hf. induction Hl as [|a b l l' Hab Hl IH]; [done|]. simpl. by rewrite (Hf _ _ Hab), IH. Qed.

Lemma inv_stats config f c : ctrl_inv config c → ctrl_inv config (c_stats f c).
Proof. intros [Hc []]. split; [by apply core_stats|by split]. Qed.

(** What one tick does to one controller. *)
Definition returned s c (x : list (Z * bool) * Controller) : Prop :=
  ctrl_inv (js_config s) x.2 ∧ ct_clk_ x.2 = js_clk_ s ∧ outstanding c ≡ₚ x.1 ++ outstanding x.2 ∧
  Forall (fun t => js_clk_ s < complete_cycle t) (return_queue_ x.2).
Definition ticked s c c' : Prop :=
  ctrl_inv (js_config s) c' ∧ ct_clk_ c' = js_clk_ s + 1 ∧ outstanding c' ≡ₚ outstanding c.

Lemma j_ClockTick_ok s :
  jedec_inv s → 0 ≤ js_clk_ s < 2 ^ 63 →
  ∃ l s', j_ClockTick s = ok (l, s') ∧ jedec_inv s' ∧ js_clk_ s' = js_clk_ s + 1 ∧ jedec_out s ≡ₚ l ++ jedec_out s' ∧
    js_config s' = js_config s.
Proof.
  intros Hi Hclk. pose proof (ji_cfg _ Hi) as Hg. unfold j_ClockTick.
  destruct (mapE_total (returned s) (return_done (js_clk_ s)) (ctrls_ s)) as (dn & Hdn & Hret).
  { intros c Hc. destruct (ji_ctrl _ Hi c Hc) as [Hci Hcc].
    destruct (drain_done_ok _ _ (js_clk_ s) c (le_n _) Hci) as (l & c' & Hd & Hi' & Hk & Hp & Hf).
    exists (l, c'). split; [exact Hd|]. split_and!; simpl; [done|congruence|done|done]. }
  rewrite Hdn. cbn [mbind exc_bind].
  destruct (mapE_total (ticked s) (ctrl_ClockTick (js_config s)) dn.*2) as (cs & Hcs & Htk).
  { intros c Hc. apply list_elem_of_fmap in Hc as (x & -> & Hx).
    destruct (Forall2_elem_r _ _ _ _ Hret Hx) as (c0 & _ & Hci & Hk & _).
    destruct (ClockTick_ok _ x.2 (jc_ctrl _ Hg) Hci) as (c' & Hr & Hi' & Hk' & Ho); [by rewrite Hk|].
    exists c'. split; [done|]. split_and!; [done|congruence|done]. }
  rewrite Hcs. cbn [mbind exc_bind]. cbn zeta. cbn [js_config].
  pose proof (jc_epoch _ Hg) as He. rewrite (u64_small (epoch_period (js_config s))) by (unfold two64; lia).
  destruct (Z.eqb_spec (epoch_period (js_config s)) 0); [lia|].
  assert (u64 (js_clk_ s + 1) = js_clk_ s + 1) as Ek by (apply u64_small; unfold two64; lia).
  assert (∀ f, let s' := MkJedec (js_config s) (js_clk_ s + 1) (last_req_clk_ s) (c_stats f <$> cs) in
    jedec_inv s' ∧ jedec_out s ≡ₚ concat dn.*1 ++ jedec_out s') as Hres.
  { intros f s'. split.
    - split; [done| | |].
      + simpl. rewrite length_fmap, <- (Forall2_length _ _ _ Htk), length_fmap, <- (Forall2_length _ _ _ Hret). apply Hi.
      + simpl. intros c' Hc'. apply list_elem_of_fmap in Hc' as (c & -> & Hc).
        destruct (Forall2_elem_r _ _ _ _ Htk Hc) as (c0 & _ & Hci & Hk & _). split; [by apply inv_stats|done].
      + simpl. intros i c' Hc'. apply list_lookup_fmap_Some in Hc' as (c & -> & Hc).
        destruct (Forall2_lookup_r _ _ _ _ _ Htk Hc) as (c1 & Hc1 & _ & _ & Ho).
        apply list_lookup_fmap_Some in Hc1 as (x & -> & Hx).
        destruct (Forall2_lookup_r _ _ _ _ _ Hret Hx) as (c0 & Hc0 & _ & _ & Ho0 & _).
        change (outstanding (c_stats f c)) with (outstanding c). rewrite Ho.
        pose proof (ji_home _ Hi i c0 Hc0) as Hh. rewrite Ho0 in Hh. by apply Forall_app in Hh as [_ ?].
    - unfold jedec_out. simpl. rewrite <- list_fmap_compose. change (outstanding ∘ c_stats f) with outstanding.
      rewrite (concat_same _ outstanding _ _ Htk) by (by intros ? ? (_ & _ & ?)).
      apply (concat_split _ outstanding _ _ Hret). by intros ? ? (_ & _ & ? & _). }
  rewrite Ek. destruct (_ =? 0).
  - eexists _, _. split; [reflexivity|]. destruct (Hres (fun st => UpdateEpochStats (Increment "epoch_num" st))) as [? ?]. done.
  - assert (c_stats id <$> cs = cs) as Eid.
    { rewrite <- (list_fmap_id cs) at 2. apply list_fmap_ext. intros ? [] ?. done. }
    eexists _, _. split; [reflexivity|]. destruct (Hres id) as [? ?]. rewrite Eid in *. done.
Qed.

Lemma jedec_room s a :
  jedec_inv s → 0 ≤ a →
  Z.of_nat (length (filter (fun r => GetChannel (js_config s) r.1 = GetChannel (js_config s) a) (jedec_out s))) < jedec_capacity s →
  j_WillAccept s a false = ok true.
Proof.
  intros Hi Ha Hl. destruct (jedec_get s a Hi Ha) as (c & Hc & Hin). unfold j_WillAccept, vec_get. rewrite Hc. simpl.
  f_equal. unfold jedec_capacity in Hl. destruct (unified_queue (js_config s)) eqn:Hu; [lia|].
  apply (accepts_reads (js_config s)); [by apply (ji_ctrl _ Hi)|done|]. eapply Z.le_lt_trans; [|exact Hl].
  apply zget_Some in Hc as [Hge Hc]. pose proof (ji_home _ Hi _ _ Hc) as Hh. rewrite Z2Nat.id in Hh by done.
  assert (filter (fun r => GetChannel (js_config s) r.1 = GetChannel (js_config s) a) (outstanding c) = outstanding c) as Hf.
  { clear -Hh. induction Hh as [|t l Ht Hl IH]; [done|]. by rewrite filter_cons, decide_True, IH. }
  unfold jedec_out. apply list_elem_of_split_length in Hc as (l1 & l2 & -> & _).
  rewrite fmap_app, concat_app, filter_app, length_app. simpl. rewrite filter_app, length_app, Hf. lia.
Qed.

#[global] Instance Jedec_ok : DRAMSystemOk JedecDRAMSystem.
Proof.
  refine {| ds_inv := jedec_inv; ds_now := js_clk_; ds_out := jedec_out; ds_capacity := jedec_capacity; ds_limit := 2 ^ 63 |}.
  - exact jedec_room.
  - intros s a w Hi Ha. destruct (jedec_get s a Hi Ha) as (c & Hc & _). unfold ds_will_accept. simpl.
    unfold j_WillAccept, vec_get. rewrite Hc. simpl. eauto.
  - intros s a w Hi Ha Hw. destruct (j_Add_ok s a w Hi Ha Hw) as (s' & ? & ? & ? & ? & E).
    exists s'. simpl. unfold jedec_capacity. by rewrite E.
  - intros s Hi Hk. destruct (j_ClockTick_ok s Hi Hk) as (l & s' & ? & ? & ? & ? & E).
    exists l, s'. simpl. unfold jedec_capacity. by rewrite E.
Defined.
End Jedec.

(** New controllers are in their invariant, at time 0 and with nothing outstanding. *)
Lemma new_ctrls_inv config l :
  jedec_cfg config → 0 ≤ cmd_queue_size config → (∀ r, new_Refresh config = ok r → 0 < refresh_interval_ r < 2 ^ 31) →
  mapE (new_Controller config) (zseq (channels config)) = ok l →
  jedec_inv (MkJedec config 0 0 l) ∧ jedec_out (MkJedec config 0 0 l) = [].
Proof.
  intros Hg Hsz Hr Hl.
  assert (∀ chs l, mapE (new_Controller config) chs = ok l →
    length l = length chs ∧ ∀ c, c ∈ l → ctrl_inv config c ∧ outstanding c = [] ∧ ct_clk_ c = 0) as Hall.
  { induction chs as [|ch chs IH]; intros l' Hl'; simpl in Hl'.
    - injection Hl' as <-. split; [done|]. by intros c ?%elem_of_nil.
    - inv_ok. destruct (IH _ H0) as [Hlen Hc]. simpl. split; [by rewrite Hlen|].
      intros c [->|Hin]%elem_of_cons; [|by apply Hc]. eapply new_Controller_inv; [apply Hg|done|exact H|].
      unfold new_Controller in H. inv_ok. simpl. by apply Hr. }
  destruct (Hall _ _ Hl) as [Hlen Hc]. split; [|clear -Hc].
  - split; simpl; [done|by rewrite Hlen, length_zseq| |].
    + intros c Hin. by destruct (Hc c Hin) as (? & _ & ?).
    + intros i c Hi. apply list_elem_of_lookup_2 in Hi. by destruct (Hc c Hi) as (_ & -> & _).
  - unfold jedec_out. simpl. induction l as [|c l IH]; [done|]. simpl.
    destruct (Hc c) as (_ & -> & _); [left|]. apply IH. intros; apply Hc; by right.
Qed.

Lemma new_Jedec_inv config s :
  jedec_cfg config → 0 ≤ cmd_queue_size config → new_Jedec config = ok s →
  (∀ r, new_Refresh config = ok r → 0 < refresh_interval_ r < 2 ^ 31) →
  jedec_inv s ∧ jedec_out s = [] ∧ js_clk_ s = 0.
Proof.
  intros Hg Hsz Hn Hr. unfold new_Jedec in Hn. destruct (IsHMC config); [done|].
  apply exc_bind_ok in Hn as (l & Hl & [= <-]). destruct (new_ctrls_inv _ _ Hg Hsz Hr Hl). done.
Qed.

(** ** The ideal system *)

Section Ideal.
Implicit Types (q : list Transaction) (s : IdealDRAMSystem).

Lemma ideal_loop_perm clk lat q :
  request_of <$> q ≡ₚ (ideal_loop clk lat q).1 ++ (request_of <$> (ideal_loop clk lat q).2).
Proof.
  remember (length q) as n eqn:Hn. assert (length q ≤ n)%nat as Hle by lia. clear Hn.
  revert q Hle. induction n as [|n IH]; intros [|t q] Hle; simpl in Hle; [done|lia|done|]. cbn [ideal_loop].
  destruct (ideal_due clk lat t).
  - destruct q as [|u q]; [done|]. simpl in Hle. specialize (IH q ltac:(lia)).
    destruct (ideal_loop clk lat q) as [l r]. simpl in *. rewrite IH, <- Permutation_middle. done.
  - specialize (IH q ltac:(lia)). destruct (ideal_loop clk lat q) as [l r]. simpl in *.
    by rewrite IH, <- Permutation_middle.
Qed.

#[global] Instance Ideal_ok : DRAMSystemOk IdealDRAMSystem.
Proof.
  refine {| ds_inv _ := True; ds_now := id_clk_; ds_out s := request_of <$> infinite_buffer_q_ s; ds_capacity _ := 0;
            ds_limit := 2 ^ 63 |}.
  - done.
  - intros. by eexists.
  - intros s a w _ _ _. eexists. split; [reflexivity|]. split_and!; [done|done| |done|done]. simpl. rewrite fmap_app. simpl.
    by rewrite Permutation_app_comm.
  - intros s _ Hclk. simpl. unfold i_ClockTick.
    pose proof (ideal_loop_perm (id_clk_ s) (latency_ s) (infinite_buffer_q_ s)) as Hp.
    destruct (ideal_loop _ _ _) as [l r]. eexists l, _. split; [reflexivity|]. split_and!; [done| |exact Hp|done|done].
    simpl. apply u64_small. unfold two64. lia.
Defined.

(** Every other entry, from the first on or from the second on. *)
Fixpoint evens {A} (l : list A) : list A :=
  match l with [] => [] | [a] => [a] | a :: _ :: l' => a :: evens l' end.
Fixpoint odds {A} (l : list A) : list A :=
  match l with [] => [] | [_] => [] | _ :: b :: l' => b :: odds l' end.

(** The ideal memory answers late: of a buffer whose requests have all
    reached the latency, a tick completes only every other one; the rest waits
    for later ticks. *)
Theorem ideal_skips clk lat q :
  Forall (fun t => ideal_due clk lat t = true) q → ideal_loop clk lat q = (request_of <$> evens q, odds q).
Proof.
  remember (length q) as n eqn:Hn. assert (length q ≤ n)%nat as Hle by lia. clear Hn.
  revert q Hle. induction n as [|n IH]; intros q Hle Hall; destruct q as [|t [|u q]]; simpl in Hle; try lia; try done.
  - apply Forall_cons in Hall as [Ht _]. cbn [ideal_loop]. by rewrite Ht.
  - rewrite !Forall_cons in Hall. destruct Hall as (Ht & _ & Hall). cbn [ideal_loop].
    by rewrite Ht, (IH q ltac:(lia) Hall).
Qed.

Lemma ideal_skips_witness :
  ideal_loop 10 10 [new_transaction 0 false; new_transaction 64 false; new_transaction 128 true] =
    ([(0, false); (128, true)], [new_transaction 64 false]).
Proof. apply ideal_skips. repeat constructor. Defined.
End Ideal.

(** ** Clients of a DRAM system *)

Section Client.
Context {S : Type} `{DRAMSystemOk S}.

(** A client offers requests and lets time pass. *)
Inductive sys_op := SysAdd (a : Z) (w : bool) | SysTick.
Definition sys_step (o : sys_op) (x : S * list (Z * bool) * list (Z * bool))
    : exc (S * list (Z * bool) * list (Z * bool)) :=
  let '(s, acc, done) := x in
  match o with
  | SysAdd a w =>
      b ← ds_will_accept s a w;
      if (b : bool) then '(_, s') ← ds_add a w s; ok (s', (a, w) :: acc, done) else ok (s, acc, done)
  | SysTick => '(l, s') ← ds_tick s; ok (s', acc, done ++ l)
  end.

Fixpoint sys_ticks (ops : list sys_op) : Z :=
  match ops with
  | [] => 0
  | SysTick :: ops' => 1 + sys_ticks ops'
  | _ :: ops' => sys_ticks ops'
  end.
Definition sys_op_ok (o : sys_op) : Prop := match o with SysAdd a _ => 0 ≤ a | SysTick => True end.

Lemma sys_ticks_nonneg ops : 0 ≤ sys_ticks ops.
Proof. induction ops as [|[] ops IH]; simpl; lia. Qed.

Definition sys_run_inv (x : S * list (Z * bool) * list (Z * bool)) : Prop :=
  let '(s, acc, done) := x in ds_inv s ∧ acc ≡ₚ done ++ ds_out s.

Lemma sys_step_ok o x :
  sys_run_inv x → sys_op_ok o → 0 ≤ ds_now x.1.1 < ds_limit S →
  ∃ y, sys_step o x = ok y ∧ sys_run_inv y ∧ ds_now y.1.1 = ds_now x.1.1 + sys_ticks [o].
Proof.
  destruct x as [[s acc] dn]. intros [Hi Hacc] Ho Hclk. simpl in Hclk. destruct o as [a w|]; simpl.
  - destruct (ds_will_total s a w Hi Ho) as [b Hb]. rewrite Hb. cbn [mbind exc_bind]. destruct b.
    + destruct (ds_add_ok s a w Hi Ho Hb) as (s' & -> & Hi' & Hk & Hout & _ & _). cbn [mbind exc_bind].
      eexists. split; [reflexivity|]. simpl. split; [split; [done|]|lia]. rewrite Hacc, Hout. apply Permutation_middle.
    + eexists. split; [reflexivity|]. simpl. split; [done|lia].
  - destruct (ds_tick_ok s Hi Hclk) as (l & s' & -> & Hi' & Hk & Hout & _ & _). cbn [mbind exc_bind].
    eexists. split; [reflexivity|]. simpl. split; [split; [done|]|lia]. by rewrite Hacc, Hout, app_assoc.
Qed.

Lemma sys_run_ok ops x :
  Forall sys_op_ok ops → sys_run_inv x → 0 ≤ ds_now x.1.1 → ds_now x.1.1 + sys_ticks ops < ds_limit S →
  ∃ y, foldE sys_step ops x = ok y ∧ sys_run_inv y ∧ ds_now y.1.1 = ds_now x.1.1 + sys_ticks ops.
Proof.
  intros Hops. revert x. induction Hops as [|o ops Ho Hops IH]; intros x Hi Hge Hl; simpl.
  { exists x. split_and!; [done|done|lia]. }
  assert (sys_ticks (o :: ops) = sys_ticks [o] + sys_ticks ops) as Et by (destruct o; simpl; lia).
  pose proof (sys_ticks_nonneg [o]). pose proof (sys_ticks_nonneg ops).
  destruct (sys_step_ok o x Hi Ho) as (y & Hy & Hyi & Hyc); [lia|]. rewrite Hy. cbn [mbind exc_bind].
  destruct (IH y Hyi) as (z & ? & ? & ?); [lia..|]. exists z. split_and!; [done|done|].
  change (ds_now z.1.1 = ds_now x.1.1 + sys_ticks (o :: ops)). lia.
Qed.

End Client.

(** The two systems of the library and their client, spelled out. *)
Section Runs.
Implicit Types (acc dn : list (Z * bool)) (ops : list sys_op).

(** The client of the JEDEC system, as [MemorySystem] drives it: ask, add, tick. *)
Definition j_step (o : sys_op) (x : JedecDRAMSystem * list (Z * bool) * list (Z * bool))
    : exc (JedecDRAMSystem * list (Z * bool) * list (Z * bool)) :=
  let '(s, acc, done) := x in
  match o with
  | SysAdd a w =>
      b ← j_WillAccept s a w;
      if (b : bool) then '(_, s') ← j_Add a w s; ok (s', (a, w) :: acc, done) else ok (s, acc, done)
  | SysTick => '(l, s') ← j_ClockTick s; ok (s', acc, done ++ l)
  end.

(** The client of the ideal system, which accepts all. *)
Definition i_step (o : sys_op) (x : IdealDRAMSystem * list (Z * bool) * list (Z * bool))
    : exc (IdealDRAMSystem * list (Z * bool) * list (Z * bool)) :=
  let '(s, acc, done) := x in
  match o with
  | SysAdd a w => '(_, s') ← i_Add a w s; ok (s', (a, w) :: acc, done)
  | SysTick => '(l, s') ← i_ClockTick s; ok (s', acc, done ++ l)
  end.

(** The requests offered. *)
Definition offers ops : list (Z * bool) := omap (fun o => match o with SysAdd a w => Some (a, w) | SysTick => None end) ops.

Lemma i_run_acc ops s acc dn s' acc' dn' :
  foldE i_step ops (s, acc, dn) = ok (s', acc', dn') → acc' = rev (offers ops) ++ acc.
Proof.
  revert s acc dn. induction ops as [|o ops IH]; intros s acc dn; cbn [foldE]; [by intros [= _ <- _]|].
  destruct o as [a w|]; cbn [i_step].
  - unfold i_Add. cbn [mbind exc_bind]. intros ->%IH. cbn. by rewrite <- app_assoc.
  - destruct (i_ClockTick s) as [[l s1]|e]; cbn [mbind exc_bind]; [|done]. intros ->%IH. done.
Qed.

Lemma j_step_config o x y : j_step o x = ok y → js_config y.1.1 = js_config x.1.1.
Proof.
  destruct x as [[s acc] dn]. destruct o as [a w|]; cbn [j_step].
  - intros (b & _ & H)%exc_bind_ok. destruct b; [|by injection H as <-].
    unfold j_Add in H. apply exc_bind_ok in H as ([? s'] & H & [= <-]).
    apply exc_bind_ok in H as (c & _ & H). destruct (WillAcceptTransaction c w); [|done]. by injection H as _ <-.
  - intros ([l s'] & H & [= <-])%exc_bind_ok. unfold j_ClockTick in H.
    apply exc_bind_ok in H as (d & _ & H). apply exc_bind_ok in H as (cs & _ & H). cbn zeta in H.
    destruct (_ =? 0); [done|]. injection H as _ <-. by destruct (_ =? 0).
Qed.

Lemma j_run_config ops x y : foldE j_step ops x = ok y → js_config y.1.1 = js_config x.1.1.
Proof.
  revert x. induction ops as [|o ops IH]; intros x; cbn [foldE]; [by intros [= <-]|].
  intros (z & Hz & Hy)%exc_bind_ok. rewrite (IH _ Hy). by eapply j_step_config.
Qed.

Lemma new_Jedec_config config s : new_Jedec config = ok s → js_config s = config.
Proof. unfold new_Jedec. destruct (IsHMC config); [done|]. intros (l & _ & [= <-])%exc_bind_ok. done. Qed.

(** (C2) Conservation in the two DRAM systems of the library. The JEDEC system
    just built from a configuration of [jedec_cfg] (no self refresh, and the
    like), whatever requests its client offers and however many ticks (fewer
    than 2^63) pass: no operation fails, and the requests accepted are exactly
    those completed and those its controllers hold; while a channel holds
    fewer requests than the read queue has places, the next read of it is
    accepted. The ideal system accepts every offer and keeps the same balance
    with its buffer. *)
Theorem dram_conservation config s0 ops :
  jedec_cfg config → 0 ≤ cmd_queue_size config → (∀ r, new_Refresh config = ok r → 0 < refresh_interval_ r < 2 ^ 31) →
  new_Jedec config = ok s0 → Forall sys_op_ok ops → sys_ticks ops < 2 ^ 63 →
  (∃ s acc dn, foldE j_step ops (s0, [], []) = ok (s, acc, dn) ∧ js_clk_ s = sys_ticks ops ∧
     acc ≡ₚ dn ++ concat (outstanding <$> ctrls_ s) ∧
     ∀ a, 0 ≤ a → unified_queue config = false →
       Z.of_nat (length (filter (fun r => GetChannel config r.1 = GetChannel config a)
                           (concat (outstanding <$> ctrls_ s)))) < trans_queue_size config →
       j_WillAccept s a false = ok true) ∧
  (∃ s acc dn, foldE i_step ops (new_Ideal config, [], []) = ok (s, acc, dn) ∧ id_clk_ s = sys_ticks ops ∧
     acc = rev (offers ops) ∧ acc ≡ₚ dn ++ (request_of <$> infinite_buffer_q_ s)).
Proof.
  intros Hg Hsz Hr Hn Hops Ht. split.
  - destruct (new_Jedec_inv config s0 Hg Hsz Hn Hr) as (Hi & Ho & Hk).
    destruct (@sys_run_ok JedecDRAMSystem _ Jedec_ok ops (s0, [], []) Hops)
      as ([[s acc] dn] & Hrun & [Hi' Ha] & Hk'); [split; [exact Hi|simpl; by rewrite Ho]|simpl; lia..|].
    pose proof (j_run_config ops _ _ Hrun) as Ec. simpl in Ec, Hk'. rewrite (new_Jedec_config _ _ Hn) in Ec.
    exists s, acc, dn. split_and!; [exact Hrun|lia|exact Ha|]. intros a Hge Hu Hl.
    apply jedec_room; [exact Hi'|exact Hge|]. unfold jedec_capacity. by rewrite Ec, Hu.
  - destruct (@sys_run_ok IdealDRAMSystem _ Ideal_ok ops (new_Ideal config, [], []) Hops)
      as ([[s acc] dn] & Hrun & [_ Ha] & Hk); [done|simpl; lia..|].
    exists s, acc, dn. simpl in Hk. split_and!; [exact Hrun|lia| |exact Ha].
    by rewrite (i_run_acc _ _ _ _ _ _ _ Hrun), app_nil_r.
Qed.
End Runs.

(** ** Instances *)

Section Demo.
Lemma hbm2_jedec : jedec_cfg hbm2.
Proof.
  split; [apply hbm2_ctrl| |done]. intros a Ha.
  assert (map_wf hbm2_map) as Hm by (apply (SetAddressMapping_wf hbm2_sys hbm2_dram hbm2_size); vm_compute; reflexivity).
  destruct (compose_AddressMapping hbm2_map a Hm Ha) as [Hok _].
  assert (∀ t, t ∈ six → 0 ≤ field_of (AddressMapping hbm2 a) t < field_size hbm2_map t) as Hf by exact Hok.
  exact (Hf "ch"%string ltac:(set_solver)).
Qed.

Definition hbm2_system : JedecDRAMSystem :=
  match new_Jedec hbm2 with ok s => s | err _ => MkJedec hbm2 0 0 [] end.

Lemma hbm2_system_new : new_Jedec hbm2 = ok hbm2_system.
Proof.
  assert (exc_ok (new_Jedec hbm2) = true) as Hok by (vm_compute; reflexivity).
  unfold hbm2_system. by destruct (new_Jedec hbm2).
Qed.

Lemma hbm2_system_inv : jedec_inv hbm2_system ∧ jedec_out hbm2_system = [] ∧ js_clk_ hbm2_system = 0.
Proof.
  apply (new_Jedec_inv hbm2 hbm2_system hbm2_jedec ltac:(done) hbm2_system_new).
  intros r Hr. vm_compute in Hr. injection Hr as <-. done.
Qed.

(** Requests to two channels: both are completed within 60 cycles. *)
Definition demo_sys_ops : list sys_op :=
  [SysAdd 4096 false; SysAdd 262144 true; SysTick] ++ replicate 60 SysTick.

Lemma dram_conservation_witness :
  (∃ s acc dn, foldE j_step demo_sys_ops (hbm2_system, [], []) = ok (s, acc, dn) ∧ js_clk_ s = 61 ∧
    acc ≡ₚ dn ++ concat (outstanding <$> ctrls_ s)) ∧
  ∃ s acc dn, foldE i_step demo_sys_ops (new_Ideal hbm2, [], []) = ok (s, acc, dn) ∧
    acc = [(262144, true); (4096, false)] ∧ acc ≡ₚ dn ++ (request_of <$> infinite_buffer_q_ s).
Proof.
  destruct (dram_conservation hbm2 hbm2_system demo_sys_ops hbm2_jedec) as [(s & acc & dn & Hr & Hk & Hp & _) (s' & acc' & dn' & Hr' & _ & Ha & Hp')].
  - discriminate.
  - intros r Hr. vm_compute in Hr. injection Hr as <-. split; reflexivity.
  - exact hbm2_system_new.
  - repeat constructor; discriminate.
  - reflexivity.
  - split; [exists s, acc, dn; split; [exact Hr|split; [exact Hk|exact Hp]]|].
    exists s', acc', dn'. split; [exact Hr'|split; [exact Ha|exact Hp']].
Defined.
End Demo.
