(* ===== verification/ThermalSystem.v ===== *)
(** * The simulator built with its thermal model (DRAMsim3-master/src/controller.cc, dram_system.cc, with THERMAL)

    With the THERMAL option the controllers of a system share a [ThermalCalculator]: each
    command they issue heats its bank, and at the end of an epoch and of the run the
    background energies of the ranks and the maps are handed over and printed. The
    theorems: the thermal build does exactly what the plain build does - the same requests
    accepted, the same completed in the same cycle, the same counters - and the thermal
    model, which is only written to, never makes it fail. *)

From Stdlib Require Import ZArith Lia Ascii String SpecFloat.
From stdpp Require Import strings sets gmap numbers option list.
From S2P Require Import Prelude DramCommon BankState Config Timing ChannelState Stats Power Report ThermalSolver Thermal.
From S2P Require Import CommandQueue Refresh Controller DramSystem.

(** The system: that of the plain build, the figures its statistics compute ([rp_stats] of
    a report is that of the last print), the calculator shared by the controllers, and
    what has been printed. *)
Record ThermalSystem := MkThermalSystem {
  ts_base : JedecDRAMSystem;
  ts_reports : list Reports;
  ts_calc : Thermal;
  ts_out : outputs
}.

Section Build.
Context (config : Config) (th : ThermalParams) (power : PowerParams) (calc : Calculator) (fuel : nat).
Context (fmt_double : double -> string) (dump : gmap string jval -> string) (stat_text : string -> string -> string -> string).
Context (pdgssv : Z -> list double -> list Z -> list (option Z) -> list double -> list double).

(** ** The controller *)

(** [IssueCommand(cmd)]: the thermal module sees it first. *)
Definition t_IssueCommand (cmd : Command) (ct : Controller * Thermal) : exc (Controller * Thermal) :=
  let '(c, t) := ct in
  t ← UpdateCMDPower config th (c_rest calc) power (c_plan calc) (c_mapping calc) (c_offset calc) (channel_id_ c) cmd t;
  c ← IssueCommand config cmd c;
  ok (c, t).

(** The self refresh loop, and the commands of a cycle. *)
Fixpoint t_sref_loop (l : list Z) (ct : Controller * Thermal) : exc (Controller * Thermal) :=
  let '(c, t) := ct in
  match l with
  | [] => ok (c, t)
  | i :: l' =>
      sref ← IsRankSelfRefreshing (channel_state_ c) i;
      empty ← vec_get (rank_q_empty (cmd_queue_ c)) i;
      idle ← vec_get (rank_idle_cycles (channel_state_ c)) i;
      let try ct :=
        cmd ← GetReadyCommand config (channel_state_ c) (sref_cmd ct i) (ct_clk_ c);
        if IsValid cmd then t_IssueCommand cmd (c, t) else t_sref_loop l' (c, t) in
      if (sref : bool) then (if (empty : bool) then t_sref_loop l' (c, t) else try SREF_EXIT)
      else if (empty : bool) && (sref_threshold config <=? idle) then try SREF_ENTER
      else t_sref_loop l' (c, t)
  end.
Definition t_issue_commands (cmd : Command) (ct : Controller * Thermal) : exc (Controller * Thermal) :=
  '(c, t) ← t_IssueCommand cmd ct;
  if enable_hbm_dual_cmd config then
    '(second, q, st) ← GetCommandToIssue config (channel_state_ c) (cmd_queue_ c) (simple_stats_ c);
    let c := c_stats (fun _ => st) (c_cmdq q c) in
    if IsValid second && negb (Bool.eqb (IsReadWrite second) (IsReadWrite cmd)) then
      '(c, t) ← t_IssueCommand second (c, t); ok (c_stats (Increment "hbm_dual_cmds") c, t)
    else ok (c, t)
  else ok (c, t).

(** [Controller::ClockTick()]. *)
Definition t_ClockTick (c : Controller) (t : Thermal) : exc (Controller * Thermal) :=
  '(r, s) ← rf_ClockTick config (refresh_ c) (channel_state_ c);
  let c := c_chan s (c_refresh r c) in
  '(cmd, c) ← pick_command config c;
  '(c, t) ← (if IsValid cmd then t_issue_commands cmd (c, t) else ok (c, t));
  c ← foldE (rank_power config) (zseq (ranks config)) c;
  '(c, t) ← (if enable_self_refresh config && negb (IsValid cmd) then t_sref_loop (zseq (ranks config)) (c, t) else ok (c, t));
  c ← ScheduleTransaction config c;
  let c := c_times (u64 (ct_clk_ c + 1)) (last_trans_clk_ c) c in
  ok (c_stats (Increment "num_cycles") (c_cmdq (cq_ClockTick (cmd_queue_ c)) c), t).

(** [PrintEpochStats()] and [PrintFinalStats()]: the statistics, then the background
    energy of each rank. *)
Definition t_background_energies (ch : Z) (r : Reports) (t : Thermal) : exc Thermal :=
  foldE (fun j t => e ← RankBackgroundEnergy r j; UpdateBackgroundEnergy ch j e t) (zseq (ranks config)) t.
Definition t_PrintEpochStats (c : Controller) (r : Reports) (t : Thermal) (o : outputs) : exc (Controller * Reports * Thermal * outputs) :=
  '(r, o) ← r_PrintEpochStats config power fmt_double dump stat_text (with_stats (Increment "epoch_num" (simple_stats_ c)) r) o;
  t ← t_background_energies (channel_id_ c) r t;
  ok (c_stats (fun _ => rp_stats r) c, r, t, o).
Definition t_PrintFinalStats (c : Controller) (r : Reports) (t : Thermal) (o : outputs) : exc (Controller * Reports * Thermal * outputs) :=
  '(r, o) ← r_PrintFinalStats config power fmt_double dump stat_text (with_stats (simple_stats_ c) r) o;
  t ← t_background_energies (channel_id_ c) r t;
  ok (c_stats (fun _ => rp_stats r) c, r, t, o).

(** ** The system *)

(** [JedecDRAMSystem(config, ...)]: the calculator is that of the base class. *)
Definition new_ThermalSystem (o : outputs) : exc ThermalSystem :=
  s ← new_Jedec config;
  ok (MkThermalSystem s ((fun i => new_Reports (ranks config) i) <$> zseq (channels config)) (c_state calc) o).

(** [BaseDRAMSystem::PrintEpochStats()]. *)
Fixpoint t_print_epochs (cs : list Controller) (l : list Reports) (t : Thermal) (o : outputs)
    : exc (list Controller * list Reports * Thermal * outputs) :=
  match cs, l with
  | c :: cs, r :: l =>
      '(c, r, t, o) ← t_PrintEpochStats c r t o;
      let o := write_app (json_epoch_name config) ("," +:+ nl)%string o in
      '(cs, l, t, o) ← t_print_epochs cs l t o;
      ok (c :: cs, r :: l, t, o)
  | _, _ => ok (cs, l, t, o)
  end.
Definition ts_PrintEpochStats (s : ThermalSystem) : exc ThermalSystem :=
  let clk := js_clk_ (ts_base s) in
  let o := if u64 (clk - epoch_period config) =? 0 then write_trunc (json_epoch_name config) "[" (ts_out s) else ts_out s in
  '(cs, l, t, o) ← t_print_epochs (ctrls_ (ts_base s)) (ts_reports s) (ts_calc s) o;
  t ← PrintTransPT config (c_rest calc) power (c_plan calc) (c_Midx calc) (c_MidxSize calc) (c_Cap calc) (c_iter calc) fuel clk t;
  ok (MkThermalSystem (j_ctrls cs (ts_base s)) l t o).

(** [BaseDRAMSystem::PrintStats()]. *)
Fixpoint t_print_finals (cs : list Controller) (l : list Reports) (t : Thermal) (o : outputs)
    : exc (list Controller * list Reports * Thermal * outputs) :=
  match cs, l with
  | c :: cs, r :: l =>
      '(c, r, t, o) ← t_PrintFinalStats c r t o;
      let o := match cs with [] => o | _ => write_app (json_stats_name config) ("," +:+ nl)%string o end in
      '(cs, l, t, o) ← t_print_finals cs l t o;
      ok (c :: cs, r :: l, t, o)
  | _, _ => ok (cs, l, t, o)
  end.
Definition ts_PrintStats (s : ThermalSystem) : exc ThermalSystem :=
  '(cs, l, t, o) ← t_print_finals (ctrls_ (ts_base s)) (ts_reports s) (ts_calc s)
                     (write_trunc (json_stats_name config) "{" (close_epochs config (ts_out s)));
  t ← PrintFinalPT config (c_rest calc) (c_plan calc) pdgssv (c_Midx calc) (c_MidxSize calc) fuel (js_clk_ (ts_base s)) t;
  ok (MkThermalSystem (j_ctrls cs (ts_base s)) l t (write_app (json_stats_name config) "}" o)).

(** [WillAcceptTransaction] and [AddTransaction] are those of the plain build. *)
Definition ts_Add (hex : Z) (w : bool) (s : ThermalSystem) : exc (bool * ThermalSystem) :=
  '(b, j) ← j_Add hex w (ts_base s); ok (b, MkThermalSystem j (ts_reports s) (ts_calc s) (ts_out s)).

(** [JedecDRAMSystem::ClockTick()]. *)
Fixpoint t_tick_all (cs : list Controller) (t : Thermal) : exc (list Controller * Thermal) :=
  match cs with
  | [] => ok ([], t)
  | c :: cs => '(c, t) ← t_ClockTick c t; '(cs, t) ← t_tick_all cs t; ok (c :: cs, t)
  end.
Definition ts_ClockTick (s : ThermalSystem) : exc (list (Z * bool) * ThermalSystem) :=
  let j := ts_base s in
  done ← mapE (return_done (js_clk_ j)) (ctrls_ j);
  '(cs, t) ← t_tick_all done.*2 (ts_calc s);
  let clk := u64 (js_clk_ j + 1) in
  let s := MkThermalSystem (MkJedec (js_config j) clk (last_req_clk_ j) cs) (ts_reports s) t (ts_out s) in
  let p := u64 (epoch_period config) in
  if p =? 0 then err UndefinedBehaviour
  else
    s ← (if clk mod p =? 0 then ts_PrintEpochStats s else ok s);
    ok (concat done.*1, s).

(** The interface of [BaseDRAMSystem]. *)
Definition Thermal_system : DRAMSystem ThermalSystem := {|
  ds_will_accept s := j_WillAccept (ts_base s);
  ds_add := ts_Add;
  ds_tick := ts_ClockTick;
  ds_channel s := GetChannel (js_config (ts_base s))
|}.
End Build.

(** ** What the controller issues lies in the memory *)

Section Issued.
Context (config : Config) (ch : Z).
Implicit Types (c : Controller) (s : ChannelState) (cmd k : Command) (st : SimpleStats).
Local Notation cmd_in := (cmd_in config ch).

(** What a bank requires for a command is in the memory if the command is. *)
Lemma required_in b k t h : cmd_in k → required_type b k = ok t → cmd_in (MkCommand t (addr k) h).
Proof.
  intros (Hch & Hr & Hk) Ht. split; [done|]. split; [done|]. unfold required_type in Ht. cbn [cmd_type].
  unfold Column, Bankgroup, Bank, Row in *. cbn [addr].
  destruct (state_ b); try discriminate Ht; destruct (cmd_type k); try discriminate Ht;
    try (destruct (_ =? _)); injection Ht as <-; try exact I; exact Hk.
Qed.

Lemma b_ready_in b k clk rc : cmd_in k → b_GetReadyCommand b k clk = ok rc → IsValid rc = true → cmd_in rc.
Proof.
  intros Hk Hr Hv. unfold b_GetReadyCommand in Hr. apply exc_bind_ok in Hr as (t & Ht & Hr). case_decide.
  - apply exc_bind_ok in Hr as (x & _ & Hr). destruct (x <=? clk); injection Hr as <-; [by eapply required_in|by rewrite IsValid_default in Hv].
  - injection Hr as <-. by rewrite IsValid_default in Hv.
Qed.

Lemma rank_ready_in s k clk l rc0 n x :
  cmd_in k → IsRankCMD k = true → (IsValid rc0 = true → cmd_in rc0) → rank_ready s k clk l rc0 n = ok x →
  match x with inl rc | inr (rc, _) => IsValid rc = true → cmd_in rc end.
Proof.
  intros Hk Hrk. revert rc0 n. induction l as [|[j b0] l IH]; intros rc0 n H0 Hx; cbn [rank_ready] in Hx; [by injection Hx as <-|].
  apply exc_bind_ok in Hx as (b & _ & Hx). apply exc_bind_ok in Hx as (rc & Hrc & Hx).
  destruct (IsValid rc) eqn:Hv; [|refine (IH _ _ _ Hx); by rewrite Hv]. case_decide as Hty; [|refine (IH _ _ _ Hx); intros _; by eapply b_ready_in].
  injection Hx as <-. intros _. unfold b_GetReadyCommand in Hrc. apply exc_bind_ok in Hrc as (t & Ht & Hrc).
  case_decide; [|injection Hrc as <-; by rewrite IsValid_default in Hv].
  apply exc_bind_ok in Hrc as (y & _ & Hrc). destruct (y <=? clk); injection Hrc as <-; [|by rewrite IsValid_default in Hv].
  cbn [cmd_type] in *. destruct (rank_required b k t Ht Hrk) as [(? & _)| ->]; [done|]. destruct Hk as (? & ? & _). by split.
Qed.

Lemma ready_in s k clk rc : cmd_in k → GetReadyCommand config s k clk = ok rc → IsValid rc = true → cmd_in rc.
Proof.
  intros Hk Hr Hv. unfold GetReadyCommand in Hr. destruct (IsRankCMD k) eqn:Hrk.
  - apply exc_bind_ok in Hr as (x & Hx & Hr). apply rank_ready_in in Hx; [|done|done|by rewrite IsValid_default].
    destruct x as [y|[y n]]; [injection Hr as <-; by apply Hx|].
    destruct (n =? banks config); injection Hr as <-; [by apply Hx|by rewrite IsValid_default in Hv].
  - apply exc_bind_ok in Hr as (b & _ & Hr). apply exc_bind_ok in Hr as (y & Hy & Hr).
    destruct (IsValid y) eqn:Hvy; [|injection Hr as <-; by rewrite IsValid_default in Hv].
    assert (cmd_in y) as Hyin by by eapply b_ready_in. case_decide; [|by injection Hr as <-].
    apply exc_bind_ok in Hr as (w & _ & Hr). destruct w; injection Hr as <-; [done|by rewrite IsValid_default in Hv].
Qed.

(** The statistics stay as they were registered. *)
Lemma incr_ok n st : bool_decide (n ∈ counter_names) = true → stats_ok config st → stats_ok config (Increment n st).
Proof. intros Hn Hs. apply (stat_step_ok config st (St_incr n) Hs). by apply bool_decide_eq_true in Hn. Qed.
Lemma incr_vec_ok n i st : bool_decide (n ∈ vec_names) = true → stats_ok config st → stats_ok config (IncrementVec n i st).
Proof. intros Hn Hs. apply (stat_step_ok config st (St_vec n i 1) Hs). by apply bool_decide_eq_true in Hn. Qed.
Lemma add_value_ok n v st : bool_decide (n ∈ histo_names) = true → stats_ok config st → stats_ok config (AddValue n v st).
Proof. intros Hn Hs. apply (stat_step_ok config st (St_sample n v) Hs). by apply bool_decide_eq_true in Hn. Qed.

(** *** The queues *)

Local Notation all_in := (Forall cmd_in).

Lemma arbitrate_stats chan pre k rest st b st' :
  ArbitratePrecharge chan pre k rest st = ok (b, st') → stats_ok config st → stats_ok config st'.
Proof.
  unfold ArbitratePrecharge. intros H Hs. destruct (existsb _ pre); [by injection H as _ <-|].
  apply exc_bind_ok in H as (r & _ & H). apply exc_bind_ok in H as (h & _ & H).
  destruct (_ || _); injection H as _ <-; [|done]. apply incr_ok; [reflexivity|done].
Qed.

Lemma first_ready_in chan clk pre rest st cmd st' :
  all_in rest → stats_ok config st → first_ready config chan clk pre rest st = ok (cmd, st') →
  stats_ok config st' ∧ (IsValid cmd = true → cmd_in cmd).
Proof.
  intros Hl. revert pre st. induction Hl as [|k rest Hk Hl IH]; intros pre st Hs H; cbn [first_ready] in H.
  { injection H as <- <-. split; [done|by rewrite IsValid_default]. }
  apply exc_bind_ok in H as (rc & Hrc & H). cbv zeta in H. destruct (IsValid rc) eqn:Hv; [|by eapply IH].
  assert (cmd_in rc) as Hin by by eapply ready_in. case_decide.
  - apply exc_bind_ok in H as ([b st1] & Hb & H). apply arbitrate_stats in Hb; [|done].
    destruct b; [|by eapply IH]. by injection H as <- <-.
  - destruct (IsWrite rc); [|by injection H as <- <-]. destruct (HasRWDependency pre k); [by eapply IH|by injection H as <- <-].
Qed.

Lemma queue_get q i l : Forall all_in (queues_ q) → vec_get (queues_ q) i = ok l → all_in l.
Proof. intros Hq Hl%vec_get_ok. rewrite Forall_forall in Hq. by eapply Hq, zget_elem. Qed.
Lemma erase_in cmd q q' : EraseRWCommand config cmd q = ok q' → Forall all_in (queues_ q) → Forall all_in (queues_ q').
Proof.
  unfold EraseRWCommand, GetQueue. intros (l & Hl & H)%exc_bind_ok Hq. destruct (existsb _ l); [|discriminate H]. injection H as <-.
  cbn [queues_ with_queues]. apply zset_Forall; [done|]. apply queue_get in Hl; [|done]. rewrite Forall_forall in Hl |- *.
  intros k Hk. by eapply Hl, erase_first_sub.
Qed.

Lemma issue_loop_in n chan q st cmd q' st' :
  Forall all_in (queues_ q) → stats_ok config st → issue_loop config n chan q st = ok (cmd, q', st') →
  Forall all_in (queues_ q') ∧ stats_ok config st' ∧ (IsValid cmd = true → cmd_in cmd).
Proof.
  revert q st. induction n as [|n IH]; intros q st Hq Hs H; cbn [issue_loop] in H.
  { injection H as <- <- <-. split; [done|]. split; [done|by rewrite IsValid_default]. }
  apply exc_bind_ok in H as ([l q1] & Hn & H). unfold GetNextQueue in Hn. apply exc_bind_ok in Hn as (l0 & Hl0 & Hn). injection Hn as -> <-.
  apply queue_get in Hl0; [|done]. destruct (_ && _); [refine (IH _ _ _ _ H); done|].
  apply exc_bind_ok in H as ([k st1] & Hk & H). apply first_ready_in in Hk as [Hs1 Hk]; [|done|done].
  destruct (IsValid k) eqn:Hv; [|refine (IH _ _ _ _ H); done]. apply exc_bind_ok in H as (q2 & Hq2 & H). injection H as <- <- <-.
  split; [|split; [done|by intros _; apply Hk]]. destruct (IsReadWrite k); [by eapply erase_in|by injection Hq2 as <-].
Qed.

Lemma AddCommand_in cmd q b q' :
  cmd_in cmd → Forall all_in (queues_ q) → AddCommand config cmd q = ok (b, q') → Forall all_in (queues_ q').
Proof.
  unfold AddCommand, GetQueue. intros Hc Hq (l & Hl & H)%exc_bind_ok. destruct (_ <? _); [|by injection H as _ <-].
  apply exc_bind_ok in H as (r & _ & H). injection H as _ <-. cbn [queues_ with_queues with_rank_empty].
  apply zset_Forall; [done|]. apply Forall_app. split; [by eapply queue_get|by apply Forall_singleton].
Qed.

Lemma FinishRefresh_in chan q cmd q' :
  all_in (refresh_q_ chan) → FinishRefresh config chan q = ok (cmd, q') →
  queues_ q' = queues_ q ∧ (IsValid cmd = true → cmd_in cmd).
Proof.
  unfold FinishRefresh, PendingRefCommand. intros Hr (r & Hr0 & H)%exc_bind_ok. cbv zeta in H.
  assert (cmd_in r) as Hrin.
  { apply opt_exc_ok in Hr0. destruct (refresh_q_ chan) as [|r0 l]; [discriminate Hr0|]. injection Hr0 as <-. by apply Forall_cons in Hr as [? _]. }
  set (q1 := if is_in_ref_ q then q else _) in H. assert (queues_ q1 = queues_ q) as Eq.
  { unfold q1, GetRefQIndices. destruct (is_in_ref_ q); [done|]. case_decide; [destruct (queue_structure_ q)|]; done. }
  apply exc_bind_ok in H as (k & Hk & H). rewrite <- Eq. destruct (IsRefresh k); injection H as <- <-; (split; [done|]); intros Hv; by eapply ready_in.
Qed.
End Issued.

(** *** The invariant of a controller *)

Section Observed.
Context (config : Config) (ch : Z).
Implicit Types (c : Controller) (s : ChannelState) (cmd k : Command) (st : SimpleStats).
Local Notation cmd_in := (cmd_in config ch).
Local Notation all_in := (Forall cmd_in).

(** Whatever the controller holds, and will make, lies in the memory. *)
Record observed c : Prop := {
  ob_id : channel_id_ c = ch;
  ob_queues : Forall all_in (queues_ (cmd_queue_ c));
  ob_refq : all_in (refresh_q_ (channel_state_ c));
  ob_next : in_range config (counters (refresh_ c));
  ob_addr : Forall (fun t => 0 ≤ t_addr t) (all_trans c);
  ob_stats : stats_ok config (simple_stats_ c)
}.

(** The configurations: a memory with rows and columns, and a mapping into it. *)
Definition located : Prop := ∀ a, 0 ≤ a → let A := AddressMapping config a in
  in_range config (rank A, bankgroup A, bank A) ∧ 0 ≤ row A < rows config ∧ 0 ≤ column A ∧ column A + BL config ≤ columns config.
Context (Hch : 0 ≤ ch < channels config) (Hsh : shape_ok config) (Hcol : 0 ≤ columns config) (Hloc : located).

Lemma ob_c_stats f c : observed c → stats_ok config (f (simple_stats_ c)) → observed (c_stats f c).
Proof using. intros [] ?. by split. Qed.
Lemma ob_c_chan s c : observed c → all_in (refresh_q_ s) → observed (c_chan s c).
Proof using. intros [] ?. by split. Qed.
Lemma ob_c_cmdq q c : observed c → Forall all_in (queues_ q) → observed (c_cmdq q c).
Proof using. intros [] ?. by split. Qed.
Lemma ob_c_pending rd wr ret c : observed c → observed (c_pending rd wr ret c).
Proof using. intros []. by split. Qed.

Lemma rank_refresh_in r : 0 ≤ r < ranks config → cmd_in (MkCommand REFRESH (MkAddress (-1) r (-1) (-1) (-1) (-1)) (u64 (-1))).
Proof using Hch Hcol. intros Hr. split; [done|]. split; [done|]. unfold Column. cbn. lia. Qed.
Lemma bank_refresh_in p : in_range config p →
  cmd_in (MkCommand REFRESH_BANK (MkAddress (-1) p.1.1 p.1.2 p.2 (-1) (-1)) (u64 (-1))).
Proof using Hch Hcol. intros (Hr & Hg & Hb). split; [done|]. split; [done|]. unfold Column, Bankgroup, Bank. cbn. split; [lia|by split]. Qed.

(** A cycle of the refresh generator. *)
Lemma refresh_observed c r s :
  observed c → rf_ClockTick config (refresh_ c) (channel_state_ c) = ok (r, s) → observed (c_chan s (c_refresh r c)).
Proof using Hch Hsh Hcol.
  intros [H1 H2 H3 H4 H5 H6] H. assert (all_in (refresh_q_ s) ∧ in_range config (counters r)) as [Hq Hn]; [|by split].
  unfold rf_ClockTick in H. destruct (_ =? 0); [discriminate H|]. apply exc_bind_ok in H as ([r1 s1] & Hi & H). injection H as <- <-.
  enough (all_in (refresh_q_ s1) ∧ in_range config (counters r1)) as [? ?] by done.
  destruct (_ && _); [|by injection Hi as <- <-]. unfold InsertRefresh in Hi.
  assert (∀ r', refresh_policy config ≠ RANK_LEVEL_SIMULTANEOUS → IterateNext config (refresh_ c) = ok r' → in_range config (counters r')) as Hnext.
  { intros r' Hp Hr'. destruct (IterateNext_range config (refresh_ c) Hsh Hp H4) as (r2 & E & Hin & _). rewrite E in Hr'. by injection Hr' as <-. }
  destruct (refresh_policy config) eqn:Ep.
  - apply exc_bind_ok in Hi as (s2 & Hs2 & Hi). injection Hi as <- <-. split; [|done].
    assert (∀ i, i ∈ zseq (ranks config) → 0 ≤ i < ranks config) as Hl by (intros i; apply elem_of_zseq).
    revert Hl Hs2. induction (zseq (ranks config)) as [|i l IH]; intros Hl Hs2; cbn [refresh_first] in Hs2; [by injection Hs2 as <-|].
    apply exc_bind_ok in Hs2 as (b & _ & Hs2). destruct b; [apply IH; [intros; apply Hl; by right|done]|]. injection Hs2 as <-.
    apply Forall_app. split; [done|]. apply Forall_singleton, rank_refresh_in, Hl. by left.
  - apply exc_bind_ok in Hi as (b & _ & Hi). apply exc_bind_ok in Hi as (r2 & Hr2 & Hi). injection Hi as <- <-.
    split; [|by apply Hnext]. destruct b; [done|]. apply Forall_app. split; [done|]. apply Forall_singleton, rank_refresh_in, H4.
  - apply exc_bind_ok in Hi as (b & _ & Hi). apply exc_bind_ok in Hi as (r2 & Hr2 & Hi). injection Hi as <- <-.
    split; [|by apply Hnext]. destruct b; [done|]. apply Forall_app. split; [done|]. by apply Forall_singleton, (bank_refresh_in (counters (refresh_ c))).
Qed.

Lemma fetch_observed c cmd q st :
  observed c → GetCommandToIssue config (channel_state_ c) (cmd_queue_ c) (simple_stats_ c) = ok (cmd, q, st) →
  observed (c_stats (fun _ => st) (c_cmdq q c)) ∧ (IsValid cmd = true → cmd_in cmd).
Proof using.
  intros Hc H. apply (issue_loop_in config ch) in H as (Hq & Hs & Hv); [|apply Hc|apply Hc]. split; [|done].
  apply ob_c_stats; [by apply ob_c_cmdq|done].
Qed.

Lemma pick_observed c cmd c' :
  observed c → pick_command config c = ok (cmd, c') → observed c' ∧ (IsValid cmd = true → cmd_in cmd).
Proof using.
  intros Hc H. unfold pick_command in H. apply exc_bind_ok in H as ([k c1] & H1 & H).
  assert (observed c1 ∧ (IsValid k = true → cmd_in k)) as [Hc1 Hk].
  { destruct (IsRefreshWaiting (channel_state_ c)); [|injection H1 as <- <-; split; [done|by rewrite IsValid_default]].
    apply exc_bind_ok in H1 as ([k1 q] & Hf & H1). injection H1 as <- <-. apply (FinishRefresh_in config ch) in Hf as [Eq Hv]; [|apply Hc].
    split; [|done]. apply ob_c_cmdq; [done|]. rewrite Eq. apply Hc. }
  destruct (IsValid k) eqn:Hv; [injection H as <- <-; split; [done|intros _; by apply Hk]|]. apply exc_bind_ok in H as ([[k2 q] st] & Hf & H). injection H as <- <-.
  by eapply fetch_observed.
Qed.

Lemma UpdateCommandStats_observed cmd c c' : observed c → UpdateCommandStats cmd c = ok c' → observed c'.
Proof using.
  intros Hc H. unfold UpdateCommandStats in H. cbv zeta in H.
  destruct (cmd_type cmd); try discriminate H; try (apply exc_bind_ok in H as (n & _ & H)); injection H as <-;
    apply ob_c_stats; try done; try (destruct (negb (n =? 0))); repeat (apply incr_ok; [reflexivity|]); apply Hc.
Qed.

Lemma issue_pending_observed cmd c c' : observed c → issue_pending config cmd c = ok c' → observed c'.
Proof using.
  intros Hc H. unfold issue_pending in H. cbv zeta in H. destruct (IsRead cmd).
  - case_decide; [discriminate H|]. apply exc_bind_ok in H as ([p r] & _ & H). injection H as <-. by apply ob_c_pending.
  - destruct (IsWrite cmd); [|by injection H as <-]. apply exc_bind_ok in H as ([t p] & _ & H). injection H as <-.
    apply ob_c_stats; [by apply ob_c_pending|]. apply add_value_ok; [reflexivity|apply Hc].
Qed.

Lemma IssueCommand_observed cmd c c' : observed c → IssueCommand config cmd c = ok c' → observed c'.
Proof using.
  intros Hc H. unfold IssueCommand in H. apply exc_bind_ok in H as (c1 & H1 & H). apply exc_bind_ok in H as (c2 & H2 & H).
  apply exc_bind_ok in H as (s & Hs & H). injection H as <-.
  apply issue_pending_observed in H1; [|done]. apply UpdateCommandStats_observed in H2; [|done].
  apply ob_c_chan; [done|]. apply UpdateTimingAndStates_frame in Hs as (_ & Hq & _).
  pose proof (ob_refq _ H2) as Hr. rewrite Forall_forall in Hr |- *. intros k Hk. by apply Hr, Hq.
Qed.

Lemma rank_power_observed i c c' : observed c → rank_power config i c = ok c' → observed c'.
Proof using.
  intros Hc H. unfold rank_power in H. apply exc_bind_ok in H as (b & _ & H). destruct b.
  - injection H as <-. apply ob_c_stats; [done|]. apply incr_vec_ok; [reflexivity|apply Hc].
  - apply exc_bind_ok in H as (idle & _ & H). apply exc_bind_ok in H as (v & _ & H). cbv zeta in H.
    destruct idle; injection H as <-; (apply ob_c_chan; [|apply Hc]); (apply ob_c_stats; [done|]); apply incr_vec_ok; try reflexivity; apply Hc.
Qed.

(** What a transaction becomes. *)
Lemma trans_in pol t : 0 ≤ t_addr t → cmd_in (TransToCommand config pol t).
Proof using Hch Hloc.
  intros Ha. destruct (Hloc (t_addr t) Ha) as ((Hr & Hg & Hb) & Hrow & Hc1 & Hc2). split; [done|]. split; [done|].
  unfold TransToCommand. destruct pol, (is_write t); exact (conj Hg (conj Hb (conj Hrow (conj Hc1 Hc2)))).
Qed.

Lemma schedule_loop_observed sv pre rest c c' :
  observed c → served_elts sv c = pre ++ rest → schedule_loop config sv pre rest c = ok c' → observed c'.
Proof using Hch Hloc.
  intros Hc. revert pre. induction rest as [|t rest IH]; intros pre Hsv H; cbn [schedule_loop] in H; [by injection H as <-|].
  cbv zeta in H. apply exc_bind_ok in H as (b & _ & H). destruct b; [|eapply IH; [|exact H]; by rewrite <- app_assoc].
  destruct (_ && bool_decide _); [injection H as <-; destruct Hc; by split|].
  set (c1 := if _ && _ then c_draining _ c else c) in H.
  assert (∀ q, all_trans c ≡ₚ t :: all_trans (set_served sv (pre ++ rest) (c_cmdq q c1))) as Hperm.
  { intros q. assert (served_elts sv c1 = pre ++ t :: rest ∧ all_trans c1 = all_trans c) as [E1 <-]
      by (unfold c1; destruct (_ && _); [by destruct sv|done]). by apply served_perm. }
  assert (observed c1 ∧ cmd_queue_ c1 = cmd_queue_ c) as [Hc1 Eq] by (unfold c1; destruct (_ && _); [destruct Hc; by split|done]).
  apply exc_bind_ok in H as ([b q] & Hadd & H). injection H as <-. pose proof (ob_addr _ Hc) as Ha. rewrite (Hperm q) in Ha.
  apply Forall_cons in Ha as [Ht Ha]. rewrite Eq in Hadd. apply (AddCommand_in config ch) in Hadd; [|by apply trans_in|apply Hc].
  destruct Hc1. destruct sv; by split.
Qed.

Lemma schedule_observed c c' : observed c → ScheduleTransaction config c = ok c' → observed c'.
Proof using Hch Hloc.
  intros Hc H. unfold ScheduleTransaction in H. cbv zeta in H. set (c1 := if _ && negb _ then _ else c) in H.
  assert (observed c1) as Hc1 by (unfold c1; repeat case_match; try done; destruct Hc; by split).
  by eapply (schedule_loop_observed _ [] _ c1).
Qed.

Lemma tick_end_observed c : observed c →
  observed (c_stats (Increment "num_cycles")
    (c_cmdq (cq_ClockTick (cmd_queue_ c)) (c_times (u64 (ct_clk_ c + 1)) (last_trans_clk_ c) c))).
Proof using. intros []. split; try done. by apply incr_ok. Qed.

(** *** Requests *)

Lemma enqueue_observed t c : observed c → 0 ≤ t_addr t → observed (enqueue t c).
Proof using.
  intros Hc Ht. assert (Forall (fun t => 0 ≤ t_addr t) (all_trans (enqueue t c))) as Hall by (rewrite enqueue_perm; constructor; [done|apply Hc]).
  revert Hall. unfold enqueue. destruct Hc. destruct (is_unified_queue_ c), (is_write t); intros; by split.
Qed.

Lemma AddTransaction_observed t c : observed c → 0 ≤ t_addr t → observed (AddTransaction t c).
Proof using.
  intros Hc Ht. unfold AddTransaction. cbv zeta. set (c1 := c_times _ _ _). set (t1 := with_added _ t).
  assert (observed c1) as Hc1.
  { destruct Hc. split; try done. by apply add_value_ok. }
  assert (0 ≤ t_addr t1) as Ht1 by done. clearbody c1 t1.
  destruct (is_write t1); [|case_decide]; [apply ob_c_pending; case_decide; [apply enqueue_observed; [by apply ob_c_pending|done]|done]|by apply ob_c_pending|].
  case_decide; [apply enqueue_observed; [|done]|]; by apply ob_c_pending.
Qed.

Lemma ReturnDone_observed clk c r c' : observed c → ReturnDoneTrans clk c = (r, c') → observed c'.
Proof using.
  intros Hc H. unfold ReturnDoneTrans in H. destruct (take_done clk _) as [[t rest]|]; [|by injection H as _ <-].
  cbv zeta in H. injection H as _ <-. destruct (is_write t); (apply ob_c_stats; [by apply ob_c_pending|]).
  - apply incr_ok; [reflexivity|apply Hc].
  - apply add_value_ok; [reflexivity|]. apply incr_ok; [reflexivity|apply Hc].
Qed.

Lemma return_done_observed clk c l c' : observed c → return_done clk c = ok (l, c') → observed c'.
Proof using.
  intros Hc. unfold return_done. generalize (length (return_queue_ c)) as n. intros n. revert c l Hc.
  induction n as [|n IH]; intros c l Hc H; cbn [drain_done] in H; destruct (ReturnDoneTrans clk c) as [[r|] c1] eqn:Hr;
    apply ReturnDone_observed in Hr; try done.
  - by injection H as _ <-.
  - apply exc_bind_ok in H as ([l1 c2] & H1 & H). injection H as _ <-. by eapply IH.
  - by injection H as _ <-.
Qed.

Lemma new_observed c : new_Controller config ch = ok c → observed c.
Proof using Hsh.
  intros H. unfold new_Controller in H. apply exc_bind_ok in H as (q & Hq & H). apply exc_bind_ok in H as (r & Hr & H). cbv zeta in H. injection H as <-.
  split; cbn.
  - done.
  - unfold new_cmd_queue in Hq. apply exc_bind_ok in Hq as ([qs n] & _ & Hq). injection Hq as <-. cbn [queues_]. by apply Forall_replicate.
  - constructor.
  - unfold new_Refresh in Hr. apply exc_bind_ok in Hr as (i & _ & Hr). injection Hr as <-. destruct Hsh. unfold counters, in_range. cbn. lia.
  - unfold all_trans. cbn. destruct (unified_queue config); cbn; rewrite ?cv_reserve_nil; constructor.
  - apply new_stats_ok.
Qed.
End Observed.

(** ** The thermal build tracks the plain one *)

Section Tracking.
Context (config : Config) (th : ThermalParams) (power : PowerParams) (calc : Calculator) (fuel : nat).
Context (fmt_double : double -> string) (dump : gmap string jval -> string) (stat_text : string -> string -> string -> string).
Context (pdgssv : Z -> list double -> list Z -> list (option Z) -> list double -> list double).

(** What is asked of the configuration: a stacked memory whose banks fit the floor plan,
    as for the thermal model alone, and a mapping of addresses into it. *)
Record thermal_cfg : Prop := {
  tc_new : new_ThermalCalculator fuel config th power = ok calc;
  tc_stacked : IsHMC config || IsHBM config = true;
  tc_burst : 0 ≤ BL config;
  tc_grid : grid_ok config th (c_rest calc);
  tc_floor : floor_shape config (c_plan calc);
  tc_mapping : mapping_ok config (c_mapping calc) (c_offset calc);
  tc_solver n a asub xa rhs : length (pdgssv n a asub xa rhs) = length rhs;
  tc_located : located config
}.
Context (Hcfg : thermal_cfg).
Implicit Types (c : Controller) (t : Thermal) (cmd : Command).
Local Notation calc_ok := (calc_ok config (c_rest calc) (c_plan calc)).
Local Notation t_IssueCommand := (t_IssueCommand config th power calc).
Local Notation t_issue_commands := (t_issue_commands config th power calc).
Local Notation t_sref_loop := (t_sref_loop config th power calc).
Local Notation t_ClockTick := (t_ClockTick config th power calc).

Lemma cfg_shape : shape_ok config ∧ 0 ≤ columns config.
Proof using Hcfg.
  destruct (tc_grid Hcfg) as [? ? ? ? ? ? ? (? & ? & ?) [? ?]]. split; [|nia]. split; [lia|lia|done|lia].
Qed.

(** A step of the plain controller and the same step in the thermal build: both fail in
    the same way, or both reach the same controller. *)
Definition tracks (ch : Z) (m : exc Controller) (mt : exc (Controller * Thermal)) : Prop :=
  match m with
  | ok c => observed config ch c ∧ ∃ t, mt = ok (c, t) ∧ calc_ok t
  | err e => mt = err e
  end.

Lemma tracks_bind ch m mt f ft :
  tracks ch m mt → (∀ c t, observed config ch c → calc_ok t → tracks ch (f c) (ft (c, t))) → tracks ch (m ≫= f) (mt ≫= ft).
Proof using. destruct m as [c|e]; [intros (Hc & t & -> & Ht) Hf; by apply Hf|by intros ->]. Qed.
Lemma tracks_same {A} ch (m : exc A) f ft : (∀ a, m = ok a → tracks ch (f a) (ft a)) → tracks ch (m ≫= f) (m ≫= ft).
Proof using. destruct m as [a|e]; [intros H; by apply H|done]. Qed.
Lemma tracks_ok ch c t : observed config ch c → calc_ok t → tracks ch (ok c) (ok (c, t)).
Proof using. intros Hc Ht. split; [done|]. by exists t. Qed.

Lemma IssueCommand_tracks ch cmd c t :
  observed config ch c → calc_ok t → cmd_in config ch cmd → tracks ch (IssueCommand config cmd c) (t_IssueCommand cmd (c, t)).
Proof using Hcfg.
  intros Hc Ht Hin. cbn [ThermalSystem.t_IssueCommand]. rewrite (ob_id _ _ _ Hc).
  destruct (new_calculator_parts _ _ _ _ _ (tc_new Hcfg)) as (Hp & _).
  destruct (floor_ok_all config th (c_rest calc) (c_plan calc) (tc_grid Hcfg) Hp (tc_floor Hcfg)) as (VX & VY & [Hfl _]).
  destruct (UpdateCMDPower_ok config th (c_rest calc) power (c_plan calc) (c_mapping calc) (c_offset calc) VX VY (tc_grid Hcfg) Hfl
    (tc_mapping Hcfg) ch cmd t Ht Hin (tc_burst Hcfg)) as (t' & -> & Ht' & _). cbn [mbind exc_bind].
  destruct (IssueCommand config cmd c) as [c'|e] eqn:E; [|done]. apply tracks_ok; [|done]. by eapply IssueCommand_observed.
Qed.

Lemma issue_commands_tracks ch cmd c t :
  observed config ch c → calc_ok t → cmd_in config ch cmd → tracks ch (issue_commands config cmd c) (t_issue_commands cmd (c, t)).
Proof using Hcfg.
  intros Hc Ht Hin. unfold issue_commands, ThermalSystem.t_issue_commands.
  apply tracks_bind; [by apply IssueCommand_tracks|]. intros c1 t1 Hc1 Ht1. destruct (enable_hbm_dual_cmd config); [|by apply tracks_ok].
  apply tracks_same. intros [[second q] st] Hf. apply (fetch_observed config ch) in Hf as [Hc2 Hv]; [|done]. cbv zeta.
  destruct (IsValid second); [|by apply tracks_ok]. destruct (negb _); [|by apply tracks_ok]. cbn [andb].
  apply tracks_bind; [by apply IssueCommand_tracks; [..|apply Hv]|]. intros c3 t3 Hc3 Ht3. apply tracks_ok; [|done].
  apply ob_c_stats; [done|]. apply incr_ok; [reflexivity|apply Hc3].
Qed.

Lemma sref_loop_tracks ch l c t :
  0 ≤ ch < channels config → (∀ i, i ∈ l → 0 ≤ i < ranks config) → observed config ch c → calc_ok t →
  tracks ch (sref_loop config l c) (t_sref_loop l (c, t)).
Proof using Hcfg.
  intros Hch Hl Hc Ht. induction l as [|i l IH]; cbn [sref_loop ThermalSystem.t_sref_loop]; [by apply tracks_ok|].
  assert (tracks ch (sref_loop config l c) (t_sref_loop l (c, t))) as Hnext by (apply IH; intros; apply Hl; by right).
  do 3 (apply tracks_same; intros ? _). cbv zeta.
  assert (∀ ct, ct = SREF_EXIT ∨ ct = SREF_ENTER → tracks ch
    (cmd ← GetReadyCommand config (channel_state_ c) (sref_cmd ct i) (ct_clk_ c); if IsValid cmd then IssueCommand config cmd c else sref_loop config l c)
    (cmd ← GetReadyCommand config (channel_state_ c) (sref_cmd ct i) (ct_clk_ c); if IsValid cmd then t_IssueCommand cmd (c, t) else t_sref_loop l (c, t))) as Htry.
  { intros ct Hct. apply tracks_same. intros cmd Hcmd. destruct (IsValid cmd) eqn:Hv; [|done]. apply IssueCommand_tracks; [done..|].
    eapply (ready_in config ch); [|exact Hcmd|done]. split; [done|]. split; [apply Hl; left|]. by destruct Hct as [->| ->]. }
  repeat case_match; try done; by apply Htry; auto.
Qed.

(** One cycle of a controller. *)
Lemma ClockTick_tracks ch c t :
  0 ≤ ch < channels config → observed config ch c → calc_ok t → tracks ch (ctrl_ClockTick config c) (t_ClockTick c t).
Proof using Hcfg.
  intros Hch Hc Ht. destruct cfg_shape as [Hsh Hcol]. pose proof (tc_located Hcfg) as Hloc. unfold ctrl_ClockTick, ThermalSystem.t_ClockTick.
  apply tracks_same. intros [r s] Hr. apply (refresh_observed config ch Hch Hsh Hcol) in Hr; [|done]. cbv zeta.
  apply tracks_same. intros [cmd c1] Hp. apply (pick_observed config ch) in Hp as [Hc1 Hv]; [|done].
  apply tracks_bind; [destruct (IsValid cmd); [by apply issue_commands_tracks; [..|apply Hv]|by apply tracks_ok]|]. intros c2 t2 Hc2 Ht2.
  apply tracks_same. intros c3 Hp3. assert (observed config ch c3) as Hc3.
  { refine (foldE_inv (observed config ch) _ _ _ _ _ Hc2 Hp3). intros i c4 c5 _. by apply rank_power_observed. }
  apply tracks_bind.
  { destruct (_ && _); [|by apply tracks_ok]. apply sref_loop_tracks; [done| |done|done]. intros i. by apply elem_of_zseq. }
  intros c4 t4 Hc4 Ht4. apply tracks_same. intros c5 Hs. apply (schedule_observed config ch Hch Hloc) in Hs; [|done].
  apply tracks_ok; [|done]. exact (tick_end_observed config ch c5 Hs).
Qed.
End Tracking.

(** ** The system *)

Section System.
Context (config : Config) (th : ThermalParams) (power : PowerParams) (calc : Calculator) (fuel : nat).
Context (fmt_double : double -> string) (dump : gmap string jval -> string) (stat_text : string -> string -> string -> string).
Context (pdgssv : Z -> list double -> list Z -> list (option Z) -> list double -> list double).
Context (Hcfg : thermal_cfg config th power calc fuel pdgssv).
Implicit Types (c : Controller) (t : Thermal) (cs : list Controller) (r : Reports) (l : list Reports) (o : outputs) (s : ThermalSystem).
Local Notation calc_ok := (calc_ok config (c_rest calc) (c_plan calc)).
Local Notation observed := (observed config).

(** The controllers from channel [k] on. *)
Fixpoint in_order (k : Z) (cs : list Controller) : Prop :=
  match cs with [] => True | c :: cs => observed k c ∧ in_order (k + 1) cs end.

Lemma in_order_get k cs i c : in_order k cs → zget cs i = Some c → observed (k + i) c.
Proof using.
  intros Hcs [Hi Hc]%zget_Some. rewrite <- (Z2Nat.id i) by done. revert k cs Hcs Hc. generalize (Z.to_nat i) as n. clear i Hi.
  induction n as [|n IH]; intros k [|c0 cs] Hcs Hc; try discriminate Hc; destruct Hcs as [H0 Hcs].
  - injection Hc as <-. by rewrite Z.add_0_r.
  - replace (k + Z.of_nat (S n)) with (k + 1 + Z.of_nat n) by lia. by eapply IH.
Qed.
Lemma in_order_insert k cs n c : in_order k cs → observed (k + Z.of_nat n) c → in_order k (<[n := c]> cs).
Proof using.
  revert k cs. induction n as [|n IH]; intros k [|c0 cs] Hcs Hc; try done; destruct Hcs as [H0 Hcs].
  - by rewrite Z.add_0_r in Hc.
  - split; [done|]. apply IH; [done|]. by replace (k + 1 + Z.of_nat n) with (k + Z.of_nat (S n)) by lia.
Qed.

(** All channels are in order, with their reports between two prints. *)
Record ts_inv s : Prop := {
  ti_config : js_config (ts_base s) = config;
  ti_ctrls : in_order 0 (ctrls_ (ts_base s));
  ti_len : Z.of_nat (length (ctrls_ (ts_base s))) = channels config;
  ti_reports : Forall (rep_clean config) (ts_reports s) ∧ length (ts_reports s) = length (ctrls_ (ts_base s));
  ti_calc : calc_ok (ts_calc s)
}.

(** *** Printing *)

Lemma background_energies_ok ch r t :
  0 ≤ ch < channels config → rep_ok config r → calc_ok t → ∃ t', t_background_energies config ch r t = ok t' ∧ calc_ok t'.
Proof using.
  intros Hch Hr Ht. apply (foldE_total calc_ok); [|done]. intros j t1 Hj%elem_of_zseq Ht1.
  destruct (RankBackgroundEnergy_ok config r j Hr Hj) as [e ->]. cbn [mbind exc_bind].
  destruct (UpdateBackgroundEnergy_ok config (c_rest calc) (c_plan calc) ch j e t1 Ht1 Hch Hj) as (t2 & ? & ? & _). by exists t2.
Qed.

Lemma print_epochs_agree k cs l t o :
  0 ≤ k → k + Z.of_nat (length cs) ≤ channels config → in_order k cs → Forall (rep_clean config) l → length l = length cs → calc_ok t →
  ∃ l' t' o', t_print_epochs config power fmt_double dump stat_text cs l t o = ok (ctrl_PrintEpochStats <$> cs, l', t', o') ∧
    in_order k (ctrl_PrintEpochStats <$> cs) ∧ Forall (rep_clean config) l' ∧ length l' = length cs ∧ calc_ok t'.
Proof using.
  intros Hk Hlen Hcs Hl. revert k l t o Hk Hlen Hcs Hl. induction cs as [|c cs IH]; intros k [|r l] t o Hk Hlen Hcs Hl Hn Ht; try discriminate Hn.
  { by exists [], t, o. }
  destruct Hcs as [Hc Hcs]. apply Forall_cons in Hl as [[Hr Hp] Hl]. cbn [length] in Hlen, Hn. cbn [t_print_epochs]. unfold t_PrintEpochStats.
  assert (stats_ok config (Increment "epoch_num" (simple_stats_ c))) as Hst by (apply incr_ok; [reflexivity|apply Hc]).
  destruct (PrintEpochStats_ok config power fmt_double dump stat_text (with_stats (Increment "epoch_num" (simple_stats_ c)) r) o (with_stats_ok _ _ _ Hr Hst) Hp)
    as (r' & o1 & -> & Hr' & Hp' & Es & _). cbn [mbind exc_bind].
  rewrite (ob_id _ _ _ Hc). destruct (background_energies_ok k r' t ltac:(lia) Hr' Ht) as (t1 & -> & Ht1). cbn [mbind exc_bind].
  destruct (IH (k + 1) l t1 (write_app (json_epoch_name config) ("," +:+ nl)%string o1)) as (l' & t' & o' & -> & Hcs' & Hl' & Hn' & Ht'); [lia|lia|done|done|lia|done|].
  cbn [mbind exc_bind]. exists (r' :: l'), t', o'. rewrite Es. split; [done|]. split; [|split; [by constructor|split; [simpl; lia|done]]].
  split; [|done]. apply ob_c_stats; [done|]. by apply UpdateEpochStats_ok.
Qed.

Lemma t_print_finals_ok k cs l t o :
  0 ≤ k → k + Z.of_nat (length cs) ≤ channels config → in_order k cs → Forall (rep_clean config) l → calc_ok t →
  ∃ cs' l' t' o', t_print_finals config power fmt_double dump stat_text cs l t o = ok (cs', l', t', o') ∧ calc_ok t'.
Proof using.
  intros Hk Hlen Hcs Hl. revert k l t o Hk Hlen Hcs Hl. induction cs as [|c cs IH]; intros k [|r l] t o Hk Hlen Hcs Hl Ht;
    try (eexists _, _, _, _; split; [reflexivity|done]).
  destruct Hcs as [Hc Hcs]. apply Forall_cons in Hl as [[Hr Hp] Hl]. cbn [length] in Hlen. cbn [t_print_finals]. unfold t_PrintFinalStats, r_PrintFinalStats.
  destruct (final_ok config power fmt_double (with_stats (simple_stats_ c) r) (with_stats_ok _ _ _ Hr (ob_stats _ _ _ Hc)) Hp) as (r1 & rl & ia & -> & Hr1 & _).
  cbn [mbind exc_bind]. destruct (header_ok config true r1 Hr1) as [h Hh]. rewrite Hh.
  assert (∀ o1, ∃ cs' l' t' o', ('(c, r, t, o) ← (t ← t_background_energies config (channel_id_ c) (with_prints (j_data_ r1) [] r1) t;
      ok (c_stats (fun _ => rp_stats (with_prints (j_data_ r1) [] r1)) c, with_prints (j_data_ r1) [] r1, t, o1));
    let o := match cs with [] => o | _ => write_app (json_stats_name config) ("," +:+ nl)%string o end in
    '(cs, l, t, o) ← t_print_finals config power fmt_double dump stat_text cs l t o; ok (c :: cs, r :: l, t, o)) = ok (cs', l', t', o') ∧ calc_ok t') as Hrest.
  { intros o1. rewrite (ob_id _ _ _ Hc).
    destruct (background_energies_ok k (with_prints (j_data_ r1) [] r1) t ltac:(lia) (with_prints_ok _ _ _ _ Hr1) Ht) as (t1 & -> & Ht1). cbn [mbind exc_bind]. cbv zeta.
    match goal with |- context [t_print_finals _ _ _ _ _ cs l t1 ?o2] => destruct (IH (k + 1) l t1 o2) as (cs' & l' & t' & o' & -> & Ht') end; [lia|lia|done|done|done|].
    cbn [mbind exc_bind]. by eexists _, _, _, _. }
  destruct (1 <=? output_level config); cbn [mbind exc_bind]; apply Hrest.
Qed.

(** *** The operations *)

(** The plain operation and that of the thermal build: the same failure, or the same
    result and the same system underneath. *)
Definition agrees {A} (m : exc (A * JedecDRAMSystem)) (mt : exc (A * ThermalSystem)) : Prop :=
  match m with
  | ok (a, j) => ∃ s, mt = ok (a, s) ∧ ts_base s = j ∧ ts_inv s
  | err e => mt = err e
  end.
Local Notation system := (Thermal_system config th power calc fuel fmt_double dump stat_text).

Lemma Add_agrees s a w : ts_inv s → 0 ≤ a → agrees (j_Add a w (ts_base s)) (ts_Add a w s).
Proof using.
  intros Hi Ha. unfold ts_Add. destruct (j_Add a w (ts_base s)) as [[b j]|e] eqn:E; [|done]. cbn [mbind exc_bind].
  eexists. split; [done|]. split; [done|]. unfold j_Add in E. cbv zeta in E. apply exc_bind_ok in E as (c & Hc & E).
  apply vec_get_ok in Hc. destruct (WillAcceptTransaction c w); [|discriminate E]. injection E as <- <-.
  destruct Hi as [H1 H2 H3 [H4 H5] H6]. split; cbn [ts_base ts_reports ts_calc js_config ctrls_]; rewrite ?length_zset; try done.
  pose proof (in_order_get 0 _ _ c H2 Hc) as Hob. unfold zset. apply zget_Some in Hc as [Hge _].
  destruct (Z.ltb_spec (GetChannel (js_config (ts_base s)) a) 0); [done|].
  apply in_order_insert; [done|]. rewrite Z2Nat.id by done. by apply AddTransaction_observed.
Qed.

Lemma done_in_order clk k cs dn : in_order k cs → mapE (return_done clk) cs = ok dn → in_order k dn.*2 ∧ length dn = length cs.
Proof using.
  revert k dn. induction cs as [|c cs IH]; intros k dn Hcs H; cbn [mapE] in H; [by injection H as <-|]. destruct Hcs as [Hc Hcs].
  apply exc_bind_ok in H as ([d c1] & Hd & H). apply exc_bind_ok in H as (l1 & Hl1 & H). injection H as <-.
  apply (return_done_observed config k) in Hd; [|done]. destruct (IH _ _ Hcs Hl1) as [? ?]. split; [done|]. cbn [length]. by f_equal.
Qed.

Lemma tick_all_tracks k cs t :
  0 ≤ k → k + Z.of_nat (length cs) ≤ channels config → in_order k cs → calc_ok t →
  match mapE (ctrl_ClockTick config) cs with
  | ok cs' => in_order k cs' ∧ length cs' = length cs ∧ ∃ t', t_tick_all config th power calc cs t = ok (cs', t') ∧ calc_ok t'
  | err e => t_tick_all config th power calc cs t = err e
  end.
Proof using Hcfg.
  revert k t. induction cs as [|c cs IH]; intros k t Hk Hlen Hcs Ht; cbn [mapE t_tick_all]; [split; [done|split; [done|by exists t]]|].
  destruct Hcs as [Hc Hcs]. cbn [length] in Hlen.
  pose proof (ClockTick_tracks config th power calc fuel pdgssv Hcfg k c t ltac:(lia) Hc Ht) as Hstep. unfold tracks in Hstep.
  destruct (ctrl_ClockTick config c) as [c1|e]; [|by rewrite Hstep]. destruct Hstep as (Hc1 & t1 & -> & Ht1). cbn [mbind exc_bind].
  specialize (IH (k + 1) t1 ltac:(lia) ltac:(lia) Hcs Ht1). destruct (mapE (ctrl_ClockTick config) cs) as [cs1|e]; cbn [mbind exc_bind]; [|by rewrite IH].
  destruct IH as (Hcs1 & Hn & t2 & -> & Ht2). split; [done|]. split; [simpl; lia|]. by exists t2.
Qed.

Lemma PrintTransPT_calc clk t :
  calc_ok t → ∃ t', PrintTransPT config (c_rest calc) power (c_plan calc) (c_Midx calc) (c_MidxSize calc) (c_Cap calc) (c_iter calc) fuel clk t = ok t' ∧ calc_ok t'.
Proof using Hcfg.
  intros Ht. destruct (new_calculator_parts _ _ _ _ _ (tc_new _ _ _ _ _ _ Hcfg)) as (Hp & _ & Hm & -> & _). destruct Hcfg.
  destruct (floor_ok_all config th (c_rest calc) (c_plan calc)) as (VX & VY & [Hfl _]); [done..|].
  destruct (floor_sizes _ _ _ _ _ _ tc_grid0 Hfl) as (HP & HX & HY).
  destruct (PrintTransPT_ok config (c_rest calc) power (c_plan calc) (c_Midx calc) (c_MidxSize calc) (c_iter calc)
    tc_stacked0 HP HX HY Hm fuel clk t Ht) as (t' & ? & ? & _). by exists t'.
Qed.
Lemma PrintFinalPT_calc clk t :
  calc_ok t → ∃ t', PrintFinalPT config (c_rest calc) (c_plan calc) pdgssv (c_Midx calc) (c_MidxSize calc) fuel clk t = ok t'.
Proof using Hcfg.
  intros Ht. destruct (new_calculator_parts _ _ _ _ _ (tc_new _ _ _ _ _ _ Hcfg)) as (Hp & _ & Hm & _). destruct Hcfg.
  destruct (floor_ok_all config th (c_rest calc) (c_plan calc)) as (VX & VY & [Hfl _]); [done..|].
  destruct (floor_sizes _ _ _ _ _ _ tc_grid0 Hfl) as (HP & HX & HY).
  destruct (PrintFinalPT_ok config (c_rest calc) (c_plan calc) pdgssv (c_Midx calc) (c_MidxSize calc)
    tc_stacked0 HP HX HY Hm tc_solver0 fuel clk t Ht) as (t' & ? & _). by exists t'.
Qed.

(** The end of an epoch prints, and changes the counters as in the plain build. *)
Lemma PrintEpochStats_agree s :
  ts_inv s → ∃ s', ts_PrintEpochStats config power calc fuel fmt_double dump stat_text s = ok s' ∧ ts_base s' = PrintEpochStats (ts_base s) ∧ ts_inv s'.
Proof using Hcfg.
  intros [H1 H2 H3 [H4 H5] H6]. unfold ts_PrintEpochStats. cbv zeta. set (o := if _ =? 0 then _ else _).
  destruct (print_epochs_agree 0 (ctrls_ (ts_base s)) (ts_reports s) (ts_calc s) o) as (l & t & o' & -> & Hcs & Hl & Hn & Ht); [lia|lia|done|done|done|done|].
  cbn [mbind exc_bind]. destruct (PrintTransPT_calc (js_clk_ (ts_base s)) t Ht) as (t' & -> & Ht'). cbn [mbind exc_bind].
  eexists. split; [done|]. split; [done|]. split; cbn [ts_base ts_reports ts_calc]; cbn [j_ctrls js_config ctrls_]; rewrite ?length_fmap; done.
Qed.

Lemma ClockTick_agrees s :
  ts_inv s → agrees (j_ClockTick (ts_base s)) (ts_ClockTick config th power calc fuel fmt_double dump stat_text s).
Proof using Hcfg.
  intros Hi. destruct Hi as [H1 H2 H3 [H4 H5] H6]. unfold j_ClockTick, ts_ClockTick. cbv zeta.
  destruct (mapE (return_done _) _) as [dn|e] eqn:Ed; [|done]. cbn [mbind exc_bind]. rewrite H1.
  destruct (done_in_order _ _ _ _ H2 Ed) as [Hd Hdn]. assert (length dn.*2 = length (ctrls_ (ts_base s))) as Hlen by by rewrite length_fmap.
  assert (0 + Z.of_nat (length dn.*2) ≤ channels config) as Hk by (rewrite Hlen; lia).
  pose proof (tick_all_tracks 0 dn.*2 (ts_calc s) (Z.le_refl 0) Hk Hd H6) as Htr.
  destruct (mapE (ctrl_ClockTick config) dn.*2) as [cs|e]; cbn [mbind exc_bind]; [|by rewrite Htr].
  destruct Htr as (Hcs & Hn & t & -> & Ht). cbn [mbind exc_bind]. cbn [js_config]. destruct (u64 (epoch_period config) =? 0); [done|].
  set (s1 := MkThermalSystem _ _ _ _). assert (ts_inv s1) as Hi1 by (unfold s1; split; cbn [ts_base ts_reports ts_calc js_config ctrls_]; [done|done|lia|split; [done|lia]|done]).
  destruct (_ =? 0).
  - destruct (PrintEpochStats_agree s1 Hi1) as (s2 & -> & Hb & Hi2). cbn [mbind exc_bind]. by exists s2.
  - cbn [mbind exc_bind]. by exists s1.
Qed.

(** A run of a client. *)
Lemma step_agrees op s acc dn :
  ts_inv s → sys_op_ok op →
  match sys_step op (ts_base s, acc, dn) with
  | ok (j, acc', dn') => ∃ s', @sys_step _ system op (s, acc, dn) = ok (s', acc', dn') ∧ ts_base s' = j ∧ ts_inv s'
  | err e => @sys_step _ system op (s, acc, dn) = err e
  end.
Proof using Hcfg.
  intros Hi Hop. destruct op as [a w|]; cbn [sys_step].
  - change (@ds_will_accept _ system s a w) with (j_WillAccept (ts_base s) a w). change (@ds_will_accept _ Jedec_system (ts_base s) a w) with (j_WillAccept (ts_base s) a w).
    destruct (j_WillAccept (ts_base s) a w) as [b|e]; [|done]. cbn [mbind exc_bind]. destruct b; [|by exists s].
    pose proof (Add_agrees s a w Hi Hop) as Ha. change (@ds_add _ Jedec_system a w (ts_base s)) with (j_Add a w (ts_base s)). change (@ds_add _ system a w s) with (ts_Add a w s).
    destruct (j_Add a w (ts_base s)) as [[b j]|e]; cbn [agrees] in Ha; [|by rewrite Ha]. destruct Ha as (s' & -> & Hb & Hi'). cbn [mbind exc_bind]. by exists s'.
  - pose proof (ClockTick_agrees s Hi) as Ht. change (@ds_tick _ Jedec_system (ts_base s)) with (j_ClockTick (ts_base s)).
    change (@ds_tick _ system s) with (ts_ClockTick config th power calc fuel fmt_double dump stat_text s).
    destruct (j_ClockTick (ts_base s)) as [[l j]|e]; cbn [agrees] in Ht; [|by rewrite Ht]. destruct Ht as (s' & -> & Hb & Hi'). cbn [mbind exc_bind]. by exists s'.
Qed.

Lemma run_agrees ops s acc dn :
  ts_inv s → Forall sys_op_ok ops →
  match foldE sys_step ops (ts_base s, acc, dn) with
  | ok (j, acc', dn') => ∃ s', foldE (@sys_step _ system) ops (s, acc, dn) = ok (s', acc', dn') ∧ ts_base s' = j ∧ ts_inv s'
  | err e => foldE (@sys_step _ system) ops (s, acc, dn) = err e
  end.
Proof using Hcfg.
  intros Hi Hops. revert s acc dn Hi. induction Hops as [|op ops Hop Hops IH]; intros s acc dn Hi; cbn [foldE]; [by exists s|].
  pose proof (step_agrees op s acc dn Hi Hop) as Hstep.
  destruct (sys_step op (ts_base s, acc, dn)) as [[[j acc'] dn']|e]; [|by rewrite Hstep]. destruct Hstep as (s1 & -> & <- & Hi1). cbn [mbind exc_bind].
  by apply IH.
Qed.

Lemma new_in_order (n : Z) cs k : 0 ≤ k → mapE (new_Controller config) ((fun i => k + i) <$> zseq n) = ok cs → 0 ≤ n → in_order k cs ∧ Z.of_nat (length cs) = n.
Proof using Hcfg.
  intros Hk H Hl. destruct (cfg_shape config th power calc fuel pdgssv Hcfg) as [Hsh _]. revert k Hk cs H. pattern n. apply natlike_ind; [|clear n Hl; intros n Hl IH|done].
  - intros k _ cs [= <-]. done.
  - intros k Hk cs H. rewrite <- Z.add_1_r, zseq_cons in H by lia. cbn [fmap list_fmap mapE] in H. rewrite Z.add_0_r in H.
    apply exc_bind_ok in H as (c & Hc & H). apply exc_bind_ok in H as (cs1 & Hcs & H). injection H as <-.
    rewrite <- list_fmap_compose in Hcs. destruct (IH (k + 1) ltac:(lia) cs1) as [? Hlen]; [|split; [split; [|done]|cbn [length]; lia]].
    + rewrite <- Hcs. f_equal. apply list_fmap_ext. intros ? x _. simpl. lia.
    + by apply new_observed.
Qed.

Lemma new_ts_inv o s : new_ThermalSystem config calc o = ok s → ts_inv s.
Proof using Hcfg.
  unfold new_ThermalSystem, new_Jedec. intros (j & Hj & H)%exc_bind_ok. injection H as <-. destruct (IsHMC config); [discriminate Hj|].
  apply exc_bind_ok in Hj as (cs & Hcs & Hj). injection Hj as <-. destruct (gr_ranks _ _ _ (tc_grid _ _ _ _ _ _ Hcfg)) as [Hr Hch].
  destruct (new_in_order (channels config) cs 0 ltac:(lia)) as [Ho Hn]; [|lia|].
  { rewrite <- Hcs. f_equal. rewrite <- (list_fmap_id (zseq (channels config))) at 2. apply list_fmap_ext. intros ? x _. done. }
  destruct (new_calculator_parts _ _ _ _ _ (tc_new _ _ _ _ _ _ Hcfg)) as (Hp & _ & _ & _ & _ & _ & csv & Hs).
  destruct (floor_ok_all config th (c_rest calc) (c_plan calc) (tc_grid _ _ _ _ _ _ Hcfg) Hp (tc_floor _ _ _ _ _ _ Hcfg)) as (VX & VY & [Hfl _]).
  split; cbn [ts_base ts_reports ts_calc js_config ctrls_]; try done.
  - split; [|rewrite length_fmap, length_zseq; lia]. apply Forall_fmap, Forall_forall. intros i _. split; [apply new_Reports_ok; lia|done].
  - rewrite Hs. exact (empty_calculator_ok _ _ _ _ _ _ csv (tc_grid _ _ _ _ _ _ Hcfg) Hfl).
Qed.

Lemma PrintStats_ok s : ts_inv s → ∃ s', ts_PrintStats config power calc fuel fmt_double dump stat_text pdgssv s = ok s'.
Proof using Hcfg.
  intros [H1 H2 H3 [H4 H5] H6]. unfold ts_PrintStats.
  match goal with |- context [t_print_finals _ _ _ _ _ ?cs ?l ?t ?o] => destruct (t_print_finals_ok 0 cs l t o) as (cs' & l' & t' & o' & -> & Ht) end; [lia|lia|done..|].
  cbn [mbind exc_bind]. destruct (PrintFinalPT_calc (js_clk_ (ts_base s)) t' Ht) as (t2 & ->). cbn [mbind exc_bind]. by eexists.
Qed.

(** The thermal build keeps the promise to the clients of a DRAM system, so what is proved
    of those holds for it too. *)
Definition Thermal_ok : @DRAMSystemOk ThermalSystem system.
Proof using Hcfg.
  refine {| ds_inv s := ts_inv s ∧ jedec_inv (ts_base s); ds_now s := js_clk_ (ts_base s); ds_out s := jedec_out (ts_base s);
            ds_capacity s := jedec_capacity (ts_base s); ds_limit := 2 ^ 63 |}.
  - intros s a [_ Hi] Ha Hl. by apply jedec_room.
  - intros s a w [_ Hi] Ha. destruct (jedec_get (ts_base s) a Hi Ha) as (c & Hc & _). cbn [ds_will_accept Thermal_system].
    unfold j_WillAccept, vec_get. rewrite Hc. cbn [opt_exc mbind exc_bind]. by eexists.
  - intros s a w [Hs Hi] Ha Hw. destruct (j_Add_ok (ts_base s) a w Hi Ha Hw) as (j & Hj & Hi' & Hk & Ho & Ec).
    pose proof (Add_agrees s a w Hs Ha) as Hag. rewrite Hj in Hag. destruct Hag as (s' & Hs' & <- & Hi2). exists s'.
    cbn [ds_add ds_channel Thermal_system]. unfold jedec_capacity. rewrite Ec. by split_and!.
  - intros s [Hs Hi] Hk. destruct (j_ClockTick_ok (ts_base s) Hi Hk) as (l & j & Hj & Hi' & Hk' & Ho & Ec).
    pose proof (ClockTick_agrees s Hs) as Hag. rewrite Hj in Hag. destruct Hag as (s' & Hs' & <- & Hi2). exists l, s'.
    cbn [ds_tick ds_channel Thermal_system]. unfold jedec_capacity. rewrite Ec. by split_and!.
Defined.
End System.

(** (C32) Building the simulator with its thermal model does not change what it simulates, for
    a stacked memory whose banks fit the floor plan and whose location mapping keeps
    addresses in range ([thermal_cfg]; as the JEDEC system refuses an HMC, this is HBM;
    with other memories an epoch of the thermal model never ends,
    [Thermal.epoch_never_ends]). From the start, for any requests offered and any ticks,
    the thermal build accepts and completes the same requests in the same order and ends
    with the same controllers, queues, banks and counters as the plain build - or fails
    exactly where that does; no access of the thermal model fails, and the final report
    can be printed. *)
Theorem thermal_build_agrees (config : Config) th power calc fuel fmt_double dump stat_text solve o s0 ops :
  thermal_cfg config th power calc fuel solve → new_ThermalSystem config calc o = ok s0 → Forall sys_op_ok ops →
  new_Jedec config = ok (ts_base s0) ∧
  match foldE sys_step ops (ts_base s0, [], []) with
  | ok (j, accepted, completed) => ∃ s s',
      foldE (@sys_step _ (Thermal_system config th power calc fuel fmt_double dump stat_text)) ops (s0, [], []) = ok (s, accepted, completed) ∧
      ts_base s = j ∧ ts_PrintStats config power calc fuel fmt_double dump stat_text solve s = ok s'
  | err e => foldE (@sys_step _ (Thermal_system config th power calc fuel fmt_double dump stat_text)) ops (s0, [], []) = err e
  end.
Proof.
  intros Hcfg Hnew Hops. pose proof (new_ts_inv config th power calc fuel solve Hcfg o s0 Hnew) as Hi. split.
  - unfold new_ThermalSystem in Hnew. apply exc_bind_ok in Hnew as (j & Hj & Hnew). by injection Hnew as <-.
  - pose proof (run_agrees config th power calc fuel fmt_double dump stat_text solve Hcfg ops s0 [] [] Hi Hops) as Hrun.
    destruct (foldE sys_step ops (ts_base s0, [], [])) as [[[j acc] dn]|e]; [|exact Hrun]. destruct Hrun as (s & Hs & Hb & Hi').
    destruct (PrintStats_ok config th power calc fuel fmt_double dump stat_text solve Hcfg s Hi') as (s' & Hp). by exists s, s'.
Qed.

(** ** Instances *)

Section Demo.
(** Two channels of HBM2 on one die, with one cell a bank. *)
Definition pair_sys : SystemParams :=
  MkSystem 512 2 128 "rorabgbacoch" "PER_BANK" "OPEN_PAGE" 8 32 false 16 RANK_LEVEL_STAGGERED false 1000 false.
Definition pair_dram : DRAMParams := MkDRAM HBM 4 4 16 16384 128 128 4 1 true 4 16 15000 64 16 2.
Definition pair_map : Mapping := MkMapping 64 6 0 10 8 6 10 1 1 0 3 3 16383 31.
Definition pair : Config :=
  MkConfig pair_sys pair_dram hbm2_size pair_map (InitTimingParams hbm2_reader pair_dram) (InitOtherParams hbm2_reader "." true).
Definition pair_reader : INIReader :=
  MkReader 0 (Get hbm2_reader) (ini_lookup [("thermal", "mat_dim_x", 16384); ("thermal", "mat_dim_y", 16384)]%string) (GetBoolean hbm2_reader).
Definition pair_thermal : ThermalParams :=
  match InitThermalParams pair_reader hbm2_reals pair pair (tCK hbm2_power) with ok t => t | err _ => hbm2_thermal end.
Definition pair_plan : Plan := MkPlan 2 8 4 8 2 1 2 1.

Example pair_built : exc_ok (new_ThermalCalculator 100 pair pair_thermal hbm2_power) = true.
Proof. vm_compute. reflexivity. Qed.
Example pair_plain : exc_ok (j ← new_Jedec pair; foldE sys_step demo_sys_ops (j, [], [])) = true.
Proof. vm_compute. reflexivity. Qed.

Lemma pair_grid : grid_ok pair pair_thermal hbm2_rest.
Proof. split; try (split; vm_compute; congruence); try (vm_compute; congruence). - split; [done|by exists 16384]. - by split_and!. Qed.

Lemma pair_located : located pair.
Proof.
  intros a Ha A.
  assert (map_wf pair_map) as Hm by (apply (SetAddressMapping_wf pair_sys pair_dram hbm2_size); vm_compute; reflexivity).
  destruct (compose_AddressMapping pair_map a Hm Ha) as [Hok _].
  assert (∀ t, t ∈ six → 0 ≤ field_of A t < field_size pair_map t) as Hf by exact Hok.
  pose proof (Hf "ra"%string ltac:(set_solver)) as Hra. pose proof (Hf "bg"%string ltac:(set_solver)) as Hbg.
  pose proof (Hf "ba"%string ltac:(set_solver)) as Hba. pose proof (Hf "ro"%string ltac:(set_solver)) as Hro.
  pose proof (Hf "co"%string ltac:(set_solver)) as Hco.
  split; [exact (conj Hra (conj Hbg Hba))|]. split; [exact Hro|].
  assert (0 ≤ column A < 32) as [? ?] by exact Hco. split; [done|]. change (column A + 4 ≤ 128). lia.
Qed.

Lemma pair_cfg calc :
  new_ThermalCalculator 100 pair pair_thermal hbm2_power = ok calc → thermal_cfg pair pair_thermal hbm2_power calc 100 (fun _ _ _ _ r => r).
Proof.
  intros Hb. destruct (new_calculator_parts _ _ _ _ _ Hb) as (Hp & Hr & _ & _ & Hl & _ & _).
  assert (c_plan calc = pair_plan) as Ep.
  { assert (new_plan pair pair_thermal = ok pair_plan) as Hq by (vm_compute; reflexivity). rewrite Hq in Hp. by injection Hp. }
  assert (c_rest calc = hbm2_rest) as Er.
  { assert (th_rest pair_thermal = Some hbm2_rest) as Hq by (vm_compute; reflexivity). rewrite Hq in Hr. by injection Hr. }
  rewrite Er in Hl. assert (SetPhyAddressMapping (loc_mapping hbm2_rest) = ok None) as Hq by (vm_compute; reflexivity). rewrite Hq in Hl. injection Hl as Em.
  split; [exact Hb|reflexivity|vm_compute; congruence|rewrite Er; exact pair_grid|rewrite Ep; by apply shape_hbm|
    rewrite <- Em; apply mapping_ok_none|reflexivity|exact pair_located].
Qed.

(** The requests of [demo_sys_ops], in both builds. *)
Lemma thermal_build_agrees_witness :
  ∃ calc s0 s s' accepted completed, new_ThermalCalculator 100 pair pair_thermal hbm2_power = ok calc ∧
    new_ThermalSystem pair calc no_outputs = ok s0 ∧ new_Jedec pair = ok (ts_base s0) ∧
    foldE (@sys_step _ (Thermal_system pair pair_thermal hbm2_power calc 100 plain_double plain_dump plain_text)) demo_sys_ops (s0, [], []) =
      ok (s, accepted, completed) ∧
    foldE sys_step demo_sys_ops (ts_base s0, [], []) = ok (ts_base s, accepted, completed) ∧
    ts_PrintStats pair hbm2_power calc 100 plain_double plain_dump plain_text (fun _ _ _ _ r => r) s = ok s'.
Proof.
  pose proof pair_plain as Hd.
  destruct (new_ThermalCalculator 100 pair pair_thermal hbm2_power) as [calc|e] eqn:Ec; [|pose proof pair_built as Hb; rewrite Ec in Hb; discriminate Hb].
  destruct (new_ThermalSystem pair calc no_outputs) as [s0|e] eqn:E.
  - destruct (thermal_build_agrees pair pair_thermal hbm2_power calc 100 plain_double plain_dump plain_text (fun _ _ _ _ r => r)
      no_outputs s0 demo_sys_ops (pair_cfg calc Ec) E) as [Hj Hrun]; [repeat constructor; discriminate|].
    rewrite Hj in Hd. cbn [mbind exc_bind] in Hd.
    destruct (foldE sys_step demo_sys_ops (ts_base s0, [], [])) as [[[j acc] dn]|e] eqn:Er; [|discriminate Hd].
    destruct Hrun as (s & s' & Hs & <- & Hp). exists calc, s0, s, s', acc, dn. split; [reflexivity|]. split; [exact E|]. split; [exact Hj|].
    split; [exact Hs|]. split; [exact Er|exact Hp].
  - exfalso. unfold new_ThermalSystem in E. destruct (new_Jedec pair) as [j|e']; [discriminate E|discriminate Hd].
Defined.
End Demo.
