(* ===== verification/Xbar.v ===== *)
(** * The crossbar of the HMC (DRAMsim3-master/src/hmc.cc)

    [DrainRequests] moves packets from the queues of the links to those of the
    quadrants, [DrainResponses] from the quadrants to the links, by the same code
    on other members; one direction is a [Xbar] here, for packets of any type.
    A packet of [n] flits keeps its destination busy for [n] / 2 cycles. The
    sources are served in the order of [BuildAgeQueue], which is meant to be that of
    their waiting times. The theorems: that order has every source with a packet
    exactly once, so no queue is read when empty and none is passed over; what
    moves is kept. *)

From Stdlib Require Import ZArith Lia.
From stdpp Require Import base option list gmap numbers.
From S2P Require Import Prelude.

(** The queues on both sides, the flits on their way to each destination, and how
    long each source has waited. *)
Record Xbar (A : Type) := MkXbar {
  x_src : list (list A);
  x_dst : list (list A);
  x_busy : list Z;
  x_age : list Z
}.
Arguments MkXbar {A}.
Arguments x_src {A}.
Arguments x_dst {A}.
Arguments x_busy {A}.
Arguments x_age {A}.

Definition new_Xbar {A} (n m : nat) : Xbar A := MkXbar (replicate n []) (replicate m []) (replicate m 0) (replicate n 0).

(** [BuildAgeQueue]: the insertion compares the age of position [pos] with the
    positions in the queue, not with their ages. *)
Fixpoint age_insert (age pos : Z) (q : list Z) : list Z :=
  match q with
  | [] => [pos]
  | x :: q' => if x <? age then pos :: q else x :: age_insert age pos q'
  end.
Definition age_step (ages : list Z) (start i : Z) (q : list Z) : exc (list Z) :=
  let pos := (i + start) mod Z.of_nat (length ages) in
  age ← vec_get ages pos; ok (if 0 <? age then age_insert age pos q else q).
Definition BuildAgeQueue (logic_clk : Z) (ages : list Z) : exc (list Z) :=
  let len := Z.of_nat (length ages) in
  if len =? 0 then err UndefinedBehaviour
  else foldE (age_step ages (logic_clk mod len)) (zseq len) [].

(** An [int] that counts up. *)
Definition count_up (n : Z) : exc Z := if n <? 2 ^ 31 - 1 then ok (n + 1) else err UndefinedBehaviour.

(** Two flits pass each busy destination in a cycle. *)
Definition drain_busy {A} (x : Xbar A) : Xbar A :=
  MkXbar (x_src x) (x_dst x) ((fun i => if 0 <? i then i - 2 else i) <$> x_busy x) (x_age x).

Section Xbar.
Context {A : Type} (dest flits : A -> Z) (leave : Z -> A -> A) (depth : Z).

(** The body of the loop over the age queue: the first packet of source [src]
    leaves when its destination has room and is not busy. *)
Definition xbar_step (logic_clk src : Z) (x : Xbar A) : exc (Xbar A) :=
  q ← vec_get (x_src x) src;
  p ← opt_exc (head q) UndefinedBehaviour;
  d ← vec_get (x_dst x) (dest p);
  b ← vec_get (x_busy x) (dest p);
  a ← vec_get (x_age x) src;
  if (Z.of_nat (length d) <? depth) && (b <=? 0) then
    ok (MkXbar (zset (x_src x) src (tail q)) (zset (x_dst x) (dest p) (d ++ [leave (logic_clk + flits p) p]))
          (zset (x_busy x) (dest p) (flits p)) (zset (x_age x) src (match tail q with [] => 0 | _ => 1 end)))
  else
    a' ← count_up a;
    ok (MkXbar (x_src x) (x_dst x) (x_busy x) (zset (x_age x) src a')).

(** The crossbar in one logic cycle. *)
Definition xbar_cycle (logic_clk : Z) (x : Xbar A) : exc (Xbar A) :=
  let x := drain_busy x in
  order ← BuildAgeQueue logic_clk (x_age x);
  foldE (xbar_step logic_clk) order x.
End Xbar.

(** A packet comes in at source [i]: [push_back], and the age counter set to 1. *)
Definition xbar_put {A} (i : Z) (p : A) (x : Xbar A) : exc (Xbar A) :=
  q ← vec_get (x_src x) i;
  _ ← vec_get (x_age x) i;
  ok (MkXbar (zset (x_src x) i (q ++ [p])) (x_dst x) (x_busy x) (zset (x_age x) i 1)).

(** The first packet at destination [i] goes out: [erase(begin())]. *)
Definition xbar_pop {A} (i : Z) (q : list A) (x : Xbar A) : Xbar A :=
  MkXbar (x_src x) (zset (x_dst x) i (tail q)) (x_busy x) (x_age x).

(** ** The order of service *)

Lemma elem_of_age_insert age pos q i : i ∈ age_insert age pos q ↔ i = pos ∨ i ∈ q.
Proof.
  induction q as [|x q IH]; simpl; [set_solver|]. case_match; rewrite ?elem_of_cons; [tauto|]. rewrite IH. tauto.
Qed.

Lemma age_insert_perm age pos q : age_insert age pos q ≡ₚ pos :: q.
Proof.
  induction q as [|x q IH]; simpl; [done|]. case_match; [done|]. rewrite IH. apply Permutation_swap.
Qed.

(** The positions the loop has been at. *)
Lemma rotate_range len start i : 0 < len → 0 ≤ (i + start) mod len < len.
Proof. intros. by apply Z.mod_pos_bound. Qed.

Lemma rotate_inj len start i j :
  0 ≤ i < len → 0 ≤ j < len → (i + start) mod len = (j + start) mod len → i = j.
Proof.
  intros Hi Hj E. pose proof (Z.div_mod (i + start) len ltac:(lia)). pose proof (Z.div_mod (j + start) len ltac:(lia)).
  assert (i - j = len * ((i + start) / len - (j + start) / len)) as Hd by lia.
  assert ((i + start) / len - (j + start) / len = 0) by nia. lia.
Qed.

Lemma rotate_onto len start p : 0 ≤ p < len → 0 ≤ start → ∃ i, 0 ≤ i < len ∧ (i + start) mod len = p.
Proof.
  intros Hp Hs. exists ((p - start) mod len). split; [apply Z.mod_pos_bound; lia|].
  rewrite Z.add_mod_idemp_l by lia. replace (p - start + start) with p by lia. by apply Z.mod_small.
Qed.

(** What [BuildAgeQueue] returns: every source with a packet, once. *)
Definition waiting (ages : list Z) (q : list Z) : Prop :=
  NoDup q ∧ ∀ i, i ∈ q ↔ ∃ a, zget ages i = Some a ∧ 0 < a.

Lemma build_age_queue_ok clk ages :
  ages ≠ [] → 0 ≤ clk → ∃ q, BuildAgeQueue clk ages = ok q ∧ waiting ages q.
Proof.
  intros Hne Hclk. unfold BuildAgeQueue. set (len := Z.of_nat (length ages)).
  assert (0 < len) as Hlen by (destruct ages; [done|unfold len; simpl; lia]). destruct (Z.eqb_spec len 0); [lia|].
  set (start := clk mod len). assert (0 ≤ start < len) as Hst by (by apply Z.mod_pos_bound).
  set (I := fun n q => NoDup q ∧ ∀ j, j ∈ q ↔ ∃ i a, 0 ≤ i < n ∧ j = (i + start) mod len ∧ zget ages j = Some a ∧ 0 < a).
  destruct (foldE_index I (age_step ages start) len []) as (q & Hq & Hnd & Hin); [lia| | |].
  - intros i q Hi [Hnd Hin]. unfold age_step. fold len. set (pos := (i + start) mod len).
    assert (0 ≤ pos < len) as Hpos by (by apply rotate_range).
    destruct (zget_is_Some ages pos) as [a Ha]; [done|]. unfold vec_get. rewrite Ha. cbn [opt_exc mbind exc_bind].
    eexists. split; [reflexivity|].
    assert (∀ j, (∃ k a, 0 ≤ k < i + 1 ∧ j = (k + start) mod len ∧ zget ages j = Some a ∧ 0 < a) ↔
      (j = pos ∧ 0 < a) ∨ j ∈ q) as Hsplit.
    { intros j. rewrite Hin. split.
      - intros (k & b & Hk & -> & Hb & Hpb). destruct (decide (k = i)) as [->|]; [|right; exists k, b; split_and!; try done; lia].
        left. fold pos in Hb |- *. rewrite Ha in Hb. by injection Hb as ->.
      - intros [[-> Hp]|(k & b & ? & ? & ? & ?)]; [exists i, a; split_and!; try done; lia|exists k, b; split_and!; try done; lia]. }
    destruct (Z.ltb_spec 0 a).
    + split; [|intros j; rewrite elem_of_age_insert, Hsplit; tauto].
      rewrite age_insert_perm. constructor; [|done]. rewrite Hin. intros (k & b & Hk & E & _).
      apply rotate_inj in E; lia.
    + split; [done|]. intros j. rewrite Hsplit. split; [by right|]. intros [[_ ?]|?]; [lia|done].
  - split; [constructor|]. intros j. split; [by intros ?%elem_of_nil|]. intros (k & a & ? & _). lia.
  - exists q. split; [exact Hq|]. split; [done|]. intros j. rewrite Hin. split.
    + intros (k & a & _ & _ & ? & ?). by exists a.
    + intros (a & Ha & Hp). pose proof (zget_lt _ _ _ Ha) as Hj.
      destruct (rotate_onto len start j Hj) as (k & Hk & Ek); [lia|]. exists k, a. done.
Qed.

(** ** Packets *)

Section Packets.
Context {A K : Type} (dest flits : A -> Z) (leave : Z -> A -> A) (depth : Z).
(** Good packets have one of the [n] destinations; leaving keeps them good and keeps
    their [key]. *)
Context (n : Z) (good : A -> Prop) (key : A -> K).
Context (good_dest : ∀ p, good p → 0 ≤ dest p < n) (leave_good : ∀ e p, good p → good (leave e p))
        (leave_key : ∀ e p, key (leave e p) = key p).
Implicit Types (x : Xbar A) (b : Z -> Z).

Definition contents x : list A := concat (x_src x) ++ concat (x_dst x).

(** Exactly the sources with packets have a positive age, at most [b]. *)
Record xbar_wf b x : Prop := {
  xw_age_len : length (x_age x) = length (x_src x);
  xw_dst_len : length (x_dst x) = Z.to_nat n;
  xw_busy_len : length (x_busy x) = Z.to_nat n;
  xw_age i q : zget (x_src x) i = Some q → ∃ a, zget (x_age x) i = Some a ∧ 0 ≤ a ≤ b i ∧ (0 < a ↔ q ≠ []);
  xw_good : Forall good (contents x)
}.

Lemma xbar_wf_weaken b b' x : xbar_wf b x → (∀ i, b i ≤ b' i) → xbar_wf b' x.
Proof.
  intros [] Hb. split; try done. intros i q Hq. destruct (xw_age0 i q Hq) as (a & ? & ? & ?).
  exists a. specialize (Hb i). split_and!; try done; lia.
Qed.

Lemma drain_busy_wf b x : xbar_wf b x → xbar_wf b (drain_busy x).
Proof. intros []. split; try done. simpl. by rewrite length_fmap. Qed.

(** What a step keeps: the packets up to their exit times, and the other sources. *)
Definition same_packets x x' : Prop :=
  key <$> contents x' ≡ₚ key <$> contents x ∧ length (x_src x') = length (x_src x).

Lemma same_packets_refl x : same_packets x x.
Proof. done. Qed.
Lemma same_packets_trans x y z : same_packets x y → same_packets y z → same_packets x z.
Proof. intros [H1 L1] [H2 L2]. split; [by rewrite H2|congruence]. Qed.

Lemma xbar_step_ok clk src q b x :
  xbar_wf b x → zget (x_src x) src = Some q → q ≠ [] → b src < 2 ^ 31 - 1 →
  ∃ x', xbar_step dest flits leave depth clk src x = ok x' ∧
    xbar_wf (fun i => if decide (i = src) then b src + 1 else b i) x' ∧ same_packets x x' ∧
    ∀ j, j ≠ src → zget (x_src x') j = zget (x_src x) j.
Proof using All.
  intros Hwf Hq Hne Hb. destruct (xw_age _ _ Hwf src q Hq) as (a & Ha & Har & Hap). destruct q as [|p q']; [done|].
  assert (contents x ≡ₚ p :: concat (zset (x_src x) src q') ++ concat (x_dst x)) as Hc
    by (unfold contents; by rewrite (concat_zset_perm _ _ _ q' p Hq) by done).
  pose proof (xw_good _ _ Hwf) as Hg. rewrite Hc in Hg. apply Forall_cons_1 in Hg as [Hgp Hgs].
  pose proof (good_dest p Hgp) as Hd. pose proof (zget_lt _ _ _ Hq) as Hsrc.
  destruct (zget_is_Some (x_dst x) (dest p)) as [d Hd1]; [rewrite (xw_dst_len _ _ Hwf); lia|].
  destruct (zget_is_Some (x_busy x) (dest p)) as [y Hy]; [rewrite (xw_busy_len _ _ Hwf); lia|].
  unfold xbar_step, vec_get. rewrite Hq, Ha. cbn [opt_exc mbind exc_bind head]. rewrite Hd1, Hy. cbn [opt_exc mbind exc_bind tail].
  pose proof (zget_lt _ _ _ Ha) as Hage. destruct (_ && _).
  - set (p' := leave _ p). eexists. split; [reflexivity|].
    assert (contents (MkXbar (zset (x_src x) src q') (zset (x_dst x) (dest p) (d ++ [p'])) (zset (x_busy x) (dest p) (flits p))
      (zset (x_age x) src (match q' with [] => 0 | _ => 1 end))) ≡ₚ p' :: concat (zset (x_src x) src q') ++ concat (x_dst x)) as Hc'.
    { unfold contents. simpl. rewrite (concat_zset_cons _ _ _ _ p' Hd1) by (symmetry; apply Permutation_cons_append).
      symmetry. apply Permutation_middle. }
    split; [|split; [split|]].
    + split; simpl.
      * rewrite !length_zset. apply Hwf.
      * rewrite length_zset. apply Hwf.
      * rewrite length_zset. apply Hwf.
      * intros i q. case_decide as Hi; [subst i; rewrite !zget_zset_eq by lia|rewrite !zget_zset_ne by done; apply (xw_age _ _ Hwf)].
        intros [= <-]. eexists. split; [reflexivity|]. destruct q'; split; [lia|naive_solver lia|lia|naive_solver lia].
      * rewrite Hc'. constructor; [by apply leave_good|done].
    + rewrite Hc, Hc'. simpl. unfold p'. by rewrite leave_key.
    + simpl. by rewrite length_zset.
    + intros j Hj. simpl. by apply zget_zset_ne.
  - unfold count_up. destruct (Z.ltb_spec a (2 ^ 31 - 1)); [|lia]. cbn [mbind exc_bind]. eexists. split; [reflexivity|].
    split; [|split; [by split|done]]. destruct Hwf. split; simpl; try done; [by rewrite length_zset|].
    intros i q. intros Hqi. case_decide as Hi; [subst i|rewrite zget_zset_ne by done; by apply xw_age0].
    rewrite zget_zset_eq by lia. rewrite Hq in Hqi. injection Hqi as <-. eexists. split; [reflexivity|]. split; [lia|naive_solver lia].
Qed.

Lemma xbar_steps_ok clk B order x :
  NoDup order → B < 2 ^ 31 - 1 →
  xbar_wf (fun i => if decide (i ∈ order) then B else B + 1) x → (∀ i, i ∈ order → ∃ q, zget (x_src x) i = Some q ∧ q ≠ []) →
  ∃ x', foldE (xbar_step dest flits leave depth clk) order x = ok x' ∧ xbar_wf (fun _ => B + 1) x' ∧ same_packets x x'.
Proof using All.
  intros Hnd HB. revert x. induction Hnd as [|i order Hi Hnd IH]; intros x Hwf Hne.
  { exists x. split; [done|]. split; [|done]. by eapply xbar_wf_weaken. }
  destruct (Hne i) as (q & Hq & Hqn); [left|]. simpl foldE.
  destruct (xbar_step_ok clk i q _ x Hwf Hq Hqn) as (x1 & -> & Hwf1 & Hs1 & Hother); [rewrite decide_True by left; lia|].
  cbn [mbind exc_bind]. destruct (IH x1) as (x2 & Hr & Hwf2 & Hs2).
  - eapply xbar_wf_weaken; [exact Hwf1|]. intros j. simpl. destruct (decide (j = i)) as [->|Hj].
    + rewrite decide_True, decide_False by (done || left). lia.
    + repeat case_decide; try lia; set_solver.
  - intros j Hj. rewrite Hother by (intros ->; done). apply Hne. by right.
  - exists x2. split; [done|]. split; [done|]. by eapply same_packets_trans.
Qed.

(** One cycle: nothing is lost, no source waits without being counted. *)
Lemma xbar_cycle_ok clk B x :
  0 ≤ clk → x_src x ≠ [] → B < 2 ^ 31 - 1 → xbar_wf (fun _ => B) x →
  ∃ x', xbar_cycle dest flits leave depth clk x = ok x' ∧ xbar_wf (fun _ => B + 1) x' ∧ same_packets x x'.
Proof using All.
  intros Hclk Hne HB Hwf. unfold xbar_cycle. cbn zeta.
  destruct (build_age_queue_ok clk (x_age x)) as (order & Ho & Hnd & Hin); [|done|].
  { intros E. pose proof (xw_age_len _ _ Hwf) as Hl. rewrite E in Hl. by destruct (x_src x). }
  change (x_age (drain_busy x)) with (x_age x). rewrite Ho. cbn [mbind exc_bind].
  destruct (xbar_steps_ok clk B order (drain_busy x) Hnd HB) as (x' & Hr & Hwf' & Hs).
  - eapply xbar_wf_weaken; [by apply drain_busy_wf|]. intros i. simpl. case_decide; lia.
  - intros i Hi. apply Hin in Hi as (a & Ha & Hp). simpl. pose proof (zget_lt _ _ _ Ha) as Hl. rewrite (xw_age_len _ _ Hwf) in Hl.
    destruct (zget_is_Some (x_src x) i Hl) as [q Hq]. exists q. split; [done|].
    destruct (xw_age _ _ Hwf i q Hq) as (a' & Ha' & _ & Hiff). rewrite Ha in Ha'. injection Ha' as <-. by apply Hiff.
  - by exists x'.
Qed.

Lemma xbar_put_ok i p B x :
  xbar_wf (fun _ => B) x → 0 ≤ i < Z.of_nat (length (x_src x)) → 1 ≤ B → good p →
  ∃ x', xbar_put i p x = ok x' ∧ xbar_wf (fun _ => B) x' ∧ contents x' ≡ₚ p :: contents x ∧
    x_dst x' = x_dst x ∧ length (x_src x') = length (x_src x) ∧
    ∀ j, length <$> zget (x_src x') j = (if decide (j = i) then S else id) <$> (length <$> zget (x_src x) j).
Proof.
  intros Hwf Hi HB Hp. destruct (zget_is_Some (x_src x) i Hi) as [q Hq]. destruct (xw_age _ _ Hwf i q Hq) as (a & Ha & _).
  unfold xbar_put, vec_get. rewrite Hq, Ha. cbn [opt_exc mbind exc_bind]. eexists. split; [reflexivity|].
  assert (contents (MkXbar (zset (x_src x) i (q ++ [p])) (x_dst x) (x_busy x) (zset (x_age x) i 1)) ≡ₚ p :: contents x) as Hc.
  { unfold contents. simpl. by rewrite (concat_zset_cons _ _ _ _ p Hq) by (symmetry; apply Permutation_cons_append). }
  pose proof (zget_lt _ _ _ Ha) as Hal. split; [|split; [done|split; [done|split; [apply length_zset|]]]].
  - split; simpl; [by rewrite !length_zset, (xw_age_len _ _ Hwf)|apply Hwf|apply Hwf| |rewrite Hc; constructor; [done|apply Hwf]].
    intros j q'. destruct (decide (j = i)) as [->|Hj]; [|rewrite !zget_zset_ne by done; apply (xw_age _ _ Hwf)].
    rewrite !zget_zset_eq by lia. intros [= <-]. eexists. split; [reflexivity|]. split; [lia|]. split; [|lia]. by destruct q.
  - intros j. simpl. case_decide as Hj; [subst j; rewrite zget_zset_eq, Hq by done; simpl; rewrite length_app; simpl; f_equal; lia|].
    rewrite zget_zset_ne by done. by destruct (zget (x_src x) j).
Qed.

Lemma xbar_pop_ok b i p q x :
  xbar_wf b x → zget (x_dst x) i = Some (p :: q) →
  xbar_wf b (xbar_pop i (p :: q) x) ∧ contents x ≡ₚ p :: contents (xbar_pop i (p :: q) x) ∧ good p.
Proof.
  intros Hwf Hi. assert (contents x ≡ₚ p :: contents (xbar_pop i (p :: q) x)) as Hc.
  { unfold contents, xbar_pop. simpl. rewrite (concat_zset_perm _ _ _ q p Hi) by done. symmetry. apply Permutation_middle. }
  pose proof (xw_good _ _ Hwf) as Hg. rewrite Hc in Hg. apply Forall_cons_1 in Hg as [Hp Hg].
  split; [|done]. destruct Hwf. split; try done. simpl. by rewrite length_zset.
Qed.

Lemma new_Xbar_wf m b : (∀ i, 0 ≤ b i) → xbar_wf b (new_Xbar m (Z.to_nat n)) ∧ contents (new_Xbar m (Z.to_nat n)) = [].
Proof.
  intros Hb. assert (∀ k, concat (replicate k (@nil A)) = []) as Hnil by (induction k as [|k IH]; [done|exact IH]).
  assert (contents (new_Xbar m (Z.to_nat n)) = []) as Hc by (unfold contents; simpl; by rewrite !Hnil).
  split; [|done]. split; simpl; rewrite ?length_replicate; try done; [|by rewrite Hc].
  intros i q Hq. pose proof (zget_lt _ _ _ Hq) as Hi. rewrite length_replicate in Hi.
  apply zget_elem, elem_of_replicate_inv in Hq as ->. destruct (zget_is_Some (replicate m 0) i) as [a Ha]; [by rewrite length_replicate|].
  exists a. split; [done|]. apply zget_elem, elem_of_replicate_inv in Ha as ->. specialize (Hb i). split; [lia|]. split; [lia|done].
Qed.
End Packets.

(** ** The order of service, as a property *)

(** The order in which the sources of a crossbar are served contains every waiting one
    exactly once: none is passed over and no empty queue is read. *)
Theorem age_queue_complete clk ages :
  ages ≠ [] → 0 ≤ clk →
  ∃ q, BuildAgeQueue clk ages = ok q ∧ NoDup q ∧ ∀ i, i ∈ q ↔ ∃ a, zget ages i = Some a ∧ 0 < a.
Proof. apply build_age_queue_ok. Qed.

Lemma age_queue_complete_witness : ∃ q, BuildAgeQueue 5 [0; 3; 0; 1] = ok q ∧ NoDup q ∧ 1 ∈ q ∧ 0 ∉ q.
Proof.
  destruct (age_queue_complete 5 [0; 3; 0; 1]) as (q & Hq & Hnd & Hin); [done|done|].
  exists q. split; [exact Hq|]. split; [exact Hnd|]. split; [apply Hin; by exists 3|].
  rewrite Hin. intros (a & Ha & Hp). injection Ha as <-. lia.
Defined.

(** But it is not the order of the ages: of sources that have waited 5, 6 and 1
    cycles, the last one is served before the first. *)
Theorem age_queue_unsorted : BuildAgeQueue 0 [5; 6; 1; 0] = ok [1; 2; 0].
Proof. reflexivity. Qed.
