(* ===== verification/Hmc.v ===== *)
(** * The HMC system (DRAMsim3-master/src/hmc.h, hmc.cc)

    Requests enter on a link, cross to the quadrant of their vault and go to its
    controller; the response made at the entry waits in a table until the vault is
    done and takes the same way back. Two clocks run at different rates. Each
    request object is in one queue at a time, so it is a value here; the fields the
    constructors leave open ([link], [exit_time]) start at 0 and are written before
    they are read. [std::multimap::find] returns the oldest entry of a key. The
    theorems: requests are neither lost nor invented and no step fails; the two
    clocks keep their ratio; but a write may be answered by the response of an older
    read of the same address, so that the read is reported complete too early. *)

From Stdlib Require Import ZArith Lia String.
From stdpp Require Import strings sets gmap numbers option list.
From S2P Require Import Prelude DramCommon Config Timing ChannelState Stats CommandQueue Refresh Controller DramSystem Xbar.

(** ** Packets *)

Inductive HMCReqType :=
| RD0 | RD16 | RD32 | RD48 | RD64 | RD80 | RD96 | RD112 | RD128 | RD256
| WR0 | WR16 | WR32 | WR48 | WR64 | WR80 | WR96 | WR112 | WR128 | WR256
| P_WR16 | P_WR32 | P_WR48 | P_WR64 | P_WR80 | P_WR96 | P_WR112 | P_WR128 | P_WR256
| ADD8 | ADD16 | P_2ADD8 | P_ADD16 | ADDS8R | ADDS16R | INC8 | P_INC8
| XOR16 | OR16 | NOR16 | AND16 | NAND16
| CASGT8 | CASGT16 | CASLT8 | CASLT16 | CASEQ8 | CASZERO16
| EQ8 | EQ16 | BWR | P_BWR | BWR8R | SWAP16 | REQ_SIZE.
#[global] Instance HMCReqType_eq_dec : EqDecision HMCReqType.
Proof. solve_decision. Defined.

Inductive HMCRespType := NONE | RD_RS | WR_RS | ERR | RESP_SIZE.
#[global] Instance HMCRespType_eq_dec : EqDecision HMCRespType.
Proof. solve_decision. Defined.

(** The enumerators, in their order. *)
Definition req_types : list HMCReqType :=
  [RD0; RD16; RD32; RD48; RD64; RD80; RD96; RD112; RD128; RD256;
   WR0; WR16; WR32; WR48; WR64; WR80; WR96; WR112; WR128; WR256;
   P_WR16; P_WR32; P_WR48; P_WR64; P_WR80; P_WR96; P_WR112; P_WR128; P_WR256;
   ADD8; ADD16; P_2ADD8; P_ADD16; ADDS8R; ADDS16R; INC8; P_INC8;
   XOR16; OR16; NOR16; AND16; NAND16; CASGT8; CASGT16; CASLT8; CASLT16; CASEQ8; CASZERO16;
   EQ8; EQ16; BWR; P_BWR; BWR8R; SWAP16; REQ_SIZE].
Definition req_index (t : HMCReqType) : nat := default 0%nat (fst <$> list_find (t =.) req_types).

(** [is_write] and [flits] of the constructor of [HMCRequest]. *)
Definition req_is_write (t : HMCReqType) : bool :=
  (req_index WR0 <=? req_index t)%nat && (req_index t <=? req_index P_WR256)%nat.
Definition req_flits (t : HMCReqType) : exc Z :=
  match t with
  | RD0 | WR0 => ok 0
  | RD16 | RD32 | RD48 | RD64 | RD80 | RD96 | RD112 | RD128 | RD256 => ok 1
  | WR16 | P_WR16 => ok 2
  | WR32 | P_WR32 => ok 3
  | WR48 | P_WR48 => ok 4
  | WR64 | P_WR64 => ok 5
  | WR80 | P_WR80 => ok 6
  | WR96 | P_WR96 => ok 7
  | WR112 | P_WR112 => ok 8
  | WR128 | P_WR128 => ok 9
  | WR256 | P_WR256 => ok 17
  | ADD8 | ADD16 => ok 2
  | P_2ADD8 | P_ADD16 => ok 2
  | ADDS8R | ADDS16R => ok 2
  | INC8 => ok 1
  | P_INC8 => ok 1
  | XOR16 | OR16 | NOR16 | AND16 | NAND16 | CASGT8 | CASGT16 | CASLT8 | CASLT16 | CASEQ8 | CASZERO16 => ok 2
  | EQ8 | EQ16 | BWR => ok 2
  | P_BWR => ok 2
  | BWR8R | SWAP16 => ok 2
  | REQ_SIZE => err AbruptExit
  end.

(** [type] and [flits] of the constructor of [HMCResponse]. *)
Definition resp_kind (t : HMCReqType) : exc (HMCRespType * Z) :=
  match t with
  | RD0 => ok (RD_RS, 0)
  | RD16 => ok (RD_RS, 2)
  | RD32 => ok (RD_RS, 3)
  | RD48 => ok (RD_RS, 4)
  | RD64 => ok (RD_RS, 5)
  | RD80 => ok (RD_RS, 6)
  | RD96 => ok (RD_RS, 7)
  | RD112 => ok (RD_RS, 8)
  | RD128 => ok (RD_RS, 9)
  | RD256 => ok (RD_RS, 17)
  | WR0 => ok (WR_RS, 0)
  | WR16 | WR32 | WR48 | WR64 | WR80 | WR96 | WR112 | WR128 | WR256 => ok (WR_RS, 1)
  | P_WR16 | P_WR32 | P_WR48 | P_WR64 | P_WR80 | P_WR96 | P_WR112 | P_WR128 | P_WR256 => ok (NONE, 0)
  | ADD8 | ADD16 => ok (WR_RS, 1)
  | P_2ADD8 | P_ADD16 => ok (NONE, 0)
  | ADDS8R | ADDS16R => ok (RD_RS, 2)
  | INC8 => ok (WR_RS, 1)
  | P_INC8 => ok (NONE, 0)
  | XOR16 | OR16 | NOR16 | AND16 | NAND16 | CASGT8 | CASGT16 | CASLT8 | CASLT16 | CASEQ8 | CASZERO16 => ok (RD_RS, 2)
  | EQ8 | EQ16 | BWR => ok (WR_RS, 1)
  | P_BWR => ok (NONE, 0)
  | BWR8R | SWAP16 => ok (RD_RS, 2)
  | REQ_SIZE => err AbruptExit
  end.

Record HMCRequest := MkReq {
  q_type : HMCReqType;
  mem_operand : Z;
  q_link : Z;
  q_quad : Z;
  q_vault : Z;
  q_flits : Z;
  q_is_write : bool;
  q_exit_time : Z
}.
Record HMCResponse := MkResp {
  resp_id : Z;
  r_type : HMCRespType;
  r_link : Z;
  r_quad : Z;
  r_flits : Z;
  r_exit_time : Z
}.

(** [HMCRequest(req_type, hex_addr, vault)] and
    [HMCResponse(id, req_type, dest_link, src_quad)]. *)
Definition new_HMCRequest (t : HMCReqType) (hex_addr vault : Z) : exc HMCRequest :=
  flits ← req_flits t; ok (MkReq t hex_addr 0 (Z.rem vault 4) vault flits (req_is_write t) 0).
Definition new_HMCResponse (id : Z) (t : HMCReqType) (dest_link src_quad : Z) : exc HMCResponse :=
  '(type, flits) ← resp_kind t; ok (MkResp id type dest_link src_quad flits 0).

Definition q_on_link (l : Z) (q : HMCRequest) : HMCRequest :=
  MkReq (q_type q) (mem_operand q) l (q_quad q) (q_vault q) (q_flits q) (q_is_write q) (q_exit_time q).
Definition q_leaves (t : Z) (q : HMCRequest) : HMCRequest :=
  MkReq (q_type q) (mem_operand q) (q_link q) (q_quad q) (q_vault q) (q_flits q) (q_is_write q) (u64 t).
Definition r_leaves (t : Z) (r : HMCResponse) : HMCResponse :=
  MkResp (resp_id r) (r_type r) (r_link r) (r_quad r) (r_flits r) (u64 t).

(** ** The system *)

(** [class HMCMemorySystem]: the members of [BaseDRAMSystem], the clocks, the links,
    the table of responses (in the order of insertion, by [resp_id]), and the two
    crossbars: [link_req_queues_], [quad_req_queues_], [quad_busy_],
    [link_age_counter_] of the requests, and [quad_resp_queues_],
    [link_resp_queues_], [link_busy_], [quad_age_counter_] of the responses. *)
Record HMCMemorySystem := MkHmc {
  hm_base : JedecDRAMSystem;
  logic_clk_ : Z;
  ps_per_dram_ : Z;
  ps_per_logic_ : Z;
  logic_ps_ : Z;
  dram_ps_ : Z;
  next_link_ : Z;
  links_ : Z;
  queue_depth_ : Z;
  resp_lookup_table_ : list HMCResponse;
  req_xbar : Xbar HMCRequest;
  resp_xbar : Xbar HMCResponse
}.
Definition hm_config (s : HMCMemorySystem) : Config := js_config (hm_base s).

Definition h_base (b : JedecDRAMSystem) (s : HMCMemorySystem) : HMCMemorySystem :=
  MkHmc b (logic_clk_ s) (ps_per_dram_ s) (ps_per_logic_ s) (logic_ps_ s) (dram_ps_ s) (next_link_ s) (links_ s)
    (queue_depth_ s) (resp_lookup_table_ s) (req_xbar s) (resp_xbar s).
Definition h_time (clk lps dps : Z) (s : HMCMemorySystem) : HMCMemorySystem :=
  MkHmc (hm_base s) clk (ps_per_dram_ s) (ps_per_logic_ s) lps dps (next_link_ s) (links_ s)
    (queue_depth_ s) (resp_lookup_table_ s) (req_xbar s) (resp_xbar s).
Definition h_link (l : Z) (s : HMCMemorySystem) : HMCMemorySystem :=
  MkHmc (hm_base s) (logic_clk_ s) (ps_per_dram_ s) (ps_per_logic_ s) (logic_ps_ s) (dram_ps_ s) l (links_ s)
    (queue_depth_ s) (resp_lookup_table_ s) (req_xbar s) (resp_xbar s).
Definition h_packets (t : list HMCResponse) (q : Xbar HMCRequest) (r : Xbar HMCResponse) (s : HMCMemorySystem)
    : HMCMemorySystem :=
  MkHmc (hm_base s) (logic_clk_ s) (ps_per_dram_ s) (ps_per_logic_ s) (logic_ps_ s) (dram_ps_ s) (next_link_ s) (links_ s)
    (queue_depth_ s) t q r.

(** [SetClockRatio()], the two periods. The quotient is computed in floating
    point; it is at least 1/|speed| away from the next integer, so rounding does not
    change its integer part. A quotient by 0 or below 0 has no value as an unsigned
    integer. *)
Definition SetClockRatio (config : Config) : exc (Z * Z) :=
  let ps_per_dram := 800 in
  link_cycles_per_flit ← zquot 128 (link_width config);
  logic_speed ← zquot (link_speed config) link_cycles_per_flit;
  if logic_speed =? 0 then err UndefinedBehaviour
  else
    let q := Z.quot 1000000 logic_speed in
    if q <? 0 then err UndefinedBehaviour
    else ok (ps_per_dram, if ps_per_dram <? q then ps_per_dram else q).

(** [HMCMemorySystem::HMCMemorySystem(config, ...)]. *)
Definition new_Hmc (config : Config) : exc HMCMemorySystem :=
  if negb (IsHMC config) then err AbruptExit
  else
    '(pd, pl) ← SetClockRatio config;
    l ← mapE (new_Controller config) (zseq (channels config));
    let links := num_links config in
    if links <? 0 then err LengthError
    else
      let n := Z.to_nat links in
      ok (MkHmc (MkJedec config 0 0 l) 0 pd pl 0 0 0 links (u64 (xbar_queue_depth config)) [] (new_Xbar n 4) (new_Xbar 4 n)).

(** [IterateNextLink()]. *)
Definition IterateNextLink (s : HMCMemorySystem) : exc HMCMemorySystem :=
  if links_ s =? 0 then err UndefinedBehaviour else ok (h_link (Z.rem (next_link_ s + 1) (links_ s)) s).

(** [WillAcceptTransaction(hex_addr, is_write)]. *)
Definition hm_room (s : HMCMemorySystem) (q : list HMCRequest) : bool := Z.of_nat (length q) <? queue_depth_ s.
Definition hm_WillAccept (s : HMCMemorySystem) : bool := existsb (hm_room s) (x_src (req_xbar s)).

(** [InsertReqToLink(req, link)]. *)
Definition InsertReqToLink (req : HMCRequest) (link : Z) (s : HMCMemorySystem) : exc (bool * HMCMemorySystem) :=
  q ← vec_get (x_src (req_xbar s)) link;
  if hm_room s q then
    let req := q_on_link link req in
    x ← xbar_put link req (req_xbar s);
    resp ← new_HMCResponse (mem_operand req) (q_type req) link (q_quad req);
    let b := hm_base s in
    ok (true, h_base (MkJedec (js_config b) (js_clk_ b) (js_clk_ b) (ctrls_ b))
                (h_packets (resp_lookup_table_ s ++ [resp]) x (resp_xbar s) s))
  else ok (false, s).

(** [InsertHMCReq(req)]: the next link, or else the first one behind it that has
    room; the loop ends when it is back at the start. *)
Fixpoint insert_loop (fuel : nat) (start : Z) (req : HMCRequest) (s : HMCMemorySystem) : exc (bool * HMCMemorySystem) :=
  if start =? next_link_ s then ok (false, s)
  else
    match fuel with
    | O => err OutOfFuel
    | S fuel' =>
        '(b, s) ← InsertReqToLink req (next_link_ s) s;
        s ← IterateNextLink s;
        if (b : bool) then ok (true, s) else insert_loop fuel' start req s
    end.
Definition InsertHMCReq (req : HMCRequest) (s : HMCMemorySystem) : exc (bool * HMCMemorySystem) :=
  '(b, s) ← InsertReqToLink req (next_link_ s) s;
  let start := next_link_ s in
  s ← IterateNextLink s;
  if (b : bool) then ok (true, s) else insert_loop (Z.to_nat (links_ s)) start req s.

(** [AddTransaction(hex_addr, is_write)]. *)
Definition block_req (block_size : Z) (w : bool) : exc HMCReqType :=
  if w then
    match block_size with
    | 0 => ok WR0 | 32 => ok WR32 | 64 => ok WR64 | 128 => ok WR128 | 256 => ok WR256 | _ => err AbruptExit
    end
  else
    match block_size with
    | 0 => ok RD0 | 32 => ok RD32 | 64 => ok RD64 | 128 => ok RD128 | 256 => ok RD256 | _ => err AbruptExit
    end.
Definition hm_Add (hex : Z) (w : bool) (s : HMCMemorySystem) : exc (bool * HMCMemorySystem) :=
  t ← block_req (block_size (hm_config s)) w;
  req ← new_HMCRequest t hex (GetChannel (hm_config s) hex);
  InsertHMCReq req s.

(** [InsertReqToDRAM(req)], behind the test in [DrainRequests]. *)
Definition InsertReqToDRAM (req : HMCRequest) (s : HMCMemorySystem) : exc HMCMemorySystem :=
  let b := hm_base s in
  c ← vec_get (ctrls_ b) (q_vault req);
  ok (h_base (j_ctrls (zset (ctrls_ b) (q_vault req)
                 (AddTransaction (new_transaction (mem_operand req) (q_is_write req)) c)) b) s).

(** [DrainRequests()]: the head of each quadrant's queue goes to its vault. *)
Definition drain_quad (i : Z) (s : HMCMemorySystem) : exc HMCMemorySystem :=
  d ← vec_get (x_dst (req_xbar s)) i;
  r ← vec_get (x_src (resp_xbar s)) i;
  match d with
  | [] => ok s
  | req :: _ =>
      if (Z.of_nat (length r) <? queue_depth_ s) && (q_exit_time req <=? logic_clk_ s) then
        c ← vec_get (ctrls_ (hm_base s)) (q_vault req);
        if WillAcceptTransaction c (q_is_write req) then
          s ← InsertReqToDRAM req s;
          ok (h_packets (resp_lookup_table_ s) (xbar_pop i d (req_xbar s)) (resp_xbar s) s)
        else ok s
      else ok s
  end.
Definition DrainRequests (s : HMCMemorySystem) : exc HMCMemorySystem :=
  s ← foldE drain_quad (zseq 4) s;
  x ← xbar_cycle q_quad q_flits q_leaves (queue_depth_ s) (logic_clk_ s) (req_xbar s);
  ok (h_packets (resp_lookup_table_ s) x (resp_xbar s) s).

(** [DrainResponses()]: the head of each link's queue goes to the processor, by
    [read_callback_] or [write_callback_]; the calls are collected. *)
Definition answer_of (r : HMCResponse) : Z * bool := (resp_id r, negb (bool_decide (r_type r = RD_RS))).
Definition drain_link (i : Z) (x : list (Z * bool) * HMCMemorySystem) : exc (list (Z * bool) * HMCMemorySystem) :=
  let '(l, s) := x in
  d ← vec_get (x_dst (resp_xbar s)) i;
  match d with
  | [] => ok (l, s)
  | resp :: _ =>
      if r_exit_time resp <=? logic_clk_ s then
        ok (l ++ [answer_of resp], h_packets (resp_lookup_table_ s) (req_xbar s) (xbar_pop i d (resp_xbar s)) s)
      else ok (l, s)
  end.
Definition DrainResponses (s : HMCMemorySystem) : exc (list (Z * bool) * HMCMemorySystem) :=
  '(l, s) ← foldE drain_link (zseq (links_ s)) ([], s);
  x ← xbar_cycle r_link r_flits r_leaves (queue_depth_ s) (logic_clk_ s) (resp_xbar s);
  ok (l, h_packets (resp_lookup_table_ s) (req_xbar s) x s).

(** [VaultCallback(req_id)]. *)
Fixpoint take_response (id : Z) (l : list HMCResponse) : option (HMCResponse * list HMCResponse) :=
  match l with
  | [] => None
  | r :: l' => if resp_id r =? id then Some (r, l') else '(x, rest) ← take_response id l'; Some (x, r :: rest)
  end.
Definition VaultCallback (req_id : Z) (s : HMCMemorySystem) : exc HMCMemorySystem :=
  '(resp, rest) ← opt_exc (take_response req_id (resp_lookup_table_ s)) UndefinedBehaviour;
  x ← xbar_put (r_quad resp) resp (resp_xbar s);
  ok (h_packets rest (req_xbar s) x s).

(** [DRAMClockTick()]; the callbacks touch neither the controllers nor the clock, so
    they run together behind the loop that collects the completions. *)
Definition DRAMClockTick (s : HMCMemorySystem) : exc HMCMemorySystem :=
  let b := hm_base s in
  done ← mapE (return_done (js_clk_ b)) (ctrls_ b);
  s ← foldE (fun r => VaultCallback r.1) (concat done.*1) s;
  cs ← mapE (ctrl_ClockTick (js_config b)) done.*2;
  let clk := u64 (js_clk_ b + 1) in
  let b := MkJedec (js_config b) clk (last_req_clk_ b) cs in
  let p := u64 (epoch_period (js_config b)) in
  if p =? 0 then err UndefinedBehaviour
  else ok (h_base (if clk mod p =? 0 then PrintEpochStats b else b) s).

(** [ClockTick()]: the logic layer catches up with the DRAM clock. *)
Definition logic_time (s : HMCMemorySystem) : HMCMemorySystem :=
  h_time (u64 (logic_clk_ s + 1)) (u64 (logic_ps_ s + ps_per_logic_ s)) (dram_ps_ s) s.
Fixpoint logic_loop (fuel : nat) (s : HMCMemorySystem) : exc (list (Z * bool) * HMCMemorySystem) :=
  if logic_ps_ s <? u64 (dram_ps_ s + ps_per_dram_ s) then
    match fuel with
    | O => err OutOfFuel
    | S fuel' =>
        '(l, s) ← DrainResponses s;
        s ← DrainRequests s;
        '(l', s) ← logic_loop fuel' (logic_time s);
        ok (l ++ l', s)
    end
  else ok ([], s).
Definition hm_ClockTick (s : HMCMemorySystem) : exc (list (Z * bool) * HMCMemorySystem) :=
  '(l, s) ← (if dram_ps_ s =? logic_ps_ s then
               '(l, s) ← DrainResponses s;
               s ← DRAMClockTick s;
               s ← DrainRequests s;
               ok (l, logic_time s)
             else s ← DRAMClockTick s; ok ([], s));
  '(l', s) ← logic_loop (Z.to_nat (ps_per_dram_ s)) s;
  ok (l ++ l', h_time (logic_clk_ s) (logic_ps_ s) (u64 (dram_ps_ s + ps_per_dram_ s)) s).

#[global] Instance Hmc_system : DRAMSystem HMCMemorySystem := {
  ds_will_accept s _ _ := ok (hm_WillAccept s);
  ds_add := hm_Add;
  ds_tick := hm_ClockTick;
  ds_channel s := GetChannel (hm_config s)
}.

(** ** What the system keeps *)

Section Invariant.
Implicit Types (s : HMCMemorySystem) (E : list Z).

(** A request on its way to the quadrant of its vault, a response to its link. *)
Definition req_good (config : Config) (q : HMCRequest) : Prop :=
  0 ≤ mem_operand q ∧ q_vault q = GetChannel config (mem_operand q) ∧ 0 ≤ q_quad q < 4.
Definition resp_good (links : Z) (r : HMCResponse) : Prop := 0 ≤ r_link r < links ∧ 0 ≤ r_quad r < 4.

(** The crossbars and the table: each entry of the table belongs to a request that is
    still on its way or to one of [E], which the vaults hold. [Bq] and [Br] bound the
    age counters. *)
Record hmc_core (Bq Br : Z) E s : Prop := {
  hc_links : 0 < links_ s;
  hc_next : 0 ≤ next_link_ s < links_ s;
  hc_src : length (x_src (req_xbar s)) = Z.to_nat (links_ s);
  hc_quad : length (x_src (resp_xbar s)) = 4%nat;
  hc_req : xbar_wf 4 (req_good (hm_config s)) (fun _ => Bq) (req_xbar s);
  hc_resp : xbar_wf (links_ s) (resp_good (links_ s)) (fun _ => Br) (resp_xbar s);
  hc_table : Forall (resp_good (links_ s)) (resp_lookup_table_ s);
  hc_match : resp_id <$> resp_lookup_table_ s ≡ₚ (mem_operand <$> contents (req_xbar s)) ++ E
}.

(** The requests accepted and not yet answered: their responses exist already. *)
Definition hmc_out s : list (Z * bool) := answer_of <$> (resp_lookup_table_ s ++ contents (resp_xbar s)).
Definition vaults s : list Z := (jedec_out (hm_base s)).*1.

(** The clocks of the logic layer. *)
Definition time s : Z * Z * Z * Z * Z := (logic_clk_ s, ps_per_dram_ s, ps_per_logic_ s, logic_ps_ s, dram_ps_ s).
(** Steps inside a tick: the clocks stand, the DRAM clock as well. *)
Definition hm_frame s s' : Prop :=
  time s' = time s ∧ hm_config s' = hm_config s ∧ js_clk_ (hm_base s') = js_clk_ (hm_base s) ∧ queue_depth_ s' = queue_depth_ s.

Lemma hm_frame_refl s : hm_frame s s.
Proof. done. Qed.
Lemma hm_frame_trans s s1 s2 : hm_frame s s1 → hm_frame s1 s2 → hm_frame s s2.
Proof. intros (? & ? & ? & ?) (? & ? & ? & ?). split_and!; congruence. Qed.

Lemma hmc_core_perm Bq Br E E' s : E ≡ₚ E' → hmc_core Bq Br E s → hmc_core Bq Br E' s.
Proof. intros HE []. split; try done. by rewrite hc_match0, HE. Qed.

Lemma take_response_ok id l :
  id ∈ resp_id <$> l → ∃ r rest, take_response id l = Some (r, rest) ∧ resp_id r = id ∧ l ≡ₚ r :: rest.
Proof.
  induction l as [|r l IH]; [by intros ?%elem_of_nil|]. intros Hin. simpl in Hin. cbn [take_response].
  destruct (Z.eqb_spec (resp_id r) id) as [E|E]; [by exists r, l|].
  apply elem_of_cons in Hin as [Hin|Hin]; [congruence|]. destruct (IH Hin) as (x & rest & -> & Hx & Hp).
  exists x, (r :: rest). split; [done|]. split; [done|]. rewrite Hp. apply Permutation_swap.
Qed.

(** A completion finds a response for its address, and sends it on its way. *)
Lemma VaultCallback_ok Bq Br id E s :
  hmc_core Bq Br (id :: E) s → 1 ≤ Br →
  ∃ s', VaultCallback id s = ok s' ∧ hmc_core Bq Br E s' ∧ hmc_out s' ≡ₚ hmc_out s ∧ hm_frame s s' ∧ hm_base s' = hm_base s.
Proof.
  intros Hc HB. destruct (take_response_ok id (resp_lookup_table_ s)) as (r & rest & Ht & Hid & Hp).
  { rewrite (hc_match _ _ _ _ Hc). set_solver. }
  pose proof (hc_table _ _ _ _ Hc) as Hg. rewrite Hp in Hg. apply Forall_cons in Hg as [[Hl Hq] Hg].
  destruct (xbar_put_ok (links_ s) (resp_good (links_ s)) (r_quad r) r Br (resp_xbar s))
    as (x & Hx & Hwf & Hcx & Hd & Hlen & _); [apply Hc|rewrite (hc_quad _ _ _ _ Hc); lia|done|done|].
  unfold VaultCallback. rewrite Ht. cbn [opt_exc mbind exc_bind]. rewrite Hx. cbn [mbind exc_bind].
  eexists. split; [reflexivity|]. split; [|split; [|done]].
  - destruct Hc. split; simpl; try done; [congruence|].
    apply (Permutation_cons_inv (a := id)). rewrite Permutation_middle, <- hc_match0, Hp. simpl. by rewrite Hid.
  - unfold hmc_out. simpl. rewrite Hp, Hcx, !fmap_app. simpl. symmetry. apply Permutation_middle.
Qed.

Lemma vault_callbacks_ok Bq Br l E s :
  hmc_core Bq Br (l.*1 ++ E) s → 1 ≤ Br →
  ∃ s', foldE (fun r : Z * bool => VaultCallback r.1) l s = ok s' ∧ hmc_core Bq Br E s' ∧ hmc_out s' ≡ₚ hmc_out s ∧
    hm_frame s s' ∧ hm_base s' = hm_base s.
Proof.
  revert s. induction l as [|r l IH]; intros s Hc HB; simpl; [by exists s|].
  destruct (VaultCallback_ok Bq Br r.1 (l.*1 ++ E) s Hc HB) as (s1 & -> & Hc1 & Ho1 & Hf1 & Hb1). cbn [mbind exc_bind].
  destruct (IH s1 Hc1 HB) as (s2 & -> & Hc2 & Ho2 & Hf2 & Hb2). exists s2.
  split; [done|]. split; [done|]. split; [by rewrite Ho2|]. split; [by eapply hm_frame_trans|congruence].
Qed.

(** Between the steps of a tick. *)
Definition hmc_full (Bq Br : Z) s : Prop := jedec_inv (hm_base s) ∧ hmc_core Bq Br (vaults s) s.

Lemma DRAMClockTick_ok Bq Br s :
  hmc_full Bq Br s → 1 ≤ Br → 0 ≤ js_clk_ (hm_base s) < 2 ^ 63 →
  ∃ s', DRAMClockTick s = ok s' ∧ hmc_full Bq Br s' ∧ hmc_out s' ≡ₚ hmc_out s ∧ time s' = time s ∧
    hm_config s' = hm_config s ∧ js_clk_ (hm_base s') = js_clk_ (hm_base s) + 1 ∧ queue_depth_ s' = queue_depth_ s.
Proof.
  intros [Hj Hc] HB Hk. destruct (j_ClockTick_ok _ Hj Hk) as (l & b' & Hr & Hj' & Hk' & Ho & Hcf).
  unfold j_ClockTick in Hr. unfold DRAMClockTick. apply exc_bind_ok in Hr as (dn & -> & Hr). cbn [mbind exc_bind].
  apply exc_bind_ok in Hr as (cs & Hcs & Hr). cbn zeta in Hr |- *. cbn [js_config] in Hr.
  destruct (_ =? 0) eqn:Hz; [done|]. injection Hr as Hl Hb.
  destruct (vault_callbacks_ok Bq Br (concat dn.*1) (jedec_out b').*1 s) as (s1 & Hs1 & Hc1 & Ho1 & Hf1 & Hb1); [|done|].
  { eapply hmc_core_perm; [|exact Hc]. unfold vaults. rewrite Hl, Ho, fmap_app. done. }
  rewrite Hs1. cbn [mbind exc_bind]. rewrite Hcs. cbn [mbind exc_bind js_config]. rewrite Hz, Hb.
  eexists. split; [reflexivity|]. destruct Hf1 as (Ht1 & Hcf1 & _ & Hd1). split; [split; [done|]|split; [done|]].
  - destruct Hc1. split; simpl; try done. unfold hm_config. simpl. rewrite Hcf. unfold hm_config in hc_req0. by rewrite Hb1 in hc_req0.
  - done.
Qed.

(** A response leaves at the end of its link. *)
Lemma drain_link_ok Bq Br E i l s :
  hmc_core Bq Br E s → 0 ≤ i < links_ s →
  ∃ l' s', drain_link i (l, s) = ok (l ++ l', s') ∧ hmc_core Bq Br E s' ∧ hmc_out s ≡ₚ l' ++ hmc_out s' ∧
    hm_frame s s' ∧ hm_base s' = hm_base s ∧ links_ s' = links_ s.
Proof.
  intros Hc Hi. pose proof (xw_dst_len _ _ _ _ (hc_resp _ _ _ _ Hc)) as Hlen.
  destruct (zget_is_Some (x_dst (resp_xbar s)) i) as [d Hd]; [rewrite Hlen; pose proof (hc_links _ _ _ _ Hc); lia|].
  assert (drain_link i (l, s) = ok (l ++ [], s) → ∃ l' s', drain_link i (l, s) = ok (l ++ l', s') ∧ hmc_core Bq Br E s' ∧
    hmc_out s ≡ₚ l' ++ hmc_out s' ∧ hm_frame s s' ∧ hm_base s' = hm_base s ∧ links_ s' = links_ s) as Hstay.
  { intros Hr. exists [], s. by split_and!. }
  unfold drain_link in *. unfold vec_get in *. rewrite Hd in *. cbn [opt_exc mbind exc_bind] in *.
  rewrite app_nil_r in Hstay. destruct d as [|resp d]; [by apply Hstay|].
  destruct (_ <=? _); [|by apply Hstay]. eexists [_], _. split; [reflexivity|].
  destruct (xbar_pop_ok _ _ _ i resp d _ (hc_resp _ _ _ _ Hc) Hd) as (Hwf & Hcx & _).
  split; [destruct Hc; by split|]. split; [|done]. unfold hmc_out. simpl. rewrite Hcx, !fmap_app. simpl.
  symmetry. apply Permutation_middle.
Qed.

Lemma DrainResponses_ok Bq Br E s :
  hmc_core Bq Br E s → 0 ≤ logic_clk_ s → Br < 2 ^ 31 - 1 →
  ∃ l s', DrainResponses s = ok (l, s') ∧ hmc_core Bq (Br + 1) E s' ∧ hmc_out s ≡ₚ l ++ hmc_out s' ∧ hm_frame s s' ∧
    hm_base s' = hm_base s.
Proof.
  intros Hc Hk HB. unfold DrainResponses.
  set (I := fun (_ : Z) (x : list (Z * bool) * HMCMemorySystem) => hmc_core Bq Br E x.2 ∧ hmc_out s ≡ₚ x.1 ++ hmc_out x.2 ∧
    hm_frame s x.2 ∧ hm_base x.2 = hm_base s ∧ links_ x.2 = links_ s).
  destruct (foldE_index I drain_link (links_ s) ([], s)) as ([l s1] & Hr & Hc1 & Ho1 & Hf1 & Hb1 & Hl1);
    [pose proof (hc_links _ _ _ _ Hc); lia| |done|].
  - intros i [l1 s1] Hi (Hc1 & Ho1 & Hf1 & Hb1 & Hl1). simpl in *.
    destruct (drain_link_ok Bq Br E i l1 s1 Hc1) as (l' & s2 & Hr & Hc2 & Ho2 & Hf2 & Hb2 & Hl2); [lia|].
    exists (l1 ++ l', s2). split; [done|]. split; [done|]. simpl. split; [by rewrite Ho1, Ho2, app_assoc|].
    split; [by eapply hm_frame_trans|]. split; congruence.
  - simpl in *. rewrite Hr. cbn [mbind exc_bind]. assert (logic_clk_ s1 = logic_clk_ s) as Ek by (destruct Hf1 as [Ht _]; by injection Ht).
    destruct (xbar_cycle_ok r_link r_flits r_leaves (queue_depth_ s1) (links_ s1) (resp_good (links_ s1)) answer_of
      ltac:(by intros ? []) ltac:(done) ltac:(done) (logic_clk_ s1) Br (resp_xbar s1)) as (x & Hx & Hwf & Hsame);
      [lia| |done|apply Hc1|].
    { intros E0. pose proof (hc_quad _ _ _ _ Hc1) as Hq. by rewrite E0 in Hq. }
    rewrite Hx. cbn [mbind exc_bind]. eexists l, _. split; [reflexivity|]. destruct Hsame as [Hp Hlen].
    split; [destruct Hc1; split; simpl; try done; congruence|]. split; [|done].
    rewrite Ho1. apply Permutation_app_head. unfold hmc_out. simpl. by rewrite !fmap_app, Hp.
Qed.

(** The head of a quadrant's queue is handed to its vault. *)
Lemma drain_quad_ok Bq Br i s :
  hmc_full Bq Br s → 0 ≤ i < 4 →
  ∃ s', drain_quad i s = ok s' ∧ hmc_full Bq Br s' ∧ hmc_out s' = hmc_out s ∧ hm_frame s s'.
Proof.
  intros [Hj Hc] Hi.
  destruct (zget_is_Some (x_dst (req_xbar s)) i) as [d Hd]; [rewrite (xw_dst_len _ _ _ _ (hc_req _ _ _ _ Hc)); lia|].
  destruct (zget_is_Some (x_src (resp_xbar s)) i) as [r Hr]; [rewrite (hc_quad _ _ _ _ Hc); lia|].
  unfold drain_quad. rewrite (proj2 (vec_get_ok _ _ _) Hd). cbn [mbind exc_bind]. rewrite (proj2 (vec_get_ok _ _ _) Hr). cbn [mbind exc_bind].
  destruct d as [|req d]; [by exists s|]. destruct (_ && _); [|by exists s].
  destruct (xbar_pop_ok _ _ _ i req d _ (hc_req _ _ _ _ Hc) Hd) as (Hwf & Hcx & Hga & Hgv & Hgq).
  destruct (jedec_get _ _ Hj Hga) as (c & Hc1 & Hin). apply vec_get_ok in Hc1. unfold InsertReqToDRAM.
  change (hm_config s) with (js_config (hm_base s)) in Hgv. rewrite Hgv, Hc1. cbn [mbind exc_bind]. destruct (WillAcceptTransaction c (q_is_write req)) eqn:Hacc; [|by exists s].
  assert (j_WillAccept (hm_base s) (mem_operand req) (q_is_write req) = ok true) as Hw
    by (unfold j_WillAccept; rewrite Hc1; simpl; by rewrite Hacc).
  destruct (j_Add_ok _ _ _ Hj Hga Hw) as (b' & Hb & Hj' & Hk' & Ho' & Hcf'). unfold j_Add in Hb.
  rewrite Hc1 in Hb. cbn [mbind exc_bind] in Hb. rewrite Hacc in Hb. injection Hb as Hb.
  eexists. split; [reflexivity|]. split; [split|done].
  - subst b'. destruct Hj'. by split.
  - destruct Hc. split; simpl; try done. rewrite hc_match0, Hcx. unfold vaults. simpl.
    assert (jedec_out (j_ctrls (zset (ctrls_ (hm_base s)) (GetChannel (js_config (hm_base s)) (mem_operand req))
      (AddTransaction (new_transaction (mem_operand req) (q_is_write req)) c)) (hm_base s)) = jedec_out b') as -> by by subst b'.
    rewrite Ho'. simpl. apply Permutation_middle.
Qed.

Lemma DrainRequests_ok Bq Br s :
  hmc_full Bq Br s → 0 ≤ logic_clk_ s → Bq < 2 ^ 31 - 1 →
  ∃ s', DrainRequests s = ok s' ∧ hmc_full (Bq + 1) Br s' ∧ hmc_out s' = hmc_out s ∧ hm_frame s s'.
Proof.
  intros Hf Hk HB. unfold DrainRequests.
  set (I := fun (_ : Z) s' => hmc_full Bq Br s' ∧ hmc_out s' = hmc_out s ∧ hm_frame s s').
  destruct (foldE_index I drain_quad 4 s) as (s1 & Hr & [Hj Hc1] & Ho1 & Hf1); [done| |done|].
  - intros i s1 Hi (Hf1 & Ho1 & Hfr1). destruct (drain_quad_ok Bq Br i s1 Hf1 Hi) as (s2 & Hr & Hf2 & Ho2 & Hfr2).
    exists s2. split; [done|]. split; [done|]. split; [congruence|by eapply hm_frame_trans].
  - rewrite Hr. cbn [mbind exc_bind]. assert (logic_clk_ s1 = logic_clk_ s) as Ek by (destruct Hf1 as [Ht _]; by injection Ht).
    destruct (xbar_cycle_ok q_quad q_flits q_leaves (queue_depth_ s1) 4 (req_good (hm_config s1)) mem_operand
      ltac:(by intros ? (_ & _ & ?)) ltac:(done) ltac:(done) (logic_clk_ s1) Bq (req_xbar s1)) as (x & Hx & Hwf & [Hp Hlen]);
      [lia| |done|apply Hc1|].
    { intros E0. pose proof (hc_src _ _ _ _ Hc1) as Hq. rewrite E0 in Hq. pose proof (hc_links _ _ _ _ Hc1). simpl in Hq. lia. }
    rewrite Hx. cbn [mbind exc_bind]. eexists. split; [reflexivity|]. split; [split; [done|]|done].
    destruct Hc1. split; simpl; try done; [congruence|]. by rewrite hc_match0, Hp.
Qed.

(** Inside a tick: the logic layer has run [logic_clk_] cycles and is at most one
    cycle behind the end of the tick. *)
Record logic_ok s : Prop := {
  lo_full : hmc_full (logic_clk_ s + 1) (logic_clk_ s + 1) s;
  lo_pd : ps_per_dram_ s = 800;
  lo_pl : 1 ≤ ps_per_logic_ s ≤ 800;
  lo_clk : 0 ≤ logic_clk_ s;
  lo_dps : 0 ≤ dram_ps_ s < 800 * 2 ^ 21;
  lo_lps : logic_ps_ s = ps_per_logic_ s * logic_clk_ s;
  lo_next : logic_ps_ s < dram_ps_ s + 800 + ps_per_logic_ s
}.
(** What a logic cycle leaves alone. *)
Definition same_tick s s' : Prop :=
  ps_per_dram_ s' = ps_per_dram_ s ∧ ps_per_logic_ s' = ps_per_logic_ s ∧ dram_ps_ s' = dram_ps_ s ∧
  hm_config s' = hm_config s ∧ js_clk_ (hm_base s') = js_clk_ (hm_base s).

Lemma same_tick_trans s s1 s2 : same_tick s s1 → same_tick s1 s2 → same_tick s s2.
Proof. intros (? & ? & ? & ? & ?) (? & ? & ? & ? & ?). split_and!; congruence. Qed.
Lemma frame_tick s s' : hm_frame s s' → same_tick s s'.
Proof. intros (Ht & ? & ? & _). injection Ht as ? ? ? ? ?. by split_and!. Qed.

(** A logic cycle cannot come later than the DRAM clock allows. *)
Lemma logic_bound s : logic_ok s → logic_ps_ s < dram_ps_ s + 800 → logic_clk_ s < 800 * 2 ^ 21 + 800.
Proof. intros [] Hl. nia. Qed.

(** The clocks after a cycle. *)
Lemma logic_time_ok s s' :
  logic_ok s → logic_ps_ s < dram_ps_ s + 800 → time s' = time s →
  hmc_full (logic_clk_ s + 1 + 1) (logic_clk_ s + 1 + 1) s' →
  logic_ok (logic_time s') ∧ logic_ps_ (logic_time s') = logic_ps_ s + ps_per_logic_ s ∧
  same_tick s' (logic_time s') ∧ hmc_out (logic_time s') = hmc_out s'.
Proof.
  intros Hl Hlt Ht Hf. pose proof (logic_bound s Hl Hlt) as Hb. destruct Hl. injection Ht as E1 E2 E3 E4 E5.
  assert (u64 (logic_clk_ s' + 1) = logic_clk_ s + 1) as Ek by (rewrite E1; apply u64_small; unfold two64; lia).
  assert (u64 (logic_ps_ s' + ps_per_logic_ s') = logic_ps_ s + ps_per_logic_ s) as Ep
    by (rewrite E4, E3; apply u64_small; unfold two64; nia).
  unfold logic_time, h_time. rewrite Ek, Ep. split; [|done]. split; simpl; rewrite ?E2, ?E3, ?E5; try done; try nia; try lia.
  destruct Hf as [Hj []]. split; [done|]. by split.
Qed.

Lemma logic_cycle_ok s :
  logic_ok s → logic_ps_ s < dram_ps_ s + 800 →
  ∃ l s1 s2, DrainResponses s = ok (l, s1) ∧ DrainRequests s1 = ok s2 ∧ logic_ok (logic_time s2) ∧
    logic_ps_ (logic_time s2) = logic_ps_ s + ps_per_logic_ s ∧ hmc_out s ≡ₚ l ++ hmc_out (logic_time s2) ∧
    same_tick s (logic_time s2).
Proof.
  intros Hl Hlt. pose proof (logic_bound s Hl Hlt) as Hb. destruct (lo_full _ Hl) as [Hj Hc].
  destruct (DrainResponses_ok _ _ _ s Hc (lo_clk _ Hl)) as (l & s1 & Hr1 & Hc1 & Ho1 & Hf1 & Hb1); [lia|].
  assert (logic_clk_ s1 = logic_clk_ s) as Ek by (destruct Hf1 as [Ht _]; by injection Ht).
  destruct (DrainRequests_ok (logic_clk_ s + 1) (logic_clk_ s + 1 + 1) s1) as (s2 & Hr2 & Hf2 & Ho2 & Hfr2);
    [|rewrite Ek; apply Hl|lia|].
  { split; [by rewrite Hb1|]. unfold vaults. by rewrite Hb1. }
  pose proof (hm_frame_trans _ _ _ Hf1 Hfr2) as Hfr. destruct (logic_time_ok s s2 Hl Hlt (proj1 Hfr) Hf2) as (Hl2 & Hp2 & Hs2 & Ho3).
  exists l, s1, s2. split; [done|]. split; [done|]. split; [done|]. split; [done|].
  split; [by rewrite Ho1, Ho3, Ho2|]. eapply same_tick_trans; [by apply frame_tick|done].
Qed.

Lemma logic_loop_ok fuel s :
  logic_ok s → (Z.to_nat (dram_ps_ s + 800 - logic_ps_ s) ≤ fuel)%nat →
  ∃ l s', logic_loop fuel s = ok (l, s') ∧ logic_ok s' ∧ dram_ps_ s + 800 ≤ logic_ps_ s' ∧
    hmc_out s ≡ₚ l ++ hmc_out s' ∧ same_tick s s'.
Proof.
  revert s. induction fuel as [|fuel IH]; intros s Hl Hfuel; cbn [logic_loop]; pose proof Hl as [Hf Hpd Hpl Hk Hd Hlp Hn];
    rewrite Hpd, (u64_small (dram_ps_ s + 800)) by (unfold two64; lia);
    (destruct (Z.ltb_spec (logic_ps_ s) (dram_ps_ s + 800)) as [Hlt|Hge]; [|exists [], s; by split_and!]).
  - lia.
  - destruct (logic_cycle_ok s Hl Hlt) as (l & s1 & s2 & -> & Hr2 & Hl2 & Hp2 & Ho2 & Hs2). cbn [mbind exc_bind].
    rewrite Hr2. cbn [mbind exc_bind]. pose proof Hs2 as (_ & _ & Ed & _).
    destruct (IH (logic_time s2) Hl2) as (l' & s3 & -> & Hl3 & Hge3 & Ho3 & Hs3); [rewrite Ed, Hp2; lia|].
    cbn [mbind exc_bind]. exists (l ++ l'), s3. split; [done|]. split; [done|]. split; [by rewrite <- Ed|].
    split; [by rewrite Ho2, Ho3, app_assoc|by eapply same_tick_trans].
Qed.

(** Between two ticks; the logic clock is the DRAM clock at its own rate, rounded
    up. *)
Record hmc_inv s : Prop := {
  hi_full : hmc_full (logic_clk_ s + 1) (logic_clk_ s + 1) s;
  hi_block w : ∃ t, block_req (block_size (hm_config s)) w = ok t;
  hi_pd : ps_per_dram_ s = 800;
  hi_pl : 1 ≤ ps_per_logic_ s ≤ 800;
  hi_clk : 0 ≤ js_clk_ (hm_base s);
  hi_lclk : 0 ≤ logic_clk_ s;
  hi_dps : dram_ps_ s = 800 * js_clk_ (hm_base s);
  hi_lps : logic_ps_ s = ps_per_logic_ s * logic_clk_ s;
  hi_ratio : dram_ps_ s ≤ logic_ps_ s < dram_ps_ s + ps_per_logic_ s
}.

(** The DRAM tick, first or behind the responses of the logic cycle it falls on. *)
Lemma first_part_ok s :
  hmc_inv s → js_clk_ (hm_base s) < 2 ^ 21 →
  ∃ l s', (if dram_ps_ s =? logic_ps_ s then
             '(l, s) ← DrainResponses s;
             s ← DRAMClockTick s;
             s ← DrainRequests s;
             ok (l, logic_time s)
           else s ← DRAMClockTick s; ok ([], s)) = ok (l, s') ∧ logic_ok s' ∧ dram_ps_ s ≤ logic_ps_ s' ∧
    hmc_out s ≡ₚ l ++ hmc_out s' ∧ ps_per_dram_ s' = ps_per_dram_ s ∧ ps_per_logic_ s' = ps_per_logic_ s ∧
    dram_ps_ s' = dram_ps_ s ∧ hm_config s' = hm_config s ∧ js_clk_ (hm_base s') = js_clk_ (hm_base s) + 1.
Proof.
  intros [[Hj Hc] Hblk Hpd Hpl Hk Hlk Hd Hlp Hr] Hlim.
  assert (logic_ok s) as Hl by (split; try done; [lia|lia]).
  assert (0 ≤ js_clk_ (hm_base s) < 2 ^ 63) as Hk63 by lia. assert (logic_ps_ s < dram_ps_ s + 800) as Hlt by lia.
  pose proof (logic_bound s Hl Hlt) as Hb. destruct (Z.eqb_spec (dram_ps_ s) (logic_ps_ s)) as [Heq|Hne].
  - destruct (DrainResponses_ok _ _ _ s Hc Hlk) as (l & s1 & -> & Hc1 & Ho1 & Hf1 & Hb1); [lia|]. cbn [mbind exc_bind].
    destruct (DRAMClockTick_ok (logic_clk_ s + 1) (logic_clk_ s + 1 + 1) s1) as (s2 & -> & Hf2 & Ho2 & Ht2 & Hcf2 & Hk2 & _);
      [|lia|by rewrite Hb1|].
    { split; [by rewrite Hb1|]. unfold vaults. by rewrite Hb1. }
    cbn [mbind exc_bind]. assert (time s2 = time s) as Et by (rewrite Ht2; apply Hf1).
    assert (logic_clk_ s2 = logic_clk_ s) as Ek by (by injection Et).
    destruct (DrainRequests_ok _ _ s2 Hf2) as (s3 & -> & Hf3 & Ho3 & Hfr3); [by rewrite Ek|lia|]. cbn [mbind exc_bind].
    assert (time s3 = time s) as Et3 by (rewrite <- Et; apply Hfr3).
    destruct (logic_time_ok s s3 Hl Hlt Et3 Hf3) as (Hl4 & Hp4 & Hs4 & Ho4).
    eexists l, _. split; [reflexivity|]. split; [done|]. split; [lia|]. split; [by rewrite Ho1, Ho4, Ho3, Ho2|].
    destruct Hs4 as (-> & -> & -> & -> & ->). injection Et3 as _ -> -> _ ->.
    destruct Hfr3 as (_ & -> & -> & _). rewrite Hk2, Hcf2, Hb1. split_and!; try done. apply Hf1.
  - destruct (DRAMClockTick_ok (logic_clk_ s + 1) (logic_clk_ s + 1) s) as (s2 & -> & Hf2 & Ho2 & Ht2 & Hcf2 & Hk2 & _);
      [done|lia|done|]. cbn [mbind exc_bind]. injection Ht2 as E1 E2 E3 E4 E5. eexists [], _. split; [reflexivity|].
    split; [split; rewrite ?E1, ?E2, ?E3, ?E4, ?E5; try done; lia|]. rewrite E4. split; [lia|]. split; [by rewrite Ho2|]. done.
Qed.

Lemma hm_ClockTick_ok s :
  hmc_inv s → js_clk_ (hm_base s) < 2 ^ 21 →
  ∃ l s', hm_ClockTick s = ok (l, s') ∧ hmc_inv s' ∧ js_clk_ (hm_base s') = js_clk_ (hm_base s) + 1 ∧
    hmc_out s ≡ₚ l ++ hmc_out s' ∧ hm_config s' = hm_config s ∧ ps_per_logic_ s' = ps_per_logic_ s.
Proof.
  intros Hi Hlim. destruct (first_part_ok s Hi Hlim) as (l & s1 & Hr1 & Hl1 & Hge1 & Ho1 & Ep & Epl & Ed & Ecf & Ek).
  unfold hm_ClockTick. rewrite Hr1. cbn [mbind exc_bind].
  destruct (logic_loop_ok (Z.to_nat (ps_per_dram_ s1)) s1 Hl1) as (l2 & s2 & -> & Hl2 & Hge2 & Ho2 & Ep2 & Epl2 & Ed2 & Ecf2 & Ek2).
  { rewrite Ep, (hi_pd _ Hi). lia. }
  cbn [mbind exc_bind]. eexists _, _. split; [reflexivity|]. destruct Hl2 as [Hf Hpd Hpl Hclk Hd Hlp Hn].
  assert (u64 (dram_ps_ s2 + ps_per_dram_ s2) = dram_ps_ s2 + 800) as -> by (rewrite Hpd; apply u64_small; unfold two64; lia).
  pose proof (hi_dps _ Hi) as Hds. destruct Hf as [Hj Hc]. pose proof (hi_clk _ Hi).
  split; [split|]; simpl; try done; try lia.
  - split; [done|]. destruct Hc. by split.
  - intros w. change (∃ t, block_req (block_size (hm_config s2)) w = ok t). rewrite Ecf2, Ecf. by apply (hi_block _ Hi).
  - split; [lia|]. split; [|split; [change (hm_config s2 = hm_config s); congruence|congruence]].
    change (hmc_out s ≡ₚ (l ++ l2) ++ hmc_out s2). by rewrite Ho1, Ho2, app_assoc.
Qed.

(** ** Requests *)

Lemma block_req_ok b w t :
  block_req b w = ok t → ∃ f f', req_flits t = ok f ∧ resp_kind t = ok (if w then WR_RS else RD_RS, f').
Proof. unfold block_req. intros Ht. destruct w; repeat (case_match; try done); injection Ht as <-; eauto. Qed.

Lemma answer_kind a (w : bool) l q f : answer_of (MkResp a (if w then WR_RS else RD_RS) l q f 0) = (a, w).
Proof. by destruct w. Qed.

(** What an insertion leaves alone. *)
Definition same_clocks s s' : Prop :=
  hm_frame s s' ∧ links_ s' = links_ s.

Lemma InsertReqToLink_ok Bq Br req (w : bool) f link s q :
  hmc_full Bq Br s → 1 ≤ Bq → req_good (hm_config s) req → resp_kind (q_type req) = ok (if w then WR_RS else RD_RS, f) →
  zget (x_src (req_xbar s)) link = Some q →
  if hm_room s q then
    ∃ s', InsertReqToLink req link s = ok (true, s') ∧ hmc_full Bq Br s' ∧ hmc_out s' ≡ₚ (mem_operand req, w) :: hmc_out s ∧
      same_clocks s s' ∧ next_link_ s' = next_link_ s
  else InsertReqToLink req link s = ok (false, s).
Proof.
  intros [Hj Hc] HB Hg Hk Hq. pose proof (zget_lt _ _ _ Hq) as Hl. rewrite (hc_src _ _ _ _ Hc) in Hl.
  unfold InsertReqToLink. rewrite (proj2 (vec_get_ok _ _ _) Hq). cbn [mbind exc_bind]. destruct (hm_room s q); [|done].
  destruct (xbar_put_ok 4 (req_good (hm_config s)) link (q_on_link link req) Bq (req_xbar s)) as (x & Hx & Hwf & Hcx & Hd & Hlen & _);
    [apply Hc|rewrite (hc_src _ _ _ _ Hc); lia|done|done|].
  rewrite Hx. cbn [mbind exc_bind]. unfold new_HMCResponse. change (q_type (q_on_link link req)) with (q_type req). rewrite Hk.
  cbn [mbind exc_bind]. eexists. split; [reflexivity|]. pose proof (hc_links _ _ _ _ Hc). split; [split|split; [|done]].
  - destruct Hj. by split.
  - destruct Hc. split; simpl; try done; [congruence| |].
    + apply Forall_app. split; [done|]. constructor; [|done]. split; simpl; [lia|]. apply Hg.
    + rewrite fmap_app, hc_match0, Hcx. simpl. rewrite Permutation_app_comm. simpl. done.
  - unfold hmc_out. simpl. rewrite !fmap_app. simpl. rewrite answer_kind, <- !app_assoc. simpl. symmetry. apply Permutation_middle.
Qed.

Lemma IterateNextLink_ok s :
  0 ≤ next_link_ s < links_ s → IterateNextLink s = ok (h_link ((next_link_ s + 1) mod links_ s) s).
Proof.
  intros Hn. unfold IterateNextLink. destruct (Z.eqb_spec (links_ s) 0); [lia|]. by rewrite Z.rem_mod_nonneg by lia.
Qed.

Lemma next_full Bq Br s l : hmc_full Bq Br s → 0 ≤ l < links_ s → hmc_full Bq Br (h_link l s) ∧ hmc_out (h_link l s) = hmc_out s.
Proof. intros [Hj []] Hl. split; [split; [done|by split]|done]. Qed.

(** Going round the links from [k] behind [start], the search finds the one [m]
    behind it that has room. *)
Lemma insert_loop_ok Bq Br req (w : bool) f start m q fuel k s :
  1 ≤ Bq → req_good (hm_config s) req → resp_kind (q_type req) = ok (if w then WR_RS else RD_RS, f) →
  0 ≤ start < links_ s → 1 ≤ k ≤ m → m < links_ s → (Z.to_nat (m - k) < fuel)%nat →
  hmc_full Bq Br s → next_link_ s = (start + k) mod links_ s →
  zget (x_src (req_xbar s)) ((start + m) mod links_ s) = Some q → hm_room s q = true →
  ∃ s', insert_loop fuel start req s = ok (true, s') ∧ hmc_full Bq Br s' ∧ hmc_out s' ≡ₚ (mem_operand req, w) :: hmc_out s ∧
    same_clocks s s'.
Proof.
  intros HB Hg Hkd Hst. revert k s Hg Hst. induction fuel as [|fuel IH]; intros k s Hg Hst Hk Hm Hfuel Hf Hnext Hq Hroom; [lia|].
  cbn [insert_loop]. destruct (Z.eqb_spec start (next_link_ s)) as [E|_].
  { exfalso. rewrite Hnext in E. assert ((0 + start) mod links_ s = (k + start) mod links_ s) as E'.
    { rewrite (Z.add_comm k), <- E. by apply Z.mod_small. }
    apply rotate_inj in E'; lia. }
  assert (0 ≤ next_link_ s < links_ s) as Hn by apply Hf.
  destruct (zget_is_Some (x_src (req_xbar s)) (next_link_ s)) as [q' Hq']; [rewrite (hc_src _ _ _ _ (proj2 Hf)); lia|].
  pose proof (InsertReqToLink_ok Bq Br req w f _ s q' Hf HB Hg Hkd Hq') as Hins. destruct (hm_room s q') eqn:Hr'.
  - destruct Hins as (s1 & -> & Hf1 & Ho1 & Hs1 & Hn1). cbn [mbind exc_bind]. destruct Hs1 as [Hfr Hls].
    rewrite IterateNextLink_ok by (rewrite Hn1, Hls; done). cbn [mbind exc_bind]. eexists. split; [reflexivity|].
    destruct (next_full Bq Br s1 ((next_link_ s1 + 1) mod links_ s1) Hf1) as [Hf2 Ho2]; [apply Z.mod_pos_bound; lia|].
    split; [done|]. split; [by rewrite Ho2|done].
  - rewrite Hins. cbn [mbind exc_bind]. rewrite IterateNextLink_ok by done. cbn [mbind exc_bind].
    assert (k ≠ m) as Hne by (intros ->; rewrite <- Hnext in Hq; congruence).
    destruct (next_full Bq Br s ((next_link_ s + 1) mod links_ s) Hf) as [Hf2 Ho2]; [apply Z.mod_pos_bound; lia|].
    destruct (IH (k + 1) (h_link ((next_link_ s + 1) mod links_ s) s)) as (s' & Hr & Hf' & Ho' & Hs'); simpl; try done; try lia.
    { rewrite Hnext, Z.add_mod_idemp_l by lia. f_equal. lia. }
    exists s'. split; [done|]. split; [done|]. split; [by rewrite Ho', Ho2|done].
Qed.

(** A request is taken whenever some link has room. *)
Lemma InsertHMCReq_ok Bq Br req (w : bool) f s :
  hmc_full Bq Br s → 1 ≤ Bq → req_good (hm_config s) req → resp_kind (q_type req) = ok (if w then WR_RS else RD_RS, f) →
  hm_WillAccept s = true →
  ∃ s', InsertHMCReq req s = ok (true, s') ∧ hmc_full Bq Br s' ∧ hmc_out s' ≡ₚ (mem_operand req, w) :: hmc_out s ∧ same_clocks s s'.
Proof.
  intros Hf HB Hg Hkd Hacc. pose proof Hf as [Hj Hc]. assert (0 ≤ next_link_ s < links_ s) as Hn by apply Hc.
  unfold hm_WillAccept in Hacc. rewrite existsb_exists in Hacc. destruct Hacc as (q & Hq & Hroom).
  apply list_elem_of_In, list_elem_of_lookup in Hq as [j Hq]. pose proof (lookup_lt_Some _ _ _ Hq) as Hj'. rewrite (hc_src _ _ _ _ Hc) in Hj'.
  assert (zget (x_src (req_xbar s)) (Z.of_nat j) = Some q) as Hqz by (apply zget_Some; split; [lia|by rewrite Nat2Z.id]).
  destruct (rotate_onto (links_ s) (next_link_ s) (Z.of_nat j)) as (m & Hm & Em); [lia|lia|].
  destruct (zget_is_Some (x_src (req_xbar s)) (next_link_ s)) as [q' Hq']; [rewrite (hc_src _ _ _ _ Hc); lia|].
  pose proof (InsertReqToLink_ok Bq Br req w f _ s q' Hf HB Hg Hkd Hq') as Hins. unfold InsertHMCReq. destruct (hm_room s q') eqn:Hr'.
  - destruct Hins as (s1 & -> & Hf1 & Ho1 & Hs1 & Hn1). cbn [mbind exc_bind]. cbn zeta. destruct Hs1 as [Hfr Hls].
    rewrite IterateNextLink_ok by (rewrite Hn1, Hls; done). cbn [mbind exc_bind]. eexists. split; [reflexivity|].
    destruct (next_full Bq Br s1 ((next_link_ s1 + 1) mod links_ s1) Hf1) as [Hf2 Ho2]; [apply Z.mod_pos_bound; lia|].
    split; [done|]. split; [by rewrite Ho2|done].
  - rewrite Hins. cbn [mbind exc_bind]. cbn zeta. rewrite IterateNextLink_ok by done. cbn [mbind exc_bind].
    assert (m ≠ 0) as Hm0. { intros ->. rewrite Z.add_0_l, Z.mod_small in Em by lia. rewrite Em in Hq'. congruence. }
    destruct (next_full Bq Br s ((next_link_ s + 1) mod links_ s) Hf) as [Hf2 Ho2]; [apply Z.mod_pos_bound; lia|].
    destruct (insert_loop_ok Bq Br req w f (next_link_ s) m q (Z.to_nat (links_ s)) 1 (h_link ((next_link_ s + 1) mod links_ s) s))
      as (s' & Hr & Hf' & Ho' & Hs'); simpl; try done; try lia.
    { by rewrite (Z.add_comm (next_link_ s)), Em. }
    exists s'. split; [done|]. split; [done|]. split; [by rewrite Ho', Ho2|done].
Qed.

Lemma hm_Add_ok s a w :
  hmc_inv s → 0 ≤ a → hm_WillAccept s = true →
  ∃ s', hm_Add a w s = ok (true, s') ∧ hmc_inv s' ∧ js_clk_ (hm_base s') = js_clk_ (hm_base s) ∧
    hmc_out s' ≡ₚ (a, w) :: hmc_out s ∧ hm_config s' = hm_config s.
Proof.
  intros Hi Ha Hacc. destruct (hi_block _ Hi w) as [t Ht]. destruct (block_req_ok _ _ _ Ht) as (f & f' & Hfl & Hkd).
  pose proof (hi_lclk _ Hi) as Hlc. pose proof (jc_chan _ (ji_cfg _ (proj1 (hi_full _ Hi))) a Ha) as Hch.
  unfold hm_Add. rewrite Ht. cbn [mbind exc_bind]. unfold new_HMCRequest. rewrite Hfl. cbn [mbind exc_bind].
  match goal with |- context [InsertHMCReq ?r s] =>
    destruct (InsertHMCReq_ok (logic_clk_ s + 1) (logic_clk_ s + 1) r w f' s (hi_full _ Hi)) as (s' & Hr & Hf & Ho & [(Htm & Hcf & Hk & _) _]);
    [lia| |done|done|] end.
  - split; [done|]. split; [done|]. simpl. rewrite Z.rem_mod_nonneg by (unfold hm_config; lia). apply Z.mod_pos_bound. lia.
  - exists s'. split; [exact Hr|]. split; [|done]. injection Htm as E1 E2 E3 E4 E5.
    destruct Hi. split; rewrite ?E1, ?E2, ?E3, ?E4, ?E5, ?Hcf, ?Hk; done.
Qed.

(** The HMC keeps the promise of a DRAM system, for two million ticks: the ages of the
    crossbars are 32-bit counters, and the logic clock may be 800 times as fast. It
    promises no room: a link takes requests of all vaults. *)
#[global] Instance Hmc_ok : DRAMSystemOk HMCMemorySystem.
Proof.
  refine {| ds_inv := hmc_inv; ds_now s := js_clk_ (hm_base s); ds_out := hmc_out; ds_capacity _ := 0; ds_limit := 2 ^ 21 |}.
  - lia.
  - intros. by eexists.
  - intros s a w Hi Ha Hw. injection Hw as Hw. destruct (hm_Add_ok s a w Hi Ha Hw) as (s' & ? & ? & ? & ? & E).
    exists s'. simpl. by rewrite E.
  - intros s Hi Hk. destruct (hm_ClockTick_ok s Hi (proj2 Hk)) as (l & s' & ? & ? & ? & ? & E & _).
    exists l, s'. simpl. by rewrite E.
Defined.

Lemma SetClockRatio_ok config pd pl : SetClockRatio config = ok (pd, pl) → pd = 800 ∧ 0 ≤ pl ≤ 800.
Proof.
  unfold SetClockRatio. cbn zeta. intros H. apply exc_bind_ok in H as (c & _ & H). apply exc_bind_ok in H as (v & _ & H).
  destruct (v =? 0); [done|]. destruct (Z.ltb_spec (Z.quot 1000000 v) 0); [done|].
  injection H as <- <-. split; [done|]. destruct (Z.ltb_spec 800 (Z.quot 1000000 v)); lia.
Qed.

Lemma new_Hmc_inv config s :
  jedec_cfg config → 0 ≤ cmd_queue_size config → (∀ r, new_Refresh config = ok r → 0 < refresh_interval_ r < 2 ^ 31) →
  (∀ w, ∃ t, block_req (block_size config) w = ok t) → num_links config ≠ 0 → ps_per_logic_ s ≠ 0 → new_Hmc config = ok s →
  hmc_inv s ∧ hmc_out s = [] ∧ js_clk_ (hm_base s) = 0.
Proof.
  intros Hg Hsz Hr Hblk Hnl Hpl Hn. unfold new_Hmc in Hn. destruct (negb _); [done|]. inv_ok. destruct x as [pd pl]. cbn zeta in Hn.
  inv_ok. destruct (Z.ltb_spec (num_links config) 0); [done|]. injection Hn as <-. simpl in Hpl.
  destruct (new_ctrls_inv _ _ Hg Hsz Hr H0) as [Hj Ho].
  destruct (SetClockRatio_ok _ _ _ H) as [-> Hple].
  destruct (new_Xbar_wf 4 (req_good config) (Z.to_nat (num_links config)) (fun _ => 1)) as [Hq Eq]; [done|].
  destruct (new_Xbar_wf (num_links config) (resp_good (num_links config)) 4 (fun _ => 1)) as [Hp Ep]; [done|].
  split; [|split; [|done]].
  - split; simpl; try done; try lia. split; [done|]. unfold vaults. simpl. rewrite Ho. split; simpl; try done; try lia.
    + by rewrite length_replicate.
    + change (Z.to_nat 4) with 4%nat in Eq. by rewrite Eq.
  - unfold hmc_out. simpl. by rewrite Ep.
Qed.
End Invariant.

(** ** What it means for a client *)

(** (C11) Every one of the first 2^21 DRAM ticks of the HMC succeeds (the bound keeps the
    counters in their ranges), for a configuration of [jedec_cfg], which [hmc_inv] holds;
    self refresh is disabled there, since with it the controller of a vault can abort. No
    vector is read out of range, and each completion of a vault finds a response. What
    was outstanding is called back or still outstanding, and the logic layer has then run
    as many cycles as fit into the time of the DRAM clock, rounded up. *)
Theorem hmc_tick_total s :
  hmc_inv s → js_clk_ (hm_base s) < 2 ^ 21 →
  ∃ l s', hm_ClockTick s = ok (l, s') ∧ hmc_inv s' ∧ hmc_out s ≡ₚ l ++ hmc_out s' ∧
    js_clk_ (hm_base s') = js_clk_ (hm_base s) + 1 ∧
    logic_clk_ s' = (800 * js_clk_ (hm_base s') + ps_per_logic_ s - 1) / ps_per_logic_ s.
Proof.
  intros Hi Hk. destruct (hm_ClockTick_ok s Hi Hk) as (l & s' & Hr & Hi' & Hk' & Ho & _ & Hpl).
  exists l, s'. split_and!; try done. destruct Hi'. rewrite <- Hpl. apply (Z.div_unique _ _ _ (800 * js_clk_ (hm_base s') + ps_per_logic_ s' - 1 - ps_per_logic_ s' * logic_clk_ s')); lia.
Qed.


(** ** Instances *)

Section Demo.
(** configs/HMC_2GB_4Lx16.ini. *)
Definition hmc_ints : list (string * string * Z) :=
  [("hmc", "num_links", 4); ("hmc", "link_width", 16); ("hmc", "link_speed", 10000); ("hmc", "block_size", 64);
   ("hmc", "xbar_queue_depth", 6); ("dram_structure", "bankgroups", 1); ("dram_structure", "banks_per_group", 8);
   ("dram_structure", "rows", 65536); ("dram_structure", "columns", 64); ("dram_structure", "device_width", 32);
   ("dram_structure", "num_dies", 4); ("timing", "CL", 17); ("timing", "CWL", 17); ("timing", "tRCD", 17);
   ("timing", "tRP", 17); ("timing", "tRAS", 34); ("timing", "tRFC", 420); ("timing", "tREFI", 9364);
   ("timing", "tRRD_S", 4); ("timing", "tRRD_L", 4); ("timing", "tWTR_S", 3); ("timing", "tWTR_L", 3);
   ("timing", "tFAW", 27); ("timing", "tWR", 17); ("timing", "tCCD_S", 6); ("timing", "tCCD_L", 6); ("timing", "tXS", 12);
   ("timing", "tCKSRE", 1); ("timing", "tXP", 8); ("timing", "tRTP_L", 8); ("timing", "tRTP_S", 8); ("timing", "tRTRS", 0);
   ("system", "channel_size", 128); ("system", "channels", 16); ("system", "bus_width", 32); ("system", "cmd_queue_size", 8);
   ("system", "trans_queue_size", 32); ("other", "epoch_period", 1250000); ("other", "output_level", 1)]%string.
Definition hmc_strings : list (string * string * string) :=
  [("dram_structure", "protocol", "HMC"); ("system", "address_mapping", "rocorabgbach");
   ("system", "queue_structure", "PER_BANK"); ("system", "row_buf_policy", "CLOSE_PAGE")]%string.
Definition hmc_reader : INIReader :=
  MkReader 0 (ini_lookup hmc_strings) (ini_lookup hmc_ints)
           (fun sec opt d => ini_lookup [("system", "unified_queue", true)]%string sec opt d).

(** The values it gives: 16 vaults of 8 banks, 64-byte requests. *)
Definition hmc_sys : SystemParams :=
  MkSystem 128 16 32 "rocorabgbach" "PER_BANK" "CLOSE_PAGE" 8 32 true 16 RANK_LEVEL_STAGGERED false 1000 false.
Definition hmc_dram : DRAMParams := MkDRAM HMC 1 8 8 65536 64 32 16 4 false 4 16 10000 64 6 8.
Definition hmc_size : SizeParams := MkSize 1 1 128.
Definition hmc_map : Mapping := MkMapping 64 6 0 7 7 4 9 7 15 0 0 7 65535 3.
Definition hmc : Config :=
  MkConfig hmc_sys hmc_dram hmc_size hmc_map (InitTimingParams hmc_reader hmc_dram) (InitOtherParams hmc_reader "." true).
Example hmc_loads : new_Config hmc_reader "." true = ok hmc.
Proof. vm_compute. reflexivity. Qed.

Lemma hmc_cfg : jedec_cfg hmc.
Proof.
  assert (map_wf hmc_map) as Hm by (apply (SetAddressMapping_wf hmc_sys hmc_dram hmc_size); vm_compute; reflexivity).
  assert (∀ a t, 0 ≤ a → t ∈ six → 0 ≤ field_of (AddressMapping hmc a) t < field_size hmc_map t) as Hf
    by (intros a t Ha Ht; destruct (compose_AddressMapping hmc_map a Hm Ha) as [Hok _]; exact (Hok t Ht)).
  assert ("ch"%string ∈ six ∧ "ra"%string ∈ six ∧ "bg"%string ∈ six ∧ "ba"%string ∈ six ∧ "ro"%string ∈ six)
    as (Hch & Hra & Hbg & Hba & Hro) by (clear; set_solver).
  split; [|intros a Ha; exact (Hf a _ Ha Hch)|done]. split; [split; reflexivity| |done|discriminate].
  intros a Ha A. exact (conj (conj (Hf a _ Ha Hra) (conj (Hf a _ Ha Hbg) (Hf a _ Ha Hba))) (proj1 (Hf a _ Ha Hro))).
Qed.

Definition hmc_system : HMCMemorySystem :=
  match new_Hmc hmc with ok s => s | err _ => MkHmc (MkJedec hmc 0 0 []) 0 0 0 0 0 0 0 0 [] (new_Xbar 0 0) (new_Xbar 0 0) end.
Lemma hmc_system_new : new_Hmc hmc = ok hmc_system.
Proof.
  assert (exc_ok (new_Hmc hmc) = true) as Hok by (vm_compute; reflexivity).
  unfold hmc_system. by destruct (new_Hmc hmc).
Qed.
Lemma hmc_system_inv : hmc_inv hmc_system ∧ hmc_out hmc_system = [] ∧ js_clk_ (hm_base hmc_system) = 0.
Proof.
  apply (new_Hmc_inv hmc); [exact hmc_cfg|vm_compute; discriminate| | |vm_compute; discriminate|vm_compute; discriminate|exact hmc_system_new].
  - intros r Hr. vm_compute in Hr. injection Hr as <-. done.
  - intros w. destruct w; vm_compute; eauto.
Qed.

(** A request takes two ticks to its vault here: the tick of a system with one request. *)
Lemma hmc_tick_total_witness :
  ∃ s1 l s2, hm_Add 4096 false hmc_system = ok (true, s1) ∧ hm_ClockTick s1 = ok (l, s2) ∧ [(4096, false)] ≡ₚ l ++ hmc_out s2 ∧
    logic_clk_ s2 = 1.
Proof.
  destruct hmc_system_inv as (Hi & Ho & Hk).
  destruct (hm_Add_ok hmc_system 4096 false Hi) as (s1 & Hr & Hi1 & Hk1 & Ho1 & _); [done|vm_compute; reflexivity|].
  destruct (hmc_tick_total s1 Hi1) as (l & s2 & Hr2 & _ & Ho2 & _); [by rewrite Hk1, Hk|].
  exists s1, l, s2. split; [exact Hr|]. split; [exact Hr2|]. split; [by rewrite <- Ho2, Ho1, Ho|].
  assert (match hm_Add 4096 false hmc_system with ok (_, s) => match hm_ClockTick s with ok (_, s) => logic_clk_ s | _ => 0 end | _ => 0 end = 1)
    as E by (vm_compute; reflexivity).
  rewrite Hr in E. rewrite Hr2 in E. exact E.
Defined.

Definition read_then_write : list sys_op := [SysAdd 4096 false; SysTick; SysAdd 4096 true] ++ replicate 30 SysTick.
(** A write to the address of a read in progress is acknowledged at once by its vault,
    and [VaultCallback] takes the first response with that address: that of the
    read. So [read_callback] is called within 31 ticks, while the read is still in the
    vault; alone it takes more than 50 ticks. *)
Theorem hmc_read_early :
  (∃ s acc, foldE sys_step read_then_write (hmc_system, [], []) = ok (s, acc, [(4096, false)]) ∧
     jedec_out (hm_base s) = [(4096, false)]) ∧
  ∃ s acc, foldE sys_step ([SysAdd 4096 false] ++ replicate 50 SysTick) (hmc_system, [], []) = ok (s, acc, []).
Proof.
  split.
  - assert (match foldE sys_step read_then_write (hmc_system, [], []) with
      | ok (s, _, d) => bool_decide (d = [(4096, false)]) && bool_decide (jedec_out (hm_base s) = [(4096, false)])
      | err _ => false end = true) as Hb by (vm_compute; reflexivity).
    destruct (foldE _ _ _) as [[[s acc] d]|]; [|done]. rewrite andb_true_iff, !bool_decide_eq_true in Hb.
    destruct Hb as [-> Hb]. by exists s, acc.
  - assert (match foldE sys_step ([SysAdd 4096 false] ++ replicate 50 SysTick) (hmc_system, [], []) with
      | ok (_, _, d) => bool_decide (d = []) | err _ => false end = true) as Hb by (vm_compute; reflexivity).
    destruct (foldE _ _ _) as [[[s acc] d]|]; [|done]. rewrite bool_decide_eq_true in Hb. subst d. by exists s, acc.
Qed.
End Demo.
