(* ===== verification/MemorySystem.v ===== *)
(** * The memory system (DRAMsim3-master/src/memory_system.h, memory_system.cc)

    The face of the DRAM library: a system of the kind that the configuration asks
    for, HMC or JEDEC, chosen when it is made. It keeps the promise of a DRAM system
    because both kinds do. *)

From Stdlib Require Import ZArith Lia String.
From stdpp Require Import strings gmap option list.
From S2P Require Import Prelude DramCommon Config Controller DramSystem Hmc.

(** [dram_system_], a pointer to one of two classes. *)
Inductive MemorySystem := OnHmc (s : HMCMemorySystem) | OnJedec (s : JedecDRAMSystem).

(** [MemorySystem::MemorySystem(config_file, ...)]. *)
Definition new_MemorySystem (r : INIReader) (out_dir : string) (dir_exists : bool) : exc MemorySystem :=
  new_Config r out_dir dir_exists ≫= fun config : Config =>
  if IsHMC config then s ← new_Hmc config; ok (OnHmc s) else s ← new_Jedec config; ok (OnJedec s).

Definition ms_base (s : MemorySystem) : JedecDRAMSystem := match s with OnHmc s => hm_base s | OnJedec s => s end.
Definition ms_config (s : MemorySystem) : Config := js_config (ms_base s).

(** The queries, [PrintStats] on the counters, and [ResetStats]. *)
Definition GetBusBits (s : MemorySystem) : Z := bus_width (ms_config s).
Definition GetBurstLength (s : MemorySystem) : Z := BL (ms_config s).
Definition GetQueueSize (s : MemorySystem) : Z := trans_queue_size (ms_config s).
Definition ms_GetChannel (s : MemorySystem) (hex : Z) : Z := GetChannel (ms_config s) hex.
Definition ms_PrintStats (s : MemorySystem) : MemorySystem :=
  match s with OnHmc s => OnHmc (h_base (j_PrintStats (hm_base s)) s) | OnJedec s => OnJedec (j_PrintStats s) end.
Definition ms_ResetStats (s : MemorySystem) : MemorySystem :=
  match s with OnHmc s => OnHmc (h_base (j_ResetStats (hm_base s)) s) | OnJedec s => OnJedec (j_ResetStats s) end.

(** The virtual calls. *)
Definition ms_WillAccept (s : MemorySystem) (hex : Z) (w : bool) : exc bool :=
  match s with OnHmc s => ds_will_accept s hex w | OnJedec s => ds_will_accept s hex w end.
Definition ms_Add (hex : Z) (w : bool) (s : MemorySystem) : exc (bool * MemorySystem) :=
  match s with
  | OnHmc s => '(b, s) ← ds_add hex w s; ok (b, OnHmc s)
  | OnJedec s => '(b, s) ← ds_add hex w s; ok (b, OnJedec s)
  end.
Definition ms_ClockTick (s : MemorySystem) : exc (list (Z * bool) * MemorySystem) :=
  match s with
  | OnHmc s => '(l, s) ← ds_tick s; ok (l, OnHmc s)
  | OnJedec s => '(l, s) ← ds_tick s; ok (l, OnJedec s)
  end.

#[global] Instance MemorySystem_system : DRAMSystem MemorySystem := {
  ds_will_accept := ms_WillAccept;
  ds_add := ms_Add;
  ds_tick := ms_ClockTick;
  ds_channel := ms_GetChannel
}.

Definition ms_inv (s : MemorySystem) : Prop := match s with OnHmc s => ds_inv s | OnJedec s => ds_inv s end.
Definition ms_now (s : MemorySystem) : Z := match s with OnHmc s => ds_now s | OnJedec s => ds_now s end.
Definition ms_out (s : MemorySystem) : list (Z * bool) := match s with OnHmc s => ds_out s | OnJedec s => ds_out s end.
Definition ms_capacity (s : MemorySystem) : Z := match s with OnHmc s => ds_capacity s | OnJedec s => ds_capacity s end.

Lemma ms_PrintStats_out s : ms_out (ms_PrintStats s) = ms_out s ∧ ms_now (ms_PrintStats s) = ms_now s.
Proof. destruct s as [s|s]; [done|]. split; [apply PrintStats_out|done]. Qed.

(** Both kinds keep the promise as long as the HMC does. *)
#[global] Instance MemorySystem_ok : DRAMSystemOk MemorySystem.
Proof.
  refine {| ds_inv := ms_inv; ds_now := ms_now; ds_out := ms_out; ds_capacity := ms_capacity; ds_limit := 2 ^ 21 |}.
  - intros [s|s] a Hi Ha Hl; [exact (ds_room s a Hi Ha Hl)|exact (ds_room s a Hi Ha Hl)].
  - intros [s|s] a w Hi Ha; [exact (ds_will_total s a w Hi Ha)|exact (ds_will_total s a w Hi Ha)].
  - intros [s|s] a w Hi Ha Hw;
      destruct (ds_add_ok s a w Hi Ha Hw) as (s' & Hr & Hi' & Hn & Ho & Hc & Hcap);
      [exists (OnHmc s')|exists (OnJedec s')]; (split; [cbn [ds_add MemorySystem_system ms_Add]; by rewrite Hr|by split_and!]).
  - intros [s|s] Hi Hn; [destruct (ds_tick_ok s Hi Hn) as (l & s' & Hr & Hi' & Hn' & Ho & Hc & Hcap)|];
      [|assert (0 ≤ ds_now s < 2 ^ 63) as Hn63 by (simpl in Hn |- *; lia);
        destruct (ds_tick_ok s Hi Hn63) as (l & s' & Hr & Hi' & Hn' & Ho & Hc & Hcap)];
      [exists l, (OnHmc s')|exists l, (OnJedec s')]; (split; [cbn [ds_tick MemorySystem_system ms_ClockTick]; by rewrite Hr|by split_and!]).
Defined.

(** A new memory system: in its invariant, at time 0, with nothing outstanding. *)
Lemma new_MemorySystem_inv r d x s (config : Config) :
  new_Config r d x = ok config → jedec_cfg config → 0 ≤ cmd_queue_size config →
  (∀ f, Refresh.new_Refresh config = ok f → 0 < Refresh.refresh_interval_ f < 2 ^ 31) →
  (IsHMC config = true → (∀ w, ∃ t, block_req (block_size config) w = ok t) ∧ num_links config ≠ 0 ∧
     ∀ h, new_Hmc config = ok h → ps_per_logic_ h ≠ 0) →
  new_MemorySystem r d x = ok s → ds_inv s ∧ ds_out s = [] ∧ ds_now s = 0.
Proof.
  intros Hc Hg Hsz Hr Hh Hn. unfold new_MemorySystem in Hn. rewrite Hc in Hn. cbn [mbind exc_bind] in Hn.
  destruct (IsHMC config) eqn:Ei; apply exc_bind_ok in Hn as (h & Hs & [= <-]).
  - destruct (Hh eq_refl) as (Hb & Hl & Hp). exact (new_Hmc_inv config h Hg Hsz Hr Hb Hl (Hp h Hs) Hs).
  - exact (new_Jedec_inv config h Hg Hsz Hs Hr).
Qed.
