(* ===== verification/Cpu.v ===== *)
(** * The clients of the DRAM library (DRAMsim3-master/src/cpu.h, cpu.cc, main.cc)

    The stand-alone simulator drives a memory system by a client that offers requests
    on every cycle: random ones, six streams, or those of a trace file. The memory
    system is any [DRAMSystem]. The random engine is the standard's mt19937_64. A trace
    file that can be read at all is a list of records and, behind the last, perhaps a
    newline; whether it is there decides when the stream reports its end. The
    theorems: no client fails, every accepted request is answered or outstanding; the
    streams request each element once; the trace client offers the records in order, but
    with a final newline repeats the last address as a read, and without one may drop
    the last record. *)

From Stdlib Require Import ZArith Lia Ascii String.
From stdpp Require Import strings gmap numbers option list.
From S2P Require Import Prelude DramCommon Config Controller DramSystem Hmc MemorySystem.

(** ** The random engine (std::mt19937_64, ISO C++ [rand.eng.mers]) *)

Definition mt_n : nat := 312.
Definition mt_m : nat := 156.

(** The words of the state, the oldest first. *)
Definition mt_twist (x0 x1 xm : Z) : Z :=
  let y := Z.lor (Z.land x0 0xFFFFFFFF80000000) (Z.land x1 0x7FFFFFFF) in
  Z.lxor (Z.lxor xm (Z.shiftr y 1)) (if Z.testbit y 0 then 0xB5026F5AA96619E9 else 0).
Definition mt_temper (z : Z) : Z :=
  let z := Z.lxor z (Z.land (Z.shiftr z 29) 0x5555555555555555) in
  let z := Z.lxor z (Z.land (Z.shiftl z 17) 0x71D67FFFEDA60000) in
  let z := Z.lxor z (Z.land (Z.shiftl z 37) 0xFFF7EEE000000000) in
  u64 (Z.lxor z (Z.shiftr z 43)).
Fixpoint mt_seed (n : nat) (i x : Z) : list Z :=
  match n with
  | O => []
  | S n' => x :: mt_seed n' (i + 1) (u64 (6364136223846793005 * Z.lxor x (Z.shiftr x 62) + (i + 1)))
  end.
(** The engine as it is made by default, and a call of it. *)
Definition mt_default : list Z := mt_seed mt_n 0 5489.
Definition gen (g : list Z) : Z * list Z :=
  let x := mt_twist (nth 0 g 0) (nth 1 g 0) (nth mt_m g 0) in (mt_temper x, tail g ++ [x]).

Example mt_first : (gen mt_default).1 = 14514284786278117030.
Proof. vm_compute. reflexivity. Qed.

Lemma gen_range g : 0 ≤ (gen g).1 < two64.
Proof. apply u64_range. Qed.

(** ** The client's side of the memory system *)

(** What the client does and what is called back, in order, with the cycle; the trace
    output of the random and stream clients is this list. *)
Inductive io := Offered (a : Z) (w : bool) (clk : Z) | Called (a : Z) (w : bool) (clk : Z).

Section Clients.
Context {S : Type} `{DRAMSystem S}.

(** [class CPU]. *)
Record CPU := MkCPU { memory_system_ : S; c_clk_ : Z; c_io : list io }.

(** [memory_system_.ClockTick()], with [ReadCallBack] and [WriteCallBack]. *)
Definition cpu_memory_tick (c : CPU) : exc CPU :=
  '(l, s) ← ds_tick (memory_system_ c);
  ok (MkCPU s (c_clk_ c) (c_io c ++ ((fun r => Called r.1 r.2 (c_clk_ c)) <$> l))).

(** [WillAcceptTransaction] and, if so, [AddTransaction]. *)
Definition offer (a : Z) (w : bool) (c : CPU) : exc (bool * CPU) :=
  b ← ds_will_accept (memory_system_ c) a w;
  if (b : bool) then
    '(_, s) ← ds_add a w (memory_system_ c);
    ok (true, MkCPU s (c_clk_ c) (c_io c ++ [Offered a w (c_clk_ c)]))
  else ok (false, c).

(** [clk_++]. *)
Definition cpu_next (c : CPU) : CPU := MkCPU (memory_system_ c) (u64 (c_clk_ c + 1)) (c_io c).

(** [class RandomCPU] and its [ClockTick]; [last_addr_] is written before it is read. *)
Record RandomCPU := MkRandom {
  rd_cpu : CPU;
  last_addr_ : Z;
  last_write_ : bool;
  rd_gen : list Z;
  rd_get_next_ : bool
}.
Definition new_RandomCPU (s : S) : RandomCPU := MkRandom (MkCPU s 0 []) 0 false mt_default true.
Definition random_ClockTick (r : RandomCPU) : exc RandomCPU :=
  c ← cpu_memory_tick (rd_cpu r);
  let '(a, w, g) :=
    if rd_get_next_ r then
      let '(a, g) := gen (rd_gen r) in
      let '(x, g) := gen g in
      (a, x mod 3 =? 0, g)
    else (last_addr_ r, last_write_ r, rd_gen r) in
  '(b, c) ← offer a w c;
  ok (MkRandom (cpu_next c) a w g b).

(** One of the six arrays of [class StreamCPU]: its address, whether it is written,
    and whether the current element is in. *)
Record StreamArray := MkArray { sa_addr : Z; sa_write : bool; sa_inserted : bool }.
Record StreamCPU := MkStream {
  st_cpu : CPU;
  st_arrays : list StreamArray;
  st_offset : Z;
  st_gen : list Z
}.
Definition array_size_ : Z := 2097152.
Definition stride_ : Z := 64.
(** Arrays a to f; the third is written. *)
Definition new_StreamCPU (s : S) : StreamCPU :=
  MkStream (MkCPU s 0 []) ((fun w => MkArray 0 w false) <$> [false; false; true; false; false; false]) 0 mt_default.

(** [addr_a_ = gen(); ...]. *)
Fixpoint new_addresses (l : list StreamArray) (g : list Z) : list StreamArray * list Z :=
  match l with
  | [] => ([], g)
  | x :: l' =>
      let '(a, g) := gen g in
      let '(l', g) := new_addresses l' g in
      (MkArray a (sa_write x) (sa_inserted x) :: l', g)
  end.

(** The statement of each array, from a to f. *)
Definition stream_try (off : Z) (x : StreamArray) (c : CPU) : exc (StreamArray * CPU) :=
  if sa_inserted x then ok (x, c)
  else
    '(b, c) ← offer (u64 (sa_addr x + off)) (sa_write x) c;
    ok (MkArray (sa_addr x) (sa_write x) b, c).
Fixpoint stream_tries (off : Z) (l : list StreamArray) (c : CPU) : exc (list StreamArray * CPU) :=
  match l with
  | [] => ok ([], c)
  | x :: l' =>
      '(x, c) ← stream_try off x c;
      '(l', c) ← stream_tries off l' c;
      ok (x :: l', c)
  end.

(** [StreamCPU::ClockTick()]. *)
Definition stream_ClockTick (s : StreamCPU) : exc StreamCPU :=
  c ← cpu_memory_tick (st_cpu s);
  let '(l, off, g) :=
    if (array_size_ <=? st_offset s) || (c_clk_ c =? 0) then
      let '(l, g) := new_addresses (st_arrays s) (st_gen s) in (l, 0, g)
    else (st_arrays s, st_offset s, st_gen s) in
  '(l, c) ← stream_tries off l c;
  ok (if forallb sa_inserted l then
        MkStream (cpu_next c) ((fun x => MkArray (sa_addr x) (sa_write x) false) <$> l) (u64 (off + stride_)) g
      else MkStream (cpu_next c) l off g).

(** A trace file being read: the records left (address, verb, cycle), whether a newline
    follows the last one, and [eof()]. *)
Record trace_file := MkTrace { tf_records : list (Z * string * Z); tf_newline : bool; tf_eof : bool }.

(** [trace_file_ >> trans_]: reading the last number of a file without a final newline
    sets [eof]; with one, the next extraction does: it finds nothing, leaves [addr] and
    [added_cycle] alone, and an empty verb makes the transaction a read. [trans_] has
    no value before the first record. *)
Definition read_trans (f : trace_file) (t : option Transaction) : trace_file * option Transaction :=
  match tf_records f with
  | (a, op, n) :: l =>
      (MkTrace l (tf_newline f) (match l with [] => negb (tf_newline f) | _ => false end),
       Some (MkTransaction a n (match t with Some t => complete_cycle t | None => 0 end) (is_write_op op)))
  | [] =>
      (MkTrace [] (tf_newline f) true,
       (fun t => MkTransaction (t_addr t) (added_cycle t) (complete_cycle t) (is_write_op EmptyString)) <$> t)
  end.

(** [class TraceBasedCPU], its constructor and [ClockTick]. *)
Record TraceBasedCPU := MkTraceCPU {
  tc_cpu : CPU;
  trace_file_ : trace_file;
  trans_ : option Transaction;
  tc_get_next_ : bool
}.
Definition new_TraceBasedCPU (s : S) (file : option trace_file) : exc TraceBasedCPU :=
  match file with None => err AbruptExit | Some f => ok (MkTraceCPU (MkCPU s 0 []) f None true) end.
Definition trace_ClockTick (x : TraceBasedCPU) : exc TraceBasedCPU :=
  c ← cpu_memory_tick (tc_cpu x);
  if tf_eof (trace_file_ x) then ok (MkTraceCPU (cpu_next c) (trace_file_ x) (trans_ x) (tc_get_next_ x))
  else
    let '(f, t, get) :=
      if tc_get_next_ x then let '(f, t) := read_trans (trace_file_ x) (trans_ x) in (f, t, false)
      else (trace_file_ x, trans_ x, tc_get_next_ x) in
    tr ← opt_exc t UndefinedBehaviour;
    if added_cycle tr <=? c_clk_ c then
      '(b, c) ← offer (t_addr tr) (is_write tr) c;
      ok (MkTraceCPU (cpu_next c) f t b)
    else ok (MkTraceCPU (cpu_next c) f t get).

(** The loop of [main]: [cycles] ticks. *)
Fixpoint run_cycles {X} (tick : X -> exc X) (cycles : nat) (x : X) : exc X :=
  match cycles with O => ok x | Datatypes.S n => x ← tick x; run_cycles tick n x end.
(** [cpu], a pointer to one of three classes; [main] looks at the name of the trace file
    first, then at the stream type. *)
Inductive client := Tracing (x : TraceBasedCPU) | Streaming (x : StreamCPU) | Randomly (x : RandomCPU).
Definition new_client (trace_name : string) (file : option trace_file) (stream_type : string) (s : S) : exc client :=
  if negb (String.eqb trace_name EmptyString) then x ← new_TraceBasedCPU s file; ok (Tracing x)
  else if String.eqb stream_type "stream" || String.eqb stream_type "s" then ok (Streaming (new_StreamCPU s))
  else ok (Randomly (new_RandomCPU s)).
Definition client_ClockTick (c : client) : exc client :=
  match c with
  | Tracing x => x ← trace_ClockTick x; ok (Tracing x)
  | Streaming x => x ← stream_ClockTick x; ok (Streaming x)
  | Randomly x => x ← random_ClockTick x; ok (Randomly x)
  end.
Definition client_cpu (c : client) : CPU :=
  match c with Tracing x => tc_cpu x | Streaming x => st_cpu x | Randomly x => rd_cpu x end.
End Clients.
Arguments client S : clear implicits.
Arguments CPU S : clear implicits.
Arguments RandomCPU S : clear implicits.
Arguments StreamCPU S : clear implicits.
Arguments TraceBasedCPU S : clear implicits.

(** [CPU::PrintStats()]. *)
Definition cpu_PrintStats (c : CPU MemorySystem) : CPU MemorySystem :=
  MkCPU (ms_PrintStats (memory_system_ c)) (c_clk_ c) (c_io c).
Definition client_PrintStats (c : client MemorySystem) : client MemorySystem :=
  match c with
  | Tracing x => Tracing (MkTraceCPU (cpu_PrintStats (tc_cpu x)) (trace_file_ x) (trans_ x) (tc_get_next_ x))
  | Streaming x => Streaming (MkStream (cpu_PrintStats (st_cpu x)) (st_arrays x) (st_offset x) (st_gen x))
  | Randomly x => Randomly (MkRandom (cpu_PrintStats (rd_cpu x)) (last_addr_ x) (last_write_ x) (rd_gen x) (rd_get_next_ x))
  end.

(** [main] behind the command line: the client makes its memory system, then opens its
    trace file, is ticked [cycles] times, and prints the statistics. *)
Definition dram_main (r : INIReader) (out_dir : string) (dir_exists : bool) (trace_name : string)
    (file : option trace_file) (stream_type : string) (cycles : nat) : exc (client MemorySystem) :=
  s ← new_MemorySystem r out_dir dir_exists;
  c ← new_client trace_name file stream_type s;
  c ← run_cycles client_ClockTick cycles c;
  ok (client_PrintStats c).

(** ** No client fails *)

(** The requests offered and accepted, and those called back, in order. *)
Definition offered (l : list io) : list (Z * bool) :=
  omap (fun e => match e with Offered a w _ => Some (a, w) | Called _ _ _ => None end) l.
Definition called (l : list io) : list (Z * bool) :=
  omap (fun e => match e with Called a w _ => Some (a, w) | Offered _ _ _ => None end) l.

Lemma offered_app l l' : offered (l ++ l') = offered l ++ offered l'.
Proof. apply omap_app. Qed.
Lemma called_app l l' : called (l ++ l') = called l ++ called l'.
Proof. apply omap_app. Qed.
Lemma offered_calls (l : list (Z * bool)) clk : offered ((fun r => Called r.1 r.2 clk) <$> l) = [].
Proof. by induction l. Qed.
Lemma called_calls (l : list (Z * bool)) clk : called ((fun r => Called r.1 r.2 clk) <$> l) = l.
Proof. induction l as [|[a w] l IH]; [done|]. simpl. f_equal. exact IH. Qed.

Section Safety.
Context {S : Type} `{DRAMSystemOk S}.
Implicit Types (c : CPU S).

(** Between two cycles, and behind the memory's tick. *)
Definition balanced_io c : Prop :=
  ds_inv (memory_system_ c) ∧ offered (c_io c) ≡ₚ called (c_io c) ++ ds_out (memory_system_ c).
Definition cpu_inv c : Prop := balanced_io c ∧ c_clk_ c = u64 (ds_now (memory_system_ c)).
Definition cpu_mid c : Prop := balanced_io c ∧ u64 (c_clk_ c + 1) = u64 (ds_now (memory_system_ c)).
Definition cpu_now c : Z := ds_now (memory_system_ c).

Lemma cpu_memory_tick_ok c :
  cpu_inv c → 0 ≤ cpu_now c < ds_limit S →
  ∃ c', cpu_memory_tick c = ok c' ∧ cpu_mid c' ∧ cpu_now c' = cpu_now c + 1 ∧ offered (c_io c') = offered (c_io c) ∧
    c_clk_ c' = c_clk_ c.
Proof.
  intros [[Hi Hb] Hk] Hn. destruct (ds_tick_ok _ Hi Hn) as (l & s' & Hr & Hi' & Hn' & Ho & _). unfold cpu_memory_tick. rewrite Hr.
  cbn [mbind exc_bind]. eexists. split; [reflexivity|]. unfold cpu_mid, balanced_io, cpu_now. simpl.
  rewrite offered_app, called_app, offered_calls, called_calls, app_nil_r. split; [split; [split; [done|]|]|done].
  - rewrite Hb, Ho. by rewrite app_assoc.
  - rewrite Hk, Hn'. unfold u64. by rewrite Z.add_mod_idemp_l.
Qed.

Lemma offer_ok a w c :
  cpu_mid c → 0 ≤ a →
  ∃ (b : bool) c', offer a w c = ok (b, c') ∧ cpu_mid c' ∧ cpu_now c' = cpu_now c ∧ c_clk_ c' = c_clk_ c ∧
    offered (c_io c') = offered (c_io c) ++ (if b then [(a, w)] else []).
Proof.
  intros [[Hi Hb] Hk] Ha. destruct (ds_will_total _ a w Hi Ha) as [b Hw]. unfold offer. rewrite Hw. cbn [mbind exc_bind].
  destruct b; [|exists false, c; by rewrite app_nil_r].
  destruct (ds_add_ok _ a w Hi Ha Hw) as (s' & Hr & Hi' & Hn & Ho & _). rewrite Hr. cbn [mbind exc_bind].
  eexists true, _. split; [reflexivity|]. unfold cpu_mid, balanced_io, cpu_now. simpl. rewrite offered_app, called_app. simpl.
  split; [split; [split; [done|]|by rewrite Hn]|done]. rewrite app_nil_r, Ho, Hb, <- app_assoc.
  apply Permutation_app_head. symmetry. apply Permutation_cons_append.
Qed.

Lemma cpu_next_ok c : cpu_mid c → cpu_inv (cpu_next c) ∧ cpu_now (cpu_next c) = cpu_now c.
Proof. intros [? ?]. done. Qed.

(** A client whose tick keeps an invariant runs to the end. *)
Lemma run_cycles_ok {X} (tick : X -> exc X) (cpu : X -> CPU S) (I : X -> Prop) limit n x :
  (∀ x, I x → 0 ≤ cpu_now (cpu x) < limit → ∃ y, tick x = ok y ∧ I y ∧ cpu_now (cpu y) = cpu_now (cpu x) + 1) →
  I x → 0 ≤ cpu_now (cpu x) → cpu_now (cpu x) + Z.of_nat n ≤ limit →
  ∃ y, run_cycles tick n x = ok y ∧ I y ∧ cpu_now (cpu y) = cpu_now (cpu x) + Z.of_nat n.
Proof.
  intros Ht. revert x. induction n as [|n IH]; intros x Hx Hge Hl; cbn [run_cycles]; [exists x; split_and!; [done|done|lia]|].
  destruct (Ht x Hx) as (y & -> & Hy & Hn); [lia|]. cbn [mbind exc_bind].
  destruct (IH y Hy) as (z & ? & ? & ?); [lia|lia|]. exists z. split_and!; [done|done|lia].
Qed.

(** *** The random client *)

(** The request of two numbers drawn, and those of the engine's first numbers. *)
Definition draw (g : list Z) : (Z * bool) * list Z := (((gen g).1, (gen (gen g).2).1 mod 3 =? 0), (gen (gen g).2).2).
Fixpoint draws (k : nat) : list (Z * bool) * list Z :=
  match k with
  | O => ([], mt_default)
  | Datatypes.S k => ((draws k).1 ++ [(draw (draws k).2).1], (draw (draws k).2).2)
  end.

(** [k] requests drawn; the last is in the engine's past and, if it was refused, waits. *)
Record random_inv (k : nat) (r : RandomCPU S) : Prop := {
  ri_cpu : cpu_inv (rd_cpu r);
  ri_addr : 0 ≤ last_addr_ r;
  ri_gen : rd_gen r = (draws k).2;
  ri_done : offered (c_io (rd_cpu r)) ++ (if rd_get_next_ r then [] else [(last_addr_ r, last_write_ r)]) = (draws k).1
}.

Lemma random_ClockTick_ok k r :
  random_inv k r → 0 ≤ cpu_now (rd_cpu r) < ds_limit S →
  ∃ k' r', random_ClockTick r = ok r' ∧ random_inv k' r' ∧ cpu_now (rd_cpu r') = cpu_now (rd_cpu r) + 1.
Proof.
  intros [Hc Ha Hg Hd] Hn. unfold random_ClockTick. destruct (cpu_memory_tick_ok _ Hc Hn) as (c & -> & Hm & Hn1 & Ho & _).
  cbn [mbind exc_bind].
  assert (∃ k' a w g, (if rd_get_next_ r then
      let '(a, g) := gen (rd_gen r) in let '(x, g) := gen g in (a, x mod 3 =? 0, g)
    else (last_addr_ r, last_write_ r, rd_gen r)) = (a, w, g) ∧
    0 ≤ a ∧ g = (draws k').2 ∧ offered (c_io c) ++ [(a, w)] = (draws k').1) as (k' & a & w & g & -> & Hage & Hg' & Hd').
  { rewrite Ho. destruct (rd_get_next_ r); [exists (Datatypes.S k)|by exists k; eexists _, _, _].
    rewrite app_nil_r in Hd. cbn [draws fst snd]. rewrite <- Hg, <- Hd. unfold draw. cbn [fst snd].
    rewrite (surjective_pairing (gen (rd_gen r))), (surjective_pairing (gen (gen (rd_gen r)).2)). eexists _, _, _.
    split; [reflexivity|]. split_and!; try done. apply gen_range. }
  destruct (offer_ok a w c Hm Hage) as (b & c' & -> & Hm' & Hn' & _ & Ho'). cbn [mbind exc_bind].
  eexists k', _. split; [reflexivity|]. destruct (cpu_next_ok c' Hm') as [Hi Hk]. split; [|simpl; rewrite Hk; lia].
  split; cbn [rd_cpu last_addr_ last_write_ rd_gen rd_get_next_]; [done|done|done|].
  change (c_io (cpu_next c')) with (c_io c'). rewrite <- Hd', Ho'. destruct b; by rewrite ?app_nil_r.
Qed.

(** *** The stream client *)

(** What is in of the current element, and a whole element. *)
Definition requests (off : Z) (l : list StreamArray) : list (Z * bool) := (fun x => (u64 (sa_addr x + off), sa_write x)) <$> l.
Definition partial (off : Z) (l : list StreamArray) : list (Z * bool) := requests off (filter (fun x => sa_inserted x = true) l).

(** The arrays of the [k]-th sweep, and the requests of the [i]-th element. *)
Definition afresh (l : list StreamArray) : list StreamArray := (fun x => MkArray (sa_addr x) (sa_write x) false) <$> l.
Fixpoint sweep (k : nat) : list StreamArray * list Z :=
  match k with
  | O => new_addresses ((fun w => MkArray 0 w false) <$> [false; false; true; false; false; false]) mt_default
  | Datatypes.S k => new_addresses (sweep k).1 (sweep k).2
  end.
Definition per_sweep : Z := 32768.
Definition element (i : nat) : list (Z * bool) :=
  requests (stride_ * (Z.of_nat i mod per_sweep)) (sweep (Z.to_nat (Z.of_nat i / per_sweep))).1.

Lemma afresh_requests off l : requests off (afresh l) = requests off l.
Proof. unfold requests, afresh. by rewrite <- list_fmap_compose. Qed.
Lemma afresh_idem l : afresh (afresh l) = afresh l.
Proof. unfold afresh. by rewrite <- list_fmap_compose. Qed.
Lemma afresh_none l : Forall (fun x => sa_inserted x = false) l → afresh l = l.
Proof. induction 1 as [|[a w b] l Hx Hl IH]; [done|]. simpl in Hx. subst b. unfold afresh in *. simpl. by f_equal. Qed.

Lemma new_addresses_ok l g : afresh l = l → afresh (new_addresses l g).1 = (new_addresses l g).1.
Proof.
  revert g. induction l as [|[a w b] l IH]; intros g Hl; [done|]. cbn [new_addresses]. destruct (gen g) as [a' g1].
  injection Hl as Hb Hl. specialize (IH g1 Hl). destruct (new_addresses l g1) as [l' g2]. subst b. change (MkArray a' w false :: afresh l' = MkArray a' w false :: l'). f_equal. exact IH.
Qed.
Lemma sweep_afresh k : afresh (sweep k).1 = (sweep k).1.
Proof. induction k as [|k IH]; apply new_addresses_ok; [done|exact IH]. Qed.

Lemma partial_none off l : Forall (fun x => sa_inserted x = false) l → partial off l = [].
Proof.
  intros Hl. unfold partial. assert (filter (fun x => sa_inserted x = true) l = []) as ->; [|done].
  induction Hl as [|x l Hx Hl IH]; [done|]. by rewrite filter_cons, Hx.
Qed.
Lemma partial_all off l : forallb sa_inserted l = true → partial off l = requests off l.
Proof.
  intros Hl. unfold partial. f_equal. induction l as [|x l IH]; [done|]. simpl in Hl. apply andb_true_iff in Hl as [Hx Hl].
  rewrite filter_cons, Hx. simpl. by rewrite IH.
Qed.

Lemma stream_tries_ok off l c :
  cpu_mid c →
  ∃ l' c', stream_tries off l c = ok (l', c') ∧ cpu_mid c' ∧ cpu_now c' = cpu_now c ∧
    afresh l' = afresh l ∧ ∃ new, offered (c_io c') = offered (c_io c) ++ new ∧ partial off l' ≡ₚ new ++ partial off l.
Proof.
  revert c. induction l as [|x l IH]; intros c Hc; cbn [stream_tries].
  { exists [], c. split_and!; try done. exists []. by rewrite app_nil_r. }
  assert (∃ x' c1 new, stream_try off x c = ok (x', c1) ∧ cpu_mid c1 ∧ cpu_now c1 = cpu_now c ∧
    sa_addr x' = sa_addr x ∧ sa_write x' = sa_write x ∧ offered (c_io c1) = offered (c_io c) ++ new ∧
    partial off [x'] ≡ₚ new ++ partial off [x]) as (x' & c1 & new & Hr & Hc1 & Hn1 & Ea & Ew & Ho1 & Hp1).
  { unfold stream_try. destruct (sa_inserted x) eqn:Ex; [exists x, c, []; by rewrite app_nil_r|].
    destruct (offer_ok (u64 (sa_addr x + off)) (sa_write x) c Hc) as (b & c1 & -> & ? & ? & ? & ?); [apply u64_range|].
    cbn [mbind exc_bind]. eexists _, c1, _. split; [reflexivity|]. split_and!; try done. unfold partial.
    rewrite !filter_cons, Ex. simpl. by destruct b. }
  rewrite Hr. cbn [mbind exc_bind]. destruct (IH c1 Hc1) as (l' & c2 & -> & Hc2 & Hn2 & Hq2 & new2 & Ho2 & Hp2).
  cbn [mbind exc_bind]. exists (x' :: l'), c2. split_and!; [done|done|congruence| |].
  - unfold afresh in *. simpl. rewrite Ea, Ew. f_equal. exact Hq2.
  - exists (new ++ new2). split; [by rewrite Ho2, Ho1, app_assoc|].
    assert (∀ y k, partial off (y :: k) = partial off [y] ++ partial off k) as Hcons.
    { intros y k. unfold partial, requests. change (y :: k) with ([y] ++ k). by rewrite filter_app, fmap_app. }
    rewrite (Hcons x' l'), (Hcons x l), Hp1, Hp2, <- !app_assoc. apply Permutation_app_head.
    rewrite !app_assoc. apply Permutation_app_tail, Permutation_app_comm.
Qed.

(** Where the client is with [m] elements done: before its first cycle, or in a sweep,
    perhaps at its end with no array of the next element in. *)
Definition in_sweep (m k : nat) (off : Z) (l : list StreamArray) (g : list Z) : Prop :=
  afresh l = (sweep k).1 ∧ g = (sweep k).2 ∧ off = stride_ * (Z.of_nat m - per_sweep * Z.of_nat k) ∧
  0 ≤ off ≤ array_size_ ∧ (off = array_size_ → Forall (fun x => sa_inserted x = false) l).
Definition place (m : nat) (s : StreamCPU S) : Prop :=
  (cpu_now (st_cpu s) = 0 ∧ m = O ∧ st_offset s = 0 ∧ st_gen s = mt_default ∧
     st_arrays s = (fun w => MkArray 0 w false) <$> [false; false; true; false; false; false]) ∨
  (0 < cpu_now (st_cpu s) ∧ ∃ k, in_sweep m k (st_offset s) (st_arrays s) (st_gen s)).
Record stream_inv (m : nat) (s : StreamCPU S) : Prop := {
  si_cpu : cpu_inv (st_cpu s);
  si_place : place m s;
  si_done : offered (c_io (st_cpu s)) ≡ₚ concat (element <$> seq 0 m) ++ partial (st_offset s) (st_arrays s)
}.

(** An element of a sweep. *)
Lemma sweep_element m k off l g :
  in_sweep m k off l g → off < array_size_ → element m = requests off l.
Proof.
  intros (Hl & _ & -> & Hoff & _) Hlt. unfold element, array_size_, stride_, per_sweep in *.
  assert (Z.of_nat m / 32768 = Z.of_nat k) as -> by (symmetry; apply (Z.div_unique _ _ _ (Z.of_nat m - 32768 * Z.of_nat k)); lia).
  assert (Z.of_nat m mod 32768 = Z.of_nat m - 32768 * Z.of_nat k) as ->
    by (symmetry; apply (Z.mod_unique _ _ (Z.of_nat k)); lia).
  by rewrite Nat2Z.id, <- Hl, afresh_requests.
Qed.

Lemma triple_eq {A B C} (x x' : A) (y y' : B) (z z' : C) : (x, y, z) = (x', y', z') → x' = x ∧ y' = y ∧ z' = z.
Proof. by intros [= -> -> ->]. Qed.

(** The addresses of a cycle: new ones at the start and behind the last element. *)
Lemma stream_arrays_ok m s l off g :
  stream_inv m s → 0 ≤ cpu_now (st_cpu s) < two64 →
  (if (array_size_ <=? st_offset s) || (c_clk_ (st_cpu s) =? 0) then
     let '(l, g) := new_addresses (st_arrays s) (st_gen s) in (l, 0, g)
   else (st_arrays s, st_offset s, st_gen s)) = (l, off, g) →
  (∃ k, in_sweep m k off l g) ∧ off < array_size_ ∧ partial off l = partial (st_offset s) (st_arrays s).
Proof.
  intros [[_ Hclk] Hpl _] Hn E. rewrite Hclk, u64_small in E by done. change (ds_now _) with (cpu_now (st_cpu s)) in E.
  destruct Hpl as [(Hzero & -> & Hoff & Hg & Hl)|[Hpos (k & Hl & Hg & Hoff & Hr & Hend)]].
  - rewrite Hzero, orb_true_r, Hg, Hl in E. change (new_addresses _ _) with (sweep 0) in E. rewrite (surjective_pairing (sweep 0)) in E.
    apply triple_eq in E as (-> & -> & ->). split; [|split; [done|]].
    + exists O. split; [apply sweep_afresh|]. split; [reflexivity|]. split; [reflexivity|]. by split.
    + rewrite Hl, !partial_none; [reflexivity|repeat constructor|]. apply Forall_forall. intros x Hx. rewrite <- sweep_afresh in Hx.
      by apply list_elem_of_fmap in Hx as (? & -> & _).
  - assert ((cpu_now (st_cpu s) =? 0) = false) as Hz by lia. rewrite Hz, orb_false_r in E.
    destruct (Z.leb_spec array_size_ (st_offset s)) as [Hge|Hlt].
    2:{ injection E as <- <- <-. split; [|done]. exists k. split_and!; done || lia. }
    assert (st_offset s = array_size_) as He by lia. specialize (Hend He). rewrite (afresh_none _ Hend) in Hl. rewrite Hl, Hg in E.
    change (new_addresses _ _) with (sweep (Datatypes.S k)) in E. rewrite (surjective_pairing (sweep (Datatypes.S k))) in E.
    apply triple_eq in E as (-> & -> & ->).
    split; [|split; [done|]].
    + exists (Datatypes.S k). split; [apply sweep_afresh|]. split; [reflexivity|].
      unfold stride_, per_sweep, array_size_ in *. split; [lia|]. by split.
    + rewrite (partial_none _ (st_arrays s)) by done. apply partial_none, Forall_forall. intros x Hx. rewrite <- sweep_afresh in Hx.
      by apply list_elem_of_fmap in Hx as (? & -> & _).
Qed.

Lemma stream_ClockTick_ok m s :
  stream_inv m s → 0 ≤ cpu_now (st_cpu s) < Z.min (ds_limit S) two64 →
  ∃ m' s', stream_ClockTick s = ok s' ∧ stream_inv m' s' ∧ cpu_now (st_cpu s') = cpu_now (st_cpu s) + 1.
Proof.
  intros Hs Hn. unfold stream_ClockTick. destruct (cpu_memory_tick_ok _ (si_cpu _ _ Hs)) as (c & -> & Hm & Hn1 & Ho1 & Hk1); [lia|].
  cbn [mbind exc_bind]. rewrite Hk1. match goal with |- context [if ?b then ?x else ?y] => destruct (if b then x else y) as [[l off] g] eqn:E end.
  destruct (stream_arrays_ok m s l off g Hs) as ((k & Hin) & Hlt & Hpart); [lia|exact E|].
  destruct (stream_tries_ok off l c Hm) as (l' & c' & -> & Hm' & Hn2 & Hreq & new & Ho2 & Hp2). cbn [mbind exc_bind].
  destruct (cpu_next_ok c' Hm') as [Hi Hk]. assert (0 < cpu_now (cpu_next c')) as Hpos by lia.
  assert (offered (c_io c') ≡ₚ concat (element <$> seq 0 m) ++ partial off l') as Hacc.
  { rewrite Ho2, Ho1, (si_done _ _ Hs), Hp2, Hpart, <- app_assoc. apply Permutation_app_head, Permutation_app_comm. }
  assert (in_sweep m k off l' g) as Hin' by (destruct Hin as (? & ? & ? & ? & ?); split_and!; [congruence|done|done|lia|lia|lia]).
  destruct (forallb sa_inserted l') eqn:Hf.
  - exists (Datatypes.S m). eexists. split; [reflexivity|]. cbn [st_cpu]. split; [|lia].
    change (fmap _ l') with (afresh l'). assert (Forall (fun x => sa_inserted x = false) (afresh l')) as Hno
      by (apply Forall_fmap, Forall_true; done).
    assert (u64 (off + stride_) = off + stride_) as E64
      by (apply u64_small; destruct Hin' as (_ & _ & _ & ? & _); unfold array_size_, stride_, two64 in *; lia).
    split; cbn [st_cpu st_arrays st_offset st_gen]; [done| |].
    + right. split; [done|]. exists k. rewrite E64. destruct Hin' as (? & ? & ? & ? & ?). unfold stride_, array_size_, per_sweep in *.
      cbn [st_arrays st_offset st_gen]. unfold in_sweep, stride_, array_size_, per_sweep. rewrite afresh_idem.
      split_and!; try done; lia.
    + rewrite (partial_none _ (afresh l')), app_nil_r by done. change (c_io (cpu_next c')) with (c_io c').
      rewrite Hacc, seq_S, fmap_app, concat_app. simpl. rewrite app_nil_r, (sweep_element m k off l' g Hin' Hlt).
      by rewrite (partial_all off l' Hf).
  - exists m. eexists. split; [reflexivity|]. cbn [st_cpu]. split; [|lia].
    split; cbn [st_cpu st_arrays st_offset st_gen]; [done| |done]. right. split; [done|]. by exists k.
Qed.

(** *** The trace client *)

(** The requests of the records left, and behind a final newline the last address once
    more, as a read. *)
Fixpoint trace_rest (newline : bool) (a : Z) (l : list (Z * string * Z)) : list (Z * bool) :=
  match l with
  | [] => if newline then [(a, false)] else []
  | (a', op, _) :: l => (a', is_write_op op) :: trace_rest newline a' l
  end.
Definition trace_requested (f : trace_file) : list (Z * bool) := trace_rest (tf_newline f) 0 (tf_records f).

(** What the transaction of the client asks for. *)
Definition pending (t : option Transaction) : list (Z * bool) :=
  match t with Some t => [(t_addr t, is_write t)] | None => [] end.
Definition trans_addr (t : option Transaction) : Z := from_option t_addr 0 t.

(** A file with something left to read. *)
Record readable (f : trace_file) (t : option Transaction) : Prop := {
  rb_open : tf_eof f = false;
  rb_more : tf_records f = [] → tf_newline f = true ∧ is_Some t;
  rb_addr : Forall (fun r => 0 ≤ r.1.1) (tf_records f);
  rb_last : 0 ≤ trans_addr t
}.

Lemma read_trans_ok f t :
  readable f t →
  ∃ f' t', read_trans f t = (f', Some t') ∧ 0 ≤ t_addr t' ∧ tf_newline f' = tf_newline f ∧
    trace_rest (tf_newline f) (trans_addr t) (tf_records f) =
      (t_addr t', is_write t') :: (if tf_eof f' then [] else trace_rest (tf_newline f') (t_addr t') (tf_records f')) ∧
    (tf_eof f' = false → readable f' (Some t')).
Proof.
  intros [Ho Hm Ha Hl]. unfold read_trans. destruct (tf_records f) as [|[[a op] n] l] eqn:E.
  - destruct (Hm eq_refl) as [-> [t0 ->]]. eexists _, _. split; [reflexivity|]. by split_and!.
  - apply Forall_cons in Ha as [Ha0 Ha]. eexists _, _. split; [reflexivity|]. simpl in *. destruct l as [|r l]; simpl.
    + destruct (tf_newline f) eqn:En; simpl; split_and!; done.
    + split_and!; done.
Qed.

(** The records are offered in order, all but the last request until it is accepted;
    the last one is offered at most once. *)
Record trace_inv (f0 : trace_file) (x : TraceBasedCPU S) : Prop := {
  ti_cpu : cpu_inv (tc_cpu x);
  ti_open : tf_eof (trace_file_ x) = false →
    readable (trace_file_ x) (trans_ x) ∧ (tc_get_next_ x = false → is_Some (trans_ x)) ∧
    trace_requested f0 = offered (c_io (tc_cpu x)) ++ (if tc_get_next_ x then [] else pending (trans_ x)) ++
      trace_rest (tf_newline (trace_file_ x)) (trans_addr (trans_ x)) (tf_records (trace_file_ x));
  ti_eof : tf_eof (trace_file_ x) = true →
    trace_requested f0 = offered (c_io (tc_cpu x)) ∨ ∃ r, trace_requested f0 = offered (c_io (tc_cpu x)) ++ [r]
}.

(** The request of the cycle is offered, if its time has come. *)
Lemma trace_offer_ok f0 c f t get :
  cpu_mid c → 0 ≤ t_addr t → (tf_eof f = false → readable f (Some t)) → get = false →
  trace_requested f0 = offered (c_io c) ++ (t_addr t, is_write t) ::
    (if tf_eof f then [] else trace_rest (tf_newline f) (t_addr t) (tf_records f)) →
  ∃ x, (if added_cycle t <=? c_clk_ c then
      '(b, c) ← offer (t_addr t) (is_write t) c; ok (MkTraceCPU (cpu_next c) f (Some t) b)
    else ok (MkTraceCPU (cpu_next c) f (Some t) get)) = ok x ∧ trace_inv f0 x ∧ cpu_now (tc_cpu x) = cpu_now c.
Proof.
  intros Hc Ha Hf -> Hr. assert (∃ (b : bool) c', (if added_cycle t <=? c_clk_ c then offer (t_addr t) (is_write t) c else ok (false, c)) = ok (b, c') ∧
    cpu_mid c' ∧ cpu_now c' = cpu_now c ∧ offered (c_io c') = offered (c_io c) ++ (if b then pending (Some t) else [])) as (b & c' & Ho & Hm & Hn & Hio).
  { destruct (_ <=? _); [|exists false, c; by rewrite app_nil_r]. destruct (offer_ok (t_addr t) (is_write t) c Hc Ha) as (b & c' & ? & ? & ? & _ & ?).
    by exists b, c'. }
  exists (MkTraceCPU (cpu_next c') f (Some t) b). split.
  { destruct (_ <=? _); [by rewrite Ho|]. by injection Ho as <- <-. }
  destruct (cpu_next_ok c' Hm) as [Hi Hk]. split; [|simpl; lia]. split; cbn [tc_cpu trace_file_ trans_ tc_get_next_]; [done| |].
  - intros He. rewrite He in Hr. split; [by auto|]. split; [by auto|]. change (c_io (cpu_next c')) with (c_io c'). rewrite Hio, Hr, <- app_assoc.
    f_equal. by destruct b.
  - intros He. rewrite He in Hr. change (c_io (cpu_next c')) with (c_io c'). rewrite Hio, Hr. destruct b; [by left|right].
    exists (t_addr t, is_write t). by rewrite app_nil_r.
Qed.

Lemma trace_ClockTick_ok f0 x :
  trace_inv f0 x → 0 ≤ cpu_now (tc_cpu x) < ds_limit S →
  ∃ x', trace_ClockTick x = ok x' ∧ trace_inv f0 x' ∧ cpu_now (tc_cpu x') = cpu_now (tc_cpu x) + 1.
Proof.
  intros Hx Hn. unfold trace_ClockTick. destruct (cpu_memory_tick_ok _ (ti_cpu _ _ Hx) Hn) as (c & -> & Hm & Hn1 & Ho1 & _).
  cbn [mbind exc_bind]. destruct (tf_eof (trace_file_ x)) eqn:He.
  { eexists. split; [reflexivity|]. destruct (cpu_next_ok c Hm) as [Hi Hk]. split; [|simpl; lia].
    split; cbn [tc_cpu trace_file_]; [done|by rewrite He|]. intros _. change (c_io (cpu_next c)) with (c_io c). rewrite Ho1.
    by apply (ti_eof _ _ Hx). }
  destruct (ti_open _ _ Hx He) as (Hf & Hpend & Hreq). destruct (tc_get_next_ x) eqn:Eg.
  - destruct (read_trans_ok _ _ Hf) as (f' & t' & -> & Ha & _ & Hrest & Hf'). cbn [opt_exc mbind exc_bind].
    destruct (trace_offer_ok f0 c f' t' false Hm Ha Hf' eq_refl) as (x' & Hr & Hi & Hk); [by rewrite Hreq, Ho1, Hrest|].
    exists x'. split; [exact Hr|]. split; [done|lia].
  - destruct (Hpend eq_refl) as [t Et]. rewrite Et in *. cbn [opt_exc mbind exc_bind].
    destruct (trace_offer_ok f0 c (trace_file_ x) t false Hm (rb_last _ _ Hf) (fun _ => Hf) eq_refl) as (x' & Hr & Hi & Hk).
    { by rewrite He, Hreq, Ho1. }
    exists x'. split; [exact Hr|]. split; [done|lia].
Qed.

(** *** What the trace client is to do, cycle by cycle *)

(** The requests of a file with the cycles they are for: those of the records and,
    behind a final newline, a read of the last address, due with the last record. *)
Definition trace_plan (f : trace_file) : list (Z * bool * Z) :=
  ((fun r => (r.1.1, is_write_op r.1.2, r.2)) <$> tf_records f) ++
  (if tf_newline f then
     match last (tf_records f) with Some (a, _, k) => [(a, false, k)] | None => [] end
   else []).

(** A cycle: the memory's tick; then the first request of the plan, if it is due, is
    offered, and leaves the plan when it is accepted. The last request of the plan leaves
    it in any case. *)
Definition plan_tick (x : CPU S * list (Z * bool * Z)) : exc (CPU S * list (Z * bool * Z)) :=
  let '(c, plan) := x in
  c ← cpu_memory_tick c;
  match plan with
  | [] => ok (cpu_next c, [])
  | (a, w, due) :: rest =>
      '(b, c) ← (if due <=? c_clk_ c then offer a w c else ok (false, c));
      ok (cpu_next c, match rest with [] => [] | _ => if (b : bool) then rest else plan end)
  end.

(** The plan that is left of a file: the one of the records, after a record of the
    address [a] and the cycle [k]. *)
Fixpoint plan_rest (newline : bool) (a k : Z) (l : list (Z * string * Z)) : list (Z * bool * Z) :=
  match l with
  | [] => if newline then [(a, false, k)] else []
  | (a', op, k') :: l => (a', is_write_op op, k') :: plan_rest newline a' k' l
  end.
Definition trans_cycle (t : option Transaction) : Z := from_option added_cycle 0 t.

Lemma plan_rest_plan (newline : bool) a k l :
  plan_rest newline a k l = ((fun r => (r.1.1, is_write_op r.1.2, r.2)) <$> l) ++
    (if newline then match last l with Some (a, _, k) => [(a, false, k)] | None => [(a, false, k)] end else []).
Proof.
  revert a k. induction l as [|[[b op] n] l IH]; intros a k; [done|]. rewrite last_cons. simpl. rewrite IH.
  destruct (last l) as [[[] ]|]; done.
Qed.
Lemma plan_rest_reqs newline a k l : (plan_rest newline a k l).*1 = trace_rest newline a l.
Proof. revert a k. induction l as [|[[b op] n] l IH]; intros a k; simpl; [by destruct newline|]. by rewrite IH. Qed.

(** What is left of the plan when the client is in the state [x]. *)
Definition planned (x : TraceBasedCPU S) (plan : list (Z * bool * Z)) : Prop :=
  if tf_eof (trace_file_ x) then plan = []
  else readable (trace_file_ x) (trans_ x) ∧ (tc_get_next_ x = false → is_Some (trans_ x)) ∧
    plan = (if tc_get_next_ x then [] else
              match trans_ x with Some t => [(t_addr t, is_write t, added_cycle t)] | None => [] end) ++
           plan_rest (tf_newline (trace_file_ x)) (trans_addr (trans_ x)) (trans_cycle (trans_ x)) (tf_records (trace_file_ x)).

Lemma read_planned f t :
  readable f t →
  ∃ f' t', read_trans f t = (f', Some t') ∧
    plan_rest (tf_newline f) (trans_addr t) (trans_cycle t) (tf_records f) = (t_addr t', is_write t', added_cycle t') ::
      (if tf_eof f' then [] else plan_rest (tf_newline f') (t_addr t') (added_cycle t') (tf_records f')) ∧
    (tf_eof f' = false → readable f' (Some t')).
Proof.
  intros [Ho Hm Ha Hl]. unfold read_trans. destruct (tf_records f) as [|[[a op] n] l] eqn:E.
  - destruct (Hm eq_refl) as [-> [t0 ->]]. eexists _, _. split; [reflexivity|]. by split_and!.
  - apply Forall_cons in Ha as [Ha0 Ha]. eexists _, _. split; [reflexivity|]. simpl in *. destruct l as [|r l]; simpl.
    + destruct (tf_newline f) eqn:En; simpl; split_and!; done.
    + split_and!; done.
Qed.

Lemma readable_more f t : readable f t → plan_rest (tf_newline f) (trans_addr t) (trans_cycle t) (tf_records f) ≠ [].
Proof. intros [_ Hm _ _]. destruct (tf_records f) as [|[[a op] n] l]; [by destruct Hm as [-> _]|done]. Qed.

(** The end of a cycle in both. *)
Lemma planned_offer f t rest c x' :
  (tf_eof f = false → readable f (Some t)) →
  rest = (if tf_eof f then [] else plan_rest (tf_newline f) (t_addr t) (added_cycle t) (tf_records f)) →
  (if added_cycle t <=? c_clk_ c then
      '(b, c) ← offer (t_addr t) (is_write t) c; ok (MkTraceCPU (cpu_next c) f (Some t) b)
    else ok (MkTraceCPU (cpu_next c) f (Some t) false)) = ok x' →
  ∃ plan', ('(b, c) ← (if added_cycle t <=? c_clk_ c then offer (t_addr t) (is_write t) c else ok (false, c));
     ok (cpu_next c, match rest with [] => [] | _ => if (b : bool) then rest else (t_addr t, is_write t, added_cycle t) :: rest end))
    = ok (tc_cpu x', plan') ∧ planned x' plan'.
Proof.
  intros Hf Hrest Hx.
  assert (∃ (b : bool) c', (if added_cycle t <=? c_clk_ c then offer (t_addr t) (is_write t) c else ok (false, c)) = ok (b, c') ∧
    x' = MkTraceCPU (cpu_next c') f (Some t) b) as (b & c' & -> & ->).
  { destruct (_ <=? _); [|injection Hx as <-; by exists false, c].
    apply exc_bind_ok in Hx as ([b c'] & -> & [= <-]). by exists b, c'. }
  cbn [mbind exc_bind]. eexists. split; [reflexivity|]. unfold planned. cbn [trace_file_ trans_ tc_get_next_]. subst rest.
  destruct (tf_eof f); [done|]. specialize (Hf eq_refl). split; [done|]. split; [done|].
  pose proof (readable_more f _ Hf) as Hne. simpl in *. destruct (plan_rest _ _ _ _); [done|]. by destruct b.
Qed.

Lemma planned_tick x plan x' :
  planned x plan → trace_ClockTick x = ok x' → ∃ plan', plan_tick (tc_cpu x, plan) = ok (tc_cpu x', plan') ∧ planned x' plan'.
Proof.
  intros Hp (c & Hc & Hx)%exc_bind_ok. unfold plan_tick. rewrite Hc. cbn [mbind exc_bind]. unfold planned in Hp.
  destruct (tf_eof (trace_file_ x)) eqn:He.
  { injection Hx as <-. subst plan. exists []. split; [done|]. unfold planned. simpl. by rewrite He. }
  destruct Hp as (Hf & Hpend & ->). destruct (tc_get_next_ x) eqn:Eg.
  - destruct (read_planned _ _ Hf) as (f' & t' & Er & -> & Hf'). rewrite Er in Hx. cbn [opt_exc mbind exc_bind app] in *.
    by apply (planned_offer f' t' _ c x').
  - destruct (Hpend eq_refl) as [t Et]. rewrite Et in *. cbn [opt_exc mbind exc_bind app] in *.
    apply (planned_offer (trace_file_ x) t _ c x'); [done|by rewrite He|exact Hx].
Qed.

Lemma planned_run n x plan x' :
  planned x plan → run_cycles trace_ClockTick n x = ok x' →
  ∃ plan', run_cycles plan_tick n (tc_cpu x, plan) = ok (tc_cpu x', plan') ∧ planned x' plan'.
Proof.
  revert x plan. induction n as [|n IH]; intros x plan Hp; cbn [run_cycles]; [intros [= <-]; by exists plan|].
  intros (y & Hy & Hx)%exc_bind_ok. destruct (planned_tick x plan y Hp Hy) as (plan1 & -> & Hp1). cbn [mbind exc_bind].
  by apply (IH y).
Qed.

(** ** Runs of the clients *)

(** A memory system just made. *)
Definition unused (s : S) : Prop := ds_inv s ∧ ds_out s = [] ∧ ds_now s = 0.

Lemma unused_inv s : unused s → cpu_inv (MkCPU s 0 []).
Proof. intros (Hi & Ho & Hn). split; [split; [done|by simpl; rewrite Ho]|]. simpl. by rewrite Hn. Qed.

(** What a client asked for and got, when [x] is the client after its run. *)
Definition served c (accepted : list (Z * bool)) : Prop :=
  offered (c_io c) = accepted ∧ accepted ≡ₚ called (c_io c) ++ ds_out (memory_system_ c).

Lemma served_ok c : cpu_inv c → served c (offered (c_io c)).
Proof. by intros [[_ ?] _]. Qed.

(** A file that a trace client can work on. *)
Definition trace_ok (f : trace_file) : Prop :=
  tf_eof f = false ∧ tf_records f ≠ [] ∧ Forall (fun r => 0 ≤ r.1.1) (tf_records f).

Lemma trace_start_inv s f : unused s → trace_ok f → trace_inv f (MkTraceCPU (MkCPU s 0 []) f None true).
Proof.
  intros Hs (Hopen & Hne & Ha). constructor; [exact (unused_inv s Hs)| |simpl; congruence].
  intros _. split; [by split|]. split; [done|reflexivity].
Qed.
Lemma stream_start_inv s : unused s → stream_inv 0 (new_StreamCPU s).
Proof. intros Hs. pose proof Hs as (_ & _ & Hz). constructor; [exact (unused_inv s Hs)|left|]; [by split_and!|reflexivity]. Qed.
Lemma random_start_inv s : unused s → random_inv 0 (new_RandomCPU s).
Proof.
  intros Hs. constructor; [exact (unused_inv s Hs)|apply Z.le_refl| |reflexivity].
  cbn [draws snd rd_gen new_RandomCPU]. reflexivity.
Qed.

(** The random client never fails: after any number of cycles the memory system has
    accepted the first [k] requests drawn from the engine, in order, at most one more is
    waiting, and each of the [k] was called back or is outstanding. *)
Theorem random_requests s n :
  unused s → Z.of_nat n ≤ ds_limit S →
  ∃ k x, run_cycles random_ClockTick n (new_RandomCPU s) = ok x ∧ served (rd_cpu x) (draws k).1 ∧
    (rd_get_next_ x = true → rd_gen x = (draws k).2) ∧
    (rd_get_next_ x = false → (draws (Datatypes.S k)).1 = (draws k).1 ++ [(last_addr_ x, last_write_ x)]).
Proof.
  intros Hs Hn. pose proof Hs as (_ & _ & Hz).
  destruct (run_cycles_ok random_ClockTick rd_cpu (fun r => ∃ k, random_inv k r) (ds_limit S) n (new_RandomCPU s)) as (x & Hr & (k & Hx) & _).
  - intros x (k & Hx) Hk. destruct (random_ClockTick_ok k x Hx Hk) as (k' & y & ? & ? & ?). exists y. split_and!; [done|by exists k'|done].
  - exists O. by apply random_start_inv.
  - change (cpu_now _) with (ds_now s). lia.
  - change (cpu_now _) with (ds_now s). lia.
  - destruct Hx as [Hc _ Hg Hd]. pose proof (served_ok _ Hc) as Hv. destruct (rd_get_next_ x) eqn:Eg.
    + exists k, x. rewrite app_nil_r in Hd. rewrite <- Hd. split; [exact Hr|]. split; [exact Hv|]. split; [by intros _|by rewrite Eg].
    + destruct k as [|k]; [by destruct (offered _)|]. exists k, x. cbn [draws fst] in *. apply app_inj_tail in Hd as [Hd Hl].
      rewrite <- Hl, <- Hd. split; [exact Hr|]. split; [exact Hv|]. split; [by rewrite Eg|by intros _].
Qed.

(** The stream client never fails: after any number of cycles the memory system has
    accepted the requests of the first [m] elements, whole, and some of those of the
    next one, each once; the elements are those of successive sweeps over six arrays of
    random addresses, 64 bytes apart; and each request was called back or is
    outstanding. *)
Theorem stream_requests s n :
  unused s → Z.of_nat n ≤ Z.min (ds_limit S) two64 →
  ∃ m some x, run_cycles stream_ClockTick n (new_StreamCPU s) = ok x ∧
    served (st_cpu x) (offered (c_io (st_cpu x))) ∧
    offered (c_io (st_cpu x)) ≡ₚ concat (element <$> seq 0 m) ++ some ∧ some ⊆+ element m.
Proof.
  intros Hs Hn. pose proof Hs as (_ & _ & Hz).
  destruct (run_cycles_ok stream_ClockTick st_cpu (fun x => ∃ m, stream_inv m x) (Z.min (ds_limit S) two64) n (new_StreamCPU s))
    as (x & Hr & (m & Hx) & _).
  - intros x (m & Hx) Hk. destruct (stream_ClockTick_ok m x Hx Hk) as (m' & y & ? & ? & ?). exists y. split_and!; [done|by exists m'|done].
  - exists O. by apply stream_start_inv.
  - change (cpu_now _) with (ds_now s). lia.
  - change (cpu_now _) with (ds_now s). lia.
  - exists m, (partial (st_offset x) (st_arrays x)), x. split; [exact Hr|]. split; [apply served_ok, Hx|]. split; [apply Hx|].
    destruct (si_place _ _ Hx) as [(_ & -> & Ho & _ & Hl)|(_ & k & Hk)]; [rewrite Hl, partial_none; [apply submseteq_nil_l|repeat constructor]|].
    destruct (Z.lt_ge_cases (st_offset x) array_size_) as [Hlt|Hge].
    + rewrite (sweep_element m k _ _ _ Hk Hlt). apply sublist_submseteq. unfold partial, requests. apply fmap_sublist, sublist_filter.
    + destruct Hk as (_ & _ & _ & Hrange & Hend). rewrite partial_none by (apply Hend; lia). apply submseteq_nil_l.
Qed.

(** (C20) The trace client, cycle by cycle, on a file with a record: it does what its
    plan says. In every cycle it offers the first request left, if it is due, until the
    memory accepts it; the last request of the plan is tried in one cycle only, and then
    the client is at the end of the file and offers nothing more. The plan is the
    records, in order, and, when a newline follows the last, one more read of its
    address. The client and the memory end as the plan's run does; what was accepted is
    the plan up to what is left of it, but for the last request if it was early or
    refused in its cycle; and all that was accepted was called back or is
    outstanding. *)
Theorem trace_requests s f n :
  unused s → trace_ok f → Z.of_nat n ≤ ds_limit S →
  ∃ x dropped left, (x ← new_TraceBasedCPU s (Some f); run_cycles trace_ClockTick n x) = ok x ∧
    run_cycles plan_tick n (MkCPU s 0 [], trace_plan f) = ok (tc_cpu x, left) ∧
    (tf_eof (trace_file_ x) = true ↔ left = []) ∧
    (trace_plan f).*1 = offered (c_io (tc_cpu x)) ++ dropped ++ left.*1 ∧
    (length dropped ≤ 1)%nat ∧ (left ≠ [] → dropped = []) ∧
    offered (c_io (tc_cpu x)) ≡ₚ called (c_io (tc_cpu x)) ++ ds_out (memory_system_ (tc_cpu x)).
Proof.
  intros Hs Hok Hn. pose proof Hs as (_ & _ & Hz). cbn [new_TraceBasedCPU mbind exc_bind].
  pose proof (trace_start_inv s f Hs Hok) as Hstart.
  destruct (run_cycles_ok trace_ClockTick tc_cpu (trace_inv f) (ds_limit S) n (MkTraceCPU (MkCPU s 0 []) f None true)) as (x & Hr & Hx & _).
  - intros x Hx Hk. by apply trace_ClockTick_ok.
  - exact Hstart.
  - change (cpu_now _) with (ds_now s). lia.
  - change (cpu_now _) with (ds_now s). lia.
  - destruct Hok as (Hopen & Hne & _).
    assert (trace_plan f = plan_rest (tf_newline f) 0 0 (tf_records f)) as Eplan.
    { rewrite plan_rest_plan. unfold trace_plan. destruct (last (tf_records f)) eqn:E; [done|]. by apply last_None in E. }
    destruct (planned_run n (MkTraceCPU (MkCPU s 0 []) f None true) (trace_plan f) x) as (left & Hrun & Hp); [|exact Hr|].
    { unfold planned. simpl. rewrite Hopen, Eplan. split; [by apply (ti_open _ _ Hstart)|done]. }
    destruct (served_ok _ (ti_cpu _ _ Hx)) as [_ Hv].
    assert ((trace_plan f).*1 = trace_requested f) as -> by (rewrite Eplan; apply plan_rest_reqs).
    unfold planned in Hp. destruct (tf_eof (trace_file_ x)) eqn:He.
    + subst left. destruct (ti_eof _ _ Hx He) as [->|[r ->]]; [exists x, [], []|exists x, [r], []]; rewrite ?app_nil_r, He; split_and!; try done; simpl; lia.
    + destruct (ti_open _ _ Hx He) as (Hf & _ & Hq). destruct Hp as (_ & _ & ->). eexists x, [], _.
      split; [exact Hr|]. split; [exact Hrun|]. pose proof (readable_more _ _ Hf). rewrite He. split_and!; try done; [|simpl|simpl; lia].
      * split; [done|]. intros Hnil. by apply app_eq_nil in Hnil as [_ ?].
      * rewrite Hq, fmap_app, plan_rest_reqs. do 2 f_equal. destruct (tc_get_next_ x); [done|]. by destruct (trans_ x).
Qed.
End Safety.

(** ** The program *)

Section Program.
Context {S : Type} `{DRAMSystemOk S}.

(** The invariant of each kind of client. *)
Definition client_inv (c : client S) : Prop :=
  match c with
  | Tracing x => ∃ f, trace_inv f x
  | Streaming x => ∃ m, stream_inv m x
  | Randomly x => ∃ k, random_inv k x
  end.
Lemma client_inv_cpu c : client_inv c → cpu_inv (client_cpu c).
Proof. destruct c; intros [? Hc]; apply Hc. Qed.

Lemma client_ClockTick_ok c :
  client_inv c → 0 ≤ cpu_now (client_cpu c) < Z.min (ds_limit S) two64 →
  ∃ c', client_ClockTick c = ok c' ∧ client_inv c' ∧ cpu_now (client_cpu c') = cpu_now (client_cpu c) + 1.
Proof.
  destruct c as [x|x|x]; intros [k Hx] Hn; cbn [client_cpu client_ClockTick] in *.
  - destruct (trace_ClockTick_ok k x Hx) as (y & -> & Hy & E); [lia|]. exists (Tracing y). split_and!; [done|by exists k|done].
  - destruct (stream_ClockTick_ok k x Hx) as (m & y & -> & Hy & E); [lia|]. exists (Streaming y). split_and!; [done|by exists m|done].
  - destruct (random_ClockTick_ok k x Hx) as (m & y & -> & Hy & E); [lia|]. exists (Randomly y). split_and!; [done|by exists m|done].
Qed.

Lemma new_client_ok name file stream s :
  unused s → (name ≠ EmptyString → ∃ f, file = Some f ∧ trace_ok f) →
  ∃ c, new_client name file stream s = ok c ∧ client_inv c ∧ cpu_now (client_cpu c) = 0.
Proof.
  intros Hs Hf. pose proof Hs as (_ & _ & Hz). unfold new_client. destruct (String.eqb_spec name EmptyString) as [_|Hne]; cbn [negb].
  - destruct (_ || _); eexists; (split; [reflexivity|]); (split; [|exact Hz]); exists O; [by apply stream_start_inv|by apply random_start_inv].
  - destruct (Hf Hne) as (f & -> & Hok). eexists. split; [reflexivity|]. split; [|exact Hz]. exists f. by apply trace_start_inv.
Qed.
End Program.

(** The client that the command line asks for: with the name of a trace file the trace
    client, else by the stream type. *)
Definition kind_asked (name stream : string) (c : client MemorySystem) : Prop :=
  match c with
  | Tracing _ => name ≠ EmptyString
  | Streaming _ => name = EmptyString ∧ (stream = "stream" ∨ stream = "s")%string
  | Randomly _ => name = EmptyString ∧ (stream ≠ "stream" ∧ stream ≠ "s")%string
  end.

Lemma new_client_kind name file stream s c : new_client name file stream s = ok c → kind_asked name stream c.
Proof.
  unfold new_client. destruct (String.eqb_spec name EmptyString) as [->|Hne]; cbn [negb].
  - destruct (String.eqb_spec stream "stream"), (String.eqb_spec stream "s"); intros [= <-]; simpl; auto.
  - by intros (x & _ & [= <-])%exc_bind_ok.
Qed.
Lemma client_tick_kind name stream c c' : kind_asked name stream c → client_ClockTick c = ok c' → kind_asked name stream c'.
Proof. intros Hk. destruct c; by intros (x' & _ & [= <-])%exc_bind_ok. Qed.

(** Printing the statistics changes neither the requests nor the time. *)
Lemma client_PrintStats_ok c :
  cpu_now (client_cpu (client_PrintStats c)) = cpu_now (client_cpu c) ∧ c_io (client_cpu (client_PrintStats c)) = c_io (client_cpu c) ∧
  ds_out (memory_system_ (client_cpu (client_PrintStats c))) = ds_out (memory_system_ (client_cpu c)).
Proof. destruct c; simpl; (split; [apply ms_PrintStats_out|]); (split; [done|apply ms_PrintStats_out]). Qed.
Lemma client_PrintStats_kind name stream c : kind_asked name stream c → kind_asked name stream (client_PrintStats c).
Proof. by destruct c. Qed.

(** (C19) The stand-alone program, for a configuration its memory system keeps its
    invariant under ([jedec_cfg], in particular no self refresh, and the conditions on
    queues, refresh interval and, for the HMC, links and block size). When the trace file
    it is asked to read does not exist, it exits. When there is no trace file to read or
    one with at least one record, then for up to 2^21 cycles (within which no counter of
    the HMC overflows) it runs to its end: the client is the one the command line asks for,
    every cycle is simulated, and every request accepted from the client was called
    back or is outstanding. *)
Theorem dram_main_total r d x (config : Config) s name file stream n :
  new_Config r d x = ok config → jedec_cfg config → 0 ≤ cmd_queue_size config →
  (∀ f, Refresh.new_Refresh config = ok f → 0 < Refresh.refresh_interval_ f < 2 ^ 31) →
  (IsHMC config = true → (∀ w, ∃ t, block_req (block_size config) w = ok t) ∧ num_links config ≠ 0 ∧
     ∀ h, new_Hmc config = ok h → ps_per_logic_ h ≠ 0) →
  new_MemorySystem r d x = ok s →
  (name ≠ EmptyString → file = None → dram_main r d x name file stream n = err AbruptExit) ∧
  ((name ≠ EmptyString → ∃ f, file = Some f ∧ trace_ok f) → Z.of_nat n ≤ 2 ^ 21 →
   ∃ c, dram_main r d x name file stream n = ok c ∧ kind_asked name stream c ∧ cpu_now (client_cpu c) = Z.of_nat n ∧
     offered (c_io (client_cpu c)) ≡ₚ called (c_io (client_cpu c)) ++ ds_out (memory_system_ (client_cpu c))).
Proof.
  intros Hcfg Hg Hsz Href Hh Hnew. unfold dram_main. rewrite Hnew. cbn [mbind exc_bind].
  pose proof (new_MemorySystem_inv r d x s config Hcfg Hg Hsz Href Hh Hnew) as Hs. split.
  - intros Hname ->. unfold new_client. by destruct (String.eqb_spec name EmptyString).
  - intros Hf Hn. destruct (new_client_ok name file stream s Hs Hf) as (c & Hc0 & Hc & Hz). rewrite Hc0. cbn [mbind exc_bind].
    destruct (run_cycles_ok client_ClockTick client_cpu (fun c => client_inv c ∧ kind_asked name stream c) (2 ^ 21) n c)
      as (c' & -> & [Hc' Hkind] & Hn'); [| |lia|lia|].
    + intros y [Hy Hky] Hk. destruct (client_ClockTick_ok y Hy) as (z & Hr & Hz' & E).
      { change (ds_limit MemorySystem) with (2 ^ 21). unfold two64. lia. }
      exists z. split; [done|]. split; [split; [done|by eapply client_tick_kind]|done].
    + split; [done|by eapply new_client_kind].
    + cbn [mbind exc_bind]. exists (client_PrintStats c'). destruct (client_PrintStats_ok c') as (-> & -> & ->).
      split; [done|]. split; [by apply client_PrintStats_kind|]. split; [lia|]. apply (client_inv_cpu c' Hc').
Qed.

(** ** Concrete runs *)

Lemma hbm2_unused : unused hbm2_system.
Proof. exact hbm2_system_inv. Qed.

Lemma random_requests_witness :
  unused hbm2_system ∧ ∃ k x, run_cycles random_ClockTick 1000 (new_RandomCPU hbm2_system) = ok x ∧ served (rd_cpu x) (draws k).1 ∧
    (rd_get_next_ x = true → rd_gen x = (draws k).2) ∧
    (rd_get_next_ x = false → (draws (Datatypes.S k)).1 = (draws k).1 ++ [(last_addr_ x, last_write_ x)]).
Proof. split; [exact hbm2_unused|]. apply (random_requests hbm2_system 1000); [exact hbm2_unused|by vm_compute]. Defined.

Lemma stream_requests_witness :
  unused hbm2_system ∧ ∃ m some x, run_cycles stream_ClockTick 1000 (new_StreamCPU hbm2_system) = ok x ∧
    served (st_cpu x) (offered (c_io (st_cpu x))) ∧
    offered (c_io (st_cpu x)) ≡ₚ concat (element <$> seq 0 m) ++ some ∧ some ⊆+ element m.
Proof. split; [exact hbm2_unused|]. apply (stream_requests hbm2_system 1000); [exact hbm2_unused|by vm_compute]. Defined.

(** A file of two records; the second is for cycle 3. *)
Definition demo_trace (newline : bool) : trace_file := MkTrace [(64, "READ"%string, 0); (128, "WRITE"%string, 3)] newline false.

Lemma trace_requests_witness :
  unused hbm2_system ∧ ∃ x dropped left,
    (x ← new_TraceBasedCPU hbm2_system (Some (demo_trace true)); run_cycles trace_ClockTick 10 x) = ok x ∧
    run_cycles plan_tick 10 (MkCPU hbm2_system 0 [], [(64, false, 0); (128, true, 3); (128, false, 3)]) = ok (tc_cpu x, left) ∧
    [(64, false); (128, true); (128, false)] = offered (c_io (tc_cpu x)) ++ dropped ++ left.*1.
Proof.
  split; [exact hbm2_unused|]. destruct (trace_requests hbm2_system (demo_trace true) 10 hbm2_unused) as (x & d & l & Hr & Hp & _ & Ha & _).
  - split; [done|]. split; [done|]. by repeat constructor.
  - by vm_compute.
  - exists x, d, l. split; [exact Hr|split; [exact Hp|exact Ha]].
Defined.

Definition demo_accepted (newline : bool) : exc (list (Z * bool)) :=
  x ← (x ← new_TraceBasedCPU hbm2_system (Some (demo_trace newline)); run_cycles trace_ClockTick 10 x);
  ok (offered (c_io (tc_cpu x))).

(** With the newline the address of the write is read as well; without it the write,
    which is early when the file ends, is lost. *)
Example trace_phantom : demo_accepted true = ok [(64, false); (128, true); (128, false)].
Proof. vm_compute. reflexivity. Qed.
Example trace_lost : demo_accepted false = ok [(64, false)].
Proof. vm_compute. reflexivity. Qed.

Definition hbm2_memory : MemorySystem := OnJedec hbm2_system.
Lemma hbm2_memory_new : new_MemorySystem hbm2_reader "." true = ok hbm2_memory.
Proof. unfold new_MemorySystem. rewrite hbm2_loads. cbn [mbind exc_bind]. change (IsHMC hbm2) with false. by rewrite hbm2_system_new. Qed.

Lemma dram_main_total_witness :
  new_MemorySystem hbm2_reader "." true = ok hbm2_memory ∧
  dram_main hbm2_reader "." true "t.trc" None EmptyString 1000 = err AbruptExit ∧
  ∃ c, dram_main hbm2_reader "." true "t.trc" (Some (demo_trace true)) EmptyString 1000 = ok c ∧ cpu_now (client_cpu c) = 1000 ∧
    offered (c_io (client_cpu c)) ≡ₚ called (c_io (client_cpu c)) ++ ds_out (memory_system_ (client_cpu c)).
Proof.
  assert (∀ f, Refresh.new_Refresh hbm2 = ok f → 0 < Refresh.refresh_interval_ f < 2 ^ 31) as Href.
  { intros f Hf. vm_compute in Hf. injection Hf as <-. split; reflexivity. }
  split; [exact hbm2_memory_new|]. split.
  - apply (dram_main_total hbm2_reader "." true hbm2 hbm2_memory "t.trc" None EmptyString 1000 hbm2_loads hbm2_jedec);
      [discriminate|exact Href|discriminate|exact hbm2_memory_new|discriminate|reflexivity].
  - destruct (dram_main_total hbm2_reader "." true hbm2 hbm2_memory "t.trc" (Some (demo_trace true)) EmptyString 1000 hbm2_loads hbm2_jedec)
      as [_ Hrun]; [discriminate|exact Href|discriminate|exact hbm2_memory_new|].
    destruct Hrun as (c & Hr & _ & Hn & Hp); [|by vm_compute|exists c; split; [exact Hr|split; [exact Hn|exact Hp]]].
    intros _. exists (demo_trace true). split; [done|]. split; [done|]. split; [done|]. by repeat constructor.
Defined.
