(* ===== verification/Memory.v ===== *)
(** * The memory side (src/dram/dramsim3.h, dramsim3.cpp, dramsim3_wrapper.h, dramsim3_wrapper.cpp)

    The wrapper around the DRAM library and the memory controller objects, one
    per channel. The DRAM library is used through [DRAMSystem]; the events of
    the objects through [Scheduler]. The theorem that ties them together: the
    requests the objects record as outstanding are exactly those the library
    holds, so every completion callback finds its packet and a clock tick never
    fails an assertion. *)

From stdpp Require Import gmap sets numbers option finite fin list.
From Stdlib Require Import ZArith Lia.
From S2P Require Import Prelude EventQ Sched Packet Config DramSystem.

Definition CHANNEL_NUM : Z := 8.

(** [class DRAMsim3]. *)
Record DRAMsim3 := MkMem {
  channel_id : Z;
  m_retryReq : bool;
  m_retryResp : bool;
  outstandingReads : gmap Z (list PacketPtr);
  outstandingWrites : gmap Z (list PacketPtr);
  nbrOutstandingReads : Z;
  nbrOutstandingWrites : Z;
  m_responseQueue : list PacketPtr;
  pendingDelete : option PacketPtr
}.

(** [class dramsim3_wrapper]; a callback is the index of the object whose
    function it is. [vld4repeate_ch] and [channle_vld] serve [request_read]; a
    pointer to a buffer is a number, 0 the null pointer. *)
Record Wrapper (S : Type) := MkWrapper {
  memory_system_1 : S;
  read_callbacks : list (option Z);
  write_callbacks : list (option Z);
  channle_vld : list bool;
  vld4repeate_ch : list (list bool);
  waitingAddrToBuf : gmap Z nat
}.
Arguments MkWrapper {S}.
Arguments memory_system_1 {S}.
Arguments read_callbacks {S}.
Arguments write_callbacks {S}.
Arguments channle_vld {S}.
Arguments vld4repeate_ch {S}.
Arguments waitingAddrToBuf {S}.

(** The objects of the memory side. *)
Record MemSide (S : Type) := MkSide { mems : list DRAMsim3; wrap : Wrapper S }.
Arguments MkSide {S}.
Arguments mems {S}.
Arguments wrap {S}.

(** Their events: the wrapper's clock, and for each object the retry of a refused
    request and the sending of a response. *)
Inductive mem_event := WrapperTick | MemTick (i : Z) | MemSend (i : Z).
#[global] Instance mem_event_eq_dec : EqDecision mem_event.
Proof. solve_decision. Defined.

Definition with_system {S} (s : S) (x : Wrapper S) : Wrapper S :=
  MkWrapper s (read_callbacks x) (write_callbacks x) (channle_vld x) (vld4repeate_ch x) (waitingAddrToBuf x).
Definition w_system {S} (s : S) (x : MemSide S) : MemSide S := MkSide (mems x) (with_system s (wrap x)).

Definition m_flags (rq rs : bool) (m : DRAMsim3) : DRAMsim3 :=
  MkMem (channel_id m) rq rs (outstandingReads m) (outstandingWrites m) (nbrOutstandingReads m)
        (nbrOutstandingWrites m) (m_responseQueue m) (pendingDelete m).
Definition m_reads (r : gmap Z (list PacketPtr)) (n : Z) (m : DRAMsim3) : DRAMsim3 :=
  MkMem (channel_id m) (m_retryReq m) (m_retryResp m) r (outstandingWrites m) n
        (nbrOutstandingWrites m) (m_responseQueue m) (pendingDelete m).
Definition m_writes (r : gmap Z (list PacketPtr)) (n : Z) (m : DRAMsim3) : DRAMsim3 :=
  MkMem (channel_id m) (m_retryReq m) (m_retryResp m) (outstandingReads m) r (nbrOutstandingReads m)
        n (m_responseQueue m) (pendingDelete m).
Definition m_queue (q : list PacketPtr) (m : DRAMsim3) : DRAMsim3 :=
  MkMem (channel_id m) (m_retryReq m) (m_retryResp m) (outstandingReads m) (outstandingWrites m)
        (nbrOutstandingReads m) (nbrOutstandingWrites m) q (pendingDelete m).
Definition m_delete (p : PacketPtr) (m : DRAMsim3) : DRAMsim3 :=
  MkMem (channel_id m) (m_retryReq m) (m_retryResp m) (outstandingReads m) (outstandingWrites m)
        (nbrOutstandingReads m) (nbrOutstandingWrites m) (m_responseQueue m) (Some p).

(** [map[addr].push(pkt)]. *)
Definition push_at (a : Z) (p : PacketPtr) (g : gmap Z (list PacketPtr)) : gmap Z (list PacketPtr) :=
  partial_alter (fun o => Some (default [] o ++ [p])) a g.
(** [it->second.pop(); if (empty) erase(it)]: the front packet and the rest. *)
Definition pop_at (a : Z) (g : gmap Z (list PacketPtr)) : exc (PacketPtr * gmap Z (list PacketPtr)) :=
  match g !! a with
  | None => err AssertionFailed
  | Some [] => err UndefinedBehaviour
  | Some [p] => ok (p, delete a g)
  | Some (p :: q) => ok (p, <[a := q]> g)
  end.

Section Memory.
Context {W S Ev : Type} `{DRAMSystem S} `{Has W (MemSide S)} `{Scheduler W Ev} (ev : mem_event -> Ev).

Definition side (w : W) : MemSide S := get (MemSide S) w.
Definition set_side (f : MemSide S -> MemSide S) : M W unit := upd (MemSide S) f.

(** The [i]-th object, read and written. *)
Definition the_mem (i : Z) : M W DRAMsim3 := fun w => x ← vec_get (mems (side w)) i; ok (x, w).
Definition set_mem (i : Z) (m : DRAMsim3) : M W unit :=
  set_side (fun x => MkSide (zset (mems x) i m) (wrap x)).

(** [DRAMsim3::DRAMsim3(name, channel, wrapper)] and the wrapper's
    [set_read_callback] and [set_write_callback]. *)
Definition new_mem (ch : Z) : DRAMsim3 := MkMem ch false false ∅ ∅ 0 0 [] None.
Definition set_read_callback (ch : Z) (x : Wrapper S) : Wrapper S :=
  if (0 <=? ch) && (ch <? CHANNEL_NUM) then
    MkWrapper (memory_system_1 x) (zset (read_callbacks x) ch (Some ch)) (write_callbacks x)
              (channle_vld x) (vld4repeate_ch x) (waitingAddrToBuf x)
  else x.
Definition set_write_callback (ch : Z) (x : Wrapper S) : Wrapper S :=
  if (0 <=? ch) && (ch <? CHANNEL_NUM) then
    MkWrapper (memory_system_1 x) (read_callbacks x) (zset (write_callbacks x) ch (Some ch))
              (channle_vld x) (vld4repeate_ch x) (waitingAddrToBuf x)
  else x.
Definition new_wrapper (s : S) : Wrapper S :=
  let n := Z.to_nat CHANNEL_NUM in
  MkWrapper s (replicate n None) (replicate n None) (replicate n false) (replicate n (replicate 64 false)) ∅.
Definition new_DRAMsim3 (ch : Z) (x : MemSide S) : MemSide S :=
  MkSide (mems x ++ [new_mem ch]) (set_write_callback ch (set_read_callback ch (wrap x))).

(** ** The wrapper *)

(** [dramsim3_wrapper::can_accept(addr, is_write)] and [send_request]. *)
Definition can_accept (a : Z) (wr : bool) : M W bool := fun w =>
  b ← ds_will_accept (memory_system_1 (wrap (side w))) a wr; ok (b, w).
Definition send_request (a : Z) (wr : bool) : M W unit := fun w =>
  '(success, s) ← ds_add a wr (memory_system_1 (wrap (side w)));
  if (success : bool) then ok (tt, put (MemSide S) (w_system s (side w)) w) else err AssertionFailed.

(** [get_channel(address)]: the address is cut to 32 bits. *)
Definition get_channel (a : Z) (x : Wrapper S) : Z := ds_channel (memory_system_1 x) (u32 a).

(** ** The memory objects *)

(** [nbrOutstanding()]. *)
Definition nbrOutstanding (m : DRAMsim3) : Z :=
  u32 (nbrOutstandingReads m + nbrOutstandingWrites m + Z.of_nat (length (m_responseQueue m))).

(** [DRAMsim3::accessAndRespond(pkt)]. *)
Definition m_accessAndRespond (i : Z) (p : PacketPtr) : M W unit :=
  m ← the_mem i;
  set_mem i (m_queue (m_responseQueue m ++ [p]) m) ;;
  (if m_retryResp m then mret tt else schedule_once (ev (MemSend i)) 1).

(** [DRAMsim3::readComplete(addr)] and [writeComplete(addr)]. *)
Definition readComplete (i a : Z) : M W unit :=
  m ← the_mem i;
  '(p, r) ← lift (pop_at a (outstandingReads m));
  assert_ (negb (nbrOutstandingReads m =? 0)) ;;
  set_mem i (m_reads r (nbrOutstandingReads m - 1) m) ;;
  m_accessAndRespond i p.
Definition writeComplete (i a : Z) : M W unit :=
  m ← the_mem i;
  '(_, r) ← lift (pop_at a (outstandingWrites m));
  assert_ (negb (nbrOutstandingWrites m =? 0)) ;;
  set_mem i (m_writes r (nbrOutstandingWrites m - 1) m).

(** [DRAMsim3::recvTimingReq(pkt)]. *)
Definition m_recvTimingReq (i : Z) (p : PacketPtr) : M W bool :=
  b ← can_accept (p_addr p) (p_write p);
  m ← the_mem i;
  if (b : bool) then
    (if negb (p_write p)
     then set_mem i (m_reads (push_at (p_addr p) p (outstandingReads m)) (u32 (nbrOutstandingReads m + 1)) m)
     else set_mem i (m_delete p (m_writes (push_at (p_addr p) p (outstandingWrites m))
                                          (u32 (nbrOutstandingWrites m + 1)) m))) ;;
    send_request (p_addr p) (p_write p) ;;
    mret true
  else
    t ← gets now;
    schedule_at (ev (MemTick i)) (u64 (t + 1)) ;;
    m ← the_mem i;
    set_mem i (m_flags true (m_retryResp m) m) ;;
    mret false.

(** [DRAMsim3::sendResponse()]; [send] is [port.sendTimingResp]. *)
Definition m_sendResponse (send : PacketPtr -> M W bool) (i : Z) : M W unit :=
  m ← the_mem i;
  assert_ (negb (m_retryResp m)) ;;
  match m_responseQueue m with
  | [] => raise AssertionFailed
  | p :: _ =>
      success ← send p;
      m ← the_mem i;
      if (success : bool) then set_mem i (m_queue (tail (m_responseQueue m)) m)
      else set_mem i (m_flags (m_retryReq m) true m)
  end.

(** [DRAMsim3::recvRespRetry()]. *)
Definition m_recvRespRetry (send : PacketPtr -> M W bool) (i : Z) : M W unit :=
  m ← the_mem i;
  assert_ (m_retryResp m) ;;
  set_mem i (m_flags (m_retryReq m) false m) ;;
  m_sendResponse send i.

(** [DRAMsim3::tick()]; [retry] is [port.sendRetryReq]. *)
Definition m_tick (retry : M W unit) (i : Z) : M W unit :=
  m ← the_mem i;
  if m_retryReq m then set_mem i (m_flags false (m_retryResp m) m) ;; retry else mret tt.

(** ** The wrapper's clock *)

(** [global_read_callback(addr)] and [global_write_callback(addr)]. *)
Definition global_callback (x : Z * bool) : M W unit := fun w =>
  let '(a, wr) := x in
  let ch := get_channel a (wrap (side w)) in
  cb ← vec_get (if wr then write_callbacks (wrap (side w)) else read_callbacks (wrap (side w))) ch;
  match cb with
  | None => ok (tt, w)
  | Some i => (if wr then writeComplete i a else readComplete i a) w
  end.

(** [dramsim3_wrapper::tick()] and [init()]. *)
Definition wrapper_tick : M W unit := fun w =>
  '(l, s) ← ds_tick (memory_system_1 (wrap (side w)));
  (for_each l global_callback ;; schedule_once (ev WrapperTick) 1) (put (MemSide S) (w_system s (side w)) w).
Definition wrapper_init : M W unit := t ← gets now; schedule_at (ev WrapperTick) t.

(** [dramsim3_wrapper::request_read(addr)]: the loop to 128 over a row of 64
    flags. *)
Fixpoint first_free (n : nat) (row : list bool) (i : Z) : exc (option Z) :=
  match n with
  | O => ok None
  | Datatypes.S n' => b ← vec_get row i; if (b : bool) then first_free n' row (i + 1) else ok (Some i)
  end.
Definition request_read (a : Z) (x : Wrapper S) : exc (Wrapper S) :=
  let ch := get_channel a x in
  let waiting := match waitingAddrToBuf x !! a with
                 | Some (Datatypes.S _) => delete a (waitingAddrToBuf x)
                 | _ => waitingAddrToBuf x
                 end in
  v ← vec_get (channle_vld x) ch;
  if (v : bool) then
    row ← vec_get (vld4repeate_ch x) ch;
    free ← first_free 128 row 0;
    match free with
    | Some i => ok (MkWrapper (memory_system_1 x) (read_callbacks x) (write_callbacks x) (channle_vld x)
                      (zset (vld4repeate_ch x) ch (zset row i true)) waiting)
    | None => err InvalidArgument
    end
  else ok (MkWrapper (memory_system_1 x) (read_callbacks x) (write_callbacks x) (zset (channle_vld x) ch true)
             (vld4repeate_ch x) waiting).
End Memory.

(** ** Maps of queues *)

Section Groups.
Implicit Types (g : gmap Z (list PacketPtr)) (L : list PacketPtr) (a : Z) (p : PacketPtr).

(** The map groups the packets of [L] by address, each group in the order of
    [L]; no group is empty. *)
Record groups g L : Prop := {
  gr_at a : default [] (g !! a) = filter (fun p => p_addr p = a) L;
  gr_full a : g !! a ≠ Some []
}.

Lemma groups_empty : groups ∅ [].
Proof. split; intros a; by rewrite lookup_empty. Qed.

Lemma groups_push g L p : groups g L → groups (push_at (p_addr p) p g) (L ++ [p]).
Proof.
  intros [Ha Hf]. unfold push_at. split; intros a; destruct (decide (a = p_addr p)) as [->|Hne];
    rewrite ?lookup_partial_alter_eq, ?lookup_partial_alter_ne by done.
  - simpl. by rewrite filter_app, filter_cons_True, Ha.
  - rewrite filter_app, filter_cons_False by congruence. by rewrite app_nil_r.
  - intros E. injection E. by destruct (default [] (g !! p_addr p)).
  - apply Hf.
Qed.

Lemma filter_first L a :
  a ∈ p_addr <$> L → ∃ p L1 L2, L = L1 ++ p :: L2 ∧ p_addr p = a ∧ Forall (fun p => p_addr p ≠ a) L1.
Proof.
  induction L as [|p L IH]; [by intros ?%elem_of_nil|].
  destruct (decide (p_addr p = a)) as [E|E]; [by exists p, [], L|].
  rewrite fmap_cons. intros [?|Hin]%elem_of_cons; [congruence|].
  destruct (IH Hin) as (p' & L1 & L2 & -> & ? & ?). exists p', (p :: L1), L2. by repeat split; [|constructor].
Qed.

Lemma filter_ne L a : Forall (fun p => p_addr p ≠ a) L → filter (fun p => p_addr p = a) L = [].
Proof. induction 1 as [|p L Hp HL IH]; [done|]. by rewrite filter_cons, decide_False. Qed.

(** Popping takes the oldest packet of the address. *)
Lemma groups_pop g L a :
  groups g L → a ∈ p_addr <$> L →
  ∃ p L1 L2 g', L = L1 ++ p :: L2 ∧ p_addr p = a ∧ Forall (fun p => p_addr p ≠ a) L1 ∧
    pop_at a g = ok (p, g') ∧ groups g' (L1 ++ L2).
Proof.
  intros [Ha Hf] Hin. destruct (filter_first L a Hin) as (p & L1 & L2 & -> & Hp & Hne).
  assert (g !! a = Some (p :: filter (fun p => p_addr p = a) L2)) as Hg.
  { pose proof (Ha a) as E. rewrite filter_app, filter_ne, filter_cons_True in E by done. simpl in E.
    destruct (g !! a); simpl in E; [by f_equal|done]. }
  assert (∀ b, b ≠ a → default [] (g !! b) = filter (fun p => p_addr p = b) (L1 ++ L2)) as Hother.
  { intros b Hb. by rewrite Ha, !filter_app, filter_cons_False by congruence. }
  assert (filter (fun p => p_addr p = a) (L1 ++ L2) = filter (fun p => p_addr p = a) L2) as Hself.
  { by rewrite filter_app, filter_ne. }
  unfold pop_at. rewrite Hg. destruct (filter (fun p => p_addr p = a) L2) as [|p2 q] eqn:E.
  - exists p, L1, L2, (delete a g). split_and!; try done. split; intros b.
    + destruct (decide (b = a)) as [->|Hb]; [by rewrite lookup_delete_eq, Hself|].
      rewrite lookup_delete_ne by done. by apply Hother.
    + destruct (decide (b = a)) as [->|Hb]; [by rewrite lookup_delete_eq|]. by rewrite lookup_delete_ne.
  - exists p, L1, L2, (<[a := p2 :: q]> g). split_and!; try done. split; intros b.
    + destruct (decide (b = a)) as [->|Hb]; [by rewrite lookup_insert_eq, Hself|].
      rewrite lookup_insert_ne by done. by apply Hother.
    + destruct (decide (b = a)) as [->|Hb]; [by rewrite lookup_insert_eq|]. by rewrite lookup_insert_ne.
Qed.
End Groups.

(** ** The objects and the library agree *)

Section Sync.
Context {W S Ev : Type} `{DRAMSystemOk S} `{Has W (MemSide S)} `{SchedulerOk W Ev}
  `{!Independent W Ev (MemSide S)}.
Context (ev : mem_event -> Ev).
Implicit Types (x : MemSide S) (m : DRAMsim3) (w : W) (Rd Wr : Z -> list PacketPtr) (l : list (Z * bool)).

(** The addresses of the reads ([wr = false]) or writes of a list that belong to
    channel [i]. *)
Definition pick x (wr : bool) (i : Z) l : list Z :=
  fst <$> filter (fun r => r.2 = wr ∧ ds_channel (memory_system_1 (wrap x)) r.1 = i) l.

(** The object [i] records the reads [R] and writes [Q]. *)
Record mem_rep m (R Q : list PacketPtr) : Prop := {
  mr_rd : groups (outstandingReads m) R;
  mr_nrd : nbrOutstandingReads m = Z.of_nat (length R);
  mr_wr : groups (outstandingWrites m) Q;
  mr_nwr : nbrOutstandingWrites m = Z.of_nat (length Q)
}.

(** The requests [l] outstanding in the library are those the objects record,
    channel by channel, and the callbacks lead there. *)
Record mem_sync Rd Wr l x : Prop := {
  sy_len : length (mems x) = Z.to_nat CHANNEL_NUM;
  sy_cb i : 0 ≤ i < CHANNEL_NUM →
    zget (read_callbacks (wrap x)) i = Some (Some i) ∧ zget (write_callbacks (wrap x)) i = Some (Some i);
  sy_chan a : 0 ≤ a → 0 ≤ ds_channel (memory_system_1 (wrap x)) a < CHANNEL_NUM ∧
    ds_channel (memory_system_1 (wrap x)) (u32 a) = ds_channel (memory_system_1 (wrap x)) a;
  sy_pos : Forall (fun r => 0 ≤ r.1) l;
  sy_rep i m : zget (mems x) i = Some m → mem_rep m (Rd i) (Wr i);
  sy_rd i : 0 ≤ i < CHANNEL_NUM → p_addr <$> Rd i ≡ₚ pick x false i l;
  sy_wr i : 0 ≤ i < CHANNEL_NUM → p_addr <$> Wr i ≡ₚ pick x true i l
}.

(** The packets object [i] still owes an answer: outstanding or in its response
    queue. *)
Definition owed Rd i x : list PacketPtr :=
  Rd i ++ match zget (mems x) i with Some m => m_responseQueue m | None => [] end.

Lemma mem_get Rd Wr l x i : mem_sync Rd Wr l x → 0 ≤ i < CHANNEL_NUM → ∃ m, zget (mems x) i = Some m.
Proof.
  intros Hs Hi. destruct (zget_is_Some (mems x) i) as [m Hm]; [|eauto]. rewrite (sy_len _ _ _ _ Hs). unfold CHANNEL_NUM in *. lia.
Qed.

Lemma pick_perm x wr i l l' : l ≡ₚ l' → pick x wr i l ≡ₚ pick x wr i l'.
Proof. intros E. unfold pick. by rewrite E. Qed.

Lemma pick_cons x wr i a wr' l :
  pick x wr i ((a, wr') :: l) =
    if decide (wr' = wr ∧ ds_channel (memory_system_1 (wrap x)) a = i) then a :: pick x wr i l else pick x wr i l.
Proof. unfold pick. rewrite filter_cons. simpl. by case_decide. Qed.

(** Removing one packet of the address of the request that completes. *)
Lemma perm_pop (R L1 L2 : list PacketPtr) p (P : list Z) :
  R = L1 ++ p :: L2 → p_addr <$> R ≡ₚ p_addr p :: P → p_addr <$> (L1 ++ L2) ≡ₚ P.
Proof.
  intros -> Hp. rewrite fmap_app, fmap_cons, <- Permutation_middle in Hp. apply Permutation_cons_inv in Hp.
  by rewrite fmap_app.
Qed.

(** Replacing object [i]. *)
Lemma sync_set Rd Wr l l' x i m R Q :
  mem_sync Rd Wr l x → 0 ≤ i < CHANNEL_NUM → mem_rep m R Q → Forall (fun r => 0 ≤ r.1) l' →
  p_addr <$> R ≡ₚ pick x false i l' → p_addr <$> Q ≡ₚ pick x true i l' →
  (∀ j wr, 0 ≤ j < CHANNEL_NUM → j ≠ i → pick x wr j l ≡ₚ pick x wr j l') →
  mem_sync (fun j => if decide (j = i) then R else Rd j) (fun j => if decide (j = i) then Q else Wr j) l'
    (MkSide (zset (mems x) i m) (wrap x)).
Proof.
  intros Hs Hi Hr Hp HR HQ Ho. destruct Hs. split; try done.
  - simpl. by rewrite length_zset.
  - simpl. intros j m' Hm'. destruct (decide (j = i)) as [->|Hne].
    + rewrite zget_zset_eq in Hm' by (rewrite sy_len0; unfold CHANNEL_NUM in *; lia). by injection Hm' as <-.
    + rewrite zget_zset_ne in Hm' by done. by apply sy_rep0.
  - intros j Hj. change (pick (MkSide _ _)) with (pick x). case_decide as Hd; [by subst|].
    rewrite sy_rd0 by done. by apply Ho.
  - intros j Hj. change (pick (MkSide _ _)) with (pick x). case_decide as Hd; [by subst|].
    rewrite sy_wr0 by done. by apply Ho.
Qed.

(** The scheduler does not depend on the objects. *)
Lemma set_mem_run i m w :
  set_mem (S := S) i m w = ok (tt, put (MemSide S) (MkSide (zset (mems (side w)) i m) (wrap (side w))) w).
Proof. done. Qed.

Lemma the_mem_run i m w : zget (mems (side w)) i = Some m → the_mem (S := S) i w = ok (m, w).
Proof. intros Hm. unfold the_mem, vec_get. by rewrite Hm. Qed.

Lemma side_put x w : side (put (MemSide S) x w) = x.
Proof. unfold side. apply get_put. Qed.

(** A step of the memory side: it writes its objects and queues its events. *)
Notation mem_step := (part_step (MemSide S) (fun e => ∃ k : mem_event, e = ev k)).

Lemma once_ok (k : mem_event) w :
  sch_inv w → 0 ≤ now w < 2 ^ 63 →
  ∃ w', schedule_once (ev k) 1 w = ok (tt, w') ∧ side w' = side w ∧ mem_step w w' ∧
    ∀ e', is_scheduled e' w' = if decide (e' = ev k) then true else is_scheduled e' w.
Proof using All.
  intros Hi Hn. destruct (part_once (A := MemSide S) (fun e => ∃ k : mem_event, e = ev k) (ev k) w) as (w' & ? & ? & ? & ?); [by eexists|done|done|].
  by exists w'.
Qed.

(** *** Responses waiting to be sent *)

(** The events of the objects are different events. *)
Definition ev_distinct : Prop :=
  ∀ i j, 0 ≤ i < CHANNEL_NUM → 0 ≤ j < CHANNEL_NUM →
    (ev (MemSend i) = ev (MemSend j) → i = j) ∧ ev (MemSend i) ≠ ev (MemTick j) ∧
    ev WrapperTick ≠ ev (MemTick i) ∧ ev WrapperTick ≠ ev (MemSend i).

(** An object whose requests and responses are always taken: it waits for no
    retry, and its sender is queued only with a response to send. *)
Definition sends_ok w : Prop :=
  ∀ i m, zget (mems (side w)) i = Some m →
    m_retryReq m = false ∧ m_retryResp m = false ∧ is_scheduled (ev (MemTick i)) w = false ∧
    (is_scheduled (ev (MemSend i)) w = true → m_responseQueue m ≠ []).

(** One object changes, and at most its own sender is newly queued. *)
Lemma sends_ok_set w w' i m m' :
  ev_distinct → length (mems (side w)) = Z.to_nat CHANNEL_NUM → zget (mems (side w)) i = Some m →
  mems (side w') = zset (mems (side w)) i m' →
  m_retryReq m' = m_retryReq m → m_retryResp m' = m_retryResp m →
  (m_responseQueue m ≠ [] → m_responseQueue m' ≠ []) →
  (∀ e, is_scheduled e w' = true → is_scheduled e w = true ∨ e = ev (MemSend i) ∧ m_responseQueue m' ≠ []) →
  sends_ok w → sends_ok w'.
Proof.
  intros Hd Hlen Hm Hs Hrq Hrs Hq Hnew Hok j mj Hj. rewrite Hs in Hj.
  assert (0 ≤ i < CHANNEL_NUM) as Hi by (pose proof (zget_lt _ _ _ Hm); unfold CHANNEL_NUM in *; lia).
  assert (0 ≤ j < CHANNEL_NUM) as Hjr by (pose proof (zget_lt _ _ _ Hj) as Hl; rewrite length_zset in Hl; unfold CHANNEL_NUM in *; lia).
  destruct (Hd i j Hi Hjr) as (Hinj & Hst & _).
  assert (is_scheduled (ev (MemTick j)) w = false → is_scheduled (ev (MemTick j)) w' = false) as Htick.
  { intros Hf. destruct (is_scheduled _ w') eqn:E; [|done]. destruct (Hnew _ E) as [?|[? _]]; congruence. }
  destruct (decide (j = i)) as [->|Hne].
  - rewrite zget_zset_eq in Hj by (by eapply zget_lt). injection Hj as <-. destruct (Hok i m Hm) as (? & ? & ? & Hsend).
    split_and!; [congruence|congruence|auto|]. intros E. destruct (Hnew _ E) as [?|[_ ?]]; auto.
  - rewrite zget_zset_ne in Hj by done. destruct (Hok j mj Hj) as (? & ? & ? & Hsend). split_and!; auto.
    intros E. destruct (Hnew _ E) as [?|[E' _]]; [auto|]. symmetry in E'. by apply Hinj in E'.
Qed.

(** [accessAndRespond] on an object that exists. *)
Lemma respond_ok i m p w :
  zget (mems (side w)) i = Some m → sch_inv w → 0 ≤ now w < 2 ^ 63 →
  ∃ w', m_accessAndRespond (S := S) ev i p w = ok (tt, w') ∧ mem_step w w' ∧
    side w' = MkSide (zset (mems (side w)) i (m_queue (m_responseQueue m ++ [p]) m)) (wrap (side w)) ∧
    ∀ e, is_scheduled e w' = true → is_scheduled e w = true ∨ e = ev (MemSend i).
Proof using All.
  intros Hm Hi Hn. unfold m_accessAndRespond. rewrite (M_bind_ok_intro _ _ _ _ _ (the_mem_run i m w Hm)).
  rewrite (M_bind_ok_intro _ _ _ _ _ (set_mem_run i _ w)).
  set (w1 := put (MemSide S) _ w).
  assert (mem_step w w1) as Hs1 by by apply part_step_put.
  destruct (m_retryResp m).
  - exists w1. split; [done|]. split; [done|]. split; [apply side_put|]. intros e. unfold w1. rewrite ind_scheduled. by left.
  - destruct (once_ok (MemSend i) w1) as (w2 & Hr & Hside & Hs2 & Hf); [apply Hs1|rewrite (ss_now _ _ (ps_sched _ _ _ _ Hs1)); done|].
    exists w2. split; [done|]. split; [by eapply part_step_trans|]. split; [rewrite Hside; apply side_put|].
    intros e. rewrite Hf. unfold w1. rewrite ind_scheduled. case_decide; auto.
Qed.

Lemma pick_head x Rd Wr a wr l i :
  mem_sync Rd Wr ((a, wr) :: l) x → i = ds_channel (memory_system_1 (wrap x)) a →
  0 ≤ i < CHANNEL_NUM ∧ pick x wr i ((a, wr) :: l) = a :: pick x wr i l ∧
  pick x (negb wr) i ((a, wr) :: l) = pick x (negb wr) i l ∧
  (∀ j wr', j ≠ i → pick x wr' j ((a, wr) :: l) = pick x wr' j l).
Proof.
  intros Hs ->. pose proof (sy_pos _ _ _ _ Hs) as [Ha _]%Forall_cons. simpl in Ha.
  destruct (sy_chan _ _ _ _ Hs a Ha) as [Hi _]. split; [done|]. split_and!.
  - by rewrite pick_cons, decide_True.
  - rewrite pick_cons, decide_False; [done|]. intros [E _]. by destruct wr.
  - intros j wr' Hj. rewrite pick_cons, decide_False; [done|]. naive_solver.
Qed.

Lemma readComplete_ok Rd Wr a l w :
  mem_sync Rd Wr ((a, false) :: l) (side w) → sch_inv w → 0 ≤ now w < 2 ^ 63 →
  let i := ds_channel (memory_system_1 (wrap (side w))) a in
  ∃ w' Rd' Wr', readComplete (S := S) ev i a w = ok (tt, w') ∧ mem_sync Rd' Wr' l (side w') ∧ mem_step w w' ∧
    wrap (side w') = wrap (side w) ∧ (∀ j, 0 ≤ j < CHANNEL_NUM → owed Rd j (side w) ≡ₚ owed Rd' j (side w')) ∧
    (ev_distinct → sends_ok w → sends_ok w') ∧ (∀ j, Wr' j ⊆+ Wr j).
Proof using All.
  intros Hs Hinv Hn i. destruct (pick_head _ _ _ a false l i Hs eq_refl) as (Hi & Hh & Ho & Hj).
  destruct (mem_get _ _ _ _ i Hs Hi) as [m Hm]. pose proof (sy_rep _ _ _ _ Hs i m Hm) as Hr.
  pose proof (sy_rd _ _ _ _ Hs i Hi) as Hrd. rewrite Hh in Hrd.
  destruct (groups_pop _ _ a (mr_rd _ _ _ Hr)) as (p & L1 & L2 & g' & E & Hp & _ & Hpop & Hg'); [rewrite Hrd; left|].
  unfold readComplete. rewrite (M_bind_ok_intro _ _ _ _ _ (the_mem_run i m w Hm)).
  unfold lift. unfold mbind at 1, M_bind at 1. rewrite Hpop. cbn beta iota.
  assert (nbrOutstandingReads m = Z.of_nat (length (L1 ++ L2)) + 1) as Hnbr.
  { rewrite (mr_nrd _ _ _ Hr), E, !length_app. simpl. lia. }
  unfold assert_. destruct (Z.eqb_spec (nbrOutstandingReads m) 0); [lia|]. cbn [negb].
  unfold mbind at 1, M_bind at 1, mret at 1, M_ret at 1. cbn beta iota.
  rewrite (M_bind_ok_intro _ _ _ _ _ (set_mem_run i _ w)).
  set (m1 := m_reads g' (nbrOutstandingReads m - 1) m). set (w1 := put (MemSide S) _ w).
  assert (mem_step w w1) as Hs1 by by apply part_step_put.
  assert (zget (mems (side w1)) i = Some m1) as Hm1.
  { unfold w1. rewrite side_put. apply zget_zset_eq. by eapply zget_lt. }
  destruct (respond_ok i m1 p w1 Hm1) as (w2 & Hrun & Hs2 & Hside & Hnew); [apply Hs1|by rewrite (ss_now _ _ (ps_sched _ _ _ _ Hs1))|].
  unfold w1 in Hside. rewrite side_put in Hside. cbn [mems wrap] in Hside. rewrite zset_zset in Hside.
  set (m2 := m_queue (m_responseQueue m1 ++ [p]) m1) in *.
  exists w2, (fun j => if decide (j = i) then L1 ++ L2 else Rd j), (fun j => if decide (j = i) then Wr i else Wr j).
  split; [done|]. split; [|split; [by eapply part_step_trans|split; [by rewrite Hside|split; [|split]]]].
  - rewrite Hside. eapply sync_set; [exact Hs|done| | | | |].
    + split; simpl; [done|lia|apply Hr|apply Hr].
    + by pose proof (sy_pos _ _ _ _ Hs) as [_ ?]%Forall_cons.
    + eapply perm_pop; [exact E|]. by rewrite Hp.
    + cbn [negb] in Ho. rewrite <- Ho. by apply (sy_wr _ _ _ _ Hs).
    + intros j wr' _ Hne. by rewrite Hj.
  - intros j Hj'. unfold owed. rewrite Hside. cbn [mems]. case_decide as Hd.
    + subst j. rewrite zget_zset_eq by (by eapply zget_lt). rewrite Hm, E. simpl.
      rewrite <- Permutation_middle. simpl. rewrite (app_assoc (L1 ++ L2)). apply Permutation_cons_append.
    + by rewrite zget_zset_ne.
  - intros Hd. apply (sends_ok_set w w2 i m m2 Hd (sy_len _ _ _ _ Hs) Hm); try done; [by rewrite Hside| |].
    + intros _. simpl. by destruct (m_responseQueue m).
    + intros e He. destruct (Hnew e He) as [He'| ->]; [left|right].
      * unfold w1 in He'. by rewrite ind_scheduled in He'.
      * split; [done|]. simpl. by destruct (m_responseQueue m).
  - intros j. case_decide; by subst.
Qed.

Lemma writeComplete_ok Rd Wr a l w :
  mem_sync Rd Wr ((a, true) :: l) (side w) → sch_inv w →
  let i := ds_channel (memory_system_1 (wrap (side w))) a in
  ∃ w' Rd' Wr', writeComplete (S := S) i a w = ok (tt, w') ∧ mem_sync Rd' Wr' l (side w') ∧ mem_step w w' ∧
    wrap (side w') = wrap (side w) ∧ (∀ j, 0 ≤ j < CHANNEL_NUM → owed Rd j (side w) ≡ₚ owed Rd' j (side w')) ∧
    (ev_distinct → sends_ok w → sends_ok w') ∧ (∀ j, Wr' j ⊆+ Wr j).
Proof using All.
  intros Hs Hinv i. destruct (pick_head _ _ _ a true l i Hs eq_refl) as (Hi & Hh & Ho & Hj).
  destruct (mem_get _ _ _ _ i Hs Hi) as [m Hm]. pose proof (sy_rep _ _ _ _ Hs i m Hm) as Hr.
  pose proof (sy_wr _ _ _ _ Hs i Hi) as Hwr. rewrite Hh in Hwr.
  destruct (groups_pop _ _ a (mr_wr _ _ _ Hr)) as (p & L1 & L2 & g' & E & Hp & _ & Hpop & Hg'); [rewrite Hwr; left|].
  unfold writeComplete. rewrite (M_bind_ok_intro _ _ _ _ _ (the_mem_run i m w Hm)).
  unfold lift. unfold mbind at 1, M_bind at 1. rewrite Hpop. cbn beta iota.
  assert (nbrOutstandingWrites m = Z.of_nat (length (L1 ++ L2)) + 1) as Hnbr.
  { rewrite (mr_nwr _ _ _ Hr), E, !length_app. simpl. lia. }
  unfold assert_. destruct (Z.eqb_spec (nbrOutstandingWrites m) 0); [lia|]. cbn [negb].
  unfold mbind at 1, M_bind at 1, mret at 1, M_ret at 1. cbn beta iota. rewrite set_mem_run.
  eexists _, (fun j => if decide (j = i) then Rd i else Rd j), (fun j => if decide (j = i) then L1 ++ L2 else Wr j).
  split; [reflexivity|]. rewrite side_put. split; [|split; [by apply part_step_put|split; [done|split; [|split]]]].
  - eapply sync_set; [exact Hs|done| | | | |].
    + split; simpl; [apply Hr|apply Hr|done|lia].
    + by pose proof (sy_pos _ _ _ _ Hs) as [_ ?]%Forall_cons.
    + cbn [negb] in Ho. rewrite <- Ho. by apply (sy_rd _ _ _ _ Hs).
    + eapply perm_pop; [exact E|]. by rewrite Hp.
    + intros j wr' _ Hne. by rewrite Hj.
  - intros j Hj'. unfold owed. cbn [mems]. case_decide as Hd.
    + subst j. rewrite zget_zset_eq by (by eapply zget_lt). by rewrite Hm.
    + by rewrite zget_zset_ne.
  - intros Hd. eapply (sends_ok_set w _ i m _ Hd (sy_len _ _ _ _ Hs) Hm); [by rewrite side_put|done|done|done|].
    intros e. rewrite ind_scheduled. by left.
  - intros j. case_decide as Hd; [|done]. subst j. rewrite E. apply submseteq_app; [done|]. by apply submseteq_cons.
Qed.

(** A completion reported by the library always finds its packet. *)
Lemma callback_ok Rd Wr r l w :
  mem_sync Rd Wr (r :: l) (side w) → sch_inv w → 0 ≤ now w < 2 ^ 63 →
  ∃ w' Rd' Wr', global_callback (S := S) ev r w = ok (tt, w') ∧ mem_sync Rd' Wr' l (side w') ∧ mem_step w w' ∧
    wrap (side w') = wrap (side w) ∧ (∀ j, 0 ≤ j < CHANNEL_NUM → owed Rd j (side w) ≡ₚ owed Rd' j (side w')) ∧
    (ev_distinct → sends_ok w → sends_ok w') ∧ (∀ j, Wr' j ⊆+ Wr j).
Proof using All.
  destruct r as [a wr]. intros Hs Hinv Hn. pose proof (sy_pos _ _ _ _ Hs) as [Ha _]%Forall_cons. simpl in Ha.
  destruct (sy_chan _ _ _ _ Hs a Ha) as [Hi Hu]. destruct (sy_cb _ _ _ _ Hs _ Hi) as [Hcr Hcw].
  unfold global_callback, get_channel, vec_get. rewrite Hu. destruct wr.
  - rewrite Hcw. cbn [opt_exc mbind exc_bind]. exact (writeComplete_ok Rd Wr a l w Hs Hinv).
  - rewrite Hcr. cbn [opt_exc mbind exc_bind]. exact (readComplete_ok Rd Wr a l w Hs Hinv Hn).
Qed.

Lemma callbacks_ok Rd Wr l l' w :
  mem_sync Rd Wr (l ++ l') (side w) → sch_inv w → 0 ≤ now w < 2 ^ 63 →
  ∃ w' Rd' Wr', for_each l (global_callback (S := S) ev) w = ok (tt, w') ∧ mem_sync Rd' Wr' l' (side w') ∧
    mem_step w w' ∧ wrap (side w') = wrap (side w) ∧
    (∀ j, 0 ≤ j < CHANNEL_NUM → owed Rd j (side w) ≡ₚ owed Rd' j (side w')) ∧
    (ev_distinct → sends_ok w → sends_ok w') ∧ (∀ j, Wr' j ⊆+ Wr j).
Proof using All.
  revert Rd Wr w. induction l as [|r l IH]; intros Rd Wr w Hs Hinv Hn.
  { exists w, Rd, Wr. split; [done|]. split; [done|]. split; [by apply part_step_refl|]. by split_and!. }
  destruct (callback_ok Rd Wr r (l ++ l') w Hs Hinv Hn) as (w1 & Rd1 & Wr1 & Hr & Hs1 & Hst1 & Hw1 & Ho1 & Hok1 & Hsub1).
  destruct (IH Rd1 Wr1 w1 Hs1) as (w2 & Rd2 & Wr2 & Hr2 & Hs2 & Hst2 & Hw2 & Ho2 & Hok2 & Hsub2);
    [apply Hst1|by rewrite (ss_now _ _ (ps_sched _ _ _ _ Hst1))|].
  exists w2, Rd2, Wr2. cbn [for_each]. rewrite (M_bind_ok_intro _ _ _ _ _ Hr).
  split; [done|]. split; [done|]. split; [by eapply part_step_trans|]. split; [congruence|]. split_and!; [|auto|].
  - intros j Hj. by rewrite (Ho1 j Hj), (Ho2 j Hj).
  - intros j. by rewrite Hsub2.
Qed.

(** The memory side is in its invariant: the library holds what the objects
    record. *)
Definition mem_inv Rd Wr w : Prop :=
  ds_inv (memory_system_1 (wrap (side w))) ∧ mem_sync Rd Wr (ds_out (memory_system_1 (wrap (side w)))) (side w) ∧
  sch_inv w.

(** Another state of the library with the same address map. *)
Lemma sync_system Rd Wr l l' x s :
  mem_sync Rd Wr l x → ds_channel s = ds_channel (memory_system_1 (wrap x)) → l ≡ₚ l' →
  mem_sync Rd Wr l' (w_system s x).
Proof.
  intros [] Hc Hl.
  assert (∀ wr i, pick (w_system s x) wr i l' ≡ₚ pick x wr i l) as Hp.
  { intros wr i. unfold pick. simpl. rewrite Hc. by rewrite Hl. }
  split; simpl; try done.
  - by rewrite Hc.
  - by rewrite <- Hl.
  - intros i Hi. rewrite Hp. by apply sy_rd0.
  - intros i Hi. rewrite Hp. by apply sy_wr0.
Qed.

(** A state of the library seen through the objects: its clock, capacity and
    address map. *)
Definition sys w : S := memory_system_1 (wrap (side w)).

Lemma wrapper_tick_ok Rd Wr w :
  mem_inv Rd Wr w → 0 ≤ now w < 2 ^ 63 → 0 ≤ ds_now (sys w) < ds_limit S →
  ∃ w' Rd' Wr', wrapper_tick (S := S) ev w = ok (tt, w') ∧ mem_inv Rd' Wr' w' ∧ mem_step w w' ∧
    is_scheduled (ev WrapperTick) w' = true ∧
    (∀ j, 0 ≤ j < CHANNEL_NUM → owed Rd j (side w) ≡ₚ owed Rd' j (side w')) ∧
    (ev_distinct → sends_ok w → sends_ok w') ∧ (∀ j, Wr' j ⊆+ Wr j) ∧
    ds_now (sys w') = ds_now (sys w) + 1 ∧ ds_channel (sys w') = ds_channel (sys w) ∧
    ds_capacity (sys w') = ds_capacity (sys w).
Proof using All.
  intros (Hds & Hs & Hinv) Hn Hdn.
  destruct (ds_tick_ok _ Hds Hdn) as (l & s & Ht & Hds' & Hnow & Hout & Hch & Hcap).
  unfold wrapper_tick. rewrite Ht. cbn [mbind exc_bind]. set (w0 := put (MemSide S) _ w).
  assert (mem_step w w0) as Hst0 by by apply part_step_put.
  assert (side w0 = w_system s (side w)) as E0 by apply side_put.
  destruct (callbacks_ok Rd Wr l (ds_out s) w0) as (w1 & Rd1 & Wr1 & Hr1 & Hs1 & Hst1 & Hw1 & Ho1 & Hok1 & Hsub1).
  - rewrite E0. by eapply sync_system.
  - apply Hst0.
  - by rewrite (ss_now _ _ (ps_sched _ _ _ _ Hst0)).
  - rewrite (M_bind_ok_intro _ _ _ _ _ Hr1).
    destruct (once_ok WrapperTick w1) as (w2 & Hr2 & Hside & Hst2 & Hq);
      [apply Hst1|rewrite (ss_now _ _ (ps_sched _ _ _ _ Hst1)), (ss_now _ _ (ps_sched _ _ _ _ Hst0)); done|].
    exists w2, Rd1, Wr1. assert (sys w2 = s) as Es by (unfold sys; by rewrite Hside, Hw1, E0).
    rewrite Es. split; [done|]. split; [|split; [|split; [by rewrite Hq, decide_True|split; [|split; [|by split_and!]]]]].
    + unfold mem_inv. unfold sys in Es. rewrite Es, Hside. split; [done|]. split; [done|apply Hst2].
    + by eapply part_step_trans, part_step_trans.
    + intros j Hj. rewrite Hside, <- (Ho1 j Hj), E0. done.
    + intros Hd Hok i m Hm. rewrite Hside in Hm. assert (sends_ok w0) as Hok0.
      { intros k mk Hk. rewrite E0 in Hk. unfold w0. rewrite !ind_scheduled. by apply Hok. }
      destruct (Hok1 Hd Hok0 i m Hm) as (? & ? & ? & ?).
      assert (0 ≤ i < CHANNEL_NUM) as Hi.
      { pose proof (zget_lt _ _ _ Hm) as Hl. rewrite (sy_len _ _ _ _ Hs1) in Hl. unfold CHANNEL_NUM in *. lia. }
      destruct (Hd i i Hi Hi) as (_ & _ & Ht1 & Ht2). rewrite !Hq, !decide_False by congruence. done.
Qed.

(** (C12) The clock of the memory side never fails: on every tick each
    completion the library reports finds the packet that was recorded for it
    (the assertions of [readComplete] and [writeComplete] hold), the objects and
    the library stay in step, no packet that is owed an answer is lost or
    invented, and the next tick is scheduled. *)
Theorem wrapper_tick_total Rd Wr w :
  mem_inv Rd Wr w → 0 ≤ now w < 2 ^ 63 → 0 ≤ ds_now (sys w) < ds_limit S →
  ∃ w' Rd' Wr', wrapper_tick (S := S) ev w = ok (tt, w') ∧ mem_inv Rd' Wr' w' ∧ now w' = now w ∧
    is_scheduled (ev WrapperTick) w' = true ∧
    ∀ j, 0 ≤ j < CHANNEL_NUM → owed Rd j (side w) ≡ₚ owed Rd' j (side w').
Proof using All.
  intros Hi Hn Hdn. destruct (wrapper_tick_ok Rd Wr w Hi Hn Hdn) as (w' & Rd' & Wr' & Hr & Hi' & Hst & Hq & Ho & _).
  exists w', Rd', Wr'. split_and!; try done. apply Hst.
Qed.

(** ** Requests *)

Lemma mem_sync_ext Rd Wr Rd' Wr' l x :
  (∀ i, Rd' i = Rd i) → (∀ i, Wr' i = Wr i) → mem_sync Rd Wr l x → mem_sync Rd' Wr' l x.
Proof.
  intros ER EW []. split; try done.
  - intros i m Hm. rewrite ER, EW. by apply sy_rep0.
  - intros i Hi. rewrite ER. by apply sy_rd0.
  - intros i Hi. rewrite EW. by apply sy_wr0.
Qed.

Lemma pick_length x wr i l : (length (pick x wr i l) ≤ length l)%nat.
Proof. unfold pick. rewrite length_fmap. apply length_filter. Qed.

(** What the library holds for a channel is what its object records. *)
Lemma channel_count Rd Wr l x i :
  mem_sync Rd Wr l x → 0 ≤ i < CHANNEL_NUM →
  length (filter (fun r => ds_channel (memory_system_1 (wrap x)) r.1 = i) l) = (length (Rd i) + length (Wr i))%nat.
Proof.
  intros Hs Hi. pose proof (Permutation_length (sy_rd _ _ _ _ Hs i Hi)) as Hr.
  pose proof (Permutation_length (sy_wr _ _ _ _ Hs i Hi)) as Hw. rewrite length_fmap in Hr, Hw. rewrite Hr, Hw.
  clear. induction l as [|[a wr] l IH]; [done|]. rewrite filter_cons, !pick_cons. simpl.
  destruct (decide (ds_channel (memory_system_1 (wrap x)) a = i)) as [E|E].
  - destruct wr; [rewrite (decide_True (P := true = true ∧ _)), (decide_False (P := true = false ∧ _)) by naive_solver|
                  rewrite (decide_True (P := false = false ∧ _)), (decide_False (P := false = true ∧ _)) by naive_solver]; simpl; lia.
  - rewrite !decide_False by naive_solver. done.
Qed.

Lemma set_and_put i m x w :
  put (MemSide S) x (put (MemSide S) (MkSide (zset (mems (side w)) i m) (wrap (side w))) w) = put (MemSide S) x w.
Proof. apply put_put. Qed.

(** Recording an accepted packet. *)
Definition record_at (i : Z) (p : PacketPtr) (wr : bool) (F : Z -> list PacketPtr) (j : Z) : list PacketPtr :=
  if decide (j = i) then F j ++ (if decide (p_write p = wr) then [p] else []) else F j.

Definition accepted_mem (p : PacketPtr) m : DRAMsim3 :=
  if negb (p_write p) then m_reads (push_at (p_addr p) p (outstandingReads m)) (u32 (nbrOutstandingReads m + 1)) m
  else m_delete p (m_writes (push_at (p_addr p) p (outstandingWrites m)) (u32 (nbrOutstandingWrites m + 1)) m).

Lemma accepted_rep p m R Q :
  mem_rep m R Q → Z.of_nat (length R) < 2 ^ 32 - 1 → Z.of_nat (length Q) < 2 ^ 32 - 1 →
  mem_rep (accepted_mem p m) (R ++ (if decide (p_write p = false) then [p] else []))
    (Q ++ (if decide (p_write p = true) then [p] else [])).
Proof.
  intros [] HR HQ. unfold accepted_mem. destruct (p_write p); cbn [negb]; rewrite ?decide_True, ?decide_False, app_nil_r by done;
    split; simpl; try done; try (by apply groups_push);
    rewrite length_app; simpl; [rewrite mr_nwr0|rewrite mr_nrd0]; rewrite u32_small by (unfold two32; lia); lia.
Qed.

Lemma sync_record Rd Wr l x i p m :
  mem_sync Rd Wr l x → 0 ≤ p_addr p → ds_channel (memory_system_1 (wrap x)) (p_addr p) = i →
  zget (mems x) i = Some m → Z.of_nat (length l) < 2 ^ 32 - 1 →
  mem_sync (record_at i p false Rd) (record_at i p true Wr) ((p_addr p, p_write p) :: l)
    (MkSide (zset (mems x) i (accepted_mem p m)) (wrap x)).
Proof.
  intros Hs Ha Hc Hm Hl. destruct (sy_chan _ _ _ _ Hs _ Ha) as [Hi _]. rewrite Hc in Hi.
  assert (∀ wr, p_addr <$> (if decide (p_write p = wr) then [p] else []) = if decide (p_write p = wr) then [p_addr p] else []) as Ef
    by (intros wr; by case_decide).
  assert (∀ wr, pick x wr i ((p_addr p, p_write p) :: l) ≡ₚ pick x wr i l ++ (if decide (p_write p = wr) then [p_addr p] else [])) as Epick.
  { intros wr. rewrite pick_cons. destruct (decide (p_write p = wr)).
    - rewrite decide_True by done. apply Permutation_cons_append.
    - rewrite decide_False by naive_solver. by rewrite app_nil_r. }
  assert (∀ wr F, p_addr <$> F i ≡ₚ pick x wr i l → Z.of_nat (length (F i)) < 2 ^ 32 - 1) as Hlen.
  { intros wr F HF. pose proof (pick_length x wr i l). apply Permutation_length in HF. rewrite length_fmap in HF. lia. }
  set (R := Rd i ++ (if decide (p_write p = false) then [p] else [])).
  set (Q := Wr i ++ (if decide (p_write p = true) then [p] else [])).
  apply (mem_sync_ext (fun j => if decide (j = i) then R else Rd j) (fun j => if decide (j = i) then Q else Wr j));
    [intros j; unfold record_at; case_decide; by subst|intros j; unfold record_at; case_decide; by subst|].
  apply (sync_set Rd Wr l); try done; unfold R, Q.
  - apply accepted_rep; [by apply (sy_rep _ _ _ _ Hs)| |].
    + apply (Hlen false), (sy_rd _ _ _ _ Hs i Hi).
    + apply (Hlen true), (sy_wr _ _ _ _ Hs i Hi).
  - constructor; [done|apply Hs].
  - rewrite fmap_app, Ef, Epick. by rewrite (sy_rd _ _ _ _ Hs i Hi).
  - rewrite fmap_app, Ef, Epick. by rewrite (sy_wr _ _ _ _ Hs i Hi).
  - intros j wr _ Hne. rewrite pick_cons, decide_False; [done|]. naive_solver.
Qed.

Lemma can_accept_run a wr w b :
  ds_will_accept (memory_system_1 (wrap (side w))) a wr = ok b → can_accept (S := S) a wr w = ok (b, w).
Proof. intros E. unfold can_accept. by rewrite E. Qed.

Lemma request_accepted Rd Wr i p w :
  mem_inv Rd Wr w → 0 ≤ p_addr p → ds_channel (memory_system_1 (wrap (side w))) (p_addr p) = i →
  Z.of_nat (length (ds_out (memory_system_1 (wrap (side w))))) < 2 ^ 32 - 1 →
  ds_will_accept (memory_system_1 (wrap (side w))) (p_addr p) (p_write p) = ok true →
  ∃ w', m_recvTimingReq (S := S) ev i p w = ok (true, w') ∧
    mem_inv (record_at i p false Rd) (record_at i p true Wr) w' ∧ mem_step w w' ∧
    (∀ j, zget (mems (side w')) j = (if decide (j = i) then accepted_mem p <$> zget (mems (side w)) j else zget (mems (side w)) j)) ∧
    (sends_ok w → sends_ok w') ∧ ds_now (sys w') = ds_now (sys w) ∧ ds_channel (sys w') = ds_channel (sys w) ∧
    ds_capacity (sys w') = ds_capacity (sys w).
Proof using All.
  intros (Hds & Hs & Hinv) Ha Hc Hl Hacc. destruct (sy_chan _ _ _ _ Hs _ Ha) as [Hi _]. rewrite Hc in Hi.
  destruct (mem_get _ _ _ _ i Hs Hi) as [m Hm].
  destruct (ds_add_ok _ _ _ Hds Ha Hacc) as (s & Hadd & Hds' & Hnow & Hout & Hch & Hcap).
  pose proof (sync_record _ _ _ _ i p m Hs Ha Hc Hm Hl) as Hs1.
  unfold m_recvTimingReq. rewrite (M_bind_ok_intro _ _ _ _ _ (can_accept_run _ _ w true Hacc)).
  rewrite (M_bind_ok_intro _ _ _ _ _ (the_mem_run i m w Hm)).
  set (x1 := MkSide (zset (mems (side w)) i (accepted_mem p m)) (wrap (side w))) in *.
  assert ((if negb (p_write p)
     then set_mem (S := S) i (m_reads (push_at (p_addr p) p (outstandingReads m)) (u32 (nbrOutstandingReads m + 1)) m)
     else set_mem (S := S) i (m_delete p (m_writes (push_at (p_addr p) p (outstandingWrites m))
                                          (u32 (nbrOutstandingWrites m + 1)) m))) w = ok (tt, put (MemSide S) x1 w)) as Hset.
  { unfold x1, accepted_mem. by destruct (negb (p_write p)). }
  rewrite (M_bind_ok_intro _ _ _ _ _ Hset).
  assert (send_request (S := S) (p_addr p) (p_write p) (put (MemSide S) x1 w) = ok (tt, put (MemSide S) (w_system s x1) w)) as Hsend.
  { unfold send_request. rewrite side_put. change (memory_system_1 (wrap x1)) with (memory_system_1 (wrap (side w))).
    rewrite Hadd. cbn [mbind exc_bind]. by rewrite put_put. }
  rewrite (M_bind_ok_intro _ _ _ _ _ Hsend). eexists. split; [reflexivity|]. split; [|split; [by apply part_step_put|]].
  - unfold mem_inv. rewrite side_put. split; [done|]. split; [|by apply ind_inv].
    eapply sync_system; [exact Hs1|done|]. simpl. by rewrite Hout.
  - assert (∀ j, zget (mems x1) j = if decide (j = i) then accepted_mem p <$> zget (mems (side w)) j else zget (mems (side w)) j) as Hx1.
    { intros j. unfold x1. simpl. case_decide as Hj; [|by rewrite zget_zset_ne]. subst j.
      rewrite zget_zset_eq by (by eapply zget_lt). by rewrite Hm. }
    unfold sys. rewrite side_put. split; [done|]. split; [|done]. intros Hok j mj. rewrite side_put, !ind_scheduled. simpl.
    intros Hj. pose proof (Hx1 j) as E. simpl in E. rewrite Hj in E.
    case_decide; [|by apply Hok]. subst j. rewrite Hm in E. injection E as ->. destruct (Hok i m Hm) as (? & ? & ? & ?).
    unfold accepted_mem. by destruct (negb (p_write p)).
Qed.

Lemma request_refused Rd Wr i p w :
  mem_inv Rd Wr w → 0 ≤ p_addr p → ds_channel (memory_system_1 (wrap (side w))) (p_addr p) = i →
  0 ≤ now w < 2 ^ 63 → is_scheduled (ev (MemTick i)) w = false →
  ds_will_accept (memory_system_1 (wrap (side w))) (p_addr p) (p_write p) = ok false →
  ∃ w', m_recvTimingReq (S := S) ev i p w = ok (false, w') ∧ mem_inv Rd Wr w' ∧ sched_step w w' ∧
    is_scheduled (ev (MemTick i)) w' = true ∧ ∃ m, zget (mems (side w')) i = Some m ∧ m_retryReq m = true.
Proof using All.
  intros (Hds & Hs & Hinv) Ha Hc Hn Hidle Hacc. destruct (sy_chan _ _ _ _ Hs _ Ha) as [Hi _]. rewrite Hc in Hi.
  destruct (mem_get _ _ _ _ i Hs Hi) as [m Hm].
  unfold m_recvTimingReq. rewrite (M_bind_ok_intro _ _ _ _ _ (can_accept_run _ _ w false Hacc)).
  rewrite (M_bind_ok_intro _ _ _ _ _ (the_mem_run i m w Hm)). cbn iota.
  rewrite (M_bind_ok_intro (gets now) _ w (now w) w eq_refl).
  destruct (schedule_next_ok (ev (MemTick i)) w Hinv Hn Hidle) as (w1 & Hr1 & Hst & Hfr & Hsc).
  rewrite (M_bind_ok_intro _ _ _ _ _ Hr1).
  assert (side w1 = side w) as E1 by (unfold side; by apply (ind_frame (C := MemSide S))).
  assert (zget (mems (side w1)) i = Some m) as Hm1 by by rewrite E1.
  rewrite (M_bind_ok_intro _ _ _ _ _ (the_mem_run i m w1 Hm1)).
  rewrite (M_bind_ok_intro _ _ _ _ _ (set_mem_run i _ w1)). eexists. split; [reflexivity|].
  pose proof (ss_inv _ _ Hst) as Hinv1.
  split; [|split; [eapply sched_step_trans; [exact Hst|by apply sched_step_put]|split]].
  - unfold mem_inv. rewrite side_put, E1. split; [done|]. split; [|by apply ind_inv].
    pose proof (sy_rep _ _ _ _ Hs i m Hm) as Hrep.
    eapply mem_sync_ext; [| |eapply (sync_set Rd Wr _ _ (side w) i (m_flags true (m_retryResp m) m) (Rd i) (Wr i) Hs Hi)].
    + intros j. simpl. case_decide; by subst.
    + intros j. simpl. case_decide; by subst.
    + destruct Hrep. by split.
    + apply Hs.
    + by apply (sy_rd _ _ _ _ Hs).
    + by apply (sy_wr _ _ _ _ Hs).
    + done.
  - rewrite ind_scheduled, Hsc. by rewrite decide_True.
  - exists (m_flags true (m_retryResp m) m). rewrite side_put. split; [|done]. apply zget_zset_eq. by eapply zget_lt.
Qed.

(** The two runs of [recvTimingReq] in full: what becomes of the objects, the
    library and the event queue. *)
Definition set_flagged i m x : MemSide S := MkSide (zset (mems x) i (m_flags true (m_retryResp m) m)) (wrap x).
Definition set_accepted i p m x (s : S) : MemSide S := w_system s (MkSide (zset (mems x) i (accepted_mem p m)) (wrap x)).

Lemma accepted_run i p m s w :
  zget (mems (side w)) i = Some m →
  ds_will_accept (memory_system_1 (wrap (side w))) (p_addr p) (p_write p) = ok true →
  ds_add (p_addr p) (p_write p) (memory_system_1 (wrap (side w))) = ok (true, s) →
  m_recvTimingReq (S := S) ev i p w = ok (true, put (MemSide S) (set_accepted i p m (side w) s) w).
Proof using All.
  intros Hm Hacc Hadd. unfold m_recvTimingReq.
  rewrite (M_bind_ok_intro _ _ _ _ _ (can_accept_run _ _ w true Hacc)).
  rewrite (M_bind_ok_intro _ _ _ _ _ (the_mem_run i m w Hm)). cbn iota.
  set (x1 := MkSide (zset (mems (side w)) i (accepted_mem p m)) (wrap (side w))).
  rewrite (M_bind_ok_intro _ _ w tt (put (MemSide S) x1 w)) by (unfold x1, accepted_mem; by destruct (negb (p_write p))).
  rewrite (M_bind_ok_intro _ _ _ tt (put (MemSide S) (w_system s x1) w)); [done|].
  unfold send_request. rewrite side_put. change (memory_system_1 (wrap x1)) with (memory_system_1 (wrap (side w))).
  rewrite Hadd. cbn [mbind exc_bind]. by rewrite put_put.
Qed.

Lemma refused_run i p m w w1 :
  zget (mems (side w)) i = Some m → side w1 = side w →
  ds_will_accept (memory_system_1 (wrap (side w))) (p_addr p) (p_write p) = ok false →
  schedule_at (ev (MemTick i)) (u64 (now w + 1)) w = ok (tt, w1) →
  m_recvTimingReq (S := S) ev i p w = ok (false, put (MemSide S) (set_flagged i m (side w)) w1).
Proof using All.
  intros Hm E1 Hacc Hr. unfold m_recvTimingReq.
  rewrite (M_bind_ok_intro _ _ _ _ _ (can_accept_run _ _ w false Hacc)).
  rewrite (M_bind_ok_intro _ _ _ _ _ (the_mem_run i m w Hm)). cbn iota.
  rewrite (M_bind_ok_intro (gets now) _ w (now w) w eq_refl), (M_bind_ok_intro _ _ _ _ _ Hr).
  assert (zget (mems (side w1)) i = Some m) as Hm1 by by rewrite E1.
  rewrite (M_bind_ok_intro _ _ _ _ _ (the_mem_run i m w1 Hm1)).
  rewrite (M_bind_ok_intro _ _ _ _ _ (set_mem_run i _ w1)), E1. done.
Qed.

Lemma refused_queued i p m w :
  zget (mems (side w)) i = Some m → is_scheduled (ev (MemTick i)) w = true →
  ds_will_accept (memory_system_1 (wrap (side w))) (p_addr p) (p_write p) = ok false →
  m_recvTimingReq (S := S) ev i p w = err AssertionFailed.
Proof using All.
  intros Hm Hq Hacc. unfold m_recvTimingReq.
  rewrite (M_bind_ok_intro _ _ _ _ _ (can_accept_run _ _ w false Hacc)).
  rewrite (M_bind_ok_intro _ _ _ _ _ (the_mem_run i m w Hm)). cbn iota.
  rewrite (M_bind_ok_intro (gets now) _ w (now w) w eq_refl). apply M_bind_err_intro. by apply schedule_queued.
Qed.

(** (C13) A memory object answers a request of its channel as the library does.
    An accepted packet is recorded in the object and handed to the library, and
    the world changes in nothing else; after a refusal the world is the one
    after scheduling the retry event for the next tick, with the retry flag of
    the object set, and nothing else changed; a second refusal before that
    event has run fails the assertion of [schedule]. *)
Theorem memory_request Rd Wr i p w :
  mem_inv Rd Wr w → 0 ≤ p_addr p → ds_channel (memory_system_1 (wrap (side w))) (p_addr p) = i →
  0 ≤ now w < 2 ^ 63 → Z.of_nat (length (ds_out (memory_system_1 (wrap (side w))))) < 2 ^ 32 - 1 →
  ∃ b m, ds_will_accept (memory_system_1 (wrap (side w))) (p_addr p) (p_write p) = ok b ∧
  zget (mems (side w)) i = Some m ∧
  if b then ∃ s w', ds_add (p_addr p) (p_write p) (memory_system_1 (wrap (side w))) = ok (true, s) ∧
              m_recvTimingReq (S := S) ev i p w = ok (true, w') ∧
              w' = put (MemSide S) (set_accepted i p m (side w) s) w ∧
              mem_inv (record_at i p false Rd) (record_at i p true Wr) w'
  else if is_scheduled (ev (MemTick i)) w then m_recvTimingReq (S := S) ev i p w = err AssertionFailed
  else ∃ w1 w', schedule_at (ev (MemTick i)) (now w + 1) w = ok (tt, w1) ∧ side w1 = side w ∧
         m_recvTimingReq (S := S) ev i p w = ok (false, w') ∧
         w' = put (MemSide S) (set_flagged i m (side w)) w1 ∧ mem_inv Rd Wr w' ∧ now w' = now w ∧
         ∀ e, is_scheduled e w' = if decide (e = ev (MemTick i)) then true else is_scheduled e w.
Proof using All.
  intros Hinv Ha Hc Hn Hl. pose proof Hinv as (Hds & Hs & Hsch).
  destruct (ds_will_total _ (p_addr p) (p_write p) Hds Ha) as [b Hb].
  destruct (sy_chan _ _ _ _ Hs _ Ha) as [Hi _]. rewrite Hc in Hi. destruct (mem_get _ _ _ _ i Hs Hi) as [m Hm].
  exists b, m. split; [done|]. split; [done|]. destruct b; [|destruct (is_scheduled (ev (MemTick i)) w) eqn:Hidle].
  - destruct (request_accepted Rd Wr i p w Hinv Ha Hc Hl Hb) as (w' & Hr & Hi' & _).
    destruct (ds_add_ok _ _ _ Hds Ha Hb) as (s & Hadd & _). exists s, w'. split_and!; [done|done| |done].
    rewrite (accepted_run i p m s w Hm Hb Hadd) in Hr. by injection Hr as <-.
  - by apply (refused_queued i p m).
  - destruct (schedule_next_ok (ev (MemTick i)) w Hsch Hn Hidle) as (w1 & Hr1 & Hst & Hfr & Hsc).
    assert (side w1 = side w) as E1 by (unfold side; by apply (ind_frame (C := MemSide S))).
    destruct (request_refused Rd Wr i p w Hinv Ha Hc Hn Hidle Hb) as (w' & Hr & Hi' & _).
    rewrite (refused_run i p m w w1 Hm E1 Hb Hr1) in Hr. injection Hr as <-.
    exists w1, (put (MemSide S) (set_flagged i m (side w)) w1). rewrite u64_small in Hr1 by (unfold two64; lia).
    split_and!; [done|done|by apply refused_run; rewrite ?u64_small by (unfold two64; lia)|done|done| |].
    + rewrite ind_now. apply Hst.
    + intros e. by rewrite ind_scheduled.
Qed.

(** ** Responses *)

(** Responses are left behind: [sendResponse] sends one packet and queues
    no further event, so an object with two responses keeps the second until
    another read of the channel completes. *)
Theorem send_leaves_responses i m p q w send :
  zget (mems (side w)) i = Some m → m_retryResp m = false → m_responseQueue m = p :: q →
  (∃ w1, send p w = ok (true, w1) ∧ side w1 = side w ∧ ∀ e, is_scheduled e w1 = is_scheduled e w) →
  ∃ w', m_sendResponse (S := S) send i w = ok (tt, w') ∧ (∀ e, is_scheduled e w' = is_scheduled e w) ∧
    ∃ m', zget (mems (side w')) i = Some m' ∧ m_responseQueue m' = q.
Proof using -(ev).
  intros Hm Hr Hq (w1 & Hsend & E1 & Hsc). unfold m_sendResponse.
  rewrite (M_bind_ok_intro _ _ _ _ _ (the_mem_run i m w Hm)). rewrite Hr, Hq.
  unfold assert_. cbn [negb]. unfold mbind at 1, M_bind at 1, mret at 1, M_ret at 1. cbn beta iota.
  rewrite (M_bind_ok_intro _ _ _ _ _ Hsend).
  assert (zget (mems (side w1)) i = Some m) as Hm1 by by rewrite E1.
  rewrite (M_bind_ok_intro _ _ _ _ _ (the_mem_run i m w1 Hm1)). cbn iota. rewrite set_mem_run, Hq.
  eexists. split; [reflexivity|]. split; [intros e; rewrite ind_scheduled; apply Hsc|].
  exists (m_queue q m). rewrite side_put. split; [|done]. apply zget_zset_eq. by eapply zget_lt.
Qed.
End Sync.

(** ** The flags of [request_read] *)

Lemma first_free_full n row i :
  0 ≤ i → (∀ j, i ≤ j < Z.of_nat (length row) → zget row j = Some true) → Z.of_nat (length row) < i + Z.of_nat n →
  i ≤ Z.of_nat (length row) → first_free n row i = err UndefinedBehaviour.
Proof.
  revert i. induction n as [|n IH]; intros i Hi Hall Hn Hle; [lia|]. cbn [first_free]. unfold vec_get.
  destruct (decide (i < Z.of_nat (length row))) as [Hlt|Hge].
  - rewrite Hall by lia. cbn [opt_exc mbind exc_bind]. apply IH; [lia|intros; apply Hall; lia|lia|lia].
  - assert (zget row i = None) as ->; [|done]. unfold zget. destruct (i <? 0); [done|]. apply lookup_ge_None. lia.
Qed.

(** [request_read] leaves the array instead of reporting that it is full:
    its loop runs to 128 over a row of 64 flags, so with all flags of the
    channel set it reads past the row, and the exception behind the loop is not
    reached. *)
Theorem request_read_overflow {S} `{DRAMSystem S} a (x : Wrapper S) row :
  let ch := get_channel a x in
  zget (channle_vld x) ch = Some true → zget (vld4repeate_ch x) ch = Some row → length row = 64%nat →
  Forall (fun b => b = true) row → request_read a x = err UndefinedBehaviour.
Proof.
  intros ch Hv Hrow Hlen Hall. unfold request_read, vec_get. fold ch. rewrite Hv. cbn [opt_exc mbind exc_bind].
  rewrite Hrow. cbn [opt_exc mbind exc_bind]. rewrite first_free_full; [done|lia| |rewrite Hlen; lia|lia].
  intros j Hj. destruct (zget_is_Some row j) as [b Hb]; [lia|]. rewrite Hb. f_equal.
  rewrite Forall_forall in Hall. apply Hall. by eapply zget_elem.
Qed.

(** ** Instances *)

(** Eight objects over the HBM2 system of [DramSystem], with an event queue that
    holds the seventeen event objects. *)
Section Demo.
Definition demo_world : Type := EventQueue (fin 17) * MemSide JedecDRAMSystem.
#[local] Instance demo_queue_of : Has demo_world (EventQueue (fin 17)) := pair_left.
#[local] Instance demo_side_of : Has demo_world (MemSide JedecDRAMSystem) := pair_right.
#[local] Instance demo_apart_l : Apart demo_world (EventQueue (fin 17)) (MemSide JedecDRAMSystem) := pair_apart_left.
#[local] Instance demo_apart_r : Apart demo_world (MemSide JedecDRAMSystem) (EventQueue (fin 17)) := pair_apart_right.

Definition demo_ev (e : mem_event) : fin 17 :=
  default 0%fin (enum (fin 17) !! match e with
    | WrapperTick => 0%nat
    | MemTick i => S (Z.to_nat i `mod` 8)
    | MemSend i => (9 + Z.to_nat i `mod` 8)%nat
    end).

Definition hbm2_side : MemSide JedecDRAMSystem :=
  foldr (fun ch x => new_DRAMsim3 ch x) (MkSide [] (new_wrapper hbm2_system)) (reverse (zseq CHANNEL_NUM)).
Definition demo_w : demo_world := (new_queue (all_events (fin 17)), hbm2_side).
Definition no_packets (_ : Z) : list PacketPtr := [].

Lemma u32_shift_mask a n k : 0 ≤ n → 0 ≤ k → n + k ≤ 32 →
  Z.land (Z.shiftr (u32 a) n) (Z.ones k) = Z.land (Z.shiftr a n) (Z.ones k).
Proof.
  intros Hn Hk Hs. unfold u32, two32. apply Z.bits_inj'. intros j Hj.
  rewrite !Z.land_spec, !Z.shiftr_spec by lia. destruct (decide (j < k)).
  - by rewrite Z.mod_pow2_bits_low by lia.
  - rewrite !Z.ones_spec_high by lia. by rewrite !andb_false_r.
Qed.

Lemma zseq_rep {A} (P : Z -> A -> Prop) (f : Z -> A) n i x :
  (∀ j, 0 ≤ j < n → P j (f j)) → zget (f <$> zseq n) i = Some x → P i x.
Proof.
  intros Hf Hi. pose proof (zget_lt _ _ _ Hi) as Hl. rewrite length_fmap, length_zseq in Hl.
  rewrite zget_fmap in Hi. destruct (zget (zseq n) i) as [j|] eqn:E; [|done]. injection Hi as <-.
  unfold zseq in E. rewrite zget_fmap in E. destruct (zget (seq 0 _) i) as [k|] eqn:Ek; [|done]. injection E as <-.
  apply zget_Some in Ek as [? Ek]. apply lookup_seq in Ek as [-> ?].
  replace (Z.of_nat (0 + Z.to_nat i)) with i by lia. apply Hf. lia.
Qed.

Lemma demo_inv : mem_inv no_packets no_packets demo_w.
Proof.
  destruct hbm2_system_inv as (Hi & Ho & Hk). split; [exact Hi|]. split; [|by apply fresh_queue_inv].
  change (memory_system_1 (wrap (side demo_w))) with hbm2_system.
  assert (ds_out hbm2_system = []) as -> by exact Ho. split.
  - reflexivity.
  - intros i Hlt. unfold CHANNEL_NUM in Hlt.
    assert (i ∈ zseq 8) as Hin by (apply elem_of_zseq; lia).
    assert (Forall (fun i => zget (read_callbacks (wrap (side demo_w))) i = Some (Some i) ∧
      zget (write_callbacks (wrap (side demo_w))) i = Some (Some i)) (zseq 8)) as Hall by (repeat constructor).
    rewrite Forall_forall in Hall. by apply Hall.
  - intros a Ha. split; [by apply (jc_chan _ hbm2_jedec)|].
    change (ds_channel _) with (GetChannel hbm2). unfold GetChannel.
    rewrite !Z.shiftr_shiftr by done. change (ch_mask hbm2) with (Z.ones 3). by apply u32_shift_mask.
  - constructor.
  - change (mems (side demo_w)) with (new_mem <$> zseq 8). intros i m.
    apply (zseq_rep (fun _ m => mem_rep m [] [])). intros j Hj. split; try done; apply groups_empty.
  - done.
  - done.
Qed.

Lemma wrapper_tick_total_witness :
  ∃ w' Rd' Wr', wrapper_tick (S := JedecDRAMSystem) demo_ev demo_w = ok (tt, w') ∧ mem_inv Rd' Wr' w' ∧
    is_scheduled (demo_ev WrapperTick) w' = true.
Proof.
  destruct (wrapper_tick_total demo_ev no_packets no_packets demo_w demo_inv) as (w' & Rd' & Wr' & Hr & Hi & _ & Hq & _);
    [done|done|]. exists w', Rd', Wr'. split; [exact Hr|]. split; [exact Hi|exact Hq].
Defined.

(** A read of channel 0, accepted. *)
Definition demo_packet (n : nat) : PacketPtr := MkPtr n (new_DataPacket 4096 64 false).

Lemma memory_request_witness :
  ∃ w', m_recvTimingReq (S := JedecDRAMSystem) demo_ev 0 (demo_packet 1) demo_w = ok (true, w') ∧
    mem_inv (record_at 0 (demo_packet 1) false no_packets) (record_at 0 (demo_packet 1) true no_packets) w'.
Proof.
  destruct (memory_request demo_ev no_packets no_packets 0 (demo_packet 1) demo_w demo_inv) as (b & m & Hb & Hm & Hcase);
    [done|reflexivity|done|reflexivity|].
  assert (ds_will_accept hbm2_system 4096 false = ok true) as E by (vm_compute; reflexivity).
  assert (ok b = ok true) as Eb by (rewrite <- E; symmetry; exact Hb). injection Eb as ->.
  destruct Hcase as (s & w' & _ & Hr & _ & Hi). exists w'. split; [exact Hr|exact Hi].
Defined.

(** An object with two responses and a port that takes everything. *)
Definition demo_stalled : demo_world :=
  (demo_w.1, MkSide [m_queue [demo_packet 1; demo_packet 2] (new_mem 0)] (wrap (demo_w.2))).

Lemma send_leaves_responses_witness :
  ∃ w', m_sendResponse (S := JedecDRAMSystem) (fun _ => mret true) 0 demo_stalled = ok (tt, w') ∧
    (∀ e : fin 17, is_scheduled e w' = is_scheduled e demo_stalled) ∧
    ∃ m', zget (mems (side w')) 0 = Some m' ∧ m_responseQueue m' = [demo_packet 2].
Proof.
  apply (send_leaves_responses 0 (m_queue [demo_packet 1; demo_packet 2] (new_mem 0)) (demo_packet 1)
           [demo_packet 2] demo_stalled (fun _ => mret true));
    [reflexivity|reflexivity|reflexivity|]. by exists demo_stalled.
Defined.

(** Channel 0 with all 64 flags set. *)
Definition demo_full : Wrapper JedecDRAMSystem :=
  MkWrapper hbm2_system [] [] [true] [replicate 64 true] ∅.

Lemma request_read_overflow_witness : request_read 4096 demo_full = err UndefinedBehaviour.
Proof.
  apply (request_read_overflow 4096 demo_full (replicate 64 true));
    [vm_compute; reflexivity|vm_compute; reflexivity|reflexivity|by apply Forall_replicate].
Defined.
End Demo.
