(* ===== verification/Names.v ===== *)
(** * Port names (std::stoi, std::to_string and std::string as the modules use them)

    The modules find their ports by names such as "response3_1": a word, and
    numbers printed with [std::to_string] and read back with [std::stoi].
    [pretty] prints a number; the lemmas say that [stoi] reads it back. *)

From Stdlib Require Import ZArith Lia Ascii String.
From stdpp Require Import strings pretty numbers option list.
From S2P Require Import Prelude.

(** [std::stoi]: blanks, a sign, then the digits up to the first other
    character; no digit and a value outside [int] are its two exceptions. *)
Definition digit (c : ascii) : option Z :=
  let n := Z.of_nat (nat_of_ascii c) - 48 in
  if (0 <=? n) && (n <=? 9) then Some n else None.
Fixpoint digits (s : string) (acc : Z) : Z :=
  match s with
  | EmptyString => acc
  | String c s' => match digit c with Some d => digits s' (acc * 10 + d) | None => acc end
  end.
Definition starts_digit (s : string) : bool :=
  match s with String c _ => match digit c with Some _ => true | None => false end | EmptyString => false end.
Definition is_blank (c : ascii) : bool :=
  let n := nat_of_ascii c in ((9 <=? n) && (n <=? 13) || (n =? 32))%nat.
Fixpoint skip_blanks (s : string) : string :=
  match s with String c s' => if is_blank c then skip_blanks s' else s | EmptyString => s end.
Definition stoi (s : string) : exc Z :=
  let s := skip_blanks s in
  let '(neg, s) := match s with
    | String c s' => if (Ascii.eqb c "-")%char then (true, s') else if (Ascii.eqb c "+")%char then (false, s') else (false, s)
    | EmptyString => (false, s)
    end in
  if starts_digit s then
    let v := if (neg : bool) then - digits s 0 else digits s 0 in
    if (- 2 ^ 31 <=? v) && (v <? 2 ^ 31) then ok v else err StdOutOfRange
  else err InvalidArgument.

(** The text behind a prefix; [None] when the text does not start with it. *)
Fixpoint strip (pre s : string) : option string :=
  match pre, s with
  | EmptyString, _ => Some s
  | String c pre', String d s' => if (Ascii.eqb c d)%char then strip pre' s' else None
  | _, _ => None
  end.
(** The text before the first underscore and the text behind it, if any. *)
Fixpoint split_at_underscore (s : string) : string * option string :=
  match s with
  | EmptyString => (EmptyString, None)
  | String c s' =>
      if (Ascii.eqb c "_")%char then (EmptyString, Some s')
      else let '(a, b) := split_at_underscore s' in (String c a, b)
  end.

(** ** Printed numbers *)

Fixpoint all_digits (s : string) : bool :=
  match s with
  | EmptyString => true
  | String c s' => match digit c with Some _ => all_digits s' | None => false end
  end.

Lemma digit_pretty (n : N) : (n < 10)%N → digit (pretty_N_char n) = Some (Z.of_N n).
Proof.
  intros Hn. assert (n = 0 ∨ n = 1 ∨ n = 2 ∨ n = 3 ∨ n = 4 ∨ n = 5 ∨ n = 6 ∨ n = 7 ∨ n = 8 ∨ n = 9)%N as H by lia.
  by repeat (destruct H as [->|H]; [done|]); subst.
Qed.

(** The digits of a number, printed in front of [s] and read back. *)
Lemma digits_go (x : N) s :
  digits (pretty_N_go x s) 0 = digits s (Z.of_N x) ∧ all_digits (pretty_N_go x s) = all_digits s.
Proof.
  revert s. induction (N.lt_wf_0 x) as [x _ IH]. intros s. assert (x = 0 ∨ 0 < x)%N as [->|Hx] by lia.
  { by rewrite pretty_N_go_0. }
  rewrite pretty_N_go_step by done. destruct (IH (x / 10)%N (N.div_lt x 10 Hx eq_refl) (String (pretty_N_char (x `mod` 10)) s)) as [-> ->].
  simpl. rewrite digit_pretty by (by apply N.mod_lt). split; [|done]. f_equal.
  rewrite N2Z.inj_div, N2Z.inj_mod. change (Z.of_N 10) with 10. rewrite (Z.div_mod (Z.of_N x) 10) at 3 by lia. lia.
Qed.

Lemma pretty_digits z : 0 ≤ z → digits (pretty z) 0 = z ∧ all_digits (pretty z) = true ∧ pretty z ≠ EmptyString.
Proof.
  intros Hz. destruct z as [|p|p]; [done| |lia]. change (pretty (Z.pos p)) with (pretty_N_go (N.pos p) EmptyString).
  destruct (digits_go (N.pos p) EmptyString) as [Hd Ha]. rewrite Hd, Ha. split; [done|]. split; [done|].
  intros E. by rewrite E in Hd.
Qed.

Lemma all_digits_head c s :
  all_digits (String c s) = true →
  is_blank c = false ∧ (c =? "-")%char = false ∧ (c =? "+")%char = false ∧ (c =? "_")%char = false ∧
  starts_digit (String c s) = true.
Proof.
  intros H. simpl in *. destruct (digit c) eqn:E; [|done]. split_and!; [| | | |done].
  all: destruct c as [[] [] [] [] [] [] [] []]; try discriminate E; reflexivity.
Qed.

(** [std::stoi(std::to_string(z))] is [z]. *)
Lemma stoi_pretty z : 0 ≤ z < 2 ^ 31 → stoi (pretty z) = ok z.
Proof.
  intros Hz. destruct (pretty_digits z) as (Hd & Ha & Hne); [lia|].
  destruct (pretty z) as [|c s]; [done|]. destruct (all_digits_head c s Ha) as (Hb & Hm & Hp & _ & Hs).
  unfold stoi. cbn [skip_blanks]. rewrite Hb, Hm, Hp. rewrite Hs, Hd.
  destruct (Z.leb_spec (- 2 ^ 31) z), (Z.ltb_spec z (2 ^ 31)); try lia. done.
Qed.

Lemma split_digits s t : all_digits s = true → split_at_underscore (s +:+ String "_" t) = (s, Some t).
Proof.
  induction s as [|c s IH]; intros Ha; [done|]. destruct (all_digits_head c s Ha) as (_ & _ & _ & Hu & _).
  change (String c s +:+ String "_" t) with (String c (s +:+ String "_" t)). cbn [split_at_underscore].
  rewrite Hu, IH; [done|]. simpl in Ha. by destruct (digit c).
Qed.

(** The two numbers of a response port's name. *)
Lemma split_pretty b (t : string) : 0 ≤ b → split_at_underscore (pretty b +:+ "_" +:+ t) = (pretty b, Some t).
Proof. intros Hb. apply split_digits, pretty_digits, Hb. Qed.
