(* ===== verification/DramArb.v ===== *)
(** * The arbiter (src/dram/dram_arb.h, dram_arb.cpp)

    The arbiter between the upstream buffers and the memory objects: per bank,
    one queue of reads and one of writes for each upstream, a record of the reads
    in flight with the upstream each came from, and a queue of responses. The
    arrays indexed by bank are the fields of one record per bank. The functions
    of the bound ports are parameters: what they do to the world is theirs, and
    the handlers read the arbiter's state again after each call. *)

From Stdlib Require Import ZArith Lia Ascii String.
From stdpp Require Import strings pretty gmap sets numbers option finite fin list.
From S2P Require Import Prelude EventQ Sched Packet Names Memory.

Definition num_banks : Z := 8.
Definition num_up : Z := 5.

(** One bank of [class DramArb]. *)
Record ArbBank := MkBank {
  outstanding : gmap Z (list PacketPtr);
  nbrOutstanding_ : Z;
  readInBufs : list (list PacketPtr);
  writeInBufs : list (list PacketPtr);
  responseQueue : list (PacketPtr * Z);
  retryReq : list bool;
  retryResp : list bool;
  rrReadIdx : Z;
  rrWriteIdx : Z;
  outstandingUpstream : gmap Z (list Z)
}.

Record DramArb := MkArb { buf_size : Z; num_upstreams : Z; banks : list ArbBank }.

Inductive arb_event := ArbEvent | SendResponse.
#[global] Instance arb_event_eq_dec : EqDecision arb_event.
Proof. solve_decision. Defined.

(** [initializeBasicState] and [allocateInputBuffers], for one bank: the flags of
    the first [num_upstreams] columns of a row of [num_up] are cleared. The others
    are not written; no code below reads them. *)
Definition new_arb_bank (n : Z) : ArbBank :=
  MkBank ∅ 0 (replicate (Z.to_nat n) []) (replicate (Z.to_nat n) []) []
         (replicate (Z.to_nat num_up) false) (replicate (Z.to_nat num_up) false) 0 0 ∅.

(** [DramArb::DramArb(name, buf_size, num_upstreams)]: more upstreams than the
    flag arrays have columns are written outside them; a negative number is no
    size for a vector. *)
Definition new_DramArb (size n : Z) : exc DramArb :=
  if num_up <? n then err UndefinedBehaviour
  else if n <? 0 then err LengthError
  else ok (MkArb size n (replicate (Z.to_nat num_banks) (new_arb_bank n))).

Definition b_outstanding (r : gmap Z (list PacketPtr)) (n : Z) (b : ArbBank) : ArbBank :=
  MkBank r n (readInBufs b) (writeInBufs b) (responseQueue b) (retryReq b) (retryResp b) (rrReadIdx b)
         (rrWriteIdx b) (outstandingUpstream b).
Definition b_reads (l : list (list PacketPtr)) (b : ArbBank) : ArbBank :=
  MkBank (outstanding b) (nbrOutstanding_ b) l (writeInBufs b) (responseQueue b) (retryReq b) (retryResp b)
         (rrReadIdx b) (rrWriteIdx b) (outstandingUpstream b).
Definition b_writes (l : list (list PacketPtr)) (b : ArbBank) : ArbBank :=
  MkBank (outstanding b) (nbrOutstanding_ b) (readInBufs b) l (responseQueue b) (retryReq b) (retryResp b)
         (rrReadIdx b) (rrWriteIdx b) (outstandingUpstream b).
Definition b_responses (q : list (PacketPtr * Z)) (b : ArbBank) : ArbBank :=
  MkBank (outstanding b) (nbrOutstanding_ b) (readInBufs b) (writeInBufs b) q (retryReq b) (retryResp b)
         (rrReadIdx b) (rrWriteIdx b) (outstandingUpstream b).
Definition b_retryReq (l : list bool) (b : ArbBank) : ArbBank :=
  MkBank (outstanding b) (nbrOutstanding_ b) (readInBufs b) (writeInBufs b) (responseQueue b) l (retryResp b)
         (rrReadIdx b) (rrWriteIdx b) (outstandingUpstream b).
Definition b_retryResp (l : list bool) (b : ArbBank) : ArbBank :=
  MkBank (outstanding b) (nbrOutstanding_ b) (readInBufs b) (writeInBufs b) (responseQueue b) (retryReq b) l
         (rrReadIdx b) (rrWriteIdx b) (outstandingUpstream b).
Definition b_rr (r w : Z) (b : ArbBank) : ArbBank :=
  MkBank (outstanding b) (nbrOutstanding_ b) (readInBufs b) (writeInBufs b) (responseQueue b) (retryReq b)
         (retryResp b) r w (outstandingUpstream b).
Definition b_upstream (u : gmap Z (list Z)) (b : ArbBank) : ArbBank :=
  MkBank (outstanding b) (nbrOutstanding_ b) (readInBufs b) (writeInBufs b) (responseQueue b) (retryReq b)
         (retryResp b) (rrReadIdx b) (rrWriteIdx b) u.

(** [row[u].push_back(p)] and [row[u].pop_front()]. *)
Definition push_buf (u : Z) (p : PacketPtr) (l : list (list PacketPtr)) : exc (list (list PacketPtr)) :=
  q ← vec_get l u; ok (zset l u (q ++ [p])).
Definition pop_buf (u : Z) (l : list (list PacketPtr)) : exc (list (list PacketPtr)) :=
  q ← vec_get l u;
  match q with [] => err UndefinedBehaviour | _ :: q' => ok (zset l u q') end.

(** ** Ports by name *)

(** A port of the arbiter. *)
Inductive arb_port := RequestOf (bank : Z) | ResponseOf (bank up : Z).
#[global] Instance arb_port_eq_dec : EqDecision arb_port.
Proof. solve_decision. Defined.

(** [parseResponsePortName], on the text behind "response": every exception of
    the number parser becomes a runtime error. *)
Definition parseResponsePortName (n : Z) (s : string) (idx : Z) : exc arb_port :=
  let '(sbank, sup) := split_at_underscore s in
  let parsed :=
    bank ← stoi sbank;
    up ← match sup with Some t => stoi t | None => ok (if 0 <=? idx then idx else 0) end;
    ok (bank, up) in
  match parsed with
  | err _ => err RuntimeError
  | ok (bank, up) =>
      if (0 <=? bank) && (bank <? num_banks) && (0 <=? up) && (up <? n) then ok (ResponseOf bank up)
      else err RuntimeError
  end.
(** [parseRequestPortName], on the text behind "request". *)
Definition parseRequestPortName (s : string) : exc arb_port :=
  bank ← stoi s;
  if (0 <=? bank) && (bank <? num_banks) then ok (RequestOf bank) else err RuntimeError.

(** [DramArb::getPort(if_name, idx)]. *)
Definition getPort (n : Z) (if_name : string) (idx : Z) : exc arb_port :=
  match strip "response" if_name with
  | Some s => parseResponsePortName n s idx
  | None =>
      match strip "request" if_name with
      | Some s => parseRequestPortName s
      | None => err RuntimeError
      end
  end.

(** The names [main] uses. *)
Definition response_name (bank up : Z) : string :=
  ("response" +:+ pretty bank +:+ "_" +:+ pretty up)%string.
Definition request_name (bank : Z) : string := ("request" +:+ pretty bank)%string.

(** The name of a port finds the port, and a name with a number out of range is
    refused: [getPort] inverts the naming scheme of the constructor. *)
Theorem getPort_names n b u idx :
  0 ≤ b < 2 ^ 31 → 0 ≤ u < 2 ^ 31 →
  getPort n (response_name b u) idx =
    (if (b <? num_banks) && (u <? n) then ok (ResponseOf b u) else err RuntimeError) ∧
  getPort n (request_name b) idx = (if b <? num_banks then ok (RequestOf b) else err RuntimeError).
Proof.
  intros Hb Hu. split.
  - change (getPort n (response_name b u) idx) with (parseResponsePortName n (pretty b +:+ "_" +:+ pretty u) idx).
    unfold parseResponsePortName. rewrite split_pretty, !stoi_pretty by lia. cbn [mbind exc_bind].
    destruct (Z.leb_spec 0 b), (Z.leb_spec 0 u); [|lia..]. rewrite andb_true_r. done.
  - change (getPort n (request_name b) idx) with (parseRequestPortName (pretty b)).
    unfold parseRequestPortName. rewrite stoi_pretty by lia. cbn [mbind exc_bind].
    by destruct (Z.leb_spec 0 b); [|lia].
Qed.

Lemma getPort_names_witness :
  getPort 4 "response7_3" (-1) = ok (ResponseOf 7 3) ∧ getPort 4 "request7" (-1) = ok (RequestOf 7).
Proof. apply (getPort_names 4 7 3 (-1)); lia. Defined.

(** ** The handlers *)

Section Arb.
Context {W Ev : Type} `{Has W DramArb} `{Scheduler W Ev} (ev : arb_event -> Ev).

(** [requestPorts[bank].sendTimingReq], [responsePorts[bank][up].sendTimingResp]
    and [responsePorts[bank][up].sendRetryReq]. *)
Context (sendReq : Z -> PacketPtr -> M W bool) (sendResp : Z -> Z -> PacketPtr -> M W bool)
        (sendRetry : Z -> Z -> M W unit).

Definition arb (w : W) : DramArb := get DramArb w.
Definition the_bank (b : Z) : M W ArbBank := fun w => x ← vec_get (banks (arb w)) b; ok (x, w).
Definition set_bank (b : Z) (x : ArbBank) : M W unit :=
  upd DramArb (fun a => MkArb (buf_size a) (num_upstreams a) (zset (banks a) b x)).
Definition flag (l : list bool) (u : Z) : M W bool := lift (vec_get l u).

Definition bank_ok (b : Z) : bool := (0 <=? b) && (b <? num_banks).
Definition up_ok (u : Z) (w : W) : bool := (0 <=? u) && (u <? num_upstreams (arb w)).

(** The test for a new read: the sum is of unsigned type, so the limit is
    converted to it. *)
Definition can_accept_read (size : Z) (x : ArbBank) : bool :=
  u64 (nbrOutstanding_ x + Z.of_nat (length (responseQueue x))) <? u64 size.

(** [recvTimingReqUp(pkt, bank_id, upstream_id)], in three parts: the bank takes
    the packet if it has room, then the answer. *)
Definition take_read (size : Z) (p : PacketPtr) (b u : Z) (x : ArbBank) : M W bool :=
  if can_accept_read size x then
    l ← lift (push_buf u p (readInBufs x));
    set_bank b (b_upstream (partial_alter (fun o => Some (default [] o ++ [u])) (p_addr p) (outstandingUpstream x))
                 (b_outstanding (push_at (p_addr p) p (outstanding x)) (u32 (nbrOutstanding_ x + 1)) (b_reads l x))) ;;
    mret true
  else mret false.
Definition take_write (size : Z) (p : PacketPtr) (b u : Z) (x : ArbBank) : M W bool :=
  q ← lift (vec_get (writeInBufs x) u);
  if Z.of_nat (length q) <? u64 size then
    set_bank b (b_writes (zset (writeInBufs x) u (q ++ [p])) x) ;; mret true
  else mret false.
Definition answer (b u : Z) (accepted : bool) : M W bool :=
  if accepted then schedule_once (ev ArbEvent) 1 ;; mret true
  else
    x ← the_bank b;
    _ ← flag (retryReq x) u;
    set_bank b (b_retryReq (zset (retryReq x) u true) x) ;;
    mret false.
Definition recvTimingReqUp (p : PacketPtr) (b u : Z) : M W bool :=
  assert_ (bank_ok b) ;;
  uok ← gets (up_ok u); assert_ uok ;;
  x ← the_bank b;
  size ← gets (fun w => buf_size (arb w));
  accepted ← (if negb (p_write p) then take_read size p b u x else take_write size p b u x);
  answer b u accepted.

(** [recvTimingReq(pkt, bank_id)], the interface for one upstream. *)
Definition recvTimingReq (p : PacketPtr) (b : Z) : M W bool := recvTimingReqUp p b 0.

(** [accessAndRespond(bank_id, pkt, upstream_id)]. *)
Definition accessAndRespond (b : Z) (p : PacketPtr) (u : Z) : M W unit :=
  x ← the_bank b;
  set_bank b (b_responses (responseQueue x ++ [(p, u)]) x) ;;
  schedule_once (ev SendResponse) 1.

(** The front of [outstandingUpstream[bank][addr]], an empty entry made by [[]]
    failing the assertion, and the map behind the pop. *)
Definition pop_upstream (a : Z) (g : gmap Z (list Z)) : exc (Z * gmap Z (list Z)) :=
  match default [] (g !! a) with
  | [] => err AssertionFailed
  | [u] => ok (u, delete a g)
  | u :: q => ok (u, <[a := q]> g)
  end.

(** [recvTimingResp(pkt, bank_id)]. *)
Definition recvTimingResp (p : PacketPtr) (b : Z) : M W bool :=
  assert_ (bank_ok b) ;;
  x ← the_bank b;
  '(res, r) ← lift (pop_at (p_addr p) (outstanding x));
  assert_ (0 <? nbrOutstanding_ x) ;;
  '(u, g) ← lift (pop_upstream (p_addr p) (outstandingUpstream x));
  set_bank b (b_upstream g (b_outstanding r (nbrOutstanding_ x - 1) x)) ;;
  accessAndRespond b res u ;;
  mret true.

(** The body of [sendResponse] for one bank and one value of [upstream_id]. *)
Definition sendResponse_step (b u : Z) : M W unit :=
  x ← the_bank b;
  waiting ← flag (retryResp x) u;
  if (waiting : bool) then mret tt
  else match responseQueue x with
  | [] => mret tt
  | (p, target) :: _ =>
      success ← sendResp b target p;
      x ← the_bank b;
      if (success : bool) then
        match responseQueue x with
        | [] => raise UndefinedBehaviour
        | _ :: q =>
            set_bank b (b_responses q x) ;;
            (match q with [] => mret tt | _ => schedule_once (ev SendResponse) 1 end) ;;
            x ← the_bank b;
            again ← flag (retryReq x) u;
            if (again : bool) then
              sendRetry b target ;;
              x ← the_bank b;
              set_bank b (b_retryReq (zset (retryReq x) u false) x)
            else mret tt
        end
      else set_bank b (b_retryResp (zset (retryResp x) u true) x)
  end.

(** [sendResponse()]. *)
Definition sendResponse : M W unit :=
  n ← gets (fun w => num_upstreams (arb w));
  for_each (zseq num_banks) (fun b => for_each (zseq n) (sendResponse_step b)).

(** [handleRespRetry(bank_id, upstream_id)]. *)
Definition handleRespRetry (b u : Z) : M W unit :=
  assert_ (bank_ok b) ;;
  uok ← gets (up_ok u); assert_ uok ;;
  x ← the_bank b;
  _ ← flag (retryResp x) u;
  set_bank b (b_retryResp (zset (retryResp x) u false) x) ;;
  sendResponse.

(** [arbitrateReadRequests(bank)] and [arbitrateWriteRequests(bank)], with their
    loop bodies. [%] of C++ rounds to zero; its operands are not negative here. *)
Definition try_read (b n k : Z) : M W bool :=
  x ← the_bank b;
  let u := Z.rem (rrReadIdx x + k) n in
  q ← lift (vec_get (readInBufs x) u);
  match q with
  | [] => mret false
  | p :: _ =>
      sent ← sendReq b p;
      if (sent : bool) then
        x ← the_bank b;
        l ← lift (pop_buf u (readInBufs x));
        set_bank b (b_rr (Z.rem (u + 1) n) (rrWriteIdx x) (b_reads l x)) ;;
        mret true
      else mret false
  end.
Definition arbitrateReadRequests (b : Z) : M W bool :=
  n ← gets (fun w => num_upstreams (arb w)); for_any (zseq n) (try_read b n).
Definition try_write (b n k : Z) : M W bool :=
  x ← the_bank b;
  let u := Z.rem (rrWriteIdx x + k) n in
  q ← lift (vec_get (writeInBufs x) u);
  match q with
  | [] => mret false
  | p :: _ =>
      sent ← sendReq b p;
      if (sent : bool) then
        x ← the_bank b;
        l ← lift (pop_buf u (writeInBufs x));
        set_bank b (b_rr (rrReadIdx x) (Z.rem (u + 1) n) (b_writes l x)) ;;
        mret true
      else mret false
  end.
Definition arbitrateWriteRequests (b : Z) : M W bool :=
  n ← gets (fun w => num_upstreams (arb w)); for_any (zseq n) (try_write b n).

(** [checkPendingRequests(bank)]. *)
Definition pending_at (b u : Z) : M W bool :=
  x ← the_bank b;
  r ← lift (vec_get (readInBufs x) u);
  match r with
  | _ :: _ => mret true
  | [] => q ← lift (vec_get (writeInBufs x) u); mret (match q with [] => false | _ => true end)
  end.
Definition checkPendingRequests (b : Z) : M W bool :=
  n ← gets (fun w => num_upstreams (arb w)); for_any (zseq n) (pending_at b).

(** [arbitrate()]: one bank, and the loop; the local variables are
    [need_resched] and [has_pending]. *)
Definition arbitrate_bank (b : Z) (v : bool * bool) : M W (bool * bool) :=
  sent ← arbitrateReadRequests b;
  sent ← (if (sent : bool) then mret true else arbitrateWriteRequests b);
  pending ← checkPendingRequests b;
  mret (negb sent || v.1, pending).
Definition arbitrate : M W unit :=
  '(need_resched, has_pending) ← for_acc (zseq num_banks) (false, false) arbitrate_bank;
  if (has_pending : bool) || need_resched then schedule_once (ev ArbEvent) 1 else mret tt.

(** [handleReqRetry(bank_id)]. *)
Definition handleReqRetry (b : Z) : M W unit :=
  assert_ (bank_ok b) ;; schedule_once (ev ArbEvent) 1.
End Arb.

(** ** What the arbiter keeps *)

(** A function changed at one bank. *)
Definition at_bank {A} (b : Z) (v : A) (f : Z -> A) : Z -> A := fun j => if decide (j = b) then v else f j.

Lemma at_bank_eq {A} b (v : A) f : at_bank b v f b = v.
Proof. unfold at_bank. by rewrite decide_True. Qed.
Lemma at_bank_ne {A} b j (v : A) f : j ≠ b → at_bank b v f j = f j.
Proof. intros. unfold at_bank. by rewrite decide_False. Qed.

(** The upstreams of the entries of one address. *)
Definition ups_at (a : Z) (L : list (PacketPtr * Z)) : list Z := snd <$> filter (fun e => p_addr e.1 = a) L.

(** Bank [x] of an arbiter with [n] upstreams and the limit [size]: [L] are the
    reads without an answer, in the order they were accepted, with the upstream
    of each; [D] are the addresses of the reads at the memory. [K] is what the
    upstreams promise of the packets of the bank. *)
Record bank_rep (K : PacketPtr -> Prop) (n size : Z) (D : list Z) (L : list (PacketPtr * Z)) (x : ArbBank) : Prop := {
  br_reads : groups (outstanding x) (fst <$> L);
  br_ups a : default [] (outstandingUpstream x !! a) = ups_at a L;
  br_nbr : nbrOutstanding_ x = Z.of_nat (length L);
  br_bound : Z.of_nat (length L + length (responseQueue x)) ≤ size;
  br_from : Forall (fun e => 0 ≤ e.2 < n) L;
  br_to : Forall (fun e => 0 ≤ e.2 < n) (responseQueue x);
  br_reads_ok : Forall (Forall (fun p => K p ∧ p_write p = false)) (readInBufs x);
  br_writes_ok : Forall (Forall (fun p => K p ∧ p_write p = true)) (writeInBufs x);
  br_rbufs : length (readInBufs x) = Z.to_nat n;
  br_wbufs : length (writeInBufs x) = Z.to_nat n;
  br_wbound : Forall (fun q => Z.of_nat (length q) ≤ size) (writeInBufs x);
  br_req : length (retryReq x) = Z.to_nat num_up;
  br_resp : length (retryResp x) = Z.to_nat num_up;
  br_rr : 0 ≤ rrReadIdx x < n ∧ 0 ≤ rrWriteIdx x < n;
  br_where : p_addr <$> (fst <$> L) ≡ₚ (p_addr <$> concat (readInBufs x)) ++ D
}.

Lemma bank_rep_new K n size : 1 ≤ n → 0 ≤ size → bank_rep K n size [] [] (new_arb_bank n).
Proof.
  intros Hn Hs.
  assert (concat (replicate (Z.to_nat n) (@nil PacketPtr)) = []) as Hc
    by (induction (Z.to_nat n) as [|k IH]; [done|exact IH]).
  split; simpl; rewrite ?length_replicate, ?Hc; try done; try lia; by apply Forall_replicate.
Qed.

Section Inv.
Context {W Ev : Type} `{SchedulerOk W Ev} `{Has W DramArb} `{!Independent W Ev DramArb}.
Context (K : Z -> PacketPtr -> Prop).
Implicit Types (w : W) (D : Z -> list Z) (L : Z -> list (PacketPtr * Z)) (x : ArbBank).

Record arb_rep D L w : Prop := {
  ar_sch : sch_inv w;
  ar_now : 0 ≤ now w < 2 ^ 63;
  ar_ups : 1 ≤ num_upstreams (arb w) ≤ num_up;
  ar_size : 0 ≤ buf_size (arb w) < 2 ^ 31;
  ar_len : length (banks (arb w)) = Z.to_nat num_banks;
  ar_bank b x : zget (banks (arb w)) b = Some x →
    bank_rep (K b) (num_upstreams (arb w)) (buf_size (arb w)) (D b) (L b) x
}.

(** The world with bank [b] replaced. *)
Definition put_bank (b : Z) x w : W :=
  put DramArb (MkArb (buf_size (arb w)) (num_upstreams (arb w)) (zset (banks (arb w)) b x)) w.

Lemma the_bank_run b x w : zget (banks (arb w)) b = Some x → the_bank b w = ok (x, w).
Proof. intros Hx. unfold the_bank, vec_get. by rewrite Hx. Qed.
Lemma set_bank_run b x w : set_bank b x w = ok (tt, put_bank b x w).
Proof. done. Qed.
Lemma arb_put_bank b x w :
  arb (put_bank b x w) = MkArb (buf_size (arb w)) (num_upstreams (arb w)) (zset (banks (arb w)) b x).
Proof. unfold arb, put_bank. by rewrite get_put. Qed.

Lemma get_bank D L w b : arb_rep D L w → 0 ≤ b < num_banks → ∃ x, zget (banks (arb w)) b = Some x.
Proof.
  intros Hr Hb. destruct (zget_is_Some (banks (arb w)) b) as [x Hx]; [|eauto].
  rewrite (ar_len _ _ _ Hr). unfold num_banks in *. lia.
Qed.

Lemma put_bank_get b x w : 0 ≤ b < num_banks → length (banks (arb w)) = Z.to_nat num_banks →
  zget (banks (arb (put_bank b x w))) b = Some x.
Proof. intros Hb Hl. rewrite arb_put_bank. simpl. apply zget_zset_eq. rewrite Hl. unfold num_banks in *. lia. Qed.

(** Replacing one bank by a represented one. *)
Lemma put_bank_rep D L w b x d l :
  arb_rep D L w → 0 ≤ b < num_banks → bank_rep (K b) (num_upstreams (arb w)) (buf_size (arb w)) d l x →
  arb_rep (at_bank b d D) (at_bank b l L) (put_bank b x w).
Proof using All.
  intros [] Hb Hx. split; rewrite ?arb_put_bank; simpl; try done.
  - by apply ind_inv.
  - unfold put_bank. by rewrite ind_now.
  - by rewrite length_zset.
  - intros j y Hy. destruct (decide (j = b)) as [->|Hne].
    + rewrite zget_zset_eq in Hy by (rewrite ar_len0; unfold num_banks in *; lia). injection Hy as <-.
      by rewrite !at_bank_eq.
    + rewrite zget_zset_ne in Hy by done. rewrite !at_bank_ne by done. by apply ar_bank0.
Qed.

(** The same representation, told by pointwise equal functions. *)
Lemma arb_rep_ext D L D' L' w :
  (∀ b, D' b = D b) → (∀ b, L' b = L b) → arb_rep D L w → arb_rep D' L' w.
Proof. intros ED EL []. split; try done. intros b x Hx. rewrite ED, EL. by apply ar_bank0. Qed.

Lemma put_bank_same D L w b x :
  arb_rep D L w → 0 ≤ b < num_banks → bank_rep (K b) (num_upstreams (arb w)) (buf_size (arb w)) (D b) (L b) x →
  arb_rep D L (put_bank b x w).
Proof using All.
  intros Hr Hb Hx. eapply arb_rep_ext; [| |by eapply put_bank_rep];
    intros j; unfold at_bank; case_decide; by subst.
Qed.

(** A step that leaves the arbiter alone. *)
Lemma arb_rep_frame D L w w' :
  arb_rep D L w → sch_inv w' → now w' = now w → arb w' = arb w → arb_rep D L w'.
Proof. intros [] Hi Hn Ha. split; rewrite ?Ha, ?Hn; done. Qed.

(** A handler that writes the arbiter and queues at most one event. *)
Notation arb_step e := (part_step DramArb (fun e' => e' = e)).

Lemma arb_step_put e b x w : sch_inv w → arb_step e w (put_bank b x w).
Proof using All. by apply part_step_put. Qed.

Lemma arb_once D L w e a :
  arb_rep D L (put DramArb a w) →
  ∃ w', schedule_once e 1 (put DramArb a w) = ok (tt, w') ∧ arb_rep D L w' ∧ arb w' = a ∧
    arb_step e w w' ∧ is_scheduled e w' = true.
Proof using All.
  intros Hr. pose proof (ar_now _ _ _ Hr) as Hn. rewrite ind_now in Hn.
  destruct (own_once e a w (ar_sch _ _ _ Hr) Hn) as (w' & Hs & Hst & Ha & Hfl).
  exists w'. split_and!; try done. apply (arb_rep_frame D L _ w' Hr); [apply Hst| |].
  - by rewrite ind_now, (ss_now _ _ (ps_sched _ _ _ _ Hst)).
  - unfold arb. by rewrite Ha, get_put.
Qed.

Lemma flag_run (l : list bool) u w : length l = Z.to_nat num_up → 0 ≤ u < num_upstreams (arb w) →
  num_upstreams (arb w) ≤ num_up → ∃ v, zget l u = Some v ∧ flag l u w = ok (v, w).
Proof.
  intros Hl Hu Hn. destruct (zget_is_Some l u) as [v Hv]; [rewrite Hl; unfold num_up in *; lia|].
  exists v. split; [done|]. unfold flag, lift, vec_get. by rewrite Hv.
Qed.

(** ** Requests *)

Context (ev : arb_event -> Ev).

(** The bank behind an accepted read or write. *)
Definition accept_read (p : PacketPtr) (u : Z) x : ArbBank :=
  b_upstream (partial_alter (fun o => Some (default [] o ++ [u])) (p_addr p) (outstandingUpstream x))
    (b_outstanding (push_at (p_addr p) p (outstanding x)) (u32 (nbrOutstanding_ x + 1))
      (b_reads (zset (readInBufs x) u (default [] (zget (readInBufs x) u) ++ [p])) x)).
Definition accept_write (p : PacketPtr) (u : Z) x : ArbBank :=
  b_writes (zset (writeInBufs x) u (default [] (zget (writeInBufs x) u) ++ [p])) x.

Lemma ups_at_snoc a l p u :
  ups_at a (l ++ [(p, u)]) = ups_at a l ++ if decide (p_addr p = a) then [u] else [].
Proof. unfold ups_at. rewrite filter_app, fmap_app, filter_cons. simpl. by case_decide. Qed.

Lemma accept_read_rep Kb n size d l x p u :
  bank_rep Kb n size d l x → 0 ≤ u < n → size < 2 ^ 31 → Kb p → p_write p = false →
  Z.of_nat (length l + length (responseQueue x)) < size →
  bank_rep Kb n size d (l ++ [(p, u)]) (accept_read p u x).
Proof.
  intros [] Hu Hs HK Hkw Hroom. split; simpl; try done.
  - rewrite fmap_app. by apply groups_push.
  - intros a. rewrite ups_at_snoc. destruct (decide (p_addr p = a)) as [<-|Hne].
    + rewrite lookup_partial_alter_eq. simpl. by rewrite br_ups0.
    + rewrite lookup_partial_alter_ne by done. by rewrite br_ups0, app_nil_r.
  - rewrite br_nbr0, length_app. simpl. rewrite u32_small by (unfold two32; lia). lia.
  - rewrite length_app. simpl. lia.
  - apply Forall_app. split; [done|]. by apply Forall_singleton.
  - apply zset_Forall; [done|]. apply Forall_app. split; [|by apply Forall_singleton].
    destruct (zget (readInBufs x) u) as [q|] eqn:Eq; [|done]. rewrite Forall_forall in br_reads_ok0.
    apply br_reads_ok0. by eapply zget_elem.
  - by rewrite length_zset.
  - destruct (zget_is_Some (readInBufs x) u) as [q Hq]; [rewrite br_rbufs0; lia|]. rewrite Hq. simpl.
    rewrite (concat_zset_cons _ u q (q ++ [p]) p Hq) by (rewrite Permutation_app_comm; done).
    rewrite !fmap_app. simpl. rewrite br_where0. by rewrite Permutation_app_comm.
Qed.

Lemma accept_write_rep Kb n size d l x p u :
  bank_rep Kb n size d l x → 0 ≤ u < n → Kb p → p_write p = true →
  Z.of_nat (length (default [] (zget (writeInBufs x) u))) < size →
  bank_rep Kb n size d l (accept_write p u x).
Proof.
  intros [] Hu HK Hkw Hroom. split; simpl; try done.
  - apply zset_Forall; [done|]. apply Forall_app. split; [|by apply Forall_singleton].
    destruct (zget (writeInBufs x) u) as [q|] eqn:Eq; [|done]. rewrite Forall_forall in br_writes_ok0.
    apply br_writes_ok0. by eapply zget_elem.
  - by rewrite length_zset.
  - apply zset_Forall; [done|]. rewrite length_app. simpl. lia.
Qed.

Lemma refuse_rep Kb n size d l x u v :
  bank_rep Kb n size d l x → bank_rep Kb n size d l (b_retryReq (zset (retryReq x) u v) x).
Proof. intros []. split; simpl; try done. by rewrite length_zset. Qed.

(** Whether bank [x] has room for the packet. *)
Definition arb_room (size : Z) (p : PacketPtr) (u : Z) x : bool :=
  if p_write p then Z.of_nat (length (default [] (zget (writeInBufs x) u))) <? size
  else nbrOutstanding_ x + Z.of_nat (length (responseQueue x)) <? size.

Lemma take_read_run D L w p b u x :
  arb_rep D L w → 0 ≤ b < num_banks → 0 ≤ u < num_upstreams (arb w) → zget (banks (arb w)) b = Some x →
  take_read (buf_size (arb w)) p b u x w =
    if nbrOutstanding_ x + Z.of_nat (length (responseQueue x)) <? buf_size (arb w)
    then ok (true, put_bank b (accept_read p u x) w) else ok (false, w).
Proof.
  intros Hr Hb Hu Hx. pose proof (ar_bank _ _ _ Hr b x Hx) as Hbr. pose proof (ar_size _ _ _ Hr) as Hsz.
  destruct (zget_is_Some (readInBufs x) u) as [q Hq]; [rewrite (br_rbufs _ _ _ _ _ _ Hbr); lia|].
  unfold take_read, can_accept_read. rewrite !u64_small by (destruct Hbr; unfold two64; lia).
  destruct (_ <? _); [|done]. unfold lift, push_buf, vec_get. rewrite Hq. cbn [opt_exc mbind exc_bind].
  unfold mbind at 1, M_bind at 1. rewrite (M_bind_ok_intro _ _ _ _ _ (set_bank_run b _ w)).
  unfold accept_read. by rewrite Hq.
Qed.

Lemma take_write_run D L w p b u x :
  arb_rep D L w → 0 ≤ b < num_banks → 0 ≤ u < num_upstreams (arb w) → zget (banks (arb w)) b = Some x →
  take_write (buf_size (arb w)) p b u x w =
    if Z.of_nat (length (default [] (zget (writeInBufs x) u))) <? buf_size (arb w)
    then ok (true, put_bank b (accept_write p u x) w) else ok (false, w).
Proof.
  intros Hr Hb Hu Hx. pose proof (ar_bank _ _ _ Hr b x Hx) as Hbr. pose proof (ar_size _ _ _ Hr) as Hsz.
  destruct (zget_is_Some (writeInBufs x) u) as [q Hq]; [rewrite (br_wbufs _ _ _ _ _ _ Hbr); lia|].
  unfold take_write, lift, vec_get. rewrite Hq. cbn [opt_exc default]. unfold mbind at 1, M_bind at 1.
  rewrite u64_small by (unfold two64; lia). destruct (_ <? _); [|done].
  rewrite (M_bind_ok_intro _ _ _ _ _ (set_bank_run b _ w)). unfold accept_write. by rewrite Hq.
Qed.

Lemma answer_true D L w b u a :
  arb_rep D L (put DramArb a w) →
  ∃ w', answer ev b u true (put DramArb a w) = ok (true, w') ∧ is_scheduled (ev ArbEvent) w' = true ∧ arb w' = a ∧
    arb_rep D L w' ∧ arb_step (ev ArbEvent) w w'.
Proof using All.
  intros Hr. destruct (arb_once D L w (ev ArbEvent) a Hr) as (w' & Hs & Hr' & Ha & Hst & Hq).
  exists w'. unfold answer. rewrite (M_bind_ok_intro _ _ _ _ _ Hs). done.
Qed.

Lemma answer_false D L w b u x :
  arb_rep D L w → 0 ≤ b < num_banks → 0 ≤ u < num_upstreams (arb w) → zget (banks (arb w)) b = Some x →
  let w' := put_bank b (b_retryReq (zset (retryReq x) u true) x) w in
  answer ev b u false w = ok (false, w') ∧ arb_rep D L w' ∧ arb_step (ev ArbEvent) w w'.
Proof using All.
  intros Hr Hb Hu Hx w'. pose proof (ar_bank _ _ _ Hr b x Hx) as Hbr.
  destruct (flag_run (retryReq x) u w) as (v & Hv & Hflag); [apply Hbr|done|apply Hr|]. split; [|split].
  - unfold answer. rewrite (M_bind_ok_intro _ _ _ _ _ (the_bank_run b x w Hx)), (M_bind_ok_intro _ _ _ _ _ Hflag).
    by rewrite (M_bind_ok_intro _ _ _ _ _ (set_bank_run b _ w)).
  - apply put_bank_same; [done|done|]. by apply refuse_rep.
  - apply arb_step_put, Hr.
Qed.

Lemma bank_ok_true b : 0 ≤ b < num_banks → bank_ok b = true.
Proof. intros. unfold bank_ok. destruct (Z.leb_spec 0 b), (Z.ltb_spec b num_banks); try done; lia. Qed.
Lemma up_ok_true u w : 0 ≤ u < num_upstreams (arb w) → up_ok u w = true.
Proof. intros. unfold up_ok. destruct (Z.leb_spec 0 u), (Z.ltb_spec u (num_upstreams (arb w))); try done; lia. Qed.

Lemma recv_run p b u x w :
  0 ≤ b < num_banks → 0 ≤ u < num_upstreams (arb w) → zget (banks (arb w)) b = Some x →
  recvTimingReqUp ev p b u w =
    ((if negb (p_write p) then take_read (buf_size (arb w)) p b u x else take_write (buf_size (arb w)) p b u x)
       ≫= answer ev b u) w.
Proof.
  intros Hb Hu Hx. unfold recvTimingReqUp. rewrite bank_ok_true by done. cbn [assert_].
  rewrite (M_bind_ok_intro (mret tt) _ w tt w eq_refl).
  rewrite (M_bind_ok_intro (gets (up_ok u)) _ w _ w eq_refl). rewrite up_ok_true by done. cbn [assert_].
  rewrite (M_bind_ok_intro (mret tt) _ w tt w eq_refl).
  by rewrite (M_bind_ok_intro _ _ _ _ _ (the_bank_run b x w Hx)).
Qed.

Lemma arb_request_ok D L w p b u :
  arb_rep D L w → 0 ≤ b < num_banks → 0 ≤ u < num_upstreams (arb w) → K b p →
  ∃ x r w', zget (banks (arb w)) b = Some x ∧ r = arb_room (buf_size (arb w)) p u x ∧
    recvTimingReqUp ev p b u w = ok (r, w') ∧ arb_step (ev ArbEvent) w w' ∧
    (r = true → is_scheduled (ev ArbEvent) w' = true) ∧
    arb w' = arb (put_bank b (if r then (if p_write p then accept_write p u x else accept_read p u x)
                              else b_retryReq (zset (retryReq x) u true) x) w) ∧
    arb_rep D (if r && negb (p_write p) then at_bank b (L b ++ [(p, u)]) L else L) w'.
Proof using All.
  intros Hr Hb Hu HK. destruct (get_bank D L w b Hr Hb) as [x Hx]. exists x, (arb_room (buf_size (arb w)) p u x).
  pose proof (ar_bank _ _ _ Hr b x Hx) as Hbr. pose proof (ar_size _ _ _ Hr) as Hsz.
  rewrite (recv_run p b u x w Hb Hu Hx). unfold arb_room. destruct (p_write p) eqn:Hw; cbn [negb].
  - pose proof (take_write_run D L w p b u x Hr Hb Hu Hx) as Ht. rewrite andb_false_r.
    destruct (Z.ltb_spec (Z.of_nat (length (default [] (zget (writeInBufs x) u)))) (buf_size (arb w))) as [Hlt|Hge].
    + destruct (answer_true D L w b u (arb (put_bank b (accept_write p u x) w))) as (w' & Ha & ? & ? & ? & ?).
      { rewrite arb_put_bank. apply (put_bank_same D L w b); [done|done|]. by apply accept_write_rep. }
      exists w'. split_and!; try done. rewrite (M_bind_ok_intro _ _ _ _ _ Ht). rewrite arb_put_bank in Ha. exact Ha.
    + destruct (answer_false D L w b u x Hr Hb Hu Hx) as (Ha & ? & ?).
      eexists. rewrite (M_bind_ok_intro _ _ _ _ _ Ht). split_and!; try done.
  - pose proof (take_read_run D L w p b u x Hr Hb Hu Hx) as Ht. rewrite andb_true_r.
    destruct (Z.ltb_spec (nbrOutstanding_ x + Z.of_nat (length (responseQueue x))) (buf_size (arb w))) as [Hlt|Hge].
    + destruct (answer_true D (at_bank b (L b ++ [(p, u)]) L) w b u (arb (put_bank b (accept_read p u x) w)))
        as (w' & Ha & ? & ? & ? & ?).
      { rewrite arb_put_bank. eapply arb_rep_ext; [| |apply (put_bank_rep D L w b _ (D b) (L b ++ [(p, u)]) Hr Hb)].
        - intros j. unfold at_bank. case_decide; by subst.
        - done.
        - apply accept_read_rep; [done|done|lia|done|done|]. destruct Hbr. lia. }
      exists w'. split_and!; try done. rewrite (M_bind_ok_intro _ _ _ _ _ Ht). rewrite arb_put_bank in Ha. exact Ha.
    + destruct (answer_false D L w b u x Hr Hb Hu Hx) as (Ha & ? & ?).
      eexists. rewrite (M_bind_ok_intro _ _ _ _ _ Ht). split_and!; try done.
Qed.

(** (C14) A request is accepted exactly when the bank has room (reads: those
    without an answer and the responses not yet delivered stay below the limit;
    writes: the buffer of the upstream does); an accepted one is the last of its
    upstream's buffer and, a read, of the record of reads without an answer, and
    the arbiter is awake; a refused one leaves only the retry flag. *)
Theorem arb_request D L w p b u :
  arb_rep D L w → 0 ≤ b < num_banks → 0 ≤ u < num_upstreams (arb w) → K b p →
  ∃ x r w', zget (banks (arb w)) b = Some x ∧ r = arb_room (buf_size (arb w)) p u x ∧
    recvTimingReqUp ev p b u w = ok (r, w') ∧ (r = true → is_scheduled (ev ArbEvent) w' = true) ∧
    arb w' = arb (put_bank b (if r then (if p_write p then accept_write p u x else accept_read p u x)
                              else b_retryReq (zset (retryReq x) u true) x) w) ∧
    arb_rep D (if r && negb (p_write p) then at_bank b (L b ++ [(p, u)]) L else L) w'.
Proof using All.
  intros Hr Hb Hu HK. destruct (arb_request_ok D L w p b u Hr Hb Hu HK) as (x & r & w' & ? & ? & ? & _ & ?).
  by exists x, r, w'.
Qed.

(** ** Responses from the memory *)

Lemma ups_at_app a l l' : ups_at a (l ++ l') = ups_at a l ++ ups_at a l'.
Proof. unfold ups_at. by rewrite filter_app, fmap_app. Qed.
Lemma ups_at_cons a e l : ups_at a (e :: l) = (if decide (p_addr e.1 = a) then [e.2] else []) ++ ups_at a l.
Proof. unfold ups_at. rewrite filter_cons. by case_decide. Qed.
Lemma ups_at_none a l : Forall (fun e => p_addr e.1 ≠ a) l → ups_at a l = [].
Proof. unfold ups_at. induction 1 as [|e l He Hl IH]; [done|]. by rewrite filter_cons, decide_False. Qed.

Lemma pop_upstream_ok (g : gmap Z (list Z)) l1 p u l2 :
  (∀ a, default [] (g !! a) = ups_at a (l1 ++ (p, u) :: l2)) → Forall (fun e => p_addr e.1 ≠ p_addr p) l1 →
  ∃ g', pop_upstream (p_addr p) g = ok (u, g') ∧ ∀ a, default [] (g' !! a) = ups_at a (l1 ++ l2).
Proof.
  intros Hg Hne.
  assert (∀ a, a ≠ p_addr p → ups_at a (l1 ++ (p, u) :: l2) = ups_at a (l1 ++ l2)) as Ho.
  { intros a Ha. rewrite !ups_at_app, ups_at_cons, decide_False by (simpl; congruence). done. }
  assert (ups_at (p_addr p) (l1 ++ l2) = ups_at (p_addr p) l2) as Hs by (by rewrite ups_at_app, ups_at_none).
  unfold pop_upstream. rewrite Hg, ups_at_app, ups_at_none, ups_at_cons, decide_True by done. simpl.
  destruct (ups_at (p_addr p) l2) as [|v q] eqn:E; eexists; (split; [reflexivity|]); intros a;
    (destruct (decide (a = p_addr p)) as [->|Ha];
     [rewrite ?lookup_delete_eq, ?lookup_insert_eq, Hs; done|
      rewrite ?lookup_delete_ne, ?lookup_insert_ne, Hg by done; by apply Ho]).
Qed.

(** The bank behind a response: the read leaves the record and its packet joins
    the response queue. *)
Lemma respond_rep Kb n size d d' l1 l2 p u x r g :
  bank_rep Kb n size d (l1 ++ (p, u) :: l2) x → d ≡ₚ p_addr p :: d' → groups r (fst <$> (l1 ++ l2)) →
  (∀ a, default [] (g !! a) = ups_at a (l1 ++ l2)) →
  bank_rep Kb n size d' (l1 ++ l2)
    (b_responses (responseQueue x ++ [(p, u)]) (b_upstream g (b_outstanding r (nbrOutstanding_ x - 1) x))).
Proof.
  intros [] Hd Hr Hg. rewrite !length_app in *. simpl in *. rewrite Forall_app, Forall_cons in br_from0.
  destruct br_from0 as (? & ? & ?). split; simpl; try done; rewrite ?length_app; simpl; try lia.
  - by apply Forall_app.
  - apply Forall_app. split; [done|]. by apply Forall_singleton.
  - apply (Permutation_cons_inv (a := p_addr p)). rewrite Permutation_middle, <- Hd, <- br_where0.
    rewrite !fmap_app. simpl. by rewrite Permutation_middle.
Qed.

Lemma oldest_read Kb n size d l x a :
  bank_rep Kb n size d l x → a ∈ d →
  ∃ l1 p u l2 r, l = l1 ++ (p, u) :: l2 ∧ p_addr p = a ∧ Forall (fun e => p_addr e.1 ≠ a) l1 ∧
    pop_at a (outstanding x) = ok (p, r) ∧ groups r (fst <$> (l1 ++ l2)).
Proof.
  intros Hr Hin. destruct (groups_pop _ _ a (br_reads _ _ _ _ _ _ Hr)) as (p & L1 & L2 & r & E & Hp & Hne & Hpop & Hg).
  { rewrite (br_where _ _ _ _ _ _ Hr). apply elem_of_app. by right. }
  apply fmap_app_inv in E as (l1 & l' & -> & E' & ->). symmetry in E'.
  apply fmap_cons_inv in E' as ([p' u] & l2 & ? & -> & ->). simpl in *. subst p'.
  exists l1, p, u, l2, r. rewrite Forall_fmap in Hne. split_and!; try done. by rewrite fmap_app.
Qed.

Lemma arb_response_ok D L w p b d :
  arb_rep D L w → 0 ≤ b < num_banks → D b ≡ₚ p_addr p :: d →
  ∃ l1 q u l2 w', L b = l1 ++ (q, u) :: l2 ∧ p_addr q = p_addr p ∧ Forall (fun e => p_addr e.1 ≠ p_addr p) l1 ∧
    recvTimingResp ev p b w = ok (true, w') ∧ is_scheduled (ev SendResponse) w' = true ∧
    arb_rep (at_bank b d D) (at_bank b (l1 ++ l2) L) w' ∧
    (∃ x x', zget (banks (arb w)) b = Some x ∧ zget (banks (arb w')) b = Some x' ∧
      responseQueue x' = responseQueue x ++ [(q, u)]) ∧
    arb_step (ev SendResponse) w w' ∧ num_upstreams (arb w') = num_upstreams (arb w) ∧ buf_size (arb w') = buf_size (arb w).
Proof using All.
  intros Hr Hb Hd. destruct (get_bank D L w b Hr Hb) as [x Hx]. pose proof (ar_bank _ _ _ Hr b x Hx) as Hbr.
  destruct (oldest_read _ _ _ _ _ _ (p_addr p) Hbr) as (l1 & q & u & l2 & r & El & Hq & Hne & Hpop & Hg); [rewrite Hd; left|].
  rewrite El in Hbr. destruct (pop_upstream_ok (outstandingUpstream x) l1 q u l2) as (g & Hpu & Hups); [apply Hbr|by rewrite Hq|].
  pose proof (br_nbr _ _ _ _ _ _ Hbr) as Hn. rewrite length_app in Hn. simpl in Hn.
  exists l1, q, u, l2. unfold recvTimingResp. rewrite bank_ok_true by done. cbn [assert_].
  rewrite (M_bind_ok_intro (mret tt) _ w tt w eq_refl), (M_bind_ok_intro _ _ _ _ _ (the_bank_run b x w Hx)).
  unfold lift. unfold mbind at 1, M_bind at 1. rewrite Hpop. cbn beta iota.
  destruct (Z.ltb_spec 0 (nbrOutstanding_ x)); [|lia]. cbn [assert_].
  rewrite (M_bind_ok_intro (mret tt) _ w tt w eq_refl).
  unfold mbind at 1, M_bind at 1. rewrite Hq in Hpu. rewrite Hpu. cbn beta iota.
  rewrite (M_bind_ok_intro _ _ _ _ _ (set_bank_run b _ w)).
  set (x1 := b_upstream g (b_outstanding r (nbrOutstanding_ x - 1) x)).
  unfold accessAndRespond. unfold mbind at 1, M_bind at 1.
  rewrite (M_bind_ok_intro _ _ _ _ _ (the_bank_run b x1 (put_bank b x1 w) (put_bank_get b x1 w Hb (ar_len _ _ _ Hr)))).
  rewrite (M_bind_ok_intro _ _ _ _ _ (set_bank_run b _ _)).
  set (x2 := b_responses (responseQueue x1 ++ [(q, u)]) x1).
  assert (put_bank b x2 (put_bank b x1 w) = put_bank b x2 w) as ->.
  { unfold put_bank at 1. rewrite arb_put_bank. simpl. rewrite zset_zset. apply put_put. }
  assert (arb_rep (at_bank b d D) (at_bank b (l1 ++ l2) L) (put_bank b x2 w)) as Hr2.
  { apply put_bank_rep; [done|done|]. apply (respond_rep _ _ _ (D b) d l1 l2 q u x r g Hbr); [by rewrite Hq|done|done]. }
  destruct (arb_once _ _ _ (ev SendResponse) _ Hr2) as (w' & Hs & Hr' & Ha & Hst & Hsc).
  change (put DramArb _ w) with (put_bank b x2 w) in Hs.
  rewrite Hs. exists w'. split_and!; try done; [|by rewrite Ha..].
  exists x, x2. split_and!; [done| |done]. rewrite Ha. rewrite <- (arb_put_bank b x2 w). by apply put_bank_get; [|apply Hr].
Qed.

(** (C15) A response of the memory finds its read: for an address in flight
    no assertion fails; the oldest read of that address that has no answer is
    taken, its packet is queued for the upstream that sent it, and the sender is
    awake. *)
Theorem arb_response D L w p b d :
  arb_rep D L w → 0 ≤ b < num_banks → D b ≡ₚ p_addr p :: d →
  ∃ l1 q u l2 w', L b = l1 ++ (q, u) :: l2 ∧ p_addr q = p_addr p ∧ Forall (fun e => p_addr e.1 ≠ p_addr p) l1 ∧
    recvTimingResp ev p b w = ok (true, w') ∧ is_scheduled (ev SendResponse) w' = true ∧
    arb_rep (at_bank b d D) (at_bank b (l1 ++ l2) L) w' ∧
    ∃ x x', zget (banks (arb w)) b = Some x ∧ zget (banks (arb w')) b = Some x' ∧
      responseQueue x' = responseQueue x ++ [(q, u)].
Proof using All.
  intros Hr Hb Hd. destruct (arb_response_ok D L w p b d Hr Hb Hd) as (l1 & q & u & l2 & w' & ? & ? & ? & ? & ? & ? & ? & _).
  by exists l1, q, u, l2, w'.
Qed.

(** ** The arbiter's own events *)

Section Events.
(** What the arbiter relies on. [I D] is the peers' invariant when the reads [D]
    are at the memory. A memory that is offered a read has less than the limit,
    and takes or refuses it without failing; a peer does not reach into the
    arbiter, except the one that gets a retry, which may call back and leaves the
    arbiter in its invariant. *)
Context (sendReq : Z -> PacketPtr -> M W bool) (sendResp : Z -> Z -> PacketPtr -> M W bool)
        (sendRetry : Z -> Z -> M W unit) (I : (Z -> list Z) -> W -> Prop).

Record peers_ok : Prop := {
  po_req b p D L w : I D w → arb_rep D L w → 0 ≤ b < num_banks → K b p → p_write p = false →
    Z.of_nat (length (D b)) < buf_size (arb w) →
    ∃ r w', sendReq b p w = ok (r, w') ∧ arb w' = arb w ∧ sched_step w w' ∧
      I (if r then at_bank b (p_addr p :: D b) D else D) w';
  po_write b p D L w : I D w → arb_rep D L w → 0 ≤ b < num_banks → K b p → p_write p = true →
    ∃ r w', sendReq b p w = ok (r, w') ∧ arb w' = arb w ∧ sched_step w w' ∧ I D w';
  po_resp b u p D L w : I D w → arb_rep D L w → 0 ≤ b < num_banks → 0 ≤ u < num_upstreams (arb w) →
    ∃ r w', sendResp b u p w = ok (r, w') ∧ arb w' = arb w ∧ sched_step w w' ∧ I D w';
  po_retry b u D L w : I D w → arb_rep D L w → 0 ≤ b < num_banks → 0 ≤ u < num_upstreams (arb w) →
    ∃ L' w', sendRetry b u w = ok (tt, w') ∧ I D w' ∧ arb_rep D L' w' ∧ sched_step w w' ∧
      num_upstreams (arb w') = num_upstreams (arb w);
  po_put a D w : I D w → buf_size a = buf_size (arb w) → num_upstreams a = num_upstreams (arb w) →
    I D (put DramArb a w);
  po_once e D w w' : e = ev ArbEvent ∨ e = ev SendResponse → I D w → sched_step w w' → sch_frame w w' →
    (∀ e', is_scheduled e' w' = true → is_scheduled e' w = true ∨ e' = e) → I D w'
}.
Context (Hpeers : peers_ok).

(** The arbiter with [n] upstreams and its peers, at some point of a handler that
    began in [w0]. *)
Record all_inv (w0 : W) (n : Z) D w : Prop := {
  ai_peers : I D w;
  ai_ups : num_upstreams (arb w) = n;
  ai_step : sched_step w0 w;
  ai_rep : ∃ L, arb_rep D L w
}.

Lemma all_inv_put w0 n D w b x :
  all_inv w0 n D w → 0 ≤ b < num_banks →
  (∀ L, arb_rep D L w → bank_rep (K b) n (buf_size (arb w)) (D b) (L b) x) → all_inv w0 n D (put_bank b x w).
Proof using All.
  intros [HI <- Hst [L Hr]] Hb Hx. split.
  - by apply (po_put Hpeers).
  - by rewrite arb_put_bank.
  - eapply sched_step_trans; [done|]. apply (sched_step_put DramArb), Hr.
  - exists L. apply put_bank_same; auto.
Qed.

(** A peer's step that leaves the arbiter alone. *)
Lemma all_inv_peer w0 n D D' w w' :
  all_inv w0 n D w → arb w' = arb w → sched_step w w' → I D' w' → D' = D → all_inv w0 n D' w'.
Proof using All.
  intros [_ <- Hst [L Hr]] Ha Hs HI ->. split; [done|by rewrite Ha|by eapply sched_step_trans|].
  exists L. apply (arb_rep_frame _ _ w); [done|apply Hs|apply Hs|done].
Qed.

Lemma once_inv w0 n D w e :
  e = ev ArbEvent ∨ e = ev SendResponse → all_inv w0 n D w →
  ∃ w', schedule_once e 1 w = ok (tt, w') ∧ all_inv w0 n D w' ∧ arb w' = arb w ∧ is_scheduled e w' = true.
Proof using All.
  intros He Hall. pose proof Hall as [HI Hn Hst [L Hr]].
  destruct (schedule_once_ok e w) as (w' & Hs & Hss & Hf & Hfl); [apply Hr|apply Hr|].
  assert (arb w' = arb w) as Ha by (unfold arb; by apply (ind_frame (C := DramArb))).
  exists w'. split_and!; [done| |done|by rewrite Hfl, decide_True].
  apply (all_inv_peer w0 n D D w w' Hall Ha Hss); [|done]. apply (po_once Hpeers e D w w' He HI Hss Hf).
  intros e'. rewrite Hfl. case_decide; auto.
Qed.

Lemma pop_response_rep Kb n size d l x e q :
  bank_rep Kb n size d l x → responseQueue x = e :: q → bank_rep Kb n size d l (b_responses q x).
Proof.
  intros [] Eq. rewrite Eq in *. simpl in *. apply Forall_cons in br_to0 as [_ ?]. split; simpl; try done. lia.
Qed.
Lemma stall_rep Kb n size d l x u v :
  bank_rep Kb n size d l x → bank_rep Kb n size d l (b_retryResp (zset (retryResp x) u v) x).
Proof. intros []. split; simpl; try done. by rewrite length_zset. Qed.

(** The end of [sendResponse_step]: the retry of a refused request. *)
Lemma retry_tail_ok w0 n D w b u t :
  all_inv w0 n D w → 0 ≤ b < num_banks → 0 ≤ u < n → 0 ≤ t < n →
  ∃ w', (x ← the_bank b; again ← flag (retryReq x) u;
     if (again : bool) then sendRetry b t ;; x ← the_bank b; set_bank b (b_retryReq (zset (retryReq x) u false) x)
     else mret tt) w = ok (tt, w') ∧ all_inv w0 n D w'.
Proof using All.
  intros Hall Hb Hu Ht. pose proof Hall as [HI <- Hst [L Hr]]. destruct (get_bank D L w b Hr Hb) as [x Hx].
  rewrite (M_bind_ok_intro _ _ _ _ _ (the_bank_run b x w Hx)).
  destruct (flag_run (retryReq x) u w) as (v & _ & Hflag); [apply (ar_bank _ _ _ Hr b x Hx)|done|apply Hr|].
  rewrite (M_bind_ok_intro _ _ _ _ _ Hflag). destruct v; [|by exists w].
  destruct (po_retry Hpeers b t D L w HI Hr Hb Ht) as (L' & w1 & Hs & HI1 & Hr1 & Hs1 & En).
  rewrite (M_bind_ok_intro _ _ _ _ _ Hs).
  destruct (get_bank D L' w1 b Hr1 Hb) as [y Hy]. rewrite (M_bind_ok_intro _ _ _ _ _ (the_bank_run b y w1 Hy)).
  rewrite set_bank_run. eexists. split; [reflexivity|].
  apply (all_inv_put w0 (num_upstreams (arb w)) D w1); [|done|].
  - split; [done|done|by eapply sched_step_trans|by exists L'].
  - intros L1 Hr2. rewrite <- En. apply refuse_rep. by apply (ar_bank _ _ _ Hr2).
Qed.

Lemma sendResponse_step_ok w0 n D w b u :
  all_inv w0 n D w → 0 ≤ b < num_banks → 0 ≤ u < n →
  ∃ w', sendResponse_step ev sendResp sendRetry b u w = ok (tt, w') ∧ all_inv w0 n D w'.
Proof using All.
  intros Hall Hb Hu. pose proof Hall as [HI Hn Hst [L Hr]].
  destruct (get_bank D L w b Hr Hb) as [x Hx]. pose proof (ar_bank _ _ _ Hr b x Hx) as Hbr.
  unfold sendResponse_step. rewrite (M_bind_ok_intro _ _ _ _ _ (the_bank_run b x w Hx)).
  destruct (flag_run (retryResp x) u w) as (v & _ & Hflag); [apply Hbr|by rewrite Hn|apply Hr|].
  rewrite (M_bind_ok_intro _ _ _ _ _ Hflag). destruct v; [by exists w|].
  destruct (responseQueue x) as [|[p t] q] eqn:Eq; [by exists w|].
  assert (0 ≤ t < num_upstreams (arb w)) as Ht.
  { pose proof (br_to _ _ _ _ _ _ Hbr) as Hto. rewrite Eq in Hto. by apply Forall_cons in Hto as [? _]. }
  destruct (po_resp Hpeers b t p D L w HI Hr Hb Ht) as (r & w1 & Hs & Ha & Hss & HI1).
  rewrite (M_bind_ok_intro _ _ _ _ _ Hs). pose proof (all_inv_peer w0 n D D w w1 Hall Ha Hss HI1 eq_refl) as Hall1.
  assert (zget (banks (arb w1)) b = Some x) as Hx1 by by rewrite Ha.
  rewrite (M_bind_ok_intro _ _ _ _ _ (the_bank_run b x w1 Hx1)). rewrite Hn in Ht.
  assert (∀ L, arb_rep D L w1 → bank_rep (K b) n (buf_size (arb w1)) (D b) (L b) x) as Hbr1.
  { intros L1 Hr1. rewrite <- (ai_ups _ _ _ _ Hall1). by apply (ar_bank _ _ _ Hr1). }
  destruct r.
  - rewrite Eq. rewrite (M_bind_ok_intro _ _ _ _ _ (set_bank_run b _ w1)).
    assert (all_inv w0 n D (put_bank b (b_responses q x) w1)) as Hall2.
    { apply all_inv_put; [done|done|]. intros L1 Hr1. eapply pop_response_rep; [by apply Hbr1|done]. }
    destruct q as [|e q'].
    + rewrite (M_bind_ok_intro (mret tt) _ _ tt _ eq_refl). by apply (retry_tail_ok w0 n D).
    + destruct (once_inv w0 n D _ (ev SendResponse) (or_intror eq_refl) Hall2) as (w3 & Hs3 & Hall3 & _).
      rewrite (M_bind_ok_intro _ _ _ _ _ Hs3). by apply (retry_tail_ok w0 n D).
  - rewrite set_bank_run. eexists. split; [reflexivity|]. apply all_inv_put; [done|done|].
    intros L1 Hr1. by apply stall_rep, Hbr1.
Qed.

Lemma sendResponse_ok w0 n D w :
  all_inv w0 n D w → ∃ w', sendResponse ev sendResp sendRetry w = ok (tt, w') ∧ all_inv w0 n D w'.
Proof using All.
  intros Hall. unfold sendResponse. rewrite (M_bind_ok_intro (gets _) _ w _ w eq_refl). rewrite (ai_ups _ _ _ _ Hall).
  apply (for_each_total (all_inv w0 n D)); [|done]. intros b w1 Hb%elem_of_zseq Hw1.
  apply (for_each_total (all_inv w0 n D)); [|done]. intros u w2 Hu%elem_of_zseq Hw2. by apply sendResponse_step_ok.
Qed.

(** One round of a bank's buffers: [D'] is what is at the memory behind it. *)
Definition sent_more D D' b : Prop := D' b = D b ∨ ∃ a, D' b ≡ₚ a :: D b.

Lemma pop_read_rep Kb n size d l x u p q :
  bank_rep Kb n size d l x → 0 ≤ u < n → zget (readInBufs x) u = Some (p :: q) →
  bank_rep Kb n size (p_addr p :: d) l (b_rr (Z.rem (u + 1) n) (rrWriteIdx x) (b_reads (zset (readInBufs x) u q) x)).
Proof.
  intros [] Hu Hq. split; simpl; try done.
  - apply zset_Forall; [done|]. rewrite Forall_forall in br_reads_ok0.
    by specialize (br_reads_ok0 _ (zget_elem _ _ _ Hq)) as [_ ?]%Forall_cons.
  - by rewrite length_zset.
  - split; [|apply br_rr0]. rewrite Z.rem_mod_nonneg by lia. apply Z.mod_pos_bound. lia.
  - rewrite br_where0, (concat_zset_perm _ u (p :: q) q p Hq) by done. simpl. by rewrite Permutation_middle.
Qed.
Lemma pop_write_rep Kb n size d l x u p q :
  bank_rep Kb n size d l x → 0 ≤ u < n → zget (writeInBufs x) u = Some (p :: q) →
  bank_rep Kb n size d l (b_rr (rrReadIdx x) (Z.rem (u + 1) n) (b_writes (zset (writeInBufs x) u q) x)).
Proof.
  intros [] Hu Hq. split; simpl; try done.
  - apply zset_Forall; [done|]. rewrite Forall_forall in br_writes_ok0.
    by specialize (br_writes_ok0 _ (zget_elem _ _ _ Hq)) as [_ ?]%Forall_cons.
  - by rewrite length_zset.
  - apply zset_Forall; [done|]. rewrite Forall_forall in br_wbound0.
    specialize (br_wbound0 _ (zget_elem _ _ _ Hq)). simpl in br_wbound0. lia.
  - split; [apply br_rr0|]. rewrite Z.rem_mod_nonneg by lia. apply Z.mod_pos_bound. lia.
Qed.

Lemma rem_range a k n : 0 ≤ a < n → 0 ≤ k < n → 0 ≤ Z.rem (a + k) n < n.
Proof. intros. rewrite Z.rem_mod_nonneg by lia. apply Z.mod_pos_bound. lia. Qed.

(** A read in a buffer is not at the memory yet, so the memory has room for it. *)
Lemma buffered_room Kb n size d l x u p q :
  bank_rep Kb n size d l x → zget (readInBufs x) u = Some (p :: q) →
  Kb p ∧ p_write p = false ∧ Z.of_nat (length d) < size.
Proof.
  intros [] Hq. rewrite Forall_forall in br_reads_ok0.
  specialize (br_reads_ok0 _ (zget_elem _ _ _ Hq)) as [[? ?] _]%Forall_cons. split_and!; [done|done|].
  pose proof (Permutation_length br_where0) as Hl. rewrite length_app, !length_fmap in Hl.
  rewrite (concat_zset_perm _ u (p :: q) q p Hq) in Hl by done. simpl in Hl. lia.
Qed.

Lemma try_read_ok w0 n D w b k :
  all_inv w0 n D w → 0 ≤ b < num_banks → 0 ≤ k < n →
  ∃ r w', try_read sendReq b n k w = ok (r, w') ∧
    if (r : bool) then ∃ a, all_inv w0 n (at_bank b (a :: D b) D) w' else all_inv w0 n D w'.
Proof using All.
  intros Hall Hb Hk. pose proof Hall as [HI <- Hst [L Hr]].
  destruct (get_bank D L w b Hr Hb) as [x Hx]. pose proof (ar_bank _ _ _ Hr b x Hx) as Hbr.
  unfold try_read. rewrite (M_bind_ok_intro _ _ _ _ _ (the_bank_run b x w Hx)). cbn zeta.
  set (n := num_upstreams (arb w)) in *. set (u := Z.rem (rrReadIdx x + k) n).
  assert (0 ≤ u < n) as Hu by (apply rem_range; [apply (br_rr _ _ _ _ _ _ Hbr)|done]).
  destruct (zget_is_Some (readInBufs x) u) as [q Hq]; [rewrite (br_rbufs _ _ _ _ _ _ Hbr); lia|].
  unfold lift, vec_get. rewrite Hq. cbn [opt_exc]. rewrite (M_bind_ok_intro (fun w => ok (q, w)) _ w q w eq_refl).
  destruct q as [|p q]; [by exists false, w|].
  destruct (buffered_room _ _ _ _ _ _ u p q Hbr Hq) as (HK & Hpw & Hroom).
  destruct (po_req Hpeers b p D L w HI Hr Hb HK Hpw Hroom) as (r & w1 & Hs & Ha & Hss & HI1).
  rewrite (M_bind_ok_intro _ _ _ _ _ Hs).
  destruct r; [|exists false, w1; split; [done|]; by apply (all_inv_peer w0 n D D w w1)].
  assert (zget (banks (arb w1)) b = Some x) as Hx1 by by rewrite Ha.
  rewrite (M_bind_ok_intro _ _ _ _ _ (the_bank_run b x w1 Hx1)). unfold pop_buf, vec_get. rewrite Hq.
  cbn [opt_exc mbind exc_bind]. unfold mbind at 1, M_bind at 1. rewrite (M_bind_ok_intro _ _ _ _ _ (set_bank_run b _ w1)).
  eexists true, _. split; [reflexivity|]. exists (p_addr p). split.
  - by apply (po_put Hpeers).
  - by rewrite arb_put_bank, Ha.
  - eapply sched_step_trans; [exact Hst|]. eapply sched_step_trans; [exact Hss|]. apply (sched_step_put DramArb), Hss.
  - exists L. assert (arb_rep D L w1) as Hr1 by (apply (arb_rep_frame _ _ w); [done|apply Hss|apply Hss|done]).
    eapply arb_rep_ext; [| |apply (put_bank_rep D L w1 b _ (p_addr p :: D b) (L b) Hr1 Hb)].
    + done.
    + intros j. unfold at_bank. case_decide; by subst.
    + rewrite Ha. by apply pop_read_rep.
Qed.

Lemma try_write_ok w0 n D w b k :
  all_inv w0 n D w → 0 ≤ b < num_banks → 0 ≤ k < n →
  ∃ r w', try_write sendReq b n k w = ok (r, w') ∧ all_inv w0 n D w'.
Proof using All.
  intros Hall Hb Hk. pose proof Hall as [HI Hn Hst [L Hr]].
  destruct (get_bank D L w b Hr Hb) as [x Hx]. pose proof (ar_bank _ _ _ Hr b x Hx) as Hbr. rewrite Hn in Hbr.
  unfold try_write. rewrite (M_bind_ok_intro _ _ _ _ _ (the_bank_run b x w Hx)). cbn zeta.
  set (u := Z.rem (rrWriteIdx x + k) n).
  assert (0 ≤ u < n) as Hu by (apply rem_range; [apply (br_rr _ _ _ _ _ _ Hbr)|done]).
  destruct (zget_is_Some (writeInBufs x) u) as [q Hq]; [rewrite (br_wbufs _ _ _ _ _ _ Hbr); lia|].
  unfold lift, vec_get. rewrite Hq. cbn [opt_exc]. rewrite (M_bind_ok_intro (fun w => ok (q, w)) _ w q w eq_refl).
  destruct q as [|p q]; [by exists false, w|].
  assert (K b p ∧ p_write p = true) as [HK Hpw].
  { pose proof (br_writes_ok _ _ _ _ _ _ Hbr) as Hw. rewrite Forall_forall in Hw.
    by specialize (Hw _ (zget_elem _ _ _ Hq)) as [? _]%Forall_cons. }
  destruct (po_write Hpeers b p D L w HI Hr Hb HK Hpw) as (r & w1 & Hs & Ha & Hss & HI1).
  rewrite (M_bind_ok_intro _ _ _ _ _ Hs). pose proof (all_inv_peer w0 n D D w w1 Hall Ha Hss HI1 eq_refl) as Hall1.
  destruct r; [|by exists false, w1].
  assert (zget (banks (arb w1)) b = Some x) as Hx1 by by rewrite Ha.
  rewrite (M_bind_ok_intro _ _ _ _ _ (the_bank_run b x w1 Hx1)). unfold pop_buf, vec_get. rewrite Hq.
  cbn [opt_exc mbind exc_bind]. unfold mbind at 1, M_bind at 1. rewrite (M_bind_ok_intro _ _ _ _ _ (set_bank_run b _ w1)).
  eexists true, _. split; [reflexivity|]. apply all_inv_put; [done|done|]. intros L1 Hr1.
  eapply pop_write_rep; [|done|done]. rewrite <- (ai_ups _ _ _ _ Hall1). by apply (ar_bank _ _ _ Hr1).
Qed.

Lemma pending_at_ok w0 n D w b u :
  all_inv w0 n D w → 0 ≤ b < num_banks → 0 ≤ u < n → ∃ r, pending_at b u w = ok (r, w).
Proof using All.
  intros [HI <- Hst [L Hr]] Hb Hu. destruct (get_bank D L w b Hr Hb) as [x Hx]. pose proof (ar_bank _ _ _ Hr b x Hx) as Hbr.
  unfold pending_at. rewrite (M_bind_ok_intro _ _ _ _ _ (the_bank_run b x w Hx)).
  destruct (zget_is_Some (readInBufs x) u) as [q Hq]; [rewrite (br_rbufs _ _ _ _ _ _ Hbr); lia|].
  destruct (zget_is_Some (writeInBufs x) u) as [r Hqr]; [rewrite (br_wbufs _ _ _ _ _ _ Hbr); lia|].
  unfold lift, vec_get. rewrite Hq, Hqr. cbn [opt_exc]. unfold mbind, M_bind. destruct q; by eexists.
Qed.

Lemma arbitrate_bank_ok w0 n D w b v :
  all_inv w0 n D w → 0 ≤ b < num_banks →
  ∃ v' w' D', arbitrate_bank sendReq b v w = ok (v', w') ∧ all_inv w0 n D' w' ∧ sent_more D D' b ∧
    ∀ j, j ≠ b → D' j = D j.
Proof using All.
  intros Hi Hb. unfold arbitrate_bank, arbitrateReadRequests.
  destruct (for_any_total (all_inv w0 n D) (fun w => ∃ a, all_inv w0 n (at_bank b (a :: D b) D) w) (try_read sendReq b n) (zseq n) w)
    as (r & w1 & Hr1 & Hi1); [|done|].
  { intros k w1 Hk%elem_of_zseq Hw1. by apply try_read_ok. }
  assert ((n ← gets (fun w => num_upstreams (arb w)); for_any (zseq n) (try_read sendReq b n)) w = ok (r, w1)) as Hread.
  { rewrite (M_bind_ok_intro (gets _) _ w _ w eq_refl). cbn beta. by rewrite (ai_ups _ _ _ _ Hi). }
  rewrite (M_bind_ok_intro _ _ _ _ _ Hread).
  assert (∃ D' r2 w2, (if r then mret true else arbitrateWriteRequests sendReq b) w1 = ok (r2, w2) ∧ all_inv w0 n D' w2 ∧
    sent_more D D' b ∧ ∀ j, j ≠ b → D' j = D j) as (D' & r2 & w2 & Hwr & Hi2 & Hm & Ho).
  { destruct r.
    - destruct Hi1 as [a Hi1]. exists (at_bank b (a :: D b) D), true, w1. split_and!; [done|done| |].
      + right. exists a. by rewrite at_bank_eq.
      + intros j Hj. by rewrite at_bank_ne.
    - destruct (for_any_total (all_inv w0 n D) (all_inv w0 n D) (try_write sendReq b n) (zseq n) w1) as (r2 & w2 & Hr2 & Hi2); [|done|].
      { intros k w2 Hk%elem_of_zseq Hw2. destruct (try_write_ok w0 n D w2 b k Hw2 Hb Hk) as (r2 & w3 & ? & ?).
        exists r2, w3. split; [done|]. by destruct r2. }
      exists D, r2, w2. split_and!; [|by destruct r2|by left|done].
      unfold arbitrateWriteRequests. rewrite (M_bind_ok_intro (gets _) _ w1 _ w1 eq_refl). cbn beta.
      by rewrite (ai_ups _ _ _ _ Hi1). }
  rewrite (M_bind_ok_intro _ _ _ _ _ Hwr).
  destruct (for_any_total (fun w => w = w2) (fun w => w = w2) (pending_at b) (zseq n) w2) as (r3 & w3 & Hr3 & Hi3); [|done|].
  { intros u w3 Hu%elem_of_zseq ->. destruct (pending_at_ok w0 n D' w2 b u Hi2 Hb Hu) as [r3 ?].
    exists r3, w2. split; [done|]. by destruct r3. }
  assert (w3 = w2) as -> by by destruct r3.
  assert (checkPendingRequests b w2 = ok (r3, w2)) as Hcheck.
  { unfold checkPendingRequests. rewrite (M_bind_ok_intro (gets _) _ w2 _ w2 eq_refl). cbn beta.
    by rewrite (ai_ups _ _ _ _ Hi2). }
  rewrite (M_bind_ok_intro _ _ _ _ _ Hcheck). by eexists _, w2, D'.
Qed.

Lemma arbitrate_banks_ok w0 n l D w v :
  all_inv w0 n D w → NoDup l → (∀ b, b ∈ l → 0 ≤ b < num_banks) →
  ∃ v' w' D', for_acc l v (arbitrate_bank sendReq) w = ok (v', w') ∧ all_inv w0 n D' w' ∧
    (∀ b, b ∈ l → sent_more D D' b) ∧ ∀ b, b ∉ l → D' b = D b.
Proof using All.
  intros Hi Hnd. revert D w v Hi. induction Hnd as [|b l Hni Hnd IH]; intros D w v Hi Hl; simpl.
  { exists v, w, D. split_and!; try done. by intros b ?%elem_of_nil. }
  destruct (arbitrate_bank_ok w0 n D w b v Hi) as (v1 & w1 & D1 & Hr & Hi1 & Hm & Ho); [apply Hl; left|].
  rewrite (M_bind_ok_intro _ _ _ _ _ Hr).
  destruct (IH D1 w1 v1 Hi1) as (v2 & w2 & D2 & Hr2 & Hi2 & Hm2 & Ho2); [intros; apply Hl; by right|].
  exists v2, w2, D2. split_and!; [done|done| |].
  - intros j [->|Hj]%elem_of_cons.
    + unfold sent_more. by rewrite (Ho2 _ Hni).
    + destruct (Hm2 j Hj) as [E|[a E]]; unfold sent_more; rewrite (Ho j) in E by (by intros ->); eauto.
  - intros j Hj. rewrite Ho2 by set_solver. apply Ho. set_solver.
Qed.

Lemma arbitrate_ok w0 n D w :
  all_inv w0 n D w →
  ∃ w' D', arbitrate ev sendReq w = ok (tt, w') ∧ all_inv w0 n D' w' ∧ ∀ b, 0 ≤ b < num_banks → sent_more D D' b.
Proof using All.
  intros Hi. destruct (arbitrate_banks_ok w0 n (zseq num_banks) D w (false, false) Hi) as ([v1 v2] & w1 & D1 & Hr & Hi1 & Hm & _).
  { unfold zseq. apply (NoDup_fmap_2 _). apply NoDup_seq. }
  { intros b Hb%elem_of_zseq. done. }
  assert (∀ b, 0 ≤ b < num_banks → sent_more D D1 b) as Hm' by (intros b Hb; by apply Hm, elem_of_zseq).
  unfold arbitrate. rewrite (M_bind_ok_intro _ _ _ _ _ Hr). destruct (v2 || v1); [|by exists w1, D1].
  destruct (once_inv w0 n D1 w1 (ev ArbEvent) (or_introl eq_refl) Hi1) as (w2 & Hs & Hi2 & _). by exists w2, D1.
Qed.

Lemma handleRespRetry_ok w0 n D w b u :
  all_inv w0 n D w → 0 ≤ b < num_banks → 0 ≤ u < n →
  ∃ w', handleRespRetry ev sendResp sendRetry b u w = ok (tt, w') ∧ all_inv w0 n D w'.
Proof using All.
  intros Hi Hb Hu. pose proof Hi as [HI Hn Hst [L Hr]]. destruct (get_bank D L w b Hr Hb) as [x Hx].
  unfold handleRespRetry. rewrite bank_ok_true by done. cbn [assert_].
  rewrite (M_bind_ok_intro (mret tt) _ w tt w eq_refl).
  rewrite (M_bind_ok_intro (gets (up_ok u)) _ w _ w eq_refl). rewrite up_ok_true by (by rewrite Hn). cbn [assert_].
  rewrite (M_bind_ok_intro (mret tt) _ w tt w eq_refl).
  rewrite (M_bind_ok_intro _ _ _ _ _ (the_bank_run b x w Hx)). pose proof (ar_bank _ _ _ Hr b x Hx) as Hbr.
  destruct (flag_run (retryResp x) u w) as (v & _ & Hflag); [apply Hbr|by rewrite Hn|apply Hr|].
  rewrite (M_bind_ok_intro _ _ _ _ _ Hflag), (M_bind_ok_intro _ _ _ _ _ (set_bank_run b _ w)).
  apply sendResponse_ok, all_inv_put; [done|done|]. intros L1 Hr1. apply stall_rep. rewrite <- Hn. by apply (ar_bank _ _ _ Hr1).
Qed.

(** (C16) The arbiter's own events and the retries it gets never fail, and keep
    its record in step with its buffers, the memory and its response queues:
    whatever the peers answer, a round of arbitration hands the memory at most
    one read per bank, never more than the limit, and no response is sent to an
    upstream that does not exist. In particular the reads without an answer and
    the undelivered responses of a bank never exceed the limit. Time stands
    still meanwhile. *)
Theorem arb_events_total n D w0 w :
  all_inv w0 n D w →
  (∃ w' D', arbitrate ev sendReq w = ok (tt, w') ∧ all_inv w0 n D' w' ∧ ∀ b, 0 ≤ b < num_banks → sent_more D D' b) ∧
  (∃ w', sendResponse ev sendResp sendRetry w = ok (tt, w') ∧ all_inv w0 n D w') ∧
  (∀ b u, 0 ≤ b < num_banks → 0 ≤ u < n →
     ∃ w', handleRespRetry ev sendResp sendRetry b u w = ok (tt, w') ∧ all_inv w0 n D w') ∧
  (∀ b, 0 ≤ b < num_banks → ∃ w', handleReqRetry ev b w = ok (tt, w') ∧ all_inv w0 n D w').
Proof using All.
  intros Hi. split; [by apply arbitrate_ok|]. split; [by apply sendResponse_ok|].
  split; [intros b u; by apply handleRespRetry_ok|].
  intros b Hb. unfold handleReqRetry. rewrite bank_ok_true by done. cbn [assert_].
  rewrite (M_bind_ok_intro (mret tt) _ w tt w eq_refl).
  destruct (once_inv w0 n D w (ev ArbEvent) (or_introl eq_refl) Hi) as (w2 & ? & ? & _). by exists w2.
Qed.
End Events.

(** ** Round robin *)

Section RoundRobin.
Context (sendReq : Z -> PacketPtr -> M W bool) (b : Z).
(** The memory of bank [b] takes every packet. *)
Context (Htakes : ∀ p w, ∃ w', sendReq b p w = ok (true, w') ∧ arb w' = arb w).

(** [m] rounds of the read buffers of the bank. *)
Fixpoint read_rounds (m : nat) : M W unit :=
  match m with O => mret tt | S m' => _ ← arbitrateReadRequests sendReq b; read_rounds m' end.

(** How far upstream [u] is from its turn. *)
Definition turns (n u : Z) x : Z := (u - rrReadIdx x) mod n.

(** The part of the state the rounds work on. *)
Definition rr_state (n : Z) w x : Prop :=
  num_upstreams (arb w) = n ∧ zget (banks (arb w)) b = Some x ∧ length (readInBufs x) = Z.to_nat n ∧ 0 ≤ rrReadIdx x < n.

Lemma try_read_empty n w x k :
  rr_state n w x → zget (readInBufs x) (Z.rem (rrReadIdx x + k) n) = Some [] → try_read sendReq b n k w = ok (false, w).
Proof.
  intros (_ & Hx & _) Hq. unfold try_read. rewrite (M_bind_ok_intro _ _ _ _ _ (the_bank_run b x w Hx)). cbn zeta.
  unfold lift, vec_get. rewrite Hq. done.
Qed.

Lemma try_read_send n w x k p q :
  rr_state n w x → 0 ≤ k < n → zget (readInBufs x) (Z.rem (rrReadIdx x + k) n) = Some (p :: q) →
  ∃ w' x', try_read sendReq b n k w = ok (true, w') ∧ rr_state n w' x' ∧
    rrReadIdx x' = Z.rem (Z.rem (rrReadIdx x + k) n + 1) n ∧
    readInBufs x' = zset (readInBufs x) (Z.rem (rrReadIdx x + k) n) q.
Proof using Htakes.
  intros (Hn & Hx & Hl & Hrr) Hk Hq. unfold try_read. rewrite (M_bind_ok_intro _ _ _ _ _ (the_bank_run b x w Hx)). cbn zeta.
  set (u := Z.rem (rrReadIdx x + k) n) in *. assert (0 ≤ u < n) as Hu by (by apply rem_range).
  unfold lift, vec_get. rewrite Hq. cbn [opt_exc]. rewrite (M_bind_ok_intro (fun w => ok (p :: q, w)) _ w _ w eq_refl).
  destruct (Htakes p w) as (w1 & Hs & Ha). rewrite (M_bind_ok_intro _ _ _ _ _ Hs).
  assert (zget (banks (arb w1)) b = Some x) as Hx1 by by rewrite Ha.
  rewrite (M_bind_ok_intro _ _ _ _ _ (the_bank_run b x w1 Hx1)). unfold pop_buf, vec_get. rewrite Hq.
  cbn [opt_exc mbind exc_bind]. unfold mbind at 1, M_bind at 1. rewrite (M_bind_ok_intro _ _ _ _ _ (set_bank_run b _ w1)).
  eexists _, (b_rr (Z.rem (u + 1) n) (rrWriteIdx x) (b_reads (zset (readInBufs x) u q) x)).
  split; [reflexivity|]. split; [|done]. split; [by rewrite arb_put_bank, Ha|].
  split; [rewrite arb_put_bank; apply zget_zset_eq; rewrite Ha; by eapply zget_lt|].
  simpl. rewrite length_zset. split; [done|]. rewrite Z.rem_mod_nonneg by lia. apply Z.mod_pos_bound. lia.
Qed.

Lemma turns_index n u x : 0 ≤ rrReadIdx x < n → 0 ≤ u < n → Z.rem (rrReadIdx x + turns n u x) n = u.
Proof.
  intros Hr Hu. unfold turns. assert (0 ≤ (u - rrReadIdx x) mod n < n) by (apply Z.mod_pos_bound; lia).
  rewrite Z.rem_mod_nonneg by lia. rewrite Zplus_mod_idemp_r. rewrite Z.mod_small by lia. lia.
Qed.

(** One round brings a waiting upstream its turn or nearer to it. *)
Lemma read_round n w x u p q :
  rr_state n w x → 0 ≤ u < n → zget (readInBufs x) u = Some (p :: q) →
  ∃ w' x', arbitrateReadRequests sendReq b w = ok (true, w') ∧ rr_state n w' x' ∧
    (zget (readInBufs x') u = Some q ∨
     zget (readInBufs x') u = Some (p :: q) ∧ turns n u x' < turns n u x).
Proof using Htakes.
  intros Hst Hu Hq. pose proof Hst as (Hn & Hx & Hl & Hrr).
  set (busy := fun k => match zget (readInBufs x) (Z.rem (rrReadIdx x + k) n) with Some (_ :: _) => true | _ => false end).
  assert (0 ≤ turns n u x < n) as Ht by (unfold turns; apply Z.mod_pos_bound; lia).
  destruct (first_index busy (turns n u x)) as (k & Hk & Hbusy & Hfirst); [lia|unfold busy; by rewrite turns_index, Hq|].
  unfold busy in Hbusy. remember (Z.rem (rrReadIdx x + k) n) as v eqn:Hvd.
  assert (0 ≤ v < n) as Hv by (rewrite Hvd; apply rem_range; [done|lia]).
  destruct (zget (readInBufs x) v) as [[|p' q']|] eqn:Hqv; [done| |done].
  destruct (try_read_send n w x k p' q' Hst) as (w' & x' & Hr & Hst' & Hrr' & Hb'); [lia|by rewrite <- Hvd|].
  rewrite <- Hvd in Hrr', Hb'. exists w', x'. split; [|split; [done|]].
  - unfold arbitrateReadRequests. rewrite (M_bind_ok_intro (gets _) _ w _ w eq_refl). cbn beta. rewrite Hn.
    destruct (zseq_split n k) as [l ->]; [lia|]. apply for_any_first; [|done].
    intros j Hj%elem_of_zseq. apply (try_read_empty n w x j Hst). specialize (Hfirst j Hj). unfold busy in Hfirst.
    destruct (zget_is_Some (readInBufs x) (Z.rem (rrReadIdx x + j) n)) as [r Hr'].
    { rewrite Hl. pose proof (rem_range (rrReadIdx x) j n Hrr ltac:(lia)). lia. }
    rewrite Hr' in *. by destruct r.
  - rewrite Hb'. destruct (decide (v = u)) as [->|Hne].
    + left. rewrite Hqv in Hq. injection Hq as -> ->. apply zget_zset_eq. rewrite Hl. lia.
    + right. rewrite zget_zset_ne by done. split; [done|].
      assert (k ≠ turns n u x) as Hkt by (intros ->; apply Hne; rewrite Hvd; by apply turns_index).
      assert (turns n u x' = (turns n u x - k - 1) mod n) as ->.
      { unfold turns. rewrite Hrr', Hvd, !Z.rem_mod_nonneg by lia. rewrite Zminus_mod_idemp_r.
        replace (u - ((rrReadIdx x + k) mod n + 1)) with (u - 1 - (rrReadIdx x + k) mod n) by lia.
        rewrite Zminus_mod_idemp_r. replace ((u - rrReadIdx x) mod n - k - 1) with ((u - rrReadIdx x) mod n - (k + 1)) by lia.
        rewrite Zminus_mod_idemp_l. f_equal. lia. }
      rewrite Z.mod_small by lia. lia.
Qed.

(** (C31) Round robin among the upstreams of a bank: a read at the head of an
    upstream's buffer is handed to a memory that takes packets within as many
    rounds as there are upstreams, whatever the other buffers hold. *)
Theorem read_round_robin n w x u p q :
  rr_state n w x → 0 ≤ u < n → zget (readInBufs x) u = Some (p :: q) →
  ∃ m w' x', (1 ≤ m ≤ Z.to_nat n)%nat ∧ read_rounds m w = ok (tt, w') ∧ rr_state n w' x' ∧
    zget (readInBufs x') u = Some q.
Proof using Htakes.
  intros Hst Hu Hq.
  assert (∀ d w x, Z.to_nat (turns n u x) = d → rr_state n w x → zget (readInBufs x) u = Some (p :: q) →
    ∃ m w' x', (1 ≤ m ≤ S d)%nat ∧ read_rounds m w = ok (tt, w') ∧ rr_state n w' x' ∧
      zget (readInBufs x') u = Some q) as Hgo.
  { intros d. induction d as [d IH] using lt_wf_ind. intros w0 x0 Hd Hs0 Hq0.
    destruct (read_round n w0 x0 u p q Hs0 Hu Hq0) as (w1 & x1 & Hr & Hs1 & [Hdone|[Hq1 Hlt]]).
    - exists 1%nat, w1, x1. split; [lia|]. split; [|done]. simpl. by rewrite (M_bind_ok_intro _ _ _ _ _ Hr).
    - assert (0 ≤ turns n u x1) by (unfold turns; apply Z.mod_pos_bound; lia).
      destruct (IH (Z.to_nat (turns n u x1)) ltac:(lia) w1 x1 eq_refl Hs1 Hq1) as (m & w2 & x2 & Hm & Hr2 & Hs2 & Hq2).
      exists (S m), w2, x2. split; [lia|]. split; [|done]. simpl. by rewrite (M_bind_ok_intro _ _ _ _ _ Hr). }
  destruct (Hgo _ w x eq_refl Hst Hq) as (m & w' & x' & Hm & ?). exists m, w', x'. split; [|done].
  assert (0 ≤ turns n u x < n) by (unfold turns; apply Z.mod_pos_bound; lia). lia.
Qed.
End RoundRobin.
End Inv.

(** ** Instances *)

(** An arbiter with two upstreams, the event queue with its two events, and a log
    of the retries it sends. *)
Section Demo.
Definition arb_world : Type := EventQueue (fin 2) * (DramArb * list (Z * Z)).
#[local] Instance arb_queue_of : Has arb_world (EventQueue (fin 2)) := pair_left.
#[local] Instance arb_of : Has arb_world DramArb.
Proof. refine {| get w := w.2.1; put a w := (w.1, (a, w.2.2)) |}; [done| |done]. intros [q [a l]]. reflexivity. Defined.
#[local] Instance arb_apart_l : Apart arb_world (EventQueue (fin 2)) DramArb.
Proof. by split. Qed.
#[local] Instance arb_apart_r : Apart arb_world DramArb (EventQueue (fin 2)).
Proof. by split. Qed.

Definition demo_arb_ev (e : arb_event) : fin 2 := match e with ArbEvent => 0%fin | SendResponse => 1%fin end.
Definition demo_arb : DramArb := match new_DramArb 10 2 with ok a => a | err _ => MkArb 0 0 [] end.
Definition world_of (a : DramArb) : arb_world := (new_queue (all_events (fin 2)), (a, [])).
Definition arb_w : arb_world := world_of demo_arb.
Definition read_of (n : nat) (a : Z) : PacketPtr := MkPtr n (create_read_packet a 64).

Definition any_packet (_ : Z) (_ : PacketPtr) : Prop := True.

Lemma arb_w_rep : arb_rep any_packet (fun _ => []) (fun _ => []) arb_w.
Proof.
  split; [by apply fresh_queue_inv|done|done|done|done|].
  intros b x Hx. assert (x = new_arb_bank 2) as ->; [|by apply bank_rep_new].
  apply zget_elem in Hx. by apply elem_of_replicate_inv in Hx.
Qed.

Lemma arb_request_witness :
  ∃ w', recvTimingReqUp demo_arb_ev (read_of 1 64) 1 0 arb_w = ok (true, w') ∧
    arb_rep any_packet (fun _ => []) (at_bank 1 [(read_of 1 64, 0)] (fun _ => [])) w'.
Proof.
  destruct (arb_request any_packet demo_arb_ev (fun _ => []) (fun _ => []) arb_w (read_of 1 64) 1 0 arb_w_rep)
    as (x & r & w' & Hx & Hr & Hrun & _ & _ & Hi); [done|done|done|].
  assert (x = new_arb_bank 2) as E by (by injection Hx as <-). subst x.
  assert (r = true) as -> by exact Hr. exists w'. split; [exact Hrun|exact Hi].
Defined.

(** Peers that take every packet and note every retry. *)
Definition take_req (_ : Z) (_ : PacketPtr) : M arb_world bool := mret true.
Definition take_resp (_ _ : Z) (_ : PacketPtr) : M arb_world bool := mret true.
Definition note_retry (b u : Z) : M arb_world unit :=
  modify (fun w => (w.1, (w.2.1, w.2.2 ++ [(b, u)]))).

Lemma takers_ok : peers_ok any_packet demo_arb_ev take_req take_resp note_retry (fun _ _ => True).
Proof.
  split; try done.
  - intros b p D L w _ Hr _ _ _ _. exists true, w. split_and!; try done. apply sched_step_refl, Hr.
  - intros b p D L w _ Hr _ _ _. exists true, w. split_and!; try done. apply sched_step_refl, Hr.
  - intros b u p D L w _ Hr _ _. exists true, w. split_and!; try done. apply sched_step_refl, Hr.
  - intros b u D L w _ [Hs Hn ? ? ? ?] _ _. exists L. eexists. split; [reflexivity|]. split; [done|].
    split; [split; assumption|]. split; [by split|done].
Qed.

Lemma arb_w_all : all_inv any_packet (fun _ _ => True) arb_w 2 (fun _ => []) arb_w.
Proof. split; [done|done|apply sched_step_refl, arb_w_rep|]. exists (fun _ => []). exact arb_w_rep. Qed.

Lemma arb_events_total_witness :
  (∃ w' D', arbitrate demo_arb_ev take_req arb_w = ok (tt, w') ∧
     all_inv any_packet (fun _ _ => True) arb_w 2 D' w') ∧
  (∃ w', sendResponse demo_arb_ev take_resp note_retry arb_w = ok (tt, w')).
Proof.
  destruct (arb_events_total any_packet demo_arb_ev take_req take_resp note_retry (fun _ _ => True) takers_ok
              2 (fun _ => []) arb_w arb_w arb_w_all) as ((w1 & D1 & Hr1 & Hi1 & _) & (w2 & Hr2 & _) & _).
  split; [exists w1, D1; split; [exact Hr1|exact Hi1]|exists w2; exact Hr2].
Defined.

(** The arbiter once it has handed the read on: the address is at the memory. *)
Definition bank1 : ArbBank :=
  MkBank {[64 := [read_of 1 64]]} 1 [[]; []] [[]; []] [] (replicate 5 false) (replicate 5 false) 1 0 {[64 := [0]]}.
Definition waiting_w : arb_world := put_bank 1 bank1 arb_w.

Lemma waiting_rep :
  arb_rep any_packet (at_bank 1 [64] (fun _ => [])) (at_bank 1 [(read_of 1 64, 0)] (fun _ => [])) waiting_w.
Proof.
  apply put_bank_rep; [exact arb_w_rep|done|]. split; simpl; try done; try lia.
  - apply (groups_push ∅ [] (read_of 1 64) groups_empty).
  - intros a. rewrite ups_at_cons. change (p_addr (read_of 1 64, 0).1) with 64. case_decide as Ha.
    + subst a. by rewrite lookup_singleton_eq.
    + by rewrite lookup_singleton_ne.
  - by apply Forall_singleton.
  - by repeat constructor.
  - by repeat constructor.
  - by repeat constructor.
Qed.

Lemma arb_response_witness :
  ∃ w', recvTimingResp demo_arb_ev (read_of 1 64) 1 waiting_w = ok (true, w') ∧
    is_scheduled (demo_arb_ev SendResponse) w' = true.
Proof.
  destruct (arb_response any_packet demo_arb_ev _ _ waiting_w (read_of 1 64) 1 [] waiting_rep)
    as (l1 & q & u & l2 & w' & _ & _ & _ & Hr & Hs & _); [done|done|]. exists w'. split; [exact Hr|exact Hs].
Defined.

Definition two_reads : arb_world :=
  put_bank 0 (b_reads [[read_of 1 0]; [read_of 2 512]] (new_arb_bank 2)) arb_w.

Lemma read_round_robin_witness :
  ∃ m w' x', (1 ≤ m ≤ 2)%nat ∧ read_rounds take_req 0 m two_reads = ok (tt, w') ∧
    zget (banks (arb w')) 0 = Some x' ∧ zget (readInBufs x') 1 = Some [].
Proof.
  destruct (read_round_robin take_req 0 ltac:(intros p w; by exists w) 2 two_reads
    (b_reads [[read_of 1 0]; [read_of 2 512]] (new_arb_bank 2)) 1 (read_of 2 512) []) as (m & w' & x' & Hm & Hr & Hs & Hq);
    [by repeat split|done|done|].
  exists m, w', x'. split; [exact Hm|]. split; [exact Hr|]. split; [apply Hs|exact Hq].
Defined.

(** Every bank has one read and bank 0 a second one. *)
Definition nine_reads : arb_world :=
  world_of (MkArb 10 2 (zset (replicate 8 (b_reads [[read_of 1 0]; []] (new_arb_bank 2))) 0
                          (b_reads [[read_of 1 0; read_of 2 512]; []] (new_arb_bank 2)))).

(** The arbiter falls asleep with work left: [has_pending] is that of the last
    bank only, so when every bank sends in a round and the last one is then
    empty, the next round is not scheduled although another bank has a request
    waiting. *)
Theorem arb_sleeps_with_work :
  ∃ w' x', arbitrate demo_arb_ev take_req nine_reads = ok (tt, w') ∧
    zget (banks (arb w')) 0 = Some x' ∧ readInBufs x' = [[read_of 2 512]; []] ∧
    is_scheduled (demo_arb_ev ArbEvent) w' = false.
Proof. eexists _, _. split; [vm_compute; reflexivity|]. split; [reflexivity|]. split; reflexivity. Qed.

(** Two responses for upstream 0, and a request of upstream 1 was refused. *)
Definition refused_one : arb_world :=
  put_bank 0 (b_retryReq [false; true; false; false; false]
    (b_responses [(read_of 1 0, 0); (read_of 2 0, 0)] (new_arb_bank 2))) arb_w.

(** A retry goes to the wrong upstream: the flag of the loop's upstream is tested
    and cleared, but the signal is sent to the upstream the response was for.
    Upstream 1, whose request was refused, loses its flag and hears nothing;
    upstream 0 gets a retry it does not wait for. *)
Theorem retry_goes_astray :
  ∃ w' x', sendResponse demo_arb_ev take_resp note_retry refused_one = ok (tt, w') ∧
    w'.2.2 = [(0, 0)] ∧ zget (banks (arb w')) 0 = Some x' ∧ retryReq x' = replicate 5 false.
Proof. eexists _, _. split; [vm_compute; reflexivity|]. split; [reflexivity|]. split; reflexivity. Qed.
End Demo.
