(* ===== verification/UpBuffer.v ===== *)
(** * The upstream buffers (src/buffer/UpBuffer.h, UpBuffer.cpp)

    The request generators at the top of the memory path. Each has one port per
    bank; it sends a read on every port at the start and again whenever
    responses have arrived, and keeps the packets that come back. The function of
    the ports is a parameter. The theorems: what a response does; a port holds at
    most one packet more than the limit of the code; every read a port sends
    belongs to the bank behind it; a buffer that is never emptied answers its
    event in the end without sending anything. *)

From Stdlib Require Import ZArith Lia Ascii String.
From stdpp Require Import strings pretty numbers option finite fin list.
From S2P Require Import Prelude EventQ Sched Packet Names.

Definition num_ports : Z := 8.

(** [class UpBuffer]. *)
Record UpBuffer := MkUp {
  up_addr : Z;
  buffer_Data : list (list PacketPtr);
  bufferdata_num : list Z;
  up_retryReq : list bool;
  up_retryResp : list bool;
  addr_init : Z;
  up_size : Z
}.

(** The buffers of the program. *)
Record Ups := MkUps { ups : list UpBuffer }.

(** The two events of a buffer. *)
Inductive up_event := UpTick (u : Z) | UpSend (u : Z).
#[global] Instance up_event_eq_dec : EqDecision up_event.
Proof. solve_decision. Defined.

(** [UpBuffer(name, wrapper, addr_init)]. The constructor does not write
    [retryResp]; nothing reads it. *)
Definition new_UpBuffer (addr0 : Z) : UpBuffer :=
  let n := Z.to_nat num_ports in
  MkUp addr0 (replicate n []) (replicate n 0) (replicate n false) (replicate n false) addr0 3.

Definition u_addr (a : Z) (x : UpBuffer) : UpBuffer :=
  MkUp a (buffer_Data x) (bufferdata_num x) (up_retryReq x) (up_retryResp x) (addr_init x) (up_size x).
Definition u_data (d : list (list PacketPtr)) (n : list Z) (x : UpBuffer) : UpBuffer :=
  MkUp (up_addr x) d n (up_retryReq x) (up_retryResp x) (addr_init x) (up_size x).
Definition u_retryReq (l : list bool) (x : UpBuffer) : UpBuffer :=
  MkUp (up_addr x) (buffer_Data x) (bufferdata_num x) l (up_retryResp x) (addr_init x) (up_size x).
Definition u_retryResp (l : list bool) (x : UpBuffer) : UpBuffer :=
  MkUp (up_addr x) (buffer_Data x) (bufferdata_num x) (up_retryReq x) l (addr_init x) (up_size x).

(** [UpBuffer::getPort(if_name, idx)], the index of the port; the exceptions of
    [stoi] are not caught. *)
Definition up_getPort (if_name : string) : exc Z :=
  match strip "buf_side" if_name with
  | Some s =>
      bank ← stoi s;
      if (0 <=? bank) && (bank <? num_ports) then ok bank else err RuntimeError
  | None => err RuntimeError
  end.
Definition buf_side_name (i : Z) : string := ("buf_side" +:+ pretty i)%string.

(** The limit test [bufferdata_num[port] > buf_size]: the limit is converted to
    unsigned. *)
Definition up_full (n size : Z) : bool := u32 size <? n.

Section Up.
Context {W Ev : Type} `{Has W Ups} `{Has W PacketHeap} `{Scheduler W Ev} (ev : up_event -> Ev).

(** [requestPorts[port].sendTimingReq(pkt)] of buffer [u]. *)
Context (sendReq : Z -> Z -> PacketPtr -> M W bool).

Definition the_up (u : Z) : M W UpBuffer := fun w => x ← vec_get (ups (get Ups w)) u; ok (x, w).
Definition set_up (u : Z) (x : UpBuffer) : M W unit := upd Ups (fun s => MkUps (zset (ups s) u x)).

(** [UpBuffer::sendTimingReq(pkt, port_id)]. *)
Definition up_sendTimingReq (u : Z) (p : PacketPtr) (port : Z) : M W bool :=
  if (0 <=? port) && (port <? num_ports) then sendReq u port p else mret false.

(** [retryReq[port] = b]. *)
Definition set_retryReq (u port : Z) (b : bool) : M W unit :=
  x ← the_up u;
  _ ← lift (vec_get (up_retryReq x) port);
  set_up u (u_retryReq (zset (up_retryReq x) port b) x).

(** [UpBuffer::init()]. *)
Definition up_init_step (u i : Z) : M W unit :=
  x ← the_up u;
  p ← new_packet (create_read_packet (up_addr x) 64);
  set_up u (u_addr (u64 (up_addr x + 64)) x) ;;
  _ ← up_sendTimingReq u p i;
  mret tt.
Definition up_init (u : Z) : M W unit := for_each (zseq num_ports) (up_init_step u).

(** [UpBuffer::sendpkt_event()]. *)
Definition sendpkt_step (u port : Z) : M W unit :=
  x ← the_up u;
  n ← lift (vec_get (bufferdata_num x) port);
  if up_full n (up_size x) then set_retryReq u port true
  else
    p ← new_packet (create_read_packet (u64 (up_addr x + port * 64)) 64);
    sent ← up_sendTimingReq u p port;
    if (sent : bool) then mret tt else set_retryReq u port true.
Definition sendpkt_event (u : Z) : M W unit := for_each (zseq num_ports) (sendpkt_step u).

(** [UpBuffer::recvTimingResp(pkt, port_id)]. *)
Definition up_recvTimingResp (u : Z) (p : PacketPtr) (port : Z) : M W bool :=
  assert_ ((0 <=? port) && (port <? num_ports)) ;;
  x ← the_up u;
  n ← lift (vec_get (bufferdata_num x) port);
  if up_full n (up_size x) then
    _ ← lift (vec_get (up_retryResp x) port);
    set_up u (u_retryResp (zset (up_retryResp x) port true) x) ;;
    mret false
  else
    q ← lift (vec_get (buffer_Data x) port);
    set_up u (u_data (zset (buffer_Data x) port (q ++ [p])) (zset (bufferdata_num x) port (u32 (n + 1))) x) ;;
    schedule_once (ev (UpTick u)) 1 ;;
    mret true.

(** [UpBuffer::send_data_2cal()]; the array [sent] is written and not read. *)
Definition send_data_step (u port : Z) : M W unit :=
  x ← the_up u;
  q ← lift (vec_get (buffer_Data x) port);
  match q with
  | [] => mret tt
  | _ :: q' =>
      n ← lift (vec_get (bufferdata_num x) port);
      set_up u (u_data (zset (buffer_Data x) port q') (zset (bufferdata_num x) port (u32 (n - 1))) x)
  end.
Definition data_at (u port : Z) : M W bool :=
  x ← the_up u;
  q ← lift (vec_get (buffer_Data x) port);
  mret (match q with [] => false | _ => true end).
Definition send_data_2cal (u : Z) : M W unit :=
  for_each (zseq num_ports) (send_data_step u) ;;
  has_pending ← for_any (zseq num_ports) (data_at u);
  if (has_pending : bool) then schedule_once (ev (UpSend u)) 1 else mret tt.

(** [UpBuffer::sendRetryReq(port_id)]. *)
Definition up_sendRetryReq (u port : Z) : M W unit :=
  if (port <? 0) || (num_ports <=? port) then mret tt
  else
    x ← the_up u;
    p ← new_packet (create_read_packet (u64 (up_addr x + port * 64)) 64);
    sent ← up_sendTimingReq u p port;
    set_retryReq u port (negb sent).
End Up.

(** ** What a buffer keeps *)

(** The counters count the packets, no port has more than one packet above the
    limit, and the arrays have their lengths. *)
Record up_shape (x : UpBuffer) : Prop := {
  uw_data : length (buffer_Data x) = Z.to_nat num_ports;
  uw_num : bufferdata_num x = (fun q => Z.of_nat (length q)) <$> buffer_Data x;
  uw_bound : Forall (fun q => Z.of_nat (length q) ≤ up_size x + 1) (buffer_Data x);
  uw_req : length (up_retryReq x) = Z.to_nat num_ports;
  uw_resp : length (up_retryResp x) = Z.to_nat num_ports;
  uw_size : 0 ≤ up_size x < 2 ^ 31
}.

(** Addresses are spread over the ports by their bits 6 to 8. *)
Definition home_packet (port : Z) (p : PacketPtr) : Prop :=
  p_write p = false ∧ 0 ≤ p_addr p < two64 ∧ (p_addr p / 64) mod num_ports = port.

(** A base address: a multiple of 512, with room for one packet per port. *)
Definition base_addr (a : Z) : Prop := a mod 512 = 0 ∧ 0 ≤ a ∧ a + 512 ≤ two64.

Record up_wf (x : UpBuffer) : Prop := { uw_shape : up_shape x; uw_base : base_addr (up_addr x) }.

Lemma home_read n a i : base_addr a → 0 ≤ i < num_ports →
  home_packet i (MkPtr n (create_read_packet (a + i * 64) 64)) ∧ u64 (a + i * 64) = a + i * 64.
Proof.
  unfold base_addr, num_ports, home_packet, two64. intros (Hm & Ha & Ht) Hi.
  change (p_addr _) with (a + i * 64). split; [|apply u64_small; unfold two64; lia].
  split; [done|]. split; [lia|]. pose proof (Z.div_mod a 512 ltac:(lia)) as Hd. rewrite Hm in Hd.
  replace (a + i * 64) with ((8 * (a / 512) + i) * 64) by lia. rewrite Z.div_mul by lia.
  replace (8 * (a / 512) + i) with (i + (a / 512) * 8) by lia. rewrite Z_mod_plus_full.
  by apply Z.mod_small.
Qed.

Lemma up_shape_data x d n : up_shape x → length d = Z.to_nat num_ports →
  n = (fun q => Z.of_nat (length q)) <$> d → Forall (fun q => Z.of_nat (length q) ≤ up_size x + 1) d →
  up_shape (u_data d n x).
Proof. intros [] ? ? ?. by split. Qed.
Lemma up_shape_retryReq x i b : up_shape x → up_shape (u_retryReq (zset (up_retryReq x) i b) x).
Proof. intros []. split; simpl; try done. by rewrite length_zset. Qed.
Lemma up_shape_retryResp x i b : up_shape x → up_shape (u_retryResp (zset (up_retryResp x) i b) x).
Proof. intros []. split; simpl; try done. by rewrite length_zset. Qed.
Lemma up_shape_addr x a : up_shape x → up_shape (u_addr a x).
Proof. intros []. by split. Qed.

Lemma up_port x i : up_shape x → 0 ≤ i < num_ports →
  ∃ q, zget (buffer_Data x) i = Some q ∧ zget (bufferdata_num x) i = Some (Z.of_nat (length q)) ∧
    Z.of_nat (length q) ≤ up_size x + 1.
Proof.
  intros [] Hi. destruct (zget_is_Some (buffer_Data x) i) as [q Hq]; [rewrite uw_data0; unfold num_ports in *; lia|].
  exists q. rewrite uw_num0, zget_fmap, Hq. split_and!; try done.
  rewrite Forall_forall in uw_bound0. apply uw_bound0. by eapply zget_elem.
Qed.

Lemma up_full_spec x (q : list PacketPtr) : up_shape x → up_full (Z.of_nat (length q)) (up_size x) = (up_size x <? Z.of_nat (length q)).
Proof. intros []. unfold up_full. by rewrite u32_small by (unfold two32; lia). Qed.

(** The buffer behind an accepted response. *)
Definition up_take (port : Z) (p : PacketPtr) (x : UpBuffer) : UpBuffer :=
  let q := default [] (zget (buffer_Data x) port) ++ [p] in
  u_data (zset (buffer_Data x) port q) (zset (bufferdata_num x) port (Z.of_nat (length q))) x.
(** Whether the port has room: up to one packet above the limit. *)
Definition up_room (port : Z) (x : UpBuffer) : bool :=
  Z.of_nat (length (default [] (zget (buffer_Data x) port))) <=? up_size x.

Lemma up_take_shape port p x : up_shape x → up_room port x = true → up_shape (up_take port p x).
Proof.
  intros Hx Hr. unfold up_room in Hr. apply Z.leb_le in Hr. apply up_shape_data; [done|rewrite length_zset; apply Hx| |].
  - by rewrite fmap_zset, (uw_num _ Hx).
  - apply zset_Forall; [apply Hx|]. rewrite length_app. simpl. lia.
Qed.

Section Inv.
Context {W Ev : Type} `{SchedulerOk W Ev} `{Has W Ups} `{Has W PacketHeap}
  `{!Independent W Ev Ups} `{!Independent W Ev PacketHeap} `{!Apart W Ups PacketHeap} `{!Apart W PacketHeap Ups}.
Context (ev : up_event -> Ev).
Implicit Types (w : W) (x : UpBuffer).

(** The [n] buffers of the world. *)
Definition ups_wf (n : Z) w : Prop := length (ups (get Ups w)) = Z.to_nat n ∧ Forall up_wf (ups (get Ups w)).

Definition put_up (u : Z) x w : W := put Ups (MkUps (zset (ups (get Ups w)) u x)) w.

Lemma the_up_run u x w : zget (ups (get Ups w)) u = Some x → the_up u w = ok (x, w).
Proof. intros Hx. unfold the_up, vec_get. by rewrite Hx. Qed.
Lemma set_up_run u x w : set_up u x w = ok (tt, put_up u x w).
Proof. done. Qed.
Lemma ups_put_up u x w : ups (get Ups (put_up u x w)) = zset (ups (get Ups w)) u x.
Proof. unfold put_up. by rewrite get_put. Qed.

Lemma get_up n w u : ups_wf n w → 0 ≤ u < n → ∃ x, zget (ups (get Ups w)) u = Some x ∧ up_wf x.
Proof.
  intros [Hl Hf] Hu. destruct (zget_is_Some (ups (get Ups w)) u) as [x Hx]; [lia|]. exists x. split; [done|].
  rewrite Forall_forall in Hf. apply Hf. by eapply zget_elem.
Qed.

Lemma put_up_wf n u x w : ups_wf n w → up_wf x → ups_wf n (put_up u x w).
Proof. intros [Hl Hf] Hx. unfold ups_wf. rewrite ups_put_up, length_zset. split; [done|]. by apply zset_Forall. Qed.

Lemma lift_get {A} (l : list A) i a w : zget l i = Some a → lift (vec_get l i) w = ok (a, w).
Proof. intros Hi. unfold lift, vec_get. by rewrite Hi. Qed.

Lemma port_ok_true i : 0 ≤ i < num_ports → (0 <=? i) && (i <? num_ports) = true.
Proof. intros. destruct (Z.leb_spec 0 i), (Z.ltb_spec i num_ports); try done; lia. Qed.

Lemma up_response_ok n u port p w :
  ups_wf n w → 0 ≤ u < n → 0 ≤ port < num_ports → sch_inv w → 0 ≤ now w < 2 ^ 63 →
  ∃ x r w', zget (ups (get Ups w)) u = Some x ∧ r = up_room port x ∧
    up_recvTimingResp ev u p port w = ok (r, w') ∧ part_step Ups (fun e => e = ev (UpTick u)) w w' ∧
    (r = true → is_scheduled (ev (UpTick u)) w' = true) ∧ ups_wf n w' ∧
    get Ups w' = MkUps (zset (ups (get Ups w)) u
      (if r then up_take port p x else u_retryResp (zset (up_retryResp x) port true) x)).
Proof using All.
  intros Hwf Hu Hp Hi Hn. destruct (get_up n w u Hwf Hu) as (x & Hx & [Hsh Hb]).
  destruct (up_port x port Hsh Hp) as (q & Hq & Hnum & Hle). exists x, (up_room port x).
  unfold up_recvTimingResp. rewrite port_ok_true by done. cbn [assert_].
  rewrite (M_bind_ok_intro (mret tt) _ w tt w eq_refl), (M_bind_ok_intro _ _ _ _ _ (the_up_run u x w Hx)).
  rewrite (M_bind_ok_intro _ _ _ _ _ (lift_get _ _ _ w Hnum)), up_full_spec by done.
  assert (up_room port x = negb (up_size x <? Z.of_nat (length q))) as Hroom by (unfold up_room; rewrite Hq; apply Z.leb_antisym).
  pose proof Hroom as Hroom'. rewrite Hroom. destruct (up_size x <? Z.of_nat (length q)) eqn:Hfull; cbn [negb] in *.
  - destruct (zget_is_Some (up_retryResp x) port) as [v Hv]; [rewrite (uw_resp _ Hsh); unfold num_ports in *; lia|].
    rewrite (M_bind_ok_intro _ _ _ _ _ (lift_get _ _ _ w Hv)), (M_bind_ok_intro _ _ _ _ _ (set_up_run u _ w)).
    eexists. split; [done|]. split; [done|]. split; [reflexivity|]. split_and!.
    + by apply part_step_put.
    + done.
    + apply put_up_wf; [done|]. split; [by apply up_shape_retryResp|done].
    + unfold put_up. by rewrite get_put.
  - rewrite (M_bind_ok_intro _ _ _ _ _ (lift_get _ _ _ w Hq)), (M_bind_ok_intro _ _ _ _ _ (set_up_run u _ w)).
    assert (u_data (zset (buffer_Data x) port (q ++ [p])) (zset (bufferdata_num x) port (u32 (Z.of_nat (length q) + 1))) x
            = up_take port p x) as ->.
    { unfold up_take. rewrite Hq. simpl. rewrite length_app. simpl. pose proof (uw_size _ Hsh).
      rewrite u32_small by (unfold two32; lia). do 2 f_equal. lia. }
    destruct (own_once (ev (UpTick u)) (MkUps (zset (ups (get Ups w)) u (up_take port p x))) w) as (w' & Hs & Hst & Ha & Hfl);
      [by apply ind_inv|done|].
    exists w'. split; [done|]. split; [done|]. rewrite (M_bind_ok_intro _ _ _ _ _ Hs).
    split; [done|]. split; [done|]. split; [done|]. split; [|done].
    unfold ups_wf. rewrite Ha. simpl. rewrite length_zset. split; [apply Hwf|]. apply zset_Forall; [apply Hwf|].
    split; [by apply up_take_shape|done].
Qed.

(** A response at a port that keeps it, and at one that refuses it, in full. *)
Lemma up_kept u port p w x q :
  up_shape x → 0 ≤ port < num_ports → sch_inv w → 0 ≤ now w < 2 ^ 63 →
  zget (ups (get Ups w)) u = Some x → zget (buffer_Data x) port = Some q → Z.of_nat (length q) ≤ up_size x →
  ∃ w', up_recvTimingResp ev u p port w = ok (true, w') ∧ get Ups w' = MkUps (zset (ups (get Ups w)) u (up_take port p x)) ∧
    now w' = now w ∧ ∀ e, is_scheduled e w' = if decide (e = ev (UpTick u)) then true else is_scheduled e w.
Proof using All.
  intros Hsh Hp Hi Hn Hx Hq Hle. destruct (up_port x port Hsh Hp) as (q' & Hq' & Hnum & _). rewrite Hq in Hq'. injection Hq' as <-.
  unfold up_recvTimingResp. rewrite port_ok_true by done. cbn [assert_].
  rewrite (M_bind_ok_intro (mret tt) _ w tt w eq_refl), (M_bind_ok_intro _ _ _ _ _ (the_up_run u x w Hx)).
  rewrite (M_bind_ok_intro _ _ _ _ _ (lift_get _ _ _ w Hnum)), up_full_spec, (proj2 (Z.ltb_ge _ _) Hle) by done.
  rewrite (M_bind_ok_intro _ _ _ _ _ (lift_get _ _ _ w Hq)), (M_bind_ok_intro _ _ _ _ _ (set_up_run u _ w)).
  assert (u_data (zset (buffer_Data x) port (q ++ [p])) (zset (bufferdata_num x) port (u32 (Z.of_nat (length q) + 1))) x
          = up_take port p x) as ->.
  { unfold up_take. rewrite Hq. simpl. rewrite length_app. simpl. pose proof (uw_size _ Hsh).
    rewrite u32_small by (unfold two32; lia). do 2 f_equal. lia. }
  destruct (schedule_once_ok (ev (UpTick u)) (put_up u (up_take port p x) w)) as (w' & Hs & Hst & Hf & Hfl);
    [by apply ind_inv|unfold put_up; by rewrite ind_now|].
  exists w'. rewrite (M_bind_ok_intro _ _ _ _ _ Hs). split_and!; [done| | |].
  - rewrite (ind_frame (C := Ups) _ _ Hf). unfold put_up. apply get_put.
  - rewrite (ss_now _ _ Hst). unfold put_up. apply ind_now.
  - intros e. rewrite Hfl. unfold put_up. by rewrite ind_scheduled.
Qed.

Lemma up_refused u port p w x q :
  up_shape x → 0 ≤ port < num_ports →
  zget (ups (get Ups w)) u = Some x → zget (buffer_Data x) port = Some q → up_size x < Z.of_nat (length q) →
  up_recvTimingResp ev u p port w = ok (false, put_up u (u_retryResp (zset (up_retryResp x) port true) x) w).
Proof using All.
  intros Hsh Hp Hx Hq Hlt. destruct (up_port x port Hsh Hp) as (q' & Hq' & Hnum & _). rewrite Hq in Hq'. injection Hq' as <-.
  unfold up_recvTimingResp. rewrite port_ok_true by done. cbn [assert_].
  rewrite (M_bind_ok_intro (mret tt) _ w tt w eq_refl), (M_bind_ok_intro _ _ _ _ _ (the_up_run u x w Hx)).
  rewrite (M_bind_ok_intro _ _ _ _ _ (lift_get _ _ _ w Hnum)), up_full_spec, (proj2 (Z.ltb_lt _ _) Hlt) by done.
  destruct (zget_is_Some (up_retryResp x) port) as [v Hv]; [rewrite (uw_resp _ Hsh); unfold num_ports in *; lia|].
  by rewrite (M_bind_ok_intro _ _ _ _ _ (lift_get _ _ _ w Hv)), (M_bind_ok_intro _ _ _ _ _ (set_up_run u _ w)).
Qed.

(** At the limit itself the code keeps the response, so that a port can hold
    one packet more; the comment at the test says it refuses. *)
Lemma up_response_at_limit u port p w x q :
  up_shape x → 0 ≤ port < num_ports → sch_inv w → 0 ≤ now w < 2 ^ 63 →
  zget (ups (get Ups w)) u = Some x → zget (buffer_Data x) port = Some q → Z.of_nat (length q) = up_size x →
  ∃ w', up_recvTimingResp ev u p port w = ok (true, w') ∧ get Ups w' = MkUps (zset (ups (get Ups w)) u (up_take port p x)).
Proof using All.
  intros. destruct (up_kept u port p w x q) as (w' & ? & ? & _); [done..|lia|eauto].
Qed.

(** (C17) Responses below and above the limit of a port. One that finds fewer
    packets than the limit is kept: it becomes the last of its port, whose count
    goes up by one, and the event of the buffer is scheduled; other ports,
    buffers and events stay as they are. One that finds more than the limit is
    refused: the retry flag of the port is set and the world does not change
    otherwise. (At the limit itself, code and comment differ:
    [up_response_at_limit].) *)
Theorem up_response n u port p w x q :
  ups_wf n w → 0 ≤ u < n → 0 ≤ port < num_ports → sch_inv w → 0 ≤ now w < 2 ^ 63 →
  zget (ups (get Ups w)) u = Some x → zget (buffer_Data x) port = Some q →
  (Z.of_nat (length q) < up_size x →
     ∃ w', up_recvTimingResp ev u p port w = ok (true, w') ∧
       get Ups w' = MkUps (zset (ups (get Ups w)) u
         (u_data (zset (buffer_Data x) port (q ++ [p])) (zset (bufferdata_num x) port (Z.of_nat (length q) + 1)) x)) ∧
       ups_wf n w' ∧ now w' = now w ∧
       ∀ e, is_scheduled e w' = if decide (e = ev (UpTick u)) then true else is_scheduled e w) ∧
  (up_size x < Z.of_nat (length q) →
     up_recvTimingResp ev u p port w = ok (false, put_up u (u_retryResp (zset (up_retryResp x) port true) x) w)).
Proof using All.
  intros Hwf Hu Hp Hi Hn Hx Hq. destruct (get_up n w u Hwf Hu) as (x' & Hx' & Hxwf). rewrite Hx in Hx'. injection Hx' as <-.
  pose proof (uw_shape _ Hxwf) as Hsh. split; intros Hlen.
  - destruct (up_kept u port p w x q) as (w' & Hr & Hg & Hk & Hs); [done..|lia|]. exists w'. split; [done|]. split.
    { rewrite Hg. unfold up_take. rewrite Hq. simpl. rewrite length_app. simpl. do 5 f_equal. lia. }
    split; [|done]. unfold ups_wf. rewrite Hg. simpl. rewrite length_zset. split; [apply Hwf|].
    apply zset_Forall; [apply Hwf|]. split; [apply up_take_shape; [done|]|apply Hxwf].
    unfold up_room. rewrite Hq. simpl. apply Z.leb_le. lia.
  - by apply (up_refused u port p w x q).
Qed.

(** ** Requests *)

Section Requests.
(** What a buffer relies on when it sends: the peer takes or refuses any read of
    its own bank, and does not reach into the buffers. *)
Context (sendReq : Z -> Z -> PacketPtr -> M W bool) (n : Z) (J : W -> Prop).

Record sender_ok : Prop := {
  so_send u port p w : J w → sch_inv w → 0 ≤ now w < 2 ^ 63 → 0 ≤ u < n → 0 ≤ port < num_ports →
    home_packet port p →
    ∃ r w', sendReq u port p w = ok (r, w') ∧ get Ups w' = get Ups w ∧ sched_step w w' ∧ J w';
  so_ups s w : J w → J (put Ups s w);
  so_heap h w : J w → J (put PacketHeap h w)
}.
Context (Hsend : sender_ok).

(** The buffers and their peer, at some point of a handler that began in [w0]. *)
Record up_inv (w0 w : W) : Prop := {
  ui_peer : J w;
  ui_wf : ups_wf n w;
  ui_step : sched_step w0 w;
  ui_now : 0 ≤ now w < 2 ^ 63
}.

Lemma up_inv_put w0 w u x : up_inv w0 w → up_wf x → up_inv w0 (put_up u x w).
Proof using -(ev).
  intros [HJ Hwf Hst Hn] Hx. split.
  - by apply (so_ups Hsend).
  - by apply put_up_wf.
  - eapply sched_step_trans; [exact Hst|]. apply (sched_step_put Ups), Hst.
  - unfold put_up. by rewrite ind_now.
Qed.

(** A new packet: only the allocator moves. *)
Lemma new_packet_run d w :
  new_packet d w = ok (MkPtr (next_ptr (get PacketHeap w)) d, put PacketHeap (MkHeap (S (next_ptr (get PacketHeap w)))) w).
Proof. done. Qed.

Lemma up_inv_alloc w0 w h : up_inv w0 w → up_inv w0 (put PacketHeap h w).
Proof using -(ev).
  intros [HJ Hwf Hst Hn]. split.
  - by apply (so_heap Hsend).
  - unfold ups_wf. by rewrite get_put_ne.
  - eapply sched_step_trans; [exact Hst|]. apply (sched_step_put PacketHeap), Hst.
  - by rewrite ind_now.
Qed.

Lemma up_send_ok w0 w u port p :
  up_inv w0 w → 0 ≤ u < n → 0 ≤ port < num_ports → home_packet port p →
  ∃ r w', up_sendTimingReq sendReq u p port w = ok (r, w') ∧ up_inv w0 w' ∧ get Ups w' = get Ups w.
Proof using -(ev).
  intros [HJ Hwf Hst Hn] Hu Hp Hh. unfold up_sendTimingReq. rewrite port_ok_true by done.
  destruct (so_send Hsend u port p w) as (r & w' & Hs & Hups & Hst' & HJ'); [done|apply Hst|done..|].
  exists r, w'. split; [done|]. split; [|done]. split; [done|by unfold ups_wf; rewrite Hups|by eapply sched_step_trans|].
  by rewrite (ss_now _ _ Hst').
Qed.

Lemma set_retryReq_ok w0 w u port b :
  up_inv w0 w → 0 ≤ u < n → 0 ≤ port < num_ports →
  ∃ w', set_retryReq u port b w = ok (tt, w') ∧ up_inv w0 w'.
Proof using -(ev).
  intros Hi Hu Hp. destruct (get_up n w u (ui_wf _ _ Hi) Hu) as (x & Hx & [Hsh Hb]).
  unfold set_retryReq. rewrite (M_bind_ok_intro _ _ _ _ _ (the_up_run u x w Hx)).
  destruct (zget_is_Some (up_retryReq x) port) as [v Hv]; [rewrite (uw_req _ Hsh); unfold num_ports in *; lia|].
  rewrite (M_bind_ok_intro _ _ _ _ _ (lift_get _ _ _ w Hv)), set_up_run. eexists. split; [reflexivity|].
  apply up_inv_put; [done|]. split; [by apply up_shape_retryReq|done].
Qed.

(** A read of a port's own bank is made and sent. *)
Lemma send_read_ok w0 w u x port :
  up_inv w0 w → 0 ≤ u < n → 0 ≤ port < num_ports → zget (ups (get Ups w)) u = Some x →
  ∃ r w', (p ← new_packet (create_read_packet (u64 (up_addr x + port * 64)) 64); up_sendTimingReq sendReq u p port) w
            = ok (r, w') ∧ up_inv w0 w'.
Proof using -(ev).
  intros Hi Hu Hp Hx. destruct (get_up n w u (ui_wf _ _ Hi) Hu) as (x' & Hx' & [Hsh Hb]).
  rewrite Hx in Hx'. injection Hx' as <-. rewrite (M_bind_ok_intro _ _ _ _ _ (new_packet_run _ w)).
  destruct (home_read (next_ptr (get PacketHeap w)) (up_addr x) port Hb Hp) as [Hh ->].
  destruct (up_send_ok w0 _ u port _ (up_inv_alloc w0 w (MkHeap (S (next_ptr (get PacketHeap w)))) Hi) Hu Hp Hh) as (r & w' & Hs & Hi' & _). eauto.
Qed.

Lemma bind_assoc_run {A B C} (m : M W A) (f : A -> M W B) (g : B -> M W C) w :
  (a ← m; b ← f a; g b) w = (b ← (a ← m; f a); g b) w.
Proof. unfold mbind, M_bind. by destruct (m w) as [[a w']|]. Qed.

Lemma sendpkt_step_ok w0 w u port :
  up_inv w0 w → 0 ≤ u < n → 0 ≤ port < num_ports →
  ∃ w', sendpkt_step sendReq u port w = ok (tt, w') ∧ up_inv w0 w'.
Proof using -(ev).
  intros Hi Hu Hp. destruct (get_up n w u (ui_wf _ _ Hi) Hu) as (x & Hx & [Hsh Hb]).
  destruct (up_port x port Hsh Hp) as (q & _ & Hnum & _). unfold sendpkt_step.
  rewrite (M_bind_ok_intro _ _ _ _ _ (the_up_run u x w Hx)), (M_bind_ok_intro _ _ _ _ _ (lift_get _ _ _ w Hnum)).
  destruct (up_full _ _); [by apply set_retryReq_ok|].
  rewrite bind_assoc_run. destruct (send_read_ok w0 w u x port Hi Hu Hp Hx) as (r & w1 & Hs & Hi1).
  rewrite (M_bind_ok_intro _ _ _ _ _ Hs). destruct r; [by exists w1|by apply set_retryReq_ok].
Qed.

Lemma sendpkt_event_ok w0 w u :
  up_inv w0 w → 0 ≤ u < n → ∃ w', sendpkt_event sendReq u w = ok (tt, w') ∧ up_inv w0 w'.
Proof using -(ev).
  intros Hi Hu. apply (for_each_total (up_inv w0)); [|done]. intros port w1 Hp%elem_of_zseq Hi1.
  by apply sendpkt_step_ok.
Qed.

Lemma up_sendRetryReq_ok w0 w u port :
  up_inv w0 w → 0 ≤ u < n → 0 ≤ port < num_ports →
  ∃ w', up_sendRetryReq sendReq u port w = ok (tt, w') ∧ up_inv w0 w'.
Proof using -(ev).
  intros Hi Hu Hp. destruct (get_up n w u (ui_wf _ _ Hi) Hu) as (x & Hx & _). unfold up_sendRetryReq.
  assert ((port <? 0) || (num_ports <=? port) = false) as ->.
  { destruct (Z.ltb_spec port 0), (Z.leb_spec num_ports port); try done; lia. }
  rewrite (M_bind_ok_intro _ _ _ _ _ (the_up_run u x w Hx)), bind_assoc_run.
  destruct (send_read_ok w0 w u x port Hi Hu Hp Hx) as (r & w1 & Hs & Hi1).
  rewrite (M_bind_ok_intro _ _ _ _ _ Hs). by apply set_retryReq_ok.
Qed.

(** [init] walks the base address over the ports. *)
Lemma up_init_ok w0 w u x :
  up_inv w0 w → 0 ≤ u < n → zget (ups (get Ups w)) u = Some x → base_addr (up_addr x + 512) →
  ∃ w', up_init sendReq u w = ok (tt, w') ∧ up_inv w0 w' ∧
    ∀ v, v ≠ u → zget (ups (get Ups w')) v = zget (ups (get Ups w)) v.
Proof using -(ev).
  intros [HJ [Hl Hf] Hst Hn] Hu Hx Hb2.
  assert (up_wf x) as [Hsh Hb] by (rewrite Forall_forall in Hf; apply Hf; by eapply zget_elem).
  set (I := fun i w1 => J w1 ∧ sched_step w0 w1 ∧ 0 ≤ now w1 < 2 ^ 63 ∧
    ups (get Ups w1) = zset (ups (get Ups w)) u (u_addr (up_addr x + i * 64) x)).
  assert (∀ a, zget (zset (ups (get Ups w)) u a) u = Some a) as Hget by (intros a; apply zget_zset_eq; lia).
  destruct (for_each_index I (up_init_step sendReq u) num_ports w) as (w' & Hr & HJ' & Hst' & Hn' & Hups); [done| | |].
  - intros i w1 Hi (HJ1 & Hst1 & Hn1 & Hups1). destruct (home_read (next_ptr (get PacketHeap w1)) (up_addr x) i Hb Hi) as [Hh _].
    assert (u64 (up_addr x + i * 64 + 64) = up_addr x + (i + 1) * 64) as E.
    { unfold num_ports in *. destruct Hb2 as (_ & _ & ?), Hb as (_ & ? & _).
      rewrite u64_small; lia. }
    assert (zget (ups (get Ups w1)) u = Some (u_addr (up_addr x + i * 64) x)) as Hx1 by by rewrite Hups1.
    unfold up_init_step. rewrite (M_bind_ok_intro _ _ _ _ _ (the_up_run u _ w1 Hx1)).
    rewrite (M_bind_ok_intro _ _ _ _ _ (new_packet_run _ w1)). set (w2 := put PacketHeap _ w1).
    assert (zget (ups (get Ups w2)) u = Some (u_addr (up_addr x + i * 64) x)) as Hx2 by (unfold w2; by rewrite get_put_ne).
    rewrite (M_bind_ok_intro _ _ _ _ _ (set_up_run u _ w2)). set (w3 := put_up u _ w2).
    assert (sched_step w1 w3) as Hst3.
    { eapply sched_step_trans; [apply (sched_step_put PacketHeap), Hst1|]. apply (sched_step_put Ups), ind_inv, Hst1. }
    unfold up_sendTimingReq. rewrite port_ok_true by done. cbn [up_addr u_addr].
    destruct (so_send Hsend u i (MkPtr (next_ptr (get PacketHeap w1)) (create_read_packet (up_addr x + i * 64) 64)) w3)
      as (r & w4 & Hs & Hg & Hst4 & HJ4); try done.
    + by apply (so_ups Hsend), (so_heap Hsend).
    + apply Hst3.
    + by rewrite (ss_now _ _ Hst3).
    + exists w4. rewrite (M_bind_ok_intro _ _ _ _ _ Hs). split; [done|]. split; [done|].
      split; [by eapply sched_step_trans, sched_step_trans|]. split; [by rewrite (ss_now _ _ Hst4), (ss_now _ _ Hst3)|].
      rewrite Hg. unfold w3. rewrite ups_put_up. unfold w2. rewrite get_put_ne, Hups1, zset_zset, <- E. done.
  - split; [done|]. split; [done|]. split; [done|]. rewrite Z.mul_0_l, Z.add_0_r. rewrite zset_id; [done|]. by destruct x.
  - exists w'. split; [done|]. split; [|intros v Hv; rewrite Hups; by apply zget_zset_ne].
    split; [done| |done|done]. unfold ups_wf. rewrite Hups, length_zset. split; [done|]. apply zset_Forall; [done|].
    split; [by apply up_shape_addr|exact Hb2].
Qed.

(** (C18) The buffers never fail, whatever their peers answer: at the start, on their
    event and on a retry they send only reads, each on the port of the bank its
    address belongs to, and the counters, lengths and base addresses stay right;
    time stands still. *)
Theorem up_events_total w0 w u :
  up_inv w0 w → 0 ≤ u < n →
  (∀ x, zget (ups (get Ups w)) u = Some x → base_addr (up_addr x + 512) →
     ∃ w', up_init sendReq u w = ok (tt, w') ∧ up_inv w0 w') ∧
  (∃ w', sendpkt_event sendReq u w = ok (tt, w') ∧ up_inv w0 w') ∧
  (∀ port, 0 ≤ port < num_ports → ∃ w', up_sendRetryReq sendReq u port w = ok (tt, w') ∧ up_inv w0 w').
Proof using -(ev).
  intros Hi Hu. split; [|split].
  - intros x Hx Hb. destruct (up_init_ok w0 w u x Hi Hu Hx Hb) as (w' & ? & ? & _). by exists w'.
  - by apply sendpkt_event_ok.
  - intros port. by apply up_sendRetryReq_ok.
Qed.
End Requests.

(** ** Buffers that fill up *)

(** A buffer without room on any port does nothing any more: its event sends
    nothing, whatever the ports would answer, and only raises the retry flags, and
    every response is refused. Nothing in the program empties a buffer. *)
Theorem full_buffer_stalls n u x w (sendReq : Z -> Z -> PacketPtr -> M W bool) :
  ups_wf n w → 0 ≤ u < n → zget (ups (get Ups w)) u = Some x →
  (∀ port, 0 ≤ port < num_ports → up_room port x = false) →
  sendpkt_event sendReq u w = ok (tt, put_up u (u_retryReq (replicate (Z.to_nat num_ports) true) x) w) ∧
  ∀ port p, 0 ≤ port < num_ports → ∃ w', up_recvTimingResp ev u p port w = ok (false, w') ∧
    get Ups w' = MkUps (zset (ups (get Ups w)) u (u_retryResp (zset (up_retryResp x) port true) x)).
Proof using -(Independent1 Apart0 Apart1).
  intros Hwf Hu Hx Hfull. destruct (get_up n w u Hwf Hu) as (x' & Hx' & [Hsh Hb]). rewrite Hx in Hx'. injection Hx' as <-.
  assert (∀ port, 0 ≤ port < num_ports → ∃ q, zget (buffer_Data x) port = Some q ∧
    zget (bufferdata_num x) port = Some (Z.of_nat (length q)) ∧ up_full (Z.of_nat (length q)) (up_size x) = true) as Hport.
  { intros port Hp. destruct (up_port x port Hsh Hp) as (q & Hq & Hnum & _). exists q. split_and!; [done..|].
    rewrite up_full_spec by done. specialize (Hfull port Hp). unfold up_room in Hfull. rewrite Hq in Hfull. simpl in Hfull.
    by rewrite Z.ltb_antisym, Hfull. }
  split.
  - set (I := fun i w1 => w1 = put_up u (u_retryReq (upto (fun _ => true) i (up_retryReq x)) x) w).
    destruct (for_each_index I (sendpkt_step sendReq u) num_ports w) as (w' & Hr & Hw'); [done| | |].
    + intros i w1 Hi ->. destruct (Hport i Hi) as (q & _ & Hnum & Hfl). eexists. split; [|reflexivity].
      set (x1 := u_retryReq _ x). assert (zget (ups (get Ups (put_up u x1 w))) u = Some x1) as Hx1.
      { rewrite ups_put_up. apply zget_zset_eq. by eapply zget_lt. }
      unfold sendpkt_step. rewrite (M_bind_ok_intro _ _ _ _ _ (the_up_run u x1 _ Hx1)).
      rewrite (M_bind_ok_intro _ _ _ _ _ (lift_get (bufferdata_num x1) _ _ _ Hnum)).
      change (up_size x1) with (up_size x). rewrite Hfl. unfold set_retryReq.
      rewrite (M_bind_ok_intro _ _ _ _ _ (the_up_run u x1 _ Hx1)).
      destruct (zget_is_Some (up_retryReq x) i) as [v Hv]; [rewrite (uw_req _ Hsh); unfold num_ports in *; lia|].
      rewrite (M_bind_ok_intro _ _ _ _ _ (lift_get (up_retryReq x1) _ _ _ (upto_get _ _ _ _ Hv))), set_up_run.
      unfold put_up. rewrite get_put, put_put. cbn [ups]. rewrite zset_zset.
      unfold x1. cbn [up_retryReq u_retryReq]. by rewrite <- (upto_step (fun _ => true) i _ v Hv).
    + unfold I. rewrite upto_0. unfold put_up. rewrite zset_id by (rewrite Hx; by destruct x).
      symmetry. etransitivity; [|apply (put_get (C := Ups))]. by destruct (get Ups w).
    + unfold sendpkt_event. rewrite Hr, Hw', upto_all by (rewrite (uw_req _ Hsh); unfold num_ports; lia).
      do 4 f_equal. rewrite <- (uw_req _ Hsh). clear. by induction (up_retryReq x) as [|b l IH]; [|simpl; f_equal].
  - intros port p Hp. destruct (Hport port Hp) as (q & _ & Hnum & Hfl). unfold up_recvTimingResp.
    rewrite port_ok_true by done. cbn [assert_].
    rewrite (M_bind_ok_intro (mret tt) _ w tt w eq_refl), (M_bind_ok_intro _ _ _ _ _ (the_up_run u x w Hx)).
    rewrite (M_bind_ok_intro _ _ _ _ _ (lift_get _ _ _ w Hnum)), Hfl.
    destruct (zget_is_Some (up_retryResp x) port) as [v Hv]; [rewrite (uw_resp _ Hsh); unfold num_ports in *; lia|].
    rewrite (M_bind_ok_intro _ _ _ _ _ (lift_get _ _ _ w Hv)). eexists. split; [reflexivity|]. by rewrite get_put.
Qed.

(** ** Emptying a buffer *)

(** The buffer when each port has given its first packet away. *)
Definition up_drained x : UpBuffer :=
  let d := (fun q => tail q) <$> buffer_Data x in u_data d ((fun q => Z.of_nat (length q)) <$> d) x.

Lemma up_drained_wf x : up_wf x → up_wf (up_drained x).
Proof.
  intros [Hsh Hb]. split; [|done]. apply up_shape_data; [done|rewrite length_fmap; apply Hsh|done|].
  apply Forall_fmap. eapply Forall_impl; [apply Hsh|]. intros q Hq. simpl in *. destruct q; simpl in *; lia.
Qed.

Lemma send_data_loop n u x w :
  ups_wf n w → zget (ups (get Ups w)) u = Some x → up_wf x →
  for_each (zseq num_ports) (send_data_step u) w = ok (tt, put_up u (up_drained x) w).
Proof.
  intros Hwf Hx [Hsh Hb].
  set (nth i := let d := upto (fun q => tail q) i (buffer_Data x) in u_data d ((fun q => Z.of_nat (length q)) <$> d) x).
  set (I := fun i w1 => w1 = put_up u (nth i) w).
  destruct (for_each_index I (send_data_step u) num_ports w) as (w' & Hr & ->); [done| | |].
  - intros i w1 Hi ->. destruct (up_port x i Hsh Hi) as (q & Hq & _ & Hle).
    assert (zget (ups (get Ups (put_up u (nth i) w))) u = Some (nth i)) as Hx1
      by (rewrite ups_put_up; apply zget_zset_eq; by eapply zget_lt).
    pose proof (upto_get (fun q => tail q) i _ q Hq) as Hq1. pose proof (upto_step (fun q => tail q) i _ q Hq) as Hst.
    unfold send_data_step. rewrite (M_bind_ok_intro _ _ _ _ _ (the_up_run u _ _ Hx1)).
    rewrite (M_bind_ok_intro _ _ _ _ _ (lift_get (buffer_Data (nth i)) _ _ _ Hq1)). unfold I.
    destruct q as [|p q].
    + eexists. split; [reflexivity|]. unfold nth at 2. rewrite <- Hst. unfold nth. simpl. by rewrite (zset_id _ _ _ Hq1).
    + assert (zget (bufferdata_num (nth i)) i = Some (Z.of_nat (length (p :: q)))) as Hn1
        by (unfold nth; simpl; by rewrite zget_fmap, Hq1).
      rewrite (M_bind_ok_intro _ _ _ _ _ (lift_get _ _ _ _ Hn1)), set_up_run. eexists. split; [reflexivity|].
      unfold put_up. rewrite get_put, put_put. cbn [ups]. rewrite zset_zset. do 3 f_equal.
      unfold nth. rewrite <- Hst, fmap_zset. simpl. unfold u_data. simpl. do 2 f_equal.
      pose proof (uw_size _ Hsh). simpl in Hle. rewrite u32_small by (unfold two32; lia). lia.
  - unfold I, nth. rewrite upto_0. unfold put_up. rewrite zset_id.
    + symmetry. etransitivity; [|apply (put_get (C := Ups))]. by destruct (get Ups w).
    + rewrite Hx. unfold u_data. rewrite <- (uw_num _ Hsh). by destruct x.
  - rewrite Hr. unfold nth, up_drained. rewrite upto_all; [done|]. rewrite (uw_data _ Hsh). unfold num_ports. lia.
Qed.

Lemma data_at_run u port x q w :
  zget (ups (get Ups w)) u = Some x → zget (buffer_Data x) port = Some q →
  data_at u port w = ok (match q with [] => false | _ => true end, w).
Proof.
  intros Hx Hq. unfold data_at. rewrite (M_bind_ok_intro _ _ _ _ _ (the_up_run u x w Hx)).
  by rewrite (M_bind_ok_intro _ _ _ _ _ (lift_get _ _ _ w Hq)).
Qed.

(** [send_data_2cal] takes the first packet of every port, and is queued again as
    long as a port has another. *)
Theorem send_data_2cal_spec n u w :
  ups_wf n w → 0 ≤ u < n → sch_inv w → 0 ≤ now w < 2 ^ 63 →
  ∃ x w', zget (ups (get Ups w)) u = Some x ∧ send_data_2cal ev u w = ok (tt, w') ∧ ups_wf n w' ∧
    get Ups w' = MkUps (zset (ups (get Ups w)) u (up_drained x)) ∧
    ∀ e, is_scheduled e w' = true ↔
      is_scheduled e w = true ∨ e = ev (UpSend u) ∧ ∃ q, q ∈ buffer_Data (up_drained x) ∧ q ≠ [].
Proof using -(Independent1 Apart0 Apart1).
  intros Hwf Hu Hi Hn. destruct (get_up n w u Hwf Hu) as (x & Hx & Hxw). exists x.
  unfold send_data_2cal. rewrite (M_bind_ok_intro _ _ _ _ _ (send_data_loop n u x w Hwf Hx Hxw)).
  set (w1 := put_up u (up_drained x) w). pose proof (up_drained_wf x Hxw) as [Hsh _].
  assert (zget (ups (get Ups w1)) u = Some (up_drained x)) as Hx1
    by (unfold w1; rewrite ups_put_up; apply zget_zset_eq; by eapply zget_lt).
  assert (ups_wf n w1) as Hwf1 by (apply put_up_wf; [done|by apply up_drained_wf]).
  destruct (decide (Exists (fun q => q ≠ []) (buffer_Data (up_drained x)))) as [Hex|Hno].
  - assert (for_any (zseq num_ports) (data_at u) w1 = ok (true, w1)) as Hany.
    { apply Exists_exists in Hex as (q & Hq & Hne). apply list_elem_of_lookup in Hq as [k Hk].
      destruct (first_index (fun i => match zget (buffer_Data (up_drained x)) i with Some (_ :: _) => true | _ => false end)
        (Z.of_nat k)) as (i & Hi' & Hpi & Hfirst); [lia| |].
      { unfold zget. destruct (Z.ltb_spec (Z.of_nat k) 0); [lia|]. rewrite Nat2Z.id, Hk. by destruct q. }
      apply lookup_lt_Some in Hk. rewrite (uw_data _ Hsh) in Hk. unfold num_ports in Hk.
      destruct (zseq_split num_ports i) as [l ->]; [unfold num_ports; lia|].
      assert (∀ j, 0 ≤ j ≤ i → ∃ q, zget (buffer_Data (up_drained x)) j = Some q) as Hq'.
      { intros j Hj. apply zget_is_Some. rewrite (uw_data _ Hsh). unfold num_ports. lia. }
      apply for_any_first.
      - intros j Hj%elem_of_zseq. destruct (Hq' j) as [r Hr]; [lia|]. rewrite (data_at_run u j _ r w1 Hx1 Hr).
        specialize (Hfirst j Hj). cbn beta in Hfirst. rewrite Hr in Hfirst. by destruct r.
      - destruct (Hq' i) as [r Hr]; [lia|]. rewrite (data_at_run u i _ r w1 Hx1 Hr). rewrite Hr in Hpi. by destruct r. }
    rewrite (M_bind_ok_intro _ _ _ _ _ Hany).
    destruct (own_once (ev (UpSend u)) (MkUps (zset (ups (get Ups w)) u (up_drained x))) w) as (w2 & Hs & Hst & Ha & Hfl);
      [by apply ind_inv|done|].
    exists w2. split; [done|]. split; [exact Hs|]. split; [|split; [done|]].
    + unfold ups_wf in *. rewrite Ha. unfold w1, put_up in Hwf1. by rewrite get_put in Hwf1.
    + intros e. split.
      * intros He. destruct (ps_new _ _ _ _ Hst e He) as [?| ->]; [by left|right]. split; [done|]. by apply Exists_exists in Hex.
      * intros [He|[-> _]]; [|done]. by apply (ss_kept _ _ (ps_sched _ _ _ _ Hst)).
  - assert (for_any (zseq num_ports) (data_at u) w1 = ok (false, w1)) as Hany.
    { apply for_any_none. intros j Hj%elem_of_zseq. destruct (up_port _ j Hsh Hj) as (q & Hq & _).
      rewrite (data_at_run u j _ q w1 Hx1 Hq). destruct q as [|p q]; [done|]. destruct Hno. apply Exists_exists.
      exists (p :: q). split; [by eapply zget_elem|done]. }
    rewrite (M_bind_ok_intro _ _ _ _ _ Hany). exists w1. split; [done|]. split; [done|]. split; [done|].
    split; [unfold w1, put_up; by rewrite get_put|].
    intros e. unfold w1, put_up. rewrite ind_scheduled. split; [by left|]. intros [?|[_ Hq]]; [done|].
    destruct Hno. by apply Exists_exists.
Qed.
End Inv.

(** ** Ports by name *)

(** The names [main] uses find the ports. *)
Lemma up_getPort_name i : 0 ≤ i < 2 ^ 31 → up_getPort (buf_side_name i) = if i <? num_ports then ok i else err RuntimeError.
Proof.
  intros Hi. change (up_getPort (buf_side_name i)) with
    (bank ← stoi (pretty i); if (0 <=? bank) && (bank <? num_ports) then ok bank else err RuntimeError).
  rewrite stoi_pretty by done. cbn [mbind exc_bind]. by destruct (Z.leb_spec 0 i); [|lia].
Qed.

(** ** Instances *)

(** Two buffers, the allocator and the event queue. *)
Section Demo.
Definition up_world : Type := EventQueue (fin 4) * (Ups * PacketHeap).
#[local] Instance up_queue_of : Has up_world (EventQueue (fin 4)) := pair_left.
#[local] Instance ups_of : Has up_world Ups.
Proof. refine {| get w := w.2.1; put s w := (w.1, (s, w.2.2)) |}; [done| |done]. by intros [q [s h]]. Defined.
#[local] Instance heap_of : Has up_world PacketHeap.
Proof. refine {| get w := w.2.2; put h w := (w.1, (w.2.1, h)) |}; [done| |done]. by intros [q [s h]]. Defined.
#[local] Instance up_apart1 : Apart up_world (EventQueue (fin 4)) Ups.
Proof. by split. Qed.
#[local] Instance up_apart2 : Apart up_world Ups (EventQueue (fin 4)).
Proof. by split. Qed.
#[local] Instance up_apart3 : Apart up_world (EventQueue (fin 4)) PacketHeap.
Proof. by split. Qed.
#[local] Instance up_apart4 : Apart up_world PacketHeap (EventQueue (fin 4)).
Proof. by split. Qed.
#[local] Instance up_apart5 : Apart up_world Ups PacketHeap.
Proof. by split. Qed.
#[local] Instance up_apart6 : Apart up_world PacketHeap Ups.
Proof. by split. Qed.

Definition demo_up_ev (e : up_event) : fin 4 :=
  match e with
  | UpTick u => if decide (u = 0) then 0%fin else 1%fin
  | UpSend u => if decide (u = 0) then 2%fin else 3%fin
  end.
Definition up_world_of (l : list UpBuffer) : up_world := (new_queue (all_events (fin 4)), (MkUps l, MkHeap 0)).
Definition two_ups : up_world := up_world_of [new_UpBuffer 0; new_UpBuffer 16384].
Definition a_read : PacketPtr := MkPtr 0 (create_read_packet 64 64).

Lemma new_UpBuffer_wf a : base_addr a → up_wf (new_UpBuffer a).
Proof. intros Ha. split; [|done]. split; simpl; try done; try lia.
  change (Forall (fun q : list PacketPtr => Z.of_nat (length q) ≤ 3 + 1) (replicate 8 [])); by apply Forall_replicate. Qed.

Lemma two_ups_wf : ups_wf 2 two_ups.
Proof. split; [done|]. repeat (apply Forall_cons; split; [by apply new_UpBuffer_wf|]). done. Qed.
Lemma two_ups_inv : sch_inv two_ups.
Proof. by apply fresh_queue_inv. Qed.

Lemma up_response_witness :
  ∃ w', up_recvTimingResp demo_up_ev 0 a_read 1 two_ups = ok (true, w') ∧
    is_scheduled (demo_up_ev (UpTick 0)) w' = true.
Proof.
  destruct (up_response demo_up_ev 2 0 1 a_read two_ups (new_UpBuffer 0) [] two_ups_wf) as [Hkept _];
    [done|done|exact two_ups_inv|done|reflexivity|reflexivity|].
  destruct Hkept as (w' & Hr & _ & _ & _ & Hs); [reflexivity|].
  exists w'. split; [exact Hr|]. rewrite Hs. by rewrite decide_True.
Defined.

(** A port that takes every packet. *)
Definition take_all (_ _ : Z) (_ : PacketPtr) : M up_world bool := mret true.

Lemma take_all_ok : sender_ok take_all 2 (fun _ => True).
Proof. split; try done. intros u port p w _ Hi _ _ _ _. exists true, w. by split_and!. Qed.

Lemma up_events_total_witness :
  (∃ w', up_init take_all 1 two_ups = ok (tt, w') ∧ up_inv 2 (fun _ => True) two_ups w') ∧
  (∃ w', sendpkt_event take_all 1 two_ups = ok (tt, w')) ∧
  (∃ w', up_sendRetryReq take_all 1 5 two_ups = ok (tt, w')).
Proof.
  destruct (up_events_total take_all 2 (fun _ => True) take_all_ok two_ups two_ups 1) as (Hinit & (w2 & Hr2 & _) & Hretry).
  - split; [done|exact two_ups_wf|apply sched_step_refl; exact two_ups_inv|done].
  - done.
  - split; [apply (Hinit (new_UpBuffer 16384)); [reflexivity|by repeat split]|].
    split; [exists w2; exact Hr2|]. destruct (Hretry 5) as (w3 & Hr3 & _); [done|]. exists w3. exact Hr3.
Defined.

(** A buffer with four packets on every port. *)
Definition full_up : UpBuffer := u_data (replicate 8 (replicate 4 a_read)) (replicate 8 4) (new_UpBuffer 0).
Definition full_ups : up_world := up_world_of [full_up].

Lemma full_up_wf : up_wf full_up.
Proof. split; [|by repeat split]. split; simpl; try done; try lia. repeat (apply Forall_cons; split; [done|]). done. Qed.
Lemma full_ups_wf : ups_wf 1 full_ups.
Proof. split; [done|]. by apply Forall_singleton, full_up_wf. Qed.

Lemma full_buffer_stalls_witness :
  ∃ w', sendpkt_event take_all 0 full_ups = ok (tt, w') ∧
    ∃ w2, up_recvTimingResp demo_up_ev 0 a_read 7 full_ups = ok (false, w2).
Proof.
  destruct (full_buffer_stalls demo_up_ev 1 0 full_up full_ups take_all full_ups_wf) as [Hs Hr]; [done|done| |].
  - intros port Hp. assert (port ∈ zseq 8) as Hin by (apply elem_of_zseq; exact Hp).
    assert (Forall (fun port => up_room port full_up = false) (zseq 8)) as Hall by (repeat constructor).
    rewrite Forall_forall in Hall. by apply Hall.
  - eexists. split; [exact Hs|]. destruct (Hr 7 a_read) as (w2 & Hw2 & _); [done|]. exists w2. exact Hw2.
Defined.

Lemma send_data_2cal_spec_witness :
  ∃ w', send_data_2cal demo_up_ev 0 full_ups = ok (tt, w') ∧ is_scheduled (demo_up_ev (UpSend 0)) w' = true.
Proof.
  destruct (send_data_2cal_spec demo_up_ev 1 0 full_ups full_ups_wf) as (x & w' & Hx & Hr & _ & _ & Hs);
    [done|by apply fresh_queue_inv|done|].
  assert (x = full_up) as E by (by injection Hx as <-). subst x. exists w'. split; [exact Hr|].
  apply Hs. right. split; [done|]. exists (replicate 3 a_read). split; [left|done].
Defined.
End Demo.
