(* ===== verification/DramBuffer.v ===== *)
(** * The single-packet memory and its buffer (src/dram/dram.h, dram.cpp, src/buffer/buffer.h, buffer.cpp)

    [Dram] answers a request ten ticks later, and remembers one packet; [Buffer]
    sends one request at the start and keeps the answers. [main] creates neither. The
    handlers run in any world with a scheduler; the calls through the ports are
    parameters, as they are for the other modules. Packets are pointers that may be
    null ([None]). The theorems: an idle memory takes a request and answers with it; a
    second one within ten ticks fails an assertion; the buffer counts below zero. *)

From Stdlib Require Import ZArith Lia Ascii String.
From stdpp Require Import strings gmap numbers option finite fin list.
From S2P Require Import Prelude EventQ Sched Packet.

(** [class Dram] and [class Buffer]. *)
Record Dram := MkDram { pendingPkt : option PacketPtr }.
Record Buffer := MkBuffer {
  dataQueue : list (option PacketPtr);
  outstandingReqs : Z;
  maxSize : Z;
  waitingRetry : bool
}.
Definition new_Dram : Dram := MkDram None.
Definition new_Buffer : Buffer := MkBuffer [] 0 32 false.

(** [Dram::getPort(if_name)]: another name ends in the assertion of
    [SimObject::getPort]; [Buffer::getPort(if_name)] throws. *)
Definition dram_getPort (if_name : string) : exc unit :=
  if decide (if_name = "mem_side"%string) then ok tt else err AssertionFailed.
Definition buffer_getPort (if_name : string) : exc unit :=
  if decide (if_name = "mem_side"%string) then ok tt else err RuntimeError.

Section Handlers.
Context {W Ev : Type} `{Has W Dram} `{Has W Buffer} `{Has W PacketHeap} `{Scheduler W Ev} (respEvent : Ev).
Context (sendResp : option PacketPtr -> M W bool) (sendReq : PacketPtr -> M W bool).

(** [Dram::accessAndRespond(pkt)]; the comment that hides a brace in the source ends
    the body behind the call. *)
Definition dram_accessAndRespond (p : PacketPtr) : M W unit := t ← gets now; schedule_at respEvent (u64 (t + 10)).
(** [Dram::recvTimingReq(pkt)] and [Dram::sendResponse()]. *)
Definition dram_recvTimingReq (p : PacketPtr) : M W bool :=
  upd Dram (fun _ => MkDram (Some p)) ;; dram_accessAndRespond p ;; mret true.
Definition dram_sendResponse : M W unit := d ← gets (get Dram); _ ← sendResp (pendingPkt d); mret tt.

(** [Buffer::init()]: 42 bytes at 0x1000, whatever the answer. The default of the
    constructor's third argument, called [read], makes the packet a write. *)
Definition buffer_init : M W unit := p ← new_packet (new_DataPacket 4096 42 true); _ ← sendReq p; mret tt.
(** [Buffer::recvTimingResp(pkt)]. *)
Definition buffer_recvTimingResp (p : option PacketPtr) : M W bool :=
  upd Buffer (fun b => MkBuffer (dataQueue b ++ [p]) (u64 (outstandingReqs b - 1)) (maxSize b) (waitingRetry b)) ;; mret true.
(** [MemSidePort::sendRetryResp()] has no effect; [MemSidePort::recvReqRetry()]. *)
Definition buffer_sendRetryResp : M W unit := mret tt.
Definition buffer_recvReqRetry : M W unit :=
  upd Buffer (fun b => MkBuffer (dataQueue b) (outstandingReqs b) (maxSize b) false) ;; buffer_sendRetryResp.

Section Requests.
Context `{EqDecision Ev} `{!SchedulerOk W Ev} `{!Independent W Ev Dram}.

(** A memory whose event is idle takes the request, remembers it and answers ten
    ticks later; while the event is queued the next request fails the assertion of
    [schedule], although the port answers [true] to everything. *)
Theorem dram_request p w :
  sch_inv w → 0 ≤ now w < 2 ^ 63 →
  if is_scheduled respEvent w then dram_recvTimingReq p w = err AssertionFailed
  else ∃ w', dram_recvTimingReq p w = ok (true, w') ∧ sch_inv w' ∧ now w' = now w ∧
    pendingPkt (get Dram w') = Some p ∧ ∀ e, is_scheduled e w' = if decide (e = respEvent) then true else is_scheduled e w.
Proof using All -(sendResp sendReq).
  intros Hi Hn. set (w1 := put Dram (MkDram (Some p)) w).
  assert (sch_inv w1) as Hi1 by by apply ind_inv. assert (now w1 = now w) as Hn1 by apply ind_now.
  assert (∀ e, is_scheduled e w1 = is_scheduled e w) as Hs1 by (intros; apply ind_scheduled).
  assert (dram_recvTimingReq p w = (schedule_at respEvent (u64 (now w + 10)) ;; mret true) w1) as E.
  { unfold dram_recvTimingReq. rewrite (M_bind_ok_intro (upd Dram _) _ w tt w1) by done. rewrite <- Hn1. done. }
  rewrite E. clear E. destruct (is_scheduled respEvent w) eqn:He.
  - apply M_bind_err_intro, schedule_queued. by rewrite Hs1.
  - destruct (schedule_idle respEvent (u64 (now w + 10)) w1) as (w2 & Hr & Hi2 & Hf & Hn2 & _ & Hs2); [done|by rewrite Hs1| |].
    { rewrite u64_small by (unfold two64; lia). rewrite Hn1. unfold horizon. lia. }
    exists w2. rewrite (M_bind_ok_intro _ _ _ _ _ Hr). split; [done|]. split; [done|]. split; [congruence|].
    split; [rewrite (ind_frame (C := Dram) _ _ Hf); unfold w1; by rewrite get_put|].
    intros e. rewrite Hs2. case_decide; [done|apply Hs1].
Qed.
End Requests.

(** The buffer keeps every answer, in order, and never refuses; its counter of
    outstanding requests is never raised, so the first answer takes it to 2^64 - 1. *)
Theorem buffer_response p w :
  let b := get Buffer w in
  ∃ w', buffer_recvTimingResp p w = ok (true, w') ∧ dataQueue (get Buffer w') = dataQueue b ++ [p] ∧
    outstandingReqs (get Buffer w') = u64 (outstandingReqs b - 1) ∧
    (outstandingReqs b = 0 → outstandingReqs (get Buffer w') = 2 ^ 64 - 1).
Proof.
  intros b. eexists. split; [reflexivity|]. rewrite get_put. split; [done|]. split; [done|]. unfold b. simpl. by intros ->.
Qed.
End Handlers.

(** ** Both together *)

Section Demo.
Definition pair_world : Type := EventQueue (fin 1) * (Dram * (Buffer * PacketHeap)).
#[local] Instance pw_queue : Has pair_world (EventQueue (fin 1)) := pair_left.
#[local] Instance pw_dram : Has pair_world Dram.
Proof. refine {| get w := w.2.1; put d w := (w.1, (d, w.2.2)) |}; [done| |done]. by intros [q [d x]]. Defined.
#[local] Instance pw_buffer : Has pair_world Buffer.
Proof. refine {| get w := w.2.2.1; put b w := (w.1, (w.2.1, (b, w.2.2.2))) |}; [done| |done]. by intros [q [d [b h]]]. Defined.
#[local] Instance pw_heap : Has pair_world PacketHeap.
Proof. refine {| get w := w.2.2.2; put h w := (w.1, (w.2.1, (w.2.2.1, h))) |}; [done| |done]. by intros [q [d [b h]]]. Defined.
#[local] Instance pw_apart1 : Apart pair_world (EventQueue (fin 1)) Dram.
Proof. by split. Qed.
#[local] Instance pw_apart2 : Apart pair_world Dram (EventQueue (fin 1)).
Proof. by split. Qed.

(** The buffer bound to the memory; the only event is the answer's. *)
Definition pair_process (_ : fin 1) : M pair_world unit := dram_sendResponse buffer_recvTimingResp.
Definition pair_start : pair_world := (new_queue (all_events (fin 1)), (new_Dram, (new_Buffer, MkHeap 0))).
Definition pair_send : PacketPtr -> M pair_world bool := dram_recvTimingReq 0%fin.
Definition pair_run : exc (unit * pair_world) :=
  (buffer_init pair_send ;; serviceOne pair_process) pair_start.

(** The request of [init] comes back at tick 10, the same packet. *)
Theorem simple_roundtrip :
  ∃ w, pair_run = ok (tt, w) ∧ now w = 10 ∧
    dataQueue (get Buffer w) = [Some (MkPtr 0 (new_DataPacket 4096 42 true))] ∧ is_scheduled (0%fin : fin 1) w = false.
Proof. eexists. split; [vm_compute; reflexivity|]. split; [reflexivity|]. split; reflexivity. Qed.

Lemma dram_request_witness :
  ∃ w', pair_send (MkPtr 7 (new_DataPacket 64 64 false)) pair_start = ok (true, w') ∧ is_scheduled (0%fin : fin 1) w' = true ∧
    pair_send (MkPtr 8 (new_DataPacket 128 64 false)) w' = err AssertionFailed.
Proof.
  assert (sch_inv pair_start) as Hi by by apply fresh_queue_inv.
  pose proof (dram_request (0%fin : fin 1) (MkPtr 7 (new_DataPacket 64 64 false)) pair_start Hi) as Hd.
  destruct (Hd ltac:(done)) as (w' & Hr & Hi' & Hn & _ & Hs). exists w'. split; [exact Hr|].
  assert (is_scheduled (0%fin : fin 1) w' = true) as Hq by by rewrite Hs.
  split; [exact Hq|]. pose proof (dram_request (0%fin : fin 1) (MkPtr 8 (new_DataPacket 128 64 false)) w' Hi') as Hd2.
  rewrite Hq in Hd2. apply Hd2. by rewrite Hn.
Defined.
End Demo.
