(* ===== verification/System.v ===== *)
(** * The program (src/main.cpp)

    The objects of [main], the ports it binds, the events and the loop. The world
    is a record of the components; each handler of the other files runs in it by
    an instance of [Has]. The receive functions of the ports are the handlers of
    their owners; the calls are layered (a retry may send a request, neither a
    request nor a response calls back), so no recursion is needed. The DRAM
    library is any [DRAMSystem]. The theorems: the bindings connect what they
    should; from the start the program never fails and its loop ends at the tick
    limit, with every read accounted for. *)

From Stdlib Require Import ZArith Lia Ascii String.
From stdpp Require Import strings pretty gmap sets numbers option finite fin list.
From S2P Require Import Prelude EventQ Sched Packet Port Names Config DramSystem Memory DramArb UpBuffer.

(** ** Ports and events *)

(** The request ports: port [i] of buffer [u], and the arbiter's of bank [b]. *)
Inductive sys_req := BufSide (u i : Z) | ArbReq (b : Z).
(** The response ports: the arbiter's of bank [b] for upstream [u], and the one
    of memory object [i]. *)
Inductive sys_resp := ArbResp (b u : Z) | MemPort (i : Z).

#[global] Instance sys_req_eq_dec : EqDecision sys_req.
Proof. solve_decision. Defined.
#[global] Instance sys_resp_eq_dec : EqDecision sys_resp.
Proof. solve_decision. Defined.
#[global] Instance sys_req_countable : Countable sys_req.
Proof.
  refine (inj_countable' (fun q => match q with BufSide u i => inl (u, i) | ArbReq b => inr b end)
            (fun x => match x with inl (u, i) => BufSide u i | inr b => ArbReq b end) _). by intros [].
Defined.
#[global] Instance sys_resp_countable : Countable sys_resp.
Proof.
  refine (inj_countable' (fun r => match r with ArbResp b u => inl (b, u) | MemPort i => inr i end)
            (fun x => match x with inl (b, u) => ArbResp b u | inr i => MemPort i end) _). by intros [].
Defined.

(** The event objects. *)
Inductive sys_ev :=
| EvWrapper
| EvMemTick (i : fin 8)
| EvMemSend (i : fin 8)
| EvArb
| EvArbSend
| EvUpTick (u : fin 4)
| EvUpSend (u : fin 4).

#[global] Instance sys_ev_eq_dec : EqDecision sys_ev.
Proof. solve_decision. Defined.

Definition sys_ev_code : Type := (bool + bool) + ((fin 8 + fin 8) + (fin 4 + fin 4)).
Definition ev_encode (e : sys_ev) : sys_ev_code :=
  match e with
  | EvWrapper => inl (inl true)
  | EvArb => inl (inr true)
  | EvArbSend => inl (inr false)
  | EvMemTick i => inr (inl (inl i))
  | EvMemSend i => inr (inl (inr i))
  | EvUpTick u => inr (inr (inl u))
  | EvUpSend u => inr (inr (inr u))
  end.
Definition ev_decode (x : sys_ev_code) : option sys_ev :=
  match x with
  | inl (inl true) => Some EvWrapper
  | inl (inl false) => None
  | inl (inr true) => Some EvArb
  | inl (inr false) => Some EvArbSend
  | inr (inl (inl i)) => Some (EvMemTick i)
  | inr (inl (inr i)) => Some (EvMemSend i)
  | inr (inr (inl u)) => Some (EvUpTick u)
  | inr (inr (inr u)) => Some (EvUpSend u)
  end.
Lemma ev_decode_encode e : ev_decode (ev_encode e) = Some e.
Proof. by destruct e. Qed.
#[global] Instance sys_ev_countable : Countable sys_ev.
Proof. exact (inj_countable ev_encode ev_decode ev_decode_encode). Defined.
Definition all_sys_ev : list sys_ev :=
  [EvWrapper; EvArb; EvArbSend] ++ (EvMemTick <$> enum (fin 8)) ++ (EvMemSend <$> enum (fin 8)) ++
  (EvUpTick <$> enum (fin 4)) ++ (EvUpSend <$> enum (fin 4)).
#[global] Instance sys_ev_finite : Finite sys_ev.
Proof.
  refine {| enum := all_sys_ev |}.
  - apply (bool_decide_unpack _). vm_compute. exact I.
  - intros e. unfold all_sys_ev. rewrite !elem_of_app, !list_elem_of_fmap.
    assert (∀ n (i : fin n), i ∈ enum (fin n)) as Hi by (intros; apply elem_of_enum).
    destruct e; try (left; set_solver); right; eauto 8.
Defined.

(** ** Creation and binding *)

Definition main_banks : Z := 8.
Definition main_upstreams : Z := 4.
Definition main_buf_size : Z := 10.

Definition sys_ports : Type := Ports sys_req sys_resp.
Definition sys_ref : Type := @port_ref sys_req sys_resp.

(** The ports the constructors of the objects make, by the names they give; those of the
    memories take [name()], to which [SimObject] has added a suffix. *)
Definition main_ports : sys_ports :=
  MkPorts
    (list_to_map (
       (u ← zseq main_upstreams; i ← zseq num_ports;
        [(BufSide u i, new_RequestPort ("up_buffer_" +:+ pretty u +:+ ".buf_side" +:+ pretty i))]) ++
       (b ← zseq num_banks; [(ArbReq b, new_RequestPort ("dram_arb.request" +:+ pretty b))])))
    (list_to_map (
       (b ← zseq num_banks; u ← zseq main_upstreams;
        [(ArbResp b u, new_ResponsePort ("dram_arb.response" +:+ pretty b +:+ "_" +:+ pretty u))]) ++
       (i ← zseq main_banks; [(MemPort i, new_ResponsePort ("dramsim3_" +:+ pretty i +:+ ".Event.port"))]))).

(** The port an object returns for a name. *)
Definition up_port_of (u : Z) (name : string) : exc sys_ref := i ← up_getPort name; ok (ReqRef (BufSide u i)).
Definition arb_port_of (name : string) : exc sys_ref :=
  p ← DramArb.getPort main_upstreams name (-1);
  ok (match p with RequestOf b => ReqRef (ArbReq b) | ResponseOf b u => RespRef (ArbResp b u) end).
(** [DRAMsim3::getPort(if_name)] of object [i]. *)
Definition mem_port_of (i : Z) (name : string) : exc sys_ref :=
  if decide (name = "mem_side"%string) then ok (RespRef (MemPort i)) else err RuntimeError.

Definition bind_named (x y : exc sys_ref) (s : sys_ports) : exc sys_ports := p ← x; q ← y; bindPorts p q s.

(** The binding loop of [main]. *)
Definition bind_bank (i : Z) (s : sys_ports) : exc sys_ports :=
  s ← foldE (fun u => bind_named (up_port_of u (buf_side_name i)) (arb_port_of (response_name i u)))
        (zseq main_upstreams) s;
  bind_named (arb_port_of (request_name i)) (mem_port_of i "mem_side") s.
Definition main_bind : exc sys_ports := foldE bind_bank (zseq main_banks) main_ports.

(** Whether two ports are each other's peers, as a test. *)
Definition linked_b (s : sys_ports) (q : sys_req) (r : sys_resp) : bool :=
  match reqs s !! q, resps s !! r with
  | Some p, Some p' =>
      rq_connected p && rs_connected p' && bool_decide (_responsePort p = Some r) && bool_decide (_requestPort p' = Some q) &&
      bool_decide (rq_peer p = Some (RespRef r)) && bool_decide (rs_peer p' = Some (ReqRef q))
  | _, _ => false
  end.
Lemma linked_b_spec s q r : linked_b s q r = true → linked s q r.
Proof.
  unfold linked_b, linked. destruct (reqs s !! q) as [p|], (resps s !! r) as [p'|]; try done.
  rewrite !andb_true_iff, !bool_decide_eq_true. intros (((((? & ?) & ?) & ?) & ?) & ?). eauto 10.
Qed.

Definition wired_b (s : sys_ports) : bool :=
  forallb (fun i => linked_b s (ArbReq i) (MemPort i) &&
    forallb (fun u => linked_b s (BufSide u i) (ArbResp i u)) (zseq main_upstreams)) (zseq main_banks).

Definition wired (s : sys_ports) : Prop :=
  ∀ i, 0 ≤ i < main_banks →
    linked s (ArbReq i) (MemPort i) ∧ ∀ u, 0 ≤ u < main_upstreams → linked s (BufSide u i) (ArbResp i u).

Lemma main_wiring_ok : ∃ s, main_bind = ok s ∧ wired s.
Proof.
  assert (match main_bind with ok s => wired_b s | err _ => false end = true) as Hb by (vm_compute; reflexivity).
  destruct main_bind as [s|]; [|done]. exists s. split; [done|]. intros i Hi%elem_of_zseq.
  unfold wired_b in Hb. rewrite forallb_forall in Hb.
  specialize (Hb i (proj1 (list_elem_of_In _ _) Hi)). apply andb_true_iff in Hb as [Hm Hu].
  split; [by apply linked_b_spec|]. intros u Hu'%elem_of_zseq. rewrite forallb_forall in Hu.
  apply linked_b_spec, Hu. by apply list_elem_of_In.
Qed.

(** The bindings of [main] succeed and connect port [i] of every buffer with its
    own port at bank [i] of the arbiter, and the request port of bank [i] with
    memory object [i]; both ends know each other. *)
Theorem main_wiring :
  ∃ s, main_bind = ok s ∧ ∀ i, 0 ≤ i < main_banks →
    linked s (ArbReq i) (MemPort i) ∧ ∀ u, 0 ≤ u < main_upstreams → linked s (BufSide u i) (ArbResp i u).
Proof. exact main_wiring_ok. Qed.

(** ** The world *)

Section System.
Context {S : Type} `{DRAMSystem S}.

Record World := MkWorld {
  w_queue : EventQueue sys_ev;
  w_ports : sys_ports;
  w_side : MemSide S;
  w_arb : DramArb;
  w_ups : Ups;
  w_heap : PacketHeap
}.

#[global] Instance world_queue : Has World (EventQueue sys_ev).
Proof. refine {| get := w_queue; put c w := MkWorld c (w_ports w) (w_side w) (w_arb w) (w_ups w) (w_heap w) |}; [done|by intros []|done]. Defined.
#[global] Instance world_ports : Has World sys_ports.
Proof. refine {| get := w_ports; put c w := MkWorld (w_queue w) c (w_side w) (w_arb w) (w_ups w) (w_heap w) |}; [done|by intros []|done]. Defined.
#[global] Instance world_side : Has World (MemSide S).
Proof. refine {| get := w_side; put c w := MkWorld (w_queue w) (w_ports w) c (w_arb w) (w_ups w) (w_heap w) |}; [done|by intros []|done]. Defined.
#[global] Instance world_arb : Has World DramArb.
Proof. refine {| get := w_arb; put c w := MkWorld (w_queue w) (w_ports w) (w_side w) c (w_ups w) (w_heap w) |}; [done|by intros []|done]. Defined.
#[global] Instance world_ups : Has World Ups.
Proof. refine {| get := w_ups; put c w := MkWorld (w_queue w) (w_ports w) (w_side w) (w_arb w) c (w_heap w) |}; [done|by intros []|done]. Defined.
#[global] Instance world_heap : Has World PacketHeap.
Proof. refine {| get := w_heap; put c w := MkWorld (w_queue w) (w_ports w) (w_side w) (w_arb w) (w_ups w) c |}; [done|by intros []|done]. Defined.

(** The components are apart. *)
#[global] Instance apart_queue_ports : Apart World (EventQueue sys_ev) sys_ports.
Proof. by split. Qed.
#[global] Instance apart_queue_side : Apart World (EventQueue sys_ev) (MemSide S).
Proof. by split. Qed.
#[global] Instance apart_queue_arb : Apart World (EventQueue sys_ev) DramArb.
Proof. by split. Qed.
#[global] Instance apart_queue_ups : Apart World (EventQueue sys_ev) Ups.
Proof. by split. Qed.
#[global] Instance apart_queue_heap : Apart World (EventQueue sys_ev) PacketHeap.
Proof. by split. Qed.
#[global] Instance apart_ports_queue : Apart World sys_ports (EventQueue sys_ev).
Proof. by split. Qed.
#[global] Instance apart_ports_side : Apart World sys_ports (MemSide S).
Proof. by split. Qed.
#[global] Instance apart_ports_arb : Apart World sys_ports DramArb.
Proof. by split. Qed.
#[global] Instance apart_ports_ups : Apart World sys_ports Ups.
Proof. by split. Qed.
#[global] Instance apart_ports_heap : Apart World sys_ports PacketHeap.
Proof. by split. Qed.
#[global] Instance apart_side_queue : Apart World (MemSide S) (EventQueue sys_ev).
Proof. by split. Qed.
#[global] Instance apart_side_ports : Apart World (MemSide S) sys_ports.
Proof. by split. Qed.
#[global] Instance apart_side_arb : Apart World (MemSide S) DramArb.
Proof. by split. Qed.
#[global] Instance apart_side_ups : Apart World (MemSide S) Ups.
Proof. by split. Qed.
#[global] Instance apart_side_heap : Apart World (MemSide S) PacketHeap.
Proof. by split. Qed.
#[global] Instance apart_arb_queue : Apart World DramArb (EventQueue sys_ev).
Proof. by split. Qed.
#[global] Instance apart_arb_ports : Apart World DramArb sys_ports.
Proof. by split. Qed.
#[global] Instance apart_arb_side : Apart World DramArb (MemSide S).
Proof. by split. Qed.
#[global] Instance apart_arb_ups : Apart World DramArb Ups.
Proof. by split. Qed.
#[global] Instance apart_arb_heap : Apart World DramArb PacketHeap.
Proof. by split. Qed.
#[global] Instance apart_ups_queue : Apart World Ups (EventQueue sys_ev).
Proof. by split. Qed.
#[global] Instance apart_ups_ports : Apart World Ups sys_ports.
Proof. by split. Qed.
#[global] Instance apart_ups_side : Apart World Ups (MemSide S).
Proof. by split. Qed.
#[global] Instance apart_ups_arb : Apart World Ups DramArb.
Proof. by split. Qed.
#[global] Instance apart_ups_heap : Apart World Ups PacketHeap.
Proof. by split. Qed.
#[global] Instance apart_heap_queue : Apart World PacketHeap (EventQueue sys_ev).
Proof. by split. Qed.
#[global] Instance apart_heap_ports : Apart World PacketHeap sys_ports.
Proof. by split. Qed.
#[global] Instance apart_heap_side : Apart World PacketHeap (MemSide S).
Proof. by split. Qed.
#[global] Instance apart_heap_arb : Apart World PacketHeap DramArb.
Proof. by split. Qed.
#[global] Instance apart_heap_ups : Apart World PacketHeap Ups.
Proof. by split. Qed.

(** ** Events and handlers *)

(** The event object of index [i]. *)
Definition fin_of (n : nat) (i : Z) : fin (Datatypes.S n) :=
  match decide (Z.to_nat i < Datatypes.S n)%nat with left Hlt => nat_to_fin Hlt | right _ => 0%fin end.
Definition mem_ev (e : mem_event) : sys_ev :=
  match e with WrapperTick => EvWrapper | MemTick i => EvMemTick (fin_of 7 i) | MemSend i => EvMemSend (fin_of 7 i) end.
Definition arb_ev (e : arb_event) : sys_ev := match e with ArbEvent => EvArb | SendResponse => EvArbSend end.
Definition up_ev (e : up_event) : sys_ev :=
  match e with UpTick u => EvUpTick (fin_of 3 u) | UpSend u => EvUpSend (fin_of 3 u) end.

(** [recvTimingReq] of the response ports, [recvTimingResp] and [recvReqRetry] of
    the request ports. *)
Definition port_recvTimingReq (r : sys_resp) (p : PacketPtr) : M World bool :=
  match r with
  | ArbResp b u => recvTimingReqUp arb_ev p b u
  | MemPort i => m_recvTimingReq (S := S) mem_ev i p
  end.
Definition port_recvTimingResp (q : sys_req) (p : PacketPtr) : M World bool :=
  match q with
  | BufSide u i => up_recvTimingResp up_ev u p i
  | ArbReq b => DramArb.recvTimingResp arb_ev p b
  end.
Definition up_sendReq (u i : Z) : PacketPtr -> M World bool := Port.sendTimingReq port_recvTimingReq (BufSide u i).
Definition port_recvReqRetry (q : sys_req) : M World unit :=
  match q with
  | BufSide u i => up_sendRetryReq up_sendReq u i
  | ArbReq b => handleReqRetry arb_ev b
  end.
Definition arb_sendReq (b : Z) : PacketPtr -> M World bool := Port.sendTimingReq port_recvTimingReq (ArbReq b).
Definition arb_sendResp (b u : Z) : PacketPtr -> M World bool := Port.sendTimingResp port_recvTimingResp (ArbResp b u).
Definition arb_sendRetry (b u : Z) : M World unit := Port.sendRetryReq port_recvReqRetry (ArbResp b u).
Definition mem_sendResp (i : Z) : PacketPtr -> M World bool := Port.sendTimingResp port_recvTimingResp (MemPort i).
Definition mem_sendRetry (i : Z) : M World unit := Port.sendRetryReq port_recvReqRetry (MemPort i).

Definition idx {n} (i : fin n) : Z := Z.of_nat (fin_to_nat i).

(** [event->process()]: the function each event object was made with. *)
Definition process (e : sys_ev) : M World unit :=
  match e with
  | EvWrapper => wrapper_tick (S := S) mem_ev
  | EvMemTick i => m_tick (S := S) (mem_sendRetry (idx i)) (idx i)
  | EvMemSend i => m_sendResponse (S := S) (mem_sendResp (idx i)) (idx i)
  | EvArb => arbitrate arb_ev arb_sendReq
  | EvArbSend => DramArb.sendResponse arb_ev arb_sendResp arb_sendRetry
  | EvUpTick u => sendpkt_event up_sendReq (idx u)
  | EvUpSend u => send_data_2cal up_ev (idx u)
  end.

(** ** [main] *)

(** The objects, on a DRAM system that was made from the configuration. *)
Definition main_ups : list UpBuffer := (fun u => new_UpBuffer (16384 * u)) <$> zseq main_upstreams.
Definition main_side (s : S) : MemSide S :=
  foldl (fun x i => new_DRAMsim3 i x) (MkSide [] (new_wrapper s)) (zseq main_banks).
Definition main_world (s : S) : exc World :=
  a ← new_DramArb main_buf_size main_upstreams;
  ports ← main_bind;
  ok (MkWorld (new_queue (all_events sys_ev)) ports (main_side s) a (MkUps main_ups) (MkHeap 0)).

(** [forEachObject(&SimObject::init)], in the order the objects were made: the
    wrapper, the arbiter, the buffers, the memory objects; the arbiter and the
    memory objects have nothing to do. *)
Definition main_init : M World unit :=
  wrapper_init mem_ev ;; for_each (zseq main_upstreams) (up_init up_sendReq).

(** [while (!gSim->empty() && gSim->getCurTick() < 1000) gSim->serviceOne();] *)
Definition tick_limit : Z := 1000.
Definition main_more (w : World) : bool := negb (empty (w_queue w)) && (_curTick (w_queue w) <? tick_limit).
Fixpoint main_loop (fuel : nat) : M World unit := fun w =>
  if main_more w then
    match fuel with
    | O => err OutOfFuel
    | Datatypes.S fuel' => (serviceOne process ;; main_loop fuel') w
    end
  else ok (tt, w).
(** The program up to the end of the loop, and then [delete gSim]. *)
Definition main_run (fuel : nat) (s : S) : exc World :=
  w ← main_world s;
  '(_, w) ← (main_init ;; main_loop fuel) w;
  ok w.
Definition main (fuel : nat) (s : S) : exc World :=
  w ← main_run fuel s;
  q ← drain (card sys_ev) (w_queue w);
  ok (put (EventQueue sys_ev) q w).
End System.
Arguments World S : clear implicits.

(** ** What the program keeps *)

Lemma idx_fin_of n i : 0 ≤ i ≤ Z.of_nat n → idx (fin_of n i) = i.
Proof.
  intros Hi. unfold idx, fin_of. destruct (decide _) as [Hlt|Hge]; [|lia]. rewrite fin_to_nat_to_fin. lia.
Qed.
Lemma fin_of_idx n (i : fin (Datatypes.S n)) : fin_of n (idx i) = i.
Proof.
  unfold fin_of, idx. rewrite Nat2Z.id. destruct (decide _) as [Hlt|Hge]; [apply nat_to_fin_to_nat|].
  pose proof (fin_to_nat_lt i). lia.
Qed.
Lemma idx_range {n} (i : fin n) : 0 ≤ idx i < Z.of_nat n.
Proof. unfold idx. pose proof (fin_to_nat_lt i). lia. Qed.

Lemma mem_ev_distinct : ev_distinct mem_ev.
Proof.
  unfold ev_distinct, CHANNEL_NUM. intros i j Hi Hj. split_and!; [|done..].
  simpl. intros E. injection E as E. rewrite <- (idx_fin_of 7 i), <- (idx_fin_of 7 j) by lia. by rewrite E.
Qed.

Section Peers.
Context {W : Type} `{Has W sys_ports}.

(** The port at the other end. *)
Lemma wired_req (w : W) i : wired (get sys_ports w) → 0 ≤ i < main_banks →
  peer_of_req (ArbReq i) w = Some (MemPort i) ∧ peer_of_resp (MemPort i) w = Some (ArbReq i).
Proof.
  intros Hw Hi. destruct (Hw i Hi) as [[(p & Hp & _ & Hr & _) (p' & Hp' & _ & Hr' & _)] _].
  unfold peer_of_req, peer_of_resp, sys_ports in *. by rewrite Hp, Hp'.
Qed.
Lemma wired_resp (w : W) i u : wired (get sys_ports w) → 0 ≤ i < main_banks → 0 ≤ u < main_upstreams →
  peer_of_req (BufSide u i) w = Some (ArbResp i u) ∧ peer_of_resp (ArbResp i u) w = Some (BufSide u i).
Proof.
  intros Hw Hi Hu. destruct (Hw i Hi) as [_ Hl]. destruct (Hl u Hu) as [(p & Hp & _ & Hr & _) (p' & Hp' & _ & Hr' & _)].
  unfold peer_of_req, peer_of_resp, sys_ports in *. by rewrite Hp, Hp'.
Qed.
End Peers.

Section Safety.
Context {S : Type} `{DRAMSystemOk S}.
Implicit Types (w : World S) (D : Z -> list Z) (L : Z -> list (PacketPtr * Z)).

(** The program apart from the arbiter's record and the buffers, [D] being the
    addresses of the reads that the memory objects owe an answer and [k] the
    library's clock. *)
Record mem_part (k : Z) D w : Prop := {
  mp_wired : wired (get sys_ports w);
  mp_mem : ∃ Rd Wr, mem_inv Rd Wr w ∧ (∀ j, Wr j = []) ∧
    ∀ b, 0 ≤ b < CHANNEL_NUM → D b ≡ₚ p_addr <$> owed Rd b (side w);
  mp_sends : sends_ok mem_ev w;
  mp_chan a : 0 ≤ a → ds_channel (sys w) a = (a / 64) mod num_ports;
  mp_cap : main_buf_size ≤ ds_capacity (sys w);
  mp_clock : ds_now (sys w) = k;
  mp_idle u : is_scheduled (EvUpSend u) w = false;
  mp_ups : num_upstreams (arb w) = main_upstreams;
  mp_size : buf_size (arb w) = main_buf_size
}.

(** Events whose scheduling the memory side does not notice. *)
Definition quiet (e : sys_ev) : Prop :=
  match e with EvMemTick _ | EvMemSend _ | EvUpSend _ => False | _ => True end.

Lemma mem_part_same k D w w' :
  mem_part k D w → sch_inv w' → side w' = side w → get sys_ports w' = get sys_ports w →
  num_upstreams (arb w') = num_upstreams (arb w) → buf_size (arb w') = buf_size (arb w) →
  (∀ e, is_scheduled e w' = true → is_scheduled e w = true ∨ quiet e) → mem_part k D w'.
Proof.
  intros [] Hst Hside Hp Hn Hsz Hnew.
  assert (∀ e, ¬ quiet e → is_scheduled e w = false → is_scheduled e w' = false) as Hno.
  { intros e He Hf. destruct (is_scheduled e w') eqn:E; [|done]. destruct (Hnew e E); [congruence|done]. }
  split; unfold sys in *; rewrite ?Hside, ?Hp, ?Hn, ?Hsz; try done.
  - destruct mp_mem0 as (Rd & Wr & (Hds & Hsy & _) & Hwr & Hd). exists Rd, Wr.
    split; [|done]. unfold mem_inv. rewrite Hside. by split_and!.
  - intros i m Hm. rewrite Hside in Hm. destruct (mp_sends0 i m Hm) as (? & ? & ? & Hq).
    split; [done|]. split; [done|]. split; [apply Hno; [by intros []|done]|]. intros E.
    destruct (Hnew _ E) as [Hs|Hquiet]; [exact (Hq Hs)|destruct Hquiet].
  - intros u. apply Hno; [by intros []|done].
Qed.

Lemma mem_part_frame k D w w' :
  mem_part k D w → sched_step w w' → side w' = side w → get sys_ports w' = get sys_ports w →
  num_upstreams (arb w') = num_upstreams (arb w) → buf_size (arb w') = buf_size (arb w) →
  (∀ e, is_scheduled e w' = true → is_scheduled e w = true ∨ quiet e) → mem_part k D w'.
Proof. intros Hm Hst. apply mem_part_same; [done|apply Hst]. Qed.

(** No bank has more reads at its memory than the limit. *)
Lemma at_memory_bound D L w b :
  arb_rep home_packet D L w → 0 ≤ b < num_banks → Z.of_nat (length (D b)) ≤ buf_size (arb w).
Proof.
  intros Hr Hb. destruct (get_bank home_packet D L w b Hr Hb) as [x Hx]. pose proof (ar_bank _ _ _ _ Hr b x Hx) as Hbr.
  pose proof (Permutation_length (br_where _ _ _ _ _ _ Hbr)) as Hl. rewrite length_app, !length_fmap in Hl.
  pose proof (br_bound _ _ _ _ _ _ Hbr). lia.
Qed.

Notation mem_step := (part_step (MemSide S) (fun e => ∃ x : mem_event, e = mem_ev x)).

(** What the memory side's steps leave alone. *)
Lemma mem_step_rest w w' :
  mem_step w w' → get sys_ports w' = get sys_ports w ∧ arb w' = arb w ∧ get Ups w' = get Ups w ∧
    get PacketHeap w' = get PacketHeap w ∧ ∀ u, is_scheduled (EvUpSend u) w = false → is_scheduled (EvUpSend u) w' = false.
Proof.
  intros [_ Ho Hn]. split_and!;
    [exact (Ho sys_ports _ _ _)|exact (Ho DramArb _ _ _)|exact (Ho Ups _ _ _)|exact (Ho PacketHeap _ _ _)|].
  intros u Hu. destruct (is_scheduled _ w') eqn:E; [|done]. destruct (Hn _ E) as [Hu'|[x Hx]].
  - rewrite Hu in Hu'. done.
  - destruct x; done.
Qed.

Lemma home_channel k D w b p :
  mem_part k D w → home_packet b p → 0 ≤ p_addr p ∧ ds_channel (memory_system_1 (wrap (side w))) (p_addr p) = b.
Proof. intros Hm (_ & Ha & Hb). split; [lia|]. rewrite <- Hb. apply (mp_chan _ _ _ Hm). lia. Qed.

(** A read of bank [b] that the arbiter has room for is accepted by memory object
    [b], whatever else is at the memory. *)
Lemma mem_takes k D w b p :
  mem_part k D w → 0 ≤ b < num_banks → home_packet b p →
  (∀ j, 0 ≤ j < num_banks → Z.of_nat (length (D j)) ≤ main_buf_size) → Z.of_nat (length (D b)) < main_buf_size →
  ∃ w', arb_sendReq b p w = ok (true, w') ∧ mem_step w w' ∧ mem_part k (at_bank b (p_addr p :: D b) D) w'.
Proof.
  intros Hm Hb Hp HD Hroom. pose proof Hm as [Hwired (Rd & Wr & Hmi & Hwr & HDo) Hsends Hchan Hcap Hclk Hidle Hups Hsize].
  destruct (home_channel k D w b p Hm Hp) as [Ha Hc]. pose proof Hmi as (Hds & Hs & Hinv).
  assert (∀ j : Z, 0 ≤ j < num_banks → (length (Rd j) + length (Wr j) ≤ length (D j))%nat) as Hcount.
  { intros j Hj. rewrite Hwr, (HDo j Hj). unfold owed. rewrite fmap_app, length_app, length_fmap. simpl. lia. }
  assert (ds_will_accept (memory_system_1 (wrap (side w))) (p_addr p) (p_write p) = ok true) as Hacc.
  { destruct Hp as (-> & _). apply ds_room; [done|done|]. rewrite Hc, (channel_count _ _ _ _ b Hs Hb).
    specialize (Hcount b Hb). unfold sys in Hcap. lia. }
  assert (Z.of_nat (length (ds_out (memory_system_1 (wrap (side w))))) ≤ num_banks * main_buf_size) as Hlen.
  { apply (length_by_class (fun r => ds_channel (memory_system_1 (wrap (side w))) r.1)); [|done|].
    - eapply Forall_impl; [apply Hs|]. intros r Hr. by apply Hs.
    - intros j Hj. rewrite (channel_count _ _ _ _ j Hs Hj). specialize (Hcount j Hj). specialize (HD j Hj). lia. }
  destruct (request_accepted mem_ev Rd Wr b p w Hmi Ha Hc) as (w' & Hrun & Hmi' & Hst & Hmems & Hok & Hnow & Hch & Hcp); [|done|].
  { unfold num_banks, main_buf_size in *. lia. }
  destruct (mem_step_rest w w' Hst) as (Hp' & Harb & _ & _ & Hid).
  exists w'. split; [|split; [done|]].
  - unfold arb_sendReq, Port.sendTimingReq. destruct (wired_req w b Hwired Hb) as [-> _]. exact Hrun.
  - split; unfold sys in *; rewrite ?Hp', ?Harb, ?Hch, ?Hcp, ?Hnow; try done; [|auto|auto].
    exists (record_at b p false Rd), (record_at b p true Wr). split; [done|]. destruct Hp as (Hpw & _). split.
    + intros j. unfold record_at. rewrite Hpw. case_decide; [|done]. by rewrite Hwr.
    + intros j Hj. unfold owed. rewrite (Hmems j). unfold at_bank, record_at. case_decide as Hjb.
      * subst j. rewrite Hpw, decide_True by done. destruct (mem_get _ _ _ _ b Hs Hj) as [m Hmb]. rewrite Hmb.
        simpl. rewrite (HDo b Hj). unfold owed. rewrite Hmb. unfold accepted_mem. rewrite Hpw. simpl.
        rewrite <- app_assoc, !fmap_app. simpl. by rewrite Permutation_middle.
      * exact (HDo j Hj).
Qed.

(** ** The arbiter and the buffers as each other's peers *)

(** The memory side with the arbiter. *)
Definition lower (k : Z) D w : Prop := mem_part k D w ∧ ∃ L, arb_rep home_packet D L w.

(** A step elsewhere. *)
Lemma lower_step k D w w' :
  lower k D w → sched_step w w' → side w' = side w → get sys_ports w' = get sys_ports w → arb w' = arb w →
  (∀ e, is_scheduled e w' = true → is_scheduled e w = true ∨ quiet e) → lower k D w'.
Proof.
  intros [Hm [L Hr]] Hst Hs Hp Ha Hnew. split; [by apply (mem_part_frame k D w); rewrite ?Ha|].
  exists L. apply (arb_rep_frame _ _ _ w); [done|apply Hst|apply Hst|done].
Qed.

Lemma lower_now k D w : lower k D w → sch_inv w ∧ 0 ≤ now w < 2 ^ 63.
Proof. intros [_ [L []]]. done. Qed.

Lemma lower_bound k D w b : lower k D w → 0 ≤ b < num_banks → Z.of_nat (length (D b)) ≤ main_buf_size.
Proof. intros [Hm [L Hr]] Hb. rewrite <- (mp_size _ _ _ Hm). by eapply at_memory_bound. Qed.

(** Writing a component that is neither the arbiter nor the memory side. *)
Lemma lower_put_ups k D x w : lower k D w → lower k D (put Ups x w).
Proof.
  intros Hl. destruct (lower_now _ _ _ Hl) as [Hi _].
  apply (lower_step k D w); [done|by apply (sched_step_put Ups)|done..|]. intros e. rewrite ind_scheduled. by left.
Qed.
Lemma lower_put_heap k D x w : lower k D w → lower k D (put PacketHeap x w).
Proof.
  intros Hl. destruct (lower_now _ _ _ Hl) as [Hi _].
  apply (lower_step k D w); [done|by apply (sched_step_put PacketHeap)|done..|]. intros e. rewrite ind_scheduled. by left.
Qed.

(** A step of the arbiter itself: the memory side stays as it is. *)
Lemma arb_step_mem k D w w' e :
  mem_part k D w → part_step DramArb (fun e' => e' = e) w w' → quiet e →
  num_upstreams (arb w') = num_upstreams (arb w) → buf_size (arb w') = buf_size (arb w) → mem_part k D w'.
Proof.
  intros Hm [Hst Ho Hn] He Hu Hsz. apply (mem_part_frame k D w); [done|done| | |done|done|].
  - exact (Ho (MemSide S) _ _ _).
  - exact (Ho sys_ports _ _ _).
  - intros e' He'. destruct (Hn e' He') as [?| ->]; [by left|by right].
Qed.

(** The arbiter takes or refuses every read of a buffer. *)
Lemma arb_takes k D : sender_ok up_sendReq main_upstreams (lower k D).
Proof.
  split; [|intros x w; apply lower_put_ups|intros x w; apply lower_put_heap].
  intros u port p w [Hm [L Hr]] _ _ Hu Hport Hp. pose proof (mp_wired _ _ _ Hm) as Hwired.
  assert (0 ≤ u < num_upstreams (arb w)) as Hu' by (rewrite (mp_ups _ _ _ Hm); done).
  destruct (arb_request_ok home_packet arb_ev D L w p port u Hr Hport Hu' Hp)
    as (x & r & w' & Hx & _ & Hrun & Hst & _ & Harb & Hr').
  exists r, w'. unfold up_sendReq, Port.sendTimingReq. destruct (wired_resp w port u Hwired Hport Hu) as [-> _].
  split; [exact Hrun|]. split; [exact (ps_only _ _ _ _ Hst Ups _ _ _)|]. split; [apply Hst|]. split.
  - apply (arb_step_mem k D w w' _ Hm Hst); [done|by rewrite Harb, arb_put_bank..].
  - by eexists.
Qed.

(** The state between two events. *)
Definition sys_inv (k : Z) D w : Prop := lower k D w ∧ ups_wf main_upstreams w.

Lemma up_step_lower k D w w' u :
  lower k D w → part_step Ups (fun e => e = up_ev (UpTick u)) w w' → lower k D w'.
Proof.
  intros Hl [Hst Ho Hn]. apply (lower_step k D w); [done|done| | | |].
  - exact (Ho (MemSide S) _ _ _).
  - exact (Ho sys_ports _ _ _).
  - exact (Ho DramArb _ _ _).
  - intros e He. destruct (Hn e He) as [?| ->]; [by left|by right].
Qed.

(** What the arbiter relies on holds: the memory takes every read it offers, the
    buffers keep or refuse the responses, and a retry sends a new read. *)
Definition peers (k : Z) D w : Prop := mem_part k D w ∧ ups_wf main_upstreams w.

Lemma sys_peers_ok k : peers_ok home_packet arb_ev arb_sendReq arb_sendResp arb_sendRetry (peers k).
Proof.
  split.
  - intros b p D L w [Hm Hups] Hr Hb Hp _ Hroom. assert (lower k D w) as Hl by (split; [done|by eexists]).
    rewrite (mp_size _ _ _ Hm) in Hroom.
    destruct (mem_takes k D w b p Hm Hb Hp (fun j => lower_bound k D w j Hl) Hroom) as (w' & Hrun & Hst & Hm').
    destruct (mem_step_rest w w' Hst) as (_ & Ha & Hu & _). exists true, w'. split; [done|]. split; [done|].
    split; [apply Hst|]. split; [done|]. unfold ups_wf. by rewrite Hu.
  - intros b p D L w _ _ _ (Hp & _) Hw. congruence.
  - intros b u p D L w [Hm Hups] Hr Hb Hu. rewrite (mp_ups _ _ _ Hm) in Hu. assert (lower k D w) as Hl by (split; [done|by eexists]).
    destruct (lower_now _ _ _ Hl) as [Hi Hn].
    destruct (up_response_ok up_ev main_upstreams u b p w Hups Hu Hb Hi Hn) as (x & r & w' & _ & _ & Hrun & Hst & _ & Hups' & _).
    exists r, w'. unfold arb_sendResp, Port.sendTimingResp. destruct (wired_resp w b u (mp_wired _ _ _ Hm) Hb Hu) as [_ ->].
    split; [exact Hrun|]. split; [exact (ps_only _ _ _ _ Hst DramArb _ _ _)|]. split; [apply Hst|]. split; [|done].
    by apply (up_step_lower k D w w' u Hl).
  - intros b u D L w [Hm Hups] Hr Hb Hu. rewrite (mp_ups _ _ _ Hm) in Hu. assert (lower k D w) as Hl by (split; [done|by eexists]).
    destruct (lower_now _ _ _ Hl) as [Hi Hn].
    destruct (up_sendRetryReq_ok up_sendReq main_upstreams (lower k D) (arb_takes k D) w w u b) as (w' & Hrun & [[Hm' [L' Hr']] Hups' Hst _]);
      [split; [done|done|by apply sched_step_refl|done]|done|done|].
    exists L', w'. unfold arb_sendRetry, Port.sendRetryReq. destruct (wired_resp w b u (mp_wired _ _ _ Hm) Hb Hu) as [_ ->].
    split; [exact Hrun|]. split; [by split|]. split; [done|]. split; [done|].
    by rewrite (mp_ups _ _ _ Hm), (mp_ups _ _ _ Hm').
  - intros a D w [Hm Hups] Hsz Hn. split; [|done].
    destruct (mp_mem _ _ _ Hm) as (Rd & Wr & (_ & _ & Hi) & _).
    apply (mem_part_frame k D w); [done|by apply (sched_step_put DramArb)|done|done| | |].
    + unfold arb at 1. rewrite get_put. by rewrite Hn.
    + unfold arb at 1. rewrite get_put. by rewrite Hsz.
    + intros e. rewrite ind_scheduled. by left.
  - intros e D w w' He [Hm Hups] Hst Hf Hnew. split.
    + apply (mem_part_frame k D w); [done|done| | | | |].
      * exact (ind_frame (C := MemSide S) _ _ Hf).
      * exact (ind_frame (C := sys_ports) _ _ Hf).
      * unfold arb. by rewrite (ind_frame (C := DramArb) _ _ Hf).
      * unfold arb. by rewrite (ind_frame (C := DramArb) _ _ Hf).
      * intros e' He'. destruct (Hnew e' He') as [?| ->]; [by left|right]. by destruct He as [->| ->].
    + unfold ups_wf. by rewrite (ind_frame (C := Ups) _ _ Hf).
Qed.

(** ** The events *)

(** The handlers of the buffers, the arbiter and the wrapper. *)
Lemma process_up k D w u :
  sys_inv k D w → ∃ w', process (EvUpTick u) w = ok (tt, w') ∧ sys_inv k D w' ∧ sched_step w w'.
Proof.
  intros [Hl Hups]. destruct (lower_now _ _ _ Hl) as [Hi Hn].
  destruct (sendpkt_event_ok up_sendReq main_upstreams (lower k D) (arb_takes k D) w w (idx u)) as (w' & Hrun & [Hl' Hups' Hst _]).
  - split; [done|done|by apply sched_step_refl|done].
  - apply (idx_range u).
  - exists w'. by split_and!.
Qed.

Lemma sys_all_inv k D w : sys_inv k D w → all_inv home_packet (peers k) w main_upstreams D w.
Proof.
  intros [[Hm [L Hr]] Hups]. split; [by split|by apply (mp_ups _ _ _ Hm)| |by exists L].
  apply sched_step_refl, Hr.
Qed.
Lemma all_inv_sys k D w0 w : all_inv home_packet (peers k) w0 main_upstreams D w → sys_inv k D w ∧ sched_step w0 w.
Proof. intros [[Hm Hups] _ Hst [L Hr]]. split; [|done]. split; [|done]. split; [done|by exists L]. Qed.

Lemma process_arb k D w :
  sys_inv k D w → ∃ w' D', process EvArb w = ok (tt, w') ∧ sys_inv k D' w' ∧ sched_step w w'.
Proof.
  intros Hs. destruct (arbitrate_ok home_packet arb_ev arb_sendReq arb_sendResp arb_sendRetry (peers k) (sys_peers_ok k)
    w main_upstreams D w (sys_all_inv _ _ _ Hs)) as (w' & D' & Hrun & Hall & _).
  exists w', D'. split; [exact Hrun|]. by apply all_inv_sys.
Qed.
Lemma process_arb_send k D w :
  sys_inv k D w → ∃ w', process EvArbSend w = ok (tt, w') ∧ sys_inv k D w' ∧ sched_step w w'.
Proof.
  intros Hs. destruct (sendResponse_ok home_packet arb_ev arb_sendReq arb_sendResp arb_sendRetry (peers k) (sys_peers_ok k)
    w main_upstreams D w (sys_all_inv _ _ _ Hs)) as (w' & Hrun & Hall).
  exists w'. split; [exact Hrun|]. by apply all_inv_sys.
Qed.

Lemma process_wrapper k D w :
  sys_inv k D w → 0 ≤ k < ds_limit S →
  ∃ w', process EvWrapper w = ok (tt, w') ∧ sys_inv (k + 1) D w' ∧ sched_step w w' ∧ is_scheduled EvWrapper w' = true.
Proof.
  intros [Hl Hups] Hk. destruct (lower_now _ _ _ Hl) as [Hi Hn]. destruct Hl as [Hm [L Hr]].
  pose proof Hm as [Hwired (Rd & Wr & Hmi & Hwr & HDo) Hsends Hchan Hcap Hclk Hidle Hup Hsize].
  destruct (wrapper_tick_ok mem_ev Rd Wr w Hmi Hn) as (w' & Rd' & Wr' & Hrun & Hmi' & Hst & Hq & Ho & Hok & Hsub & Hnow & Hch & Hcp);
    [by rewrite Hclk|].
  destruct (mem_step_rest w w' Hst) as (Hp & Ha & Hu & _ & Hid).
  exists w'. split; [exact Hrun|]. split; [|split; [apply Hst|exact Hq]]. split; [split|].
  - split; rewrite ?Hp, ?Ha, ?Hch, ?Hcp; try done; [| |by rewrite Hnow, Hclk|auto].
    + exists Rd', Wr'. split; [done|]. split.
      * intros j. specialize (Hsub j). rewrite Hwr in Hsub. by apply submseteq_nil_r.
      * intros b Hb. by rewrite (HDo b Hb), (Ho b Hb).
    + by apply Hok; [apply mem_ev_distinct|].
  - exists L. apply (arb_rep_frame _ _ _ w); [done|apply Hst|apply Hst|done].
  - unfold ups_wf. by rewrite Hu.
Qed.

(** Taking the front packet off object [i]'s response queue. *)
Lemma mem_part_pop k D w i m p q d :
  mem_part k D w → 0 ≤ i < CHANNEL_NUM → zget (mems (side w)) i = Some m → m_responseQueue m = p :: q →
  D i ≡ₚ p_addr p :: d → is_scheduled (EvMemSend (fin_of 7 i)) w = false →
  mem_part k (at_bank i d D) (put (MemSide S) (MkSide (zset (mems (side w)) i (m_queue q m)) (wrap (side w))) w).
Proof.
  intros [Hwired (Rd & Wr & (Hds & Hs & Hinv) & Hwr & HDo) Hsends Hchan Hcap Hclk Hidle Hups Hsize] Hi Hmi Eq Hd Hns.
  set (x := MkSide _ _). pose proof (side_put x w) as Ex. pose proof (zget_lt _ _ _ Hmi) as Hlt.
  assert (∀ j, zget (mems x) j = if decide (j = i) then Some (m_queue q m) else zget (mems (side w)) j) as Hx.
  { intros j. unfold x. simpl. case_decide; [subst; by apply zget_zset_eq|by apply zget_zset_ne]. }
  split; unfold sys in *; rewrite ?Ex; try done.
  - exists Rd, Wr. split; [|split; [done|]].
    + unfold mem_inv. rewrite Ex. split; [done|]. split; [|by apply ind_inv].
      eapply mem_sync_ext; [| |eapply (sync_set Rd Wr _ _ (side w) i (m_queue q m) (Rd i) (Wr i) Hs Hi)].
      * intros j. simpl. case_decide; by subst.
      * intros j. simpl. case_decide; by subst.
      * destruct (sy_rep _ _ _ _ Hs i m Hmi). by split.
      * apply Hs.
      * by apply (sy_rd _ _ _ _ Hs).
      * by apply (sy_wr _ _ _ _ Hs).
      * done.
    + intros b Hb. unfold at_bank, owed. rewrite (Hx b). case_decide as Hbi; [|exact (HDo b Hb)]. subst b.
      apply (Permutation_cons_inv (a := p_addr p)). rewrite <- Hd, (HDo i Hi). unfold owed. rewrite Hmi, Eq.
      rewrite !fmap_app. simpl. by rewrite Permutation_middle.
  - intros j mj. rewrite Ex, (Hx j), !ind_scheduled. case_decide as Hji; [|by apply Hsends].
    intros [= <-]. subst j. destruct (Hsends i m Hmi) as (? & ? & ? & _). split_and!; [done..|]. intros E.
    change (is_scheduled (EvMemSend (fin_of 7 i)) w = true) in E. by rewrite Hns in E.
Qed.

Lemma process_mem_send k D w i m p q :
  sys_inv k D w → zget (mems (side w)) (idx i) = Some m → m_retryResp m = false → m_responseQueue m = p :: q →
  is_scheduled (EvMemSend i) w = false →
  ∃ w' D', process (EvMemSend i) w = ok (tt, w') ∧ sys_inv k D' w' ∧ sched_step w w'.
Proof.
  intros [Hl Hups] Hm Hrs Eq Hns. pose proof (idx_range i) as Hi. destruct Hl as [Hmp [L Hr]].
  destruct (mp_mem _ _ _ Hmp) as (Rd & Wr & _ & _ & HDo).
  assert (D (idx i) ≡ₚ p_addr p :: (p_addr <$> (Rd (idx i) ++ q))) as Hd.
  { rewrite (HDo (idx i) Hi). unfold owed. rewrite Hm, Eq, !fmap_app. simpl. by rewrite Permutation_middle. }
  destruct (arb_response_ok home_packet arb_ev D L w p (idx i) _ Hr Hi Hd)
    as (l1 & r & u & l2 & w1 & _ & _ & _ & Hrun & _ & Hr1 & _ & Hst & Hn1 & Hs1).
  assert (side w1 = side w) as Eside by exact (ps_only _ _ _ _ Hst (MemSide S) _ _ _).
  pose proof (arb_step_mem k D w w1 _ Hmp Hst I Hn1 Hs1) as Hmp1.
  assert (is_scheduled (EvMemSend (fin_of 7 (idx i))) w1 = false) as Hns1.
  { rewrite fin_of_idx. destruct (is_scheduled _ w1) eqn:E; [|done].
    destruct (ps_new _ _ _ _ Hst _ E) as [E'|E']; [by rewrite Hns in E'|done]. }
  assert (zget (mems (side w1)) (idx i) = Some m) as Hm1 by by rewrite Eside.
  pose proof (mem_part_pop k D w1 (idx i) m p q _ Hmp1 Hi Hm1 Eq Hd Hns1) as Hmp2.
  simpl process. unfold m_sendResponse. rewrite (M_bind_ok_intro _ _ _ _ _ (the_mem_run _ m w Hm)), Hrs. cbn [negb assert_].
  rewrite (M_bind_ok_intro (mret tt) _ w tt w eq_refl), Eq.
  assert (mem_sendResp (idx i) p w = ok (true, w1)) as Hsend.
  { unfold mem_sendResp, Port.sendTimingResp. destruct (wired_req w (idx i) (mp_wired _ _ _ Hmp) Hi) as [_ ->]. exact Hrun. }
  rewrite (M_bind_ok_intro _ _ _ _ _ Hsend), (M_bind_ok_intro _ _ _ _ _ (the_mem_run _ m w1 Hm1)), Eq. cbn [tail].
  rewrite set_mem_run. eexists _, _. split; [reflexivity|]. split; [split; [split; [exact Hmp2|]|]|].
  - eexists. apply (arb_rep_frame _ _ _ w1); [exact Hr1|by apply ind_inv, Hst|by rewrite ind_now|done].
  - unfold ups_wf. rewrite (get_put_ne (A := MemSide S) (B := Ups)).
    assert (get Ups w1 = get Ups w) as -> by exact (ps_only _ _ _ _ Hst Ups _ _ _). exact Hups.
  - eapply sched_step_trans; [apply Hst|]. apply (sched_step_put (MemSide S)), Hst.
Qed.

(** ** The loop *)

(** Between two events: the invariant, and the wrapper's clock is queued. *)
Definition main_inv (k : Z) D w : Prop := sys_inv k D w ∧ is_scheduled EvWrapper w = true.

(** Taking an event off the queue leaves the components alone. *)
Lemma pop_sys k D w q :
  sys_inv k D w → let w1 := put (EventQueue sys_ev) q w in
  sch_inv w1 → 0 ≤ now w1 < 2 ^ 63 → (∀ e, is_scheduled e w1 = true → is_scheduled e w = true) → sys_inv k D w1.
Proof.
  intros [[Hm [L Hr]] Hups] w1 Hi Hn Hsub. split; [split|].
  - apply (mem_part_same k D w); try done. intros e He. left. by apply Hsub.
  - exists L. destruct Hr. split; done.
  - exact Hups.
Qed.

Lemma main_step k D w :
  main_inv k D w → 0 ≤ k < ds_limit S → _curTick (w_queue w) < tick_limit →
  ∃ w' k' D', serviceOne process w = ok (tt, w') ∧ main_inv k' D' w' ∧ k ≤ k' ≤ k + 1 ∧
    now w ≤ now w' ≤ now w + horizon ∧ (now w' = now w → Datatypes.S (sch_due w') = sch_due w).
Proof.
  intros [Hs Hclock] Hk Htick. pose proof Hs as [Hl _]. destruct (lower_now _ _ _ Hl) as [Hi Hn].
  destruct (service_pop_ok w Hi (scheduled_not_empty EvWrapper w Hi Hclock)) as (e & q & Hpop & Hi1 & He & Hfl & Hnow & Hdue & _).
  set (w1 := put (EventQueue sys_ev) q w) in *.
  assert (now w1 = curTick w1 ∧ now w = curTick w) as [En1 En] by done.
  assert (0 ≤ now w1 < 2 ^ 63) as Hn1 by (unfold curTick, horizon, tick_limit in *; simpl in *; lia).
  assert (∀ e', is_scheduled e' w1 = if decide (e' = e) then false else is_scheduled e' w) as Hfl1 by exact Hfl.
  assert (sys_inv k D w1) as Hs1.
  { apply pop_sys; [done|done|done|]. intros e'. rewrite Hfl1. by case_decide. }
  assert (∃ w' k' D', process e w1 = ok (tt, w') ∧ sys_inv k' D' w' ∧ sched_step w1 w' ∧ k ≤ k' ≤ k + 1 ∧
    is_scheduled EvWrapper w' = true) as (w' & k' & D' & Hrun & Hs' & Hst & Hk' & Hc').
  { assert (e ≠ EvWrapper → is_scheduled EvWrapper w1 = true) as Hkeep by (intros; by rewrite Hfl1, decide_False).
    pose proof (mp_sends _ _ _ (proj1 Hl)) as Hsends. destruct (mp_mem _ _ _ (proj1 Hl)) as (Rd & Wr & (_ & Hsy & _) & _).
    destruct e as [|i|i| | |u|u].
    - destruct (process_wrapper k D w1 Hs1 Hk) as (w' & ? & ? & ? & ?). exists w', (k + 1), D. split_and!; try done; lia.
    - destruct (mem_get _ _ _ _ (idx i) Hsy (idx_range i)) as [m Hm]. destruct (Hsends _ m Hm) as (_ & _ & Hno & _).
      simpl in Hno. rewrite fin_of_idx in Hno. unfold is_scheduled in Hno. simpl in Hno. congruence.
    - destruct (mem_get _ _ _ _ (idx i) Hsy (idx_range i)) as [m Hm]. destruct (Hsends _ m Hm) as (_ & Hrs & _ & Hq).
      simpl in Hq. rewrite fin_of_idx in Hq. specialize (Hq He). destruct (m_responseQueue m) as [|p r] eqn:Eq; [done|].
      destruct (process_mem_send k D w1 i m p r Hs1 Hm Hrs Eq) as (w' & D' & ? & ? & Hst); [by rewrite Hfl1, decide_True|].
      exists w', k, D'. split_and!; try done; [lia|]. apply (ss_kept _ _ Hst). by apply Hkeep.
    - destruct (process_arb k D w1 Hs1) as (w' & D' & ? & ? & Hst). exists w', k, D'. split_and!; try done; [lia|].
      apply (ss_kept _ _ Hst). by apply Hkeep.
    - destruct (process_arb_send k D w1 Hs1) as (w' & ? & ? & Hst). exists w', k, D. split_and!; try done; [lia|].
      apply (ss_kept _ _ Hst). by apply Hkeep.
    - destruct (process_up k D w1 u Hs1) as (w' & ? & ? & Hst). exists w', k, D. split_and!; try done; [lia|].
      apply (ss_kept _ _ Hst). by apply Hkeep.
    - pose proof (mp_idle _ _ _ (proj1 Hl) u) as Hno. unfold is_scheduled in Hno. simpl in Hno. congruence. }
  exists w', k', D'. split; [|split; [by split|split; [done|]]].
  - unfold serviceOne. change (get (EventQueue sys_ev) w) with (w_queue w) in *. rewrite Hpop. exact Hrun.
  - rewrite (ss_now _ _ Hst), (ss_due _ _ Hst). split; [exact Hnow|exact Hdue].
Qed.

(** How long the loop can go on: an event per object and tick. *)
Definition main_measure w : nat := (Z.to_nat (tick_limit - now w) * Datatypes.S (card sys_ev) + sch_due w)%nat.

Lemma main_loop_ok fuel k D w :
  main_inv k D w → 0 ≤ k → k + Z.of_nat fuel < ds_limit S → (main_measure w ≤ fuel)%nat →
  ∃ w' k' D', main_loop fuel w = ok (tt, w') ∧ main_inv k' D' w' ∧ tick_limit ≤ now w'.
Proof.
  revert k D w. induction fuel as [|fuel IH]; intros k D w Hm Hk Hkf Hfuel;
    (assert (empty (w_queue w) = false) as Hne by
      exact (scheduled_not_empty EvWrapper w (proj1 (lower_now k D w (proj1 (proj1 Hm)))) (proj2 Hm)));
    simpl; unfold main_more; rewrite Hne; simpl negb; cbn [andb];
    (destruct (Z.ltb_spec (_curTick (w_queue w)) tick_limit) as [Hlt|Hge]; [|by exists w, k, D]).
  - unfold main_measure in Hfuel. change (now w) with (_curTick (w_queue w)) in Hfuel. lia.
  - destruct (main_step k D w Hm) as (w1 & k1 & D1 & Hrun & Hm1 & Hk1 & Hnow & Hdue); [lia|done|].
    rewrite (M_bind_ok_intro _ _ _ _ _ Hrun). apply (IH k1 D1); [done|lia|lia|].
    unfold main_measure in *. pose proof (due_bound w1) as Hb. pose proof (heap_card (heap (w_queue w1))) as Hc.
    change (due_now w1) with (sch_due w1) in Hb. change (get (EventQueue sys_ev) w1) with (w_queue w1) in Hb.
    change (now w) with (_curTick (w_queue w)) in *. destruct (decide (now w1 = _curTick (w_queue w))) as [E|E].
    + specialize (Hdue E). rewrite E. lia.
    + assert (Z.to_nat (tick_limit - now w1) + 1 ≤ Z.to_nat (tick_limit - _curTick (w_queue w)))%nat as Ht by lia.
      pose proof (Nat.mul_le_mono_r _ _ (Datatypes.S (card sys_ev)) Ht). lia.
Qed.

(** ** The start *)

(** A DRAM system that is new, spreads addresses over eight channels by their
    bits 6 to 8, and has room for the reads of a bank. *)
Record fresh_system (s : S) : Prop := {
  fs_inv : ds_inv s;
  fs_out : ds_out s = [];
  fs_now : ds_now s = 0;
  fs_chan a : 0 ≤ a → ds_channel s a = (a / 64) mod num_ports;
  fs_cap : main_buf_size ≤ ds_capacity s
}.

Lemma u32_channel a : (u32 a / 64) mod num_ports = (a / 64) mod num_ports.
Proof.
  unfold u32, two32, num_ports. rewrite (Z.div_mod a (2 ^ 32)) at 2 by lia.
  replace (2 ^ 32 * (a / 2 ^ 32) + a mod 2 ^ 32) with (a mod 2 ^ 32 + (a / 2 ^ 32 * (2 ^ 26)) * 64) by lia.
  rewrite Z.div_add by lia. replace (a / 2 ^ 32 * 2 ^ 26) with (a / 2 ^ 32 * 2 ^ 23 * 8) by lia.
  by rewrite Z_mod_plus_full.
Qed.

Lemma main_mems (s : S) i m :
  zget (mems (main_side s)) i = Some m → mem_rep m [] [] ∧ m_responseQueue m = [] ∧ m_retryReq m = false ∧ m_retryResp m = false.
Proof.
  change (mems (main_side s)) with (new_mem <$> zseq 8).
  apply (zseq_rep (fun _ m => mem_rep m [] [] ∧ m_responseQueue m = [] ∧ m_retryReq m = false ∧ m_retryResp m = false)).
  intros j Hj. split; [split; try done; apply groups_empty|done].
Qed.

Lemma main_side_sync s : fresh_system s → mem_sync no_packets no_packets [] (main_side s).
Proof.
  intros Hf. split.
  - reflexivity.
  - intros i Hi. assert (Forall (fun i => zget (read_callbacks (wrap (main_side s))) i = Some (Some i) ∧
      zget (write_callbacks (wrap (main_side s))) i = Some (Some i)) (zseq 8)) as Hall by (repeat constructor).
    rewrite Forall_forall in Hall. by apply Hall, elem_of_zseq.
  - intros a Ha. change (memory_system_1 (wrap (main_side s))) with s. rewrite !(fs_chan _ Hf) by (pose proof (u32_range a); lia).
    rewrite u32_channel. split; [|done]. apply Z.mod_pos_bound. done.
  - constructor.
  - intros i m Hm. apply (main_mems s i m Hm).
  - done.
  - done.
Qed.

(** The buffers start 16384 apart. *)
Lemma main_base u i : 0 ≤ u < main_upstreams → 0 ≤ i ≤ 1 → base_addr (16384 * u + 512 * i).
Proof.
  unfold main_upstreams, base_addr, two64. intros Hu Hi. split_and!; [|lia..].
  replace (16384 * u + 512 * i) with ((32 * u + i) * 512) by lia. apply Z_mod_mult.
Qed.

Lemma main_start_ok s w :
  fresh_system s → get (EventQueue sys_ev) w = new_queue (all_events sys_ev) → wired (get sys_ports w) →
  side w = main_side s → new_DramArb main_buf_size main_upstreams = ok (arb w) → get Ups w = MkUps main_ups →
  sys_inv 0 (fun _ => []) w.
Proof.
  intros Hf Eq Hw Hside Ha Hu. pose proof (fresh_queue_inv w Eq) as Hi. pose proof (fun e => fresh_queue_idle w e Eq) as Hidle.
  assert (∀ e, is_scheduled e w = false) as Hno by exact Hidle.
  assert (0 ≤ now w < 2 ^ 63) as Hn0 by (unfold now; simpl; unfold curTick; rewrite Eq; done).
  assert (sys w = s) as Hsys by (unfold sys; by rewrite Hside).
  assert (arb w = MkArb main_buf_size main_upstreams (replicate 8 (new_arb_bank main_upstreams))) as Harb
    by (injection Ha; intros Ha'; symmetry; exact Ha').
  split; [split|].
  - split; try (rewrite ?Hsys, ?Harb; (done || apply Hf)).
    + exists no_packets, no_packets. split; [|split; [done|]].
      * unfold mem_inv. rewrite Hside. change (memory_system_1 (wrap (main_side s))) with s. rewrite (fs_out _ Hf).
        split; [apply Hf|]. split; [by apply main_side_sync|done].
      * intros b Hb. unfold owed, no_packets. rewrite Hside.
        destruct (zget (mems (main_side s)) b) as [m|] eqn:Hm; [|done]. by destruct (main_mems s b m Hm) as (_ & -> & _).
    + intros i m. rewrite Hside, !Hno. intros Hm. by destruct (main_mems s i m Hm) as (_ & _ & -> & ->).
  - exists (fun _ => []). split; rewrite ?Harb; try done.
    intros b x Hx. apply zget_elem in Hx. cbn [banks] in Hx.
    apply elem_of_replicate_inv in Hx as ->. by apply bank_rep_new.
  - split; rewrite Hu; [done|]. apply Forall_fmap, Forall_forall. intros u Hur%elem_of_zseq.
    apply new_UpBuffer_wf. replace (16384 * u) with (16384 * u + 512 * 0) by lia. by apply main_base.
Qed.

Lemma main_world_ok s :
  fresh_system s →
  ∃ w, main_world s = ok w ∧ sys_inv 0 (fun _ => []) w ∧ get (EventQueue sys_ev) w = new_queue (all_events sys_ev) ∧
    get Ups w = MkUps main_ups.
Proof.
  intros Hf. destruct main_wiring_ok as (ports & Hb & Hw).
  destruct (new_DramArb main_buf_size main_upstreams) as [a|] eqn:Ha; [|done].
  exists (MkWorld (new_queue (all_events sys_ev)) ports (main_side s) a (MkUps main_ups) (MkHeap 0)).
  split; [unfold main_world; rewrite Ha; cbn [mbind exc_bind]; rewrite Hb; reflexivity|].
  split; [|split; reflexivity].
  apply (main_start_ok s); [done|reflexivity|exact Hw|reflexivity|exact Ha|reflexivity].
Qed.
Lemma zget_fmap_zseq {A} (f : Z -> A) n i : 0 ≤ i < n → zget (f <$> zseq n) i = Some (f i).
Proof.
  intros Hi. destruct (zget_is_Some (f <$> zseq n) i) as [x Hx]; [rewrite length_fmap, length_zseq; lia|].
  rewrite Hx. f_equal. revert Hx. apply (zseq_rep (fun j x => x = f j)). done.
Qed.

(** Scheduling an event the memory side does not watch. *)
Lemma schedule_sys k D w e t :
  sys_inv k D w → is_scheduled e w = false → quiet e → now w ≤ t ≤ now w + horizon →
  ∃ w', schedule_at e t w = ok (tt, w') ∧ sys_inv k D w' ∧ now w' = now w ∧ is_scheduled e w' = true ∧
    get Ups w' = get Ups w.
Proof.
  intros [[Hm [L Hr]] Hups] He Hq Ht.
  destruct (schedule_idle e t w (ar_sch _ _ _ _ Hr) He Ht) as (w' & Hrun & Hi & Hf & Hn & _ & Hs).
  exists w'. split; [done|].
  pose proof (ind_frame (C := Ups) _ _ Hf) as Eu. pose proof (ind_frame (C := DramArb) _ _ Hf) as Ea.
  split; [split; [split|]|].
  - apply (mem_part_same k D w); [done|done| | | | |].
    + exact (ind_frame (C := MemSide S) _ _ Hf).
    + exact (ind_frame (C := sys_ports) _ _ Hf).
    + unfold arb. by rewrite Ea.
    + unfold arb. by rewrite Ea.
    + intros e'. rewrite Hs. case_decide; [subst; by right|by left].
  - exists L. by apply (arb_rep_frame _ _ _ w).
  - unfold ups_wf. by rewrite Eu.
  - split; [done|]. split; [|done]. rewrite Hs. by rewrite decide_True.
Qed.

Lemma main_init_ok w :
  sys_inv 0 (fun _ => []) w → now w = 0 → is_scheduled EvWrapper w = false → get Ups w = MkUps main_ups →
  ∃ w', main_init w = ok (tt, w') ∧ main_inv 0 (fun _ => []) w' ∧ now w' = 0.
Proof.
  intros Hs Hn He Hu. set (D := fun _ : Z => @nil Z) in *.
  destruct (schedule_sys 0 D w EvWrapper (now w) Hs He I) as (w1 & Hrun & [Hl1 Hups1] & Hn1 & He1 & Hu1); [unfold horizon; lia|].
  set (J := fun u w2 => up_inv main_upstreams (lower 0 D) w1 w2 ∧
    ∀ v, u ≤ v < main_upstreams → zget (ups (get Ups w2)) v = Some (new_UpBuffer (16384 * v))).
  destruct (for_each_index J (up_init up_sendReq) main_upstreams w1) as (w2 & Hr2 & [[Hl2 Hups2 Hst2 _] _]); [done| | |].
  - intros u w2 Hur [Hinv Hget].
    destruct (up_init_ok up_sendReq main_upstreams (lower 0 D) (arb_takes 0 D) w1 w2 u (new_UpBuffer (16384 * u)))
      as (w3 & Hr3 & Hinv3 & Hget3); [done|done|apply Hget; lia| |].
    + replace (up_addr (new_UpBuffer (16384 * u)) + 512) with (16384 * u + 512 * 1) by done. by apply main_base.
    + exists w3. split; [done|]. split; [done|]. intros v Hv. rewrite Hget3 by lia. apply Hget. lia.
  - split; [split; [done|done|apply sched_step_refl, (lower_now _ _ _ Hl1)|rewrite Hn1, Hn; done]|].
    intros v Hv. rewrite Hu1, Hu. cbn [ups]. by apply (zget_fmap_zseq (fun u => new_UpBuffer (16384 * u))).
  - exists w2. split; [|split; [split; [by split|by apply Hst2]|]].
    + unfold main_init. rewrite (M_bind_ok_intro (wrapper_init mem_ev) _ w tt w1); [done|exact Hrun].
    + rewrite (ss_now _ _ Hst2), Hn1. done.
Qed.

Definition events_per_tick : nat := Datatypes.S (card sys_ev).

(** (C1) The whole program, on any DRAM library that keeps its contract ([DRAMSystemOk])
    and is new, with the eight channels of the configuration and room for the
    reads of a bank. Given an event for every object and tick, the loop ends, at
    the limit and not with an error: no assertion fails, no vector or map is
    accessed outside, the port bindings are right. Then the components' invariants
    hold together: every read the memory objects owe is one the arbiter waits for,
    exactly. The destructor's loop ends as well, with an empty queue. *)
Theorem main_total s fuel :
  fresh_system s → (Z.to_nat tick_limit * events_per_tick + events_per_tick ≤ fuel)%nat → Z.of_nat fuel < ds_limit S →
  ∃ w, main_run fuel s = ok w ∧ tick_limit ≤ now w ∧ (∃ k D, sys_inv k D w) ∧ ∃ w', main fuel s = ok w' ∧ head (w_queue w') = None.
Proof.
  intros Hf Hfuel Hmax. destruct (main_world_ok s Hf) as (w & Hw & Hs & Eq & Hu).
  assert (now w = 0) as Hn by (unfold now; simpl; unfold curTick; by rewrite Eq).
  destruct (main_init_ok w Hs Hn (fresh_queue_idle w EvWrapper Eq) Hu) as (w1 & Hr1 & Hm1 & Hn1).
  destruct (main_loop_ok fuel 0 (fun _ => []) w1 Hm1) as (w2 & k & D & Hr2 & Hm2 & Hlim); [lia|lia| |].
  { unfold main_measure. rewrite Hn1. pose proof (due_bound w1) as Hb.
    pose proof (heap_card (heap (get (EventQueue sys_ev) w1))) as Hc. change (due_now w1) with (sch_due w1) in Hb.
    unfold events_per_tick in Hfuel. rewrite Z.sub_0_r. lia. }
  assert (main_run fuel s = ok w2) as Hrun.
  { unfold main_run. rewrite Hw. cbn [mbind exc_bind]. rewrite (M_bind_ok_intro _ _ _ _ _ Hr1), Hr2. done. }
  exists w2. split; [done|]. split; [done|]. split; [exists k, D; apply Hm2|].
  destruct (queue_drain w2 (proj1 (lower_now _ _ _ (proj1 (proj1 Hm2))))) as (q & Hq & Hh).
  exists (put (EventQueue sys_ev) q w2). split; [|done]. unfold main. rewrite Hrun. cbn [mbind exc_bind]. change (get (EventQueue sys_ev) w2) with (w_queue w2) in Hq.
  by rewrite Hq.
Qed.
End Safety.

(** ** The program on the configuration it names *)

(** 28 events per tick and object, for a thousand ticks, and those of tick 0. *)
Definition main_fuel : nat := Z.to_nat 28028.

(** The addresses of the packets that buffer [u] holds for [port] in the end: the
    read of [init], and three times the one read that [sendpkt_event] repeats. *)
Definition hbm2_reads (u port : Z) : list Z :=
  let a := 16384 * u + 64 * port in [a; a + 512; a + 512; a + 512].

Definition hbm2_end_b (w : World JedecDRAMSystem) : bool :=
  (now w =? tick_limit) && Nat.eqb (next_ptr (w_heap w)) 128 &&
  bool_decide ((fun x => fmap (M := list) p_addr <$> buffer_Data x) <$> ups (w_ups w) =
    (fun u => hbm2_reads u <$> zseq num_ports) <$> zseq main_upstreams) &&
  forallb (fun x => forallb (fun port => negb (up_room port x)) (zseq num_ports)) (ups (w_ups w)) &&
  forallb (fun b => bool_decide (outstanding b = ∅) && bool_decide (concat (readInBufs b) = []) &&
    bool_decide (responseQueue b = [])) (banks (w_arb w)).

(** With the HBM2 configuration the program ends at tick 1000 with every buffer
    full and nothing left to do: each of the 32 ports has sent four reads and holds
    their four answers, in order, none is in the arbiter, and no port has room.
    [sendpkt_event] never moves the address on, so the last three reads of a port
    are of the same address; nothing schedules the event that would empty the
    buffers, so the program has done its work long before the limit. *)
Theorem main_hbm2_fills :
  ∃ w, main_run main_fuel hbm2_system = ok w ∧ now w = tick_limit ∧ next_ptr (w_heap w) = 128%nat ∧
    (fun x => fmap (M := list) p_addr <$> buffer_Data x) <$> ups (w_ups w) =
      (fun u => hbm2_reads u <$> zseq num_ports) <$> zseq main_upstreams ∧
    Forall (fun x => ∀ port, 0 ≤ port < num_ports → up_room port x = false) (ups (w_ups w)) ∧
    Forall (fun b => outstanding b = ∅ ∧ concat (readInBufs b) = [] ∧ responseQueue b = []) (banks (w_arb w)).
Proof.
  assert (match main_run main_fuel hbm2_system with ok w => hbm2_end_b w | err _ => false end = true) as Hb
    by (vm_compute; reflexivity).
  destruct (main_run main_fuel hbm2_system) as [w|]; [|done]. exists w. split; [done|].
  unfold hbm2_end_b in Hb. rewrite !andb_true_iff in Hb. destruct Hb as ((((Ht & Hp) & Hr) & Hf) & Ha).
  split; [by apply Z.eqb_eq|]. split; [by apply Nat.eqb_eq|]. split; [by apply bool_decide_eq_true in Hr|].
  rewrite forallb_forall in Hf, Ha. rewrite !Forall_forall. split.
  - intros x Hx%list_elem_of_In port Hport%elem_of_zseq. specialize (Hf x Hx). rewrite forallb_forall in Hf.
    by apply negb_true_iff, Hf, list_elem_of_In.
  - intros b Hb%list_elem_of_In. specialize (Ha b Hb). rewrite !andb_true_iff, !bool_decide_eq_true in Ha. by destruct Ha as [[]].
Qed.

Lemma hbm2_fresh : fresh_system hbm2_system.
Proof.
  destruct hbm2_system_inv as (Hi & Ho & Hk). split; [exact Hi|exact Ho|exact Hk| |done].
  intros a Ha. change (ds_channel hbm2_system a) with (GetChannel hbm2 a). unfold GetChannel.
  rewrite Z.shiftr_shiftr by done. change (ch_mask hbm2) with (Z.ones 3). rewrite Z.land_ones by done.
  rewrite Z.shiftr_div_pow2 by done. done.
Qed.

Lemma main_total_witness :
  ∃ w, main_run main_fuel hbm2_system = ok w ∧ tick_limit ≤ now w ∧ ∃ w', main main_fuel hbm2_system = ok w'.
Proof.
  destruct (main_total hbm2_system main_fuel hbm2_fresh) as (w & Hrun & Hn & _ & w' & Hm & _).
  - apply Nat.leb_le. vm_compute. reflexivity.
  - reflexivity.
  - exists w. split; [exact Hrun|]. split; [exact Hn|]. exists w'. exact Hm.
Defined.
